(* ===== verification/_CoqProject ===== *)
-Q . S2P
Prelude.v
Package.v
DiffPrint.v
Nevra.v
RpmHeaders.v
Transaction.v
Vardict.v
FileTree.v
FileTreeSpec.v
Deploy.v
Os.v
SysrootCore.v
Refspec.v
Origin.v
OriginFile.v
OriginApi.v
Upgrader.v
UpgraderSpec.v
DeployRun.v
DeployRunSpec.v
Transactions.v
TransactionsSpec.v
Core.v
CoreSpec.v
Importer.v
ImporterSpec.v
CoreImport.v
CoreImportSpec.v
CoreFiles.v
CoreFilesSpec.v
Kernel.v
KernelSpec.v
Scripts.v
ScriptsSpec.v
CoreAssemble.v
CoreAssembleSpec.v
CoreCommit.v
CoreCommitSpec.v
Client.v
ClientCommands.v
ClientSpec.v
DaemonMain.v
DaemonMainSpec.v
