(* ===== verification/Prelude.v ===== *)
(** * A verification of rpm-ostree

    rpm-ostree manages image based systems: a daemon changes the deployments of an
    OSTree sysroot in transactions, at most one at a time, on behalf of clients on the
    system bus. A deployment is a base commit, on which packages are layered and overridden
    as its origin file says; the packages are solved for with libdnf, imported into a cache
    of OSTree commits, and assembled into a root file system that is committed and deployed.
    This development models the parts that decide something and proves what they promise.
    The paths below are relative to the repository.

    ** Files

    The foundations:

    - [Prelude]: outcomes of C functions ([Ok], [Err] for a GError, [Abort] for a failed
      assertion or any other death of the process), and [prog E S A], a computation that has
      effects of type [E], changes a state of type [S] and ends with an outcome. [wp],
      [triple] and [keeps] are its logic; [total] says that no assertion fails; [phased] that
      the effects come in phases, [emits] which of them there are; [zoom] and [on_events] run
      a component inside a larger one. Also three-way comparison functions as a class
      [CmpOrder], [g_ptr_array_sort], strings.

    Package lists and names:

    - [Package] ([src/lib/rpmostree-package.c], [src/lib/rpmostree-db.c],
      [src/daemon/rpmostree-package-variants.cxx]): comparing packages, the diff of two
      package lists as the merge loop of the code, the query and diff API with its
      errors, the D-Bus form of a diff. Theorems: the diff loses and invents nothing, is
      exact on lists with one package of a name and architecture, sorted by these, is
      symmetric, and where its input is not in the order it needs.
    - [DiffPrint] ([src/libpriv/rpmostree-util.cxx]): printing a diff, as a merge of
      three lists that is polymorphic in what is printed. Theorems: every entry is printed
      once, in order, and the summary counts.
    - [Nevra] ([src/libpriv/rpmostree-rpm-util.cxx], [rust/src/rpmutils.rs]): NEVRA
      strings, the quoting of cache branches and its Rust inverse, checksum-prefixed
      NEVRAs. Theorems: injectivity, up to an explicit zero epoch, and round trips.
    - [RpmHeaders] ([src/libpriv/rpmostree-rpm-util.cxx]): lists of RPM headers, patterns,
      their diff and the two output formats with changelogs.

    The daemon:

    - [Transaction] ([src/daemon/rpmostreed-transaction.cxx],
      [src/daemon/rpmostreed-sysroot.cxx]): the life of a transaction. The state [Daemon]
      holds the live objects with their reference holders, the sysroot's lock and what was
      sent; each callback and D-Bus handler is a function on it, [handle] dispatches the
      events of the main loop and [enabled] says when GLib can deliver them. Theorems: the
      code refines an abstract machine with one transaction that waits, runs or is
      done ([abs_step]), no assertion fails, Start and Finished happen once, transactions are
      executed one after the other, and each one ends when its client or its task does.
    - [Vardict]: the D-Bus dictionaries and the lookups in them.
    - [Deploy] ([src/daemon/rpmostreed-transaction-types.cxx]): the deploy transaction from
      its options, modifiers and descriptors to a validated plan, that is
      [deploy_transaction_execute] up to the creation of the upgrader.
    - [Os] ([src/daemon/rpmostreed-os.cxx], [src/daemon/rpmostreed-sysroot.cxx]): the
      polkit actions of every method and the request every method turns into. Theorems:
      who is let through, that an authorized UpdateDeployment call was approved for each part
      of its plan but for three, and that the authorization does not see these three.
    - [SysrootCore] ([src/daemon/rpmostree-sysroot-core.cxx], the rollback and cleanup
      transactions, [rust/src/daemon.rs]): which deployments are kept, the refs of base
      layers and the garbage collection of the package cache. Theorem: what every ref is
      after the regeneration of refs.
    - [Refspec] ([src/daemon/rpmostreed-utils.cxx], [rust/src/daemon.rs],
      [rust/src/core.rs]): completing refspecs, rebasing, revisions, and the walk through
      the history of a branch in batches that double. Theorems: the batches are
      invisible and the search ends.

    Origins, upgrades and transactions:

    - [Origin], [OriginFile], [OriginApi] ([rust/src/treefile.rs], [rust/src/origin.rs],
      [src/libpriv/rpmostree-origin.cxx]): the treefile of an origin with its operations, its
      file format in both directions and the C++ interface. Theorems: what each operation
      does to the requests and overrides, which replacement of a package counts, that the file
      format loses nothing, that a copy is faithful.
    - [Upgrader], [UpgraderSpec] ([src/daemon/rpmostree-sysroot-upgrader.cxx]): the state
      [Upgrader] is the object; pulling the base, finding out what to layer, assembling and
      deploying. Theorems: no assertion fails if the calls come in the order the transactions
      keep to and names have no separators of the origin file in them, older commits are
      refused, what is layered on which base and what is deployed.
    - [DeployRun], [DeployRunSpec] ([src/daemon/rpmostreed-transaction-types.cxx]): the rest
      of the deploy transaction, from the plan of [Deploy] to the new deployment. Theorems:
      a dry run leaves the deployments alone, nothing is activated before it exists, and the
      origin of a new deployment has the packages the request asked for.
    - [Transactions], [TransactionsSpec] ([src/daemon/rpmostreed-transaction-types.cxx],
      [src/daemon/rpmostreed-transaction-applylive.cxx]): the other transactions. Theorems:
      which kernel arguments are deployed and when, what is finalized, that queries are
      harmless.

    The package core:

    - [Core], [CoreSpec] ([src/libpriv/rpmostree-core.cxx], [rust/src/lockfile.rs]):
      [rpmostree_context_prepare] with the package cache, lockfiles, the job for the solver
      and the check of its solution. Theorems: what the solver is asked for and which of its
      answers are accepted.
    - [Importer], [ImporterSpec] ([src/libpriv/rpmostree-importer.cxx],
      [rust/src/importer.rs], [rust/src/tmpfiles.rs], [rust/src/utils.rs]): the import of one
      package. Theorems: what is in its commit, and that it is found again.
    - [CoreImport], [CoreImportSpec] ([src/libpriv/rpmostree-core.cxx]): downloads, and the
      import and the relabelling of many packages at a time; the scheduler is a parameter.
      Theorems: no wait is in vain, the number of tasks is bounded, each package is handled
      once.
    - [FileTree], [FileTreeSpec]: a root file system as a map of paths, with the system calls
      that are used on it.
    - [CoreFiles], [CoreFilesSpec] ([src/libpriv/rpmostree-core.cxx]): which files of packages
      are not added or not deleted, the deletion of packages, owners and modes.
    - [Kernel], [KernelSpec] ([src/libpriv/rpmostree-kernel.cxx], [rust/src/core.rs]):
      finding, removing and placing kernels. Theorems: after a removal none is found, what is
      placed is found.
    - [Scripts], [ScriptsSpec] ([src/libpriv/rpmostree-scripts.cxx], [rust/src/scripts.rs]):
      which scripts run and with which text, and the files of a trigger.
    - [CoreAssemble], [CoreAssembleSpec] ([src/libpriv/rpmostree-core.cxx]):
      [rpmostree_context_assemble]. Theorems: the order of the work in every outcome, what is
      put into the root, from which commits, and recorded, what removals delete.
    - [CoreCommit], [CoreCommitSpec] ([src/libpriv/rpmostree-core.cxx],
      [src/libpriv/rpmostree-util.cxx]): the state digest, the commit of the root, and what is
      read back of a layered deployment, by the keys and types of the metadata. Theorem: that
      is what the layer was made of.

    The main loop and the client:

    - [DaemonMain], [DaemonMainSpec] ([src/daemon/rpmostreed-daemon.cxx],
      [src/daemon/rpmostreed-sysroot.cxx], [src/app/rpmostree-builtin-start-daemon.cxx]): the
      daemon object with its configuration, its registered clients and its timer; the events
      of the main loop are dispatched by [dispatch_main] on the state [Main]. The state
      [SysrootObject] is what the sysroot publishes. Theorems: the timer ends the daemon
      exactly while it is idle, and what a reload publishes.
    - [Client] ([src/app/rpmostree-clientlib.cxx], [src/app/rpmostree-libbuiltin.cxx],
      [src/libpriv/rpmostree-output.cxx], [rust/src/console_progress.rs],
      [rust/src/client.rs]): connecting, the console, following a transaction, and the
      arguments of UpdateDeployment. [ClientState] is the state of the process.
    - [ClientCommands] ([src/app/libmain.cxx] and the [rpmostree-*builtin*.cxx] files beside
      it): the commands that start transactions, from their options to the calls they make.
    - [ClientSpec]. Theorems: what the daemon plans is what the command line asked for, no
      call of a command fails an assertion of the daemon, the outcome of a transaction is
      reported with no progress left on the console, and a live change is confirmed.

    A command of [ClientCommands] calls the daemon, whose handlers are in [Os]. Requests flow
    from [Os] to [Transaction] (joining or creating a transaction) and to
    [Deploy], [DeployRun], [SysrootCore] and [Transactions] (what it does). These change an
    [Origin] through [OriginApi] and drive an [Upgrader], whose layering is what [Core],
    [CoreImport], [CoreAssemble] and [CoreCommit] do in turn; an upgrade takes their results
    as the record [UpgraderOps].

    ** Parameters

    libostree, librpm, libdnf, GLib's D-Bus, polkit, logind and other programs are
    arguments of the definitions that use them: single functions such as [rpmverCmp],
    [hy_split_nevra], [check_authorization] and [load_commit], or records of the calls of a
    component ([UpgraderOps], [AssembleOps], [CommitOps], [FsOps] for what the kernel does
    beyond the map of paths). What a theorem needs of them is a hypothesis or a class of laws
    ([CmpOrder], [KeyFileSyntax], [FsLaws], [OrderLaws], [CommitLaws], [pulls_history]),
    and each such theorem has a witness with concrete functions. Operations that can fail are
    given by their results, so a theorem covers every combination of errors it does not
    exclude.

    ** Fuel

    Loops that are not structural have fuel. [diff_print_loop] consumes an element per
    step, so the number of elements is enough; [prnt_diff_loop] likewise; [hex_go] prints
    at most eight digits of a 32 bit number and [octal_go] the digits of a mode;
    [ancestry_passes] and [cached_walk] return [None] without fuel, and the theorems give a
    result for every fuel above the length of the history. [start_imports] and [wait_for]
    consume a task per step; that they end is [import_bounded]. [write_subdir] goes down the
    directories of a root, whose number of paths bounds their depth. The main loops of the
    daemon and of the client are given by the events they dispatch.

    ** Integers

    Flags are numbers in [Z] with bit operations. The percentage of the progress output
    is computed on 64 bit values, the timeout of an idle daemon on 32 bit values. The depth of
    the history walk is not wrapped: the code's [int] would overflow after 28 doublings.

    ** Not modelled

    The set-up of a package context from the treefile, dracut, GPG keys, rpmdb checkouts and
    advisories are calls into libdnf, librpm and other programs in sequence. Version
    increments, binary search of variants and relative times are left out. So are the query
    methods of the OS interface and the descriptions of deployments, which build D-Bus
    variants; the export of D-Bus objects; composes and post-processing
    ([src/app/rpmostree-compose-builtin-tree.cxx], [src/libpriv/rpmostree-postprocess.cxx] and
    the Rust code they call). Of the client, the syntax of options, which is GLib's, and what
    only prints (status, signatures, advisories, cached updates) are left out. Cancellation
    is modelled in the client only, and progress output where the client follows it. *)

From stdpp Require Export base list strings pretty gmap sorting.
From Stdlib Require Export Ascii ZArith Lia.

(** * Outcomes of C functions *)

(** The error codes the modelled code raises: [G_IO_ERROR_FAILED] is what
    [glnx_throw] uses; the others are raised with [g_set_error]. *)
Inductive errcode :=
  | G_IO_ERROR_FAILED
  | G_IO_ERROR_NOT_FOUND
  | G_IO_ERROR_BUSY
  | G_IO_ERROR_CANCELLED
  | G_IO_ERROR_INVALID_ARGUMENT
  | G_IO_ERROR_DBUS_ERROR
  | RPM_OSTREED_ERROR_INVALID_REFSPEC.

#[global] Instance errcode_eq_dec : EqDecision errcode.
Proof. solve_decision. Defined.

Record gerror := GError { err_code : errcode; err_msg : string }.

(** A fallible C function returns a value, sets a [GError], or aborts the
    process (a failed [g_assert], a NULL dereference). *)
Inductive outcome (A : Type) :=
  | Ok (a : A)
  | Err (e : gerror)
  | Abort.
Arguments Ok {A} _.
Arguments Err {A} _.
Arguments Abort {A}.

#[global] Instance outcome_ret : MRet outcome := λ A, Ok.
#[global] Instance outcome_bind : MBind outcome := λ A B f m,
  match m with
  | Ok a => f a
  | Err e => Err e
  | Abort => Abort
  end.

(** What a library call gives: libraries report failure with an error and do not end the
    process. *)
Inductive result (A : Type) :=
  | Done (a : A)
  | Failed (e : gerror).
Arguments Done {A} _.
Arguments Failed {A} _.
Definition returned {A} (r : result A) : outcome A :=
  match r with Done a => Ok a | Failed e => Err e end.

Lemma returned_ok {A} (r : result A) a : returned r = Ok a ↔ r = Done a.
Proof. destruct r; naive_solver. Qed.

Lemma returned_no_abort {A} (r : result A) : returned r ≠ Abort.
Proof. by destruct r. Qed.

Definition glnx_throw {A} (msg : string) : outcome A :=
  Err (GError G_IO_ERROR_FAILED msg).

Definition g_set_error {A} (c : errcode) (msg : string) : outcome A :=
  Err (GError c msg).

Definition g_assert (b : bool) : outcome unit := if b then Ok tt else Abort.

(** [glnx_prefix_error] and [GLNX_AUTO_PREFIX_ERROR]: on failure the message
    gets "prefix: " in front of it, the code is kept. *)
Definition prefix_error {A} (prefix : string) (m : outcome A) : outcome A :=
  match m with
  | Err e => Err (GError (err_code e) (prefix +:+ ": " +:+ err_msg e))
  | _ => m
  end.

Definition is_ok {A} (m : outcome A) : bool :=
  match m with Ok _ => true | _ => false end.

(** The value of a call that succeeds, for evaluating on concrete inputs. *)
Definition from_ok {A} (d : A) (m : outcome A) : A := match m with Ok a => a | _ => d end.
Lemma from_ok_eq {A} (d : A) m : is_ok m = true → m = Ok (from_ok d m).
Proof. by destruct m. Qed.

Lemma bind_ok {A B} (m : outcome A) (f : A → outcome B) b :
  m ≫= f = Ok b ↔ ∃ a, m = Ok a ∧ f a = Ok b.
Proof. destruct m; simpl; split; [eauto|intros (?&[=]&?); by subst|..]; by try intros (?&?&?). Qed.

Lemma bind_returns {A B} (m : outcome A) (f : A → outcome B) :
  m ≠ Abort → (∀ a, m = Ok a → f a ≠ Abort) → m ≫= f ≠ Abort.
Proof. destruct m; simpl; auto. Qed.

Lemma prefix_error_ok {A} p (m : outcome A) a : prefix_error p m = Ok a ↔ m = Ok a.
Proof. by destruct m. Qed.

Lemma prefix_error_returns {A} p (m : outcome A) : m ≠ Abort → prefix_error p m ≠ Abort.
Proof. by destruct m. Qed.

Lemma and_iff_r (P Q R : Prop) : (P → Q ↔ R) → P ∧ Q ↔ P ∧ R.
Proof. tauto. Qed.

(** * Stateful code *)

(** A C function that works on a state [S]: the effects it completed, in order, and its
    outcome. After an error the state is dropped by the callers. *)
Definition prog (E S A : Type) : Type := S → list E * outcome (A * S).

#[global] Instance prog_ret {E S} : MRet (prog E S) := λ A a s, ([], Ok (a, s)).
#[global] Instance prog_bind {E S} : MBind (prog E S) := λ A B f m s,
  match m s with
  | (tr, Ok (a, s')) => let '(tr', r) := f a s' in (tr ++ tr', r)
  | (tr, Err e) => (tr, Err e)
  | (tr, Abort) => (tr, Abort)
  end.

(** A call without effects; a call whose success is the effect [e]. *)
Definition lift {E S A} (m : outcome A) : prog E S A := λ s,
  ([], match m with Ok a => Ok (a, s) | Err e => Err e | Abort => Abort end).
Definition perform {E S A} (e : E) (m : outcome A) : prog E S A := λ s,
  match m with Ok a => ([e], Ok (a, s)) | Err e => ([], Err e) | Abort => ([], Abort) end.
Definition call {E S A} (r : result A) : prog E S A := lift (returned r).
Definition performs {E S A} (e : E) (r : result A) : prog E S A := perform e (returned r).
Definition get_self {E S} : prog E S S := λ s, ([], Ok (s, s)).
Definition modify {E S} (f : S → S) : prog E S unit := λ s, ([], Ok (tt, f s)).
Definition on_error {E S A} (prefix : string) (m : prog E S A) : prog E S A := λ s,
  let '(tr, r) := m s in (tr, prefix_error prefix r).
Definition when {E S} (b : bool) (m : prog E S unit) : prog E S unit := if b then m else mret tt.

Lemma prog_bind_inv {E S A B} (m : prog E S A) (f : A → prog E S B) s tr b s' :
  (m ≫= f) s = (tr, Ok (b, s')) ↔
  ∃ a s1 tr1 tr2, m s = (tr1, Ok (a, s1)) ∧ f a s1 = (tr2, Ok (b, s')) ∧ tr = tr1 ++ tr2.
Proof.
  unfold mbind, prog_bind. destruct (m s) as [tr1 [[a s1]|e|]] eqn:Em; split.
  - destruct (f a s1) as [tr2 r] eqn:Ef. intros [= <- ->]. by exists a, s1, tr1, tr2.
  - intros (a' & s1' & t1 & t2 & [= <- <- <-] & Ef & ->). by rewrite Ef.
  - done.
  - by intros (? & ? & ? & ? & ? & ? & ?).
  - done.
  - by intros (? & ? & ? & ? & ? & ? & ?).
Qed.

Lemma lift_ok_bind {E S A B} (a : A) (f : A → prog E S B) s : (lift (Ok a) ≫= f) s = f a s.
Proof. unfold mbind, prog_bind, lift. by destruct (f a s). Qed.

Lemma prog_result {E S A} (d r : A * S) (p : list E * outcome (A * S)) :
  r = from_ok d p.2 → is_ok p.2 = true → p = (p.1, Ok (r.1, r.2)).
Proof. intros ->. by destruct p as [? [[]| |]]. Qed.

Lemma lift_inv {E S A} (m : outcome A) (s : S) (tr : list E) a s' :
  lift m s = (tr, Ok (a, s')) ↔ m = Ok a ∧ tr = [] ∧ s' = s.
Proof. unfold lift. destruct m; naive_solver. Qed.

Lemma perform_inv {E S A} (e : E) (m : outcome A) (s : S) (tr : list E) a s' :
  perform e m s = (tr, Ok (a, s')) ↔ m = Ok a ∧ tr = [e] ∧ s' = s.
Proof. unfold perform. destruct m; naive_solver. Qed.

Lemma on_error_inv {E S A} p (m : prog E S A) s tr a s' :
  on_error p m s = (tr, Ok (a, s')) ↔ m s = (tr, Ok (a, s')).
Proof. unfold on_error. destruct (m s) as [? []]; simpl; naive_solver. Qed.

(** The program does not abort, and [Q] holds of its effects, value and state when it
    succeeds. *)
Definition wp {E S A} (m : prog E S A) (Q : list E → A → S → Prop) (s : S) : Prop :=
  match m s with
  | (tr, Ok (a, s')) => Q tr a s'
  | (_, Err _) => True
  | (_, Abort) => False
  end.

Section wp.
Context {E S : Type}.

Lemma wp_mono {A} (m : prog E S A) (Q R : list E → A → S → Prop) s :
  wp m Q s → (∀ tr a s', Q tr a s' → R tr a s') → wp m R s.
Proof. unfold wp. destruct (m s) as [? [[]| |]]; auto. Qed.

Lemma wp_bind {A B} (m : prog E S A) (f : A → prog E S B) Q s :
  wp m (λ tr a s1, wp (f a) (λ tr' b s2, Q (tr ++ tr') b s2) s1) s → wp (m ≫= f) Q s.
Proof.
  unfold wp, mbind, prog_bind. destruct (m s) as [tr [[a s1]| |]]; [|done..].
  by destruct (f a s1) as [tr' [[b s2]| |]].
Qed.

Lemma wp_bind_inv {A B} (m : prog E S A) (f : A → prog E S B) Q s :
  wp (m ≫= f) Q s → wp m (λ tr a s1, wp (f a) (λ tr' b s2, Q (tr ++ tr') b s2) s1) s.
Proof.
  unfold wp, mbind, prog_bind. destruct (m s) as [tr [[a s1]| |]]; [|done..].
  by destruct (f a s1) as [tr' [[b s2]| |]].
Qed.

Lemma wp_ret {A} (a : A) (Q : list E → A → S → Prop) s : Q [] a s → wp (mret a) Q s.
Proof. done. Qed.

Lemma wp_lift {A} (m : outcome A) (Q : list E → A → S → Prop) s :
  m ≠ Abort → (∀ a, m = Ok a → Q [] a s) → wp (lift m) Q s.
Proof. unfold wp, lift. destruct m; auto. Qed.

Lemma wp_perform {A} e (m : outcome A) (Q : list E → A → S → Prop) s :
  m ≠ Abort → (∀ a, m = Ok a → Q [e] a s) → wp (perform e m) Q s.
Proof. unfold wp, perform. destruct m; auto. Qed.

Lemma wp_call {A} (r : result A) (Q : list E → A → S → Prop) s :
  (∀ a, r = Done a → Q [] a s) → wp (call r) Q s.
Proof. intros Hr. apply wp_lift; [apply returned_no_abort|]. destruct r; naive_solver. Qed.

Lemma wp_performs {A} e (r : result A) (Q : list E → A → S → Prop) s :
  (∀ a, r = Done a → Q [e] a s) → wp (performs e r) Q s.
Proof. intros Hr. apply wp_perform; [apply returned_no_abort|]. destruct r; naive_solver. Qed.

Lemma wp_get (Q : list E → S → S → Prop) s : Q [] s s → wp get_self Q s.
Proof. done. Qed.

Lemma wp_modify f (Q : list E → unit → S → Prop) s : Q [] tt (f s) → wp (modify f) Q s.
Proof. done. Qed.

Lemma wp_on_error {A} p (m : prog E S A) Q s : wp m Q s → wp (on_error p m) Q s.
Proof. unfold wp, on_error. by destruct (m s) as [? [[]| |]]. Qed.

Lemma wp_when b (m : prog E S unit) Q s :
  (b = true → wp m Q s) → (b = false → Q [] tt s) → wp (when b m) Q s.
Proof. destruct b; simpl; intros H1 H2; [by apply H1|by apply wp_ret, H2]. Qed.

Lemma wp_if {A} (b : bool) (m n : prog E S A) Q s :
  (b = true → wp m Q s) → (b = false → wp n Q s) → wp (if b then m else n) Q s.
Proof. destruct b; auto. Qed.

Lemma wp_run {A} (m : prog E S A) Q s tr a s' : wp m Q s → m s = (tr, Ok (a, s')) → Q tr a s'.
Proof. unfold wp. intros Hm E'. by rewrite E' in Hm. Qed.

Lemma wp_no_abort {A} (m : prog E S A) Q s tr : wp m Q s → m s ≠ (tr, Abort).
Proof. unfold wp. intros Hm E'. by rewrite E' in Hm. Qed.
End wp.

(** Whatever the outcome, the program started in a state with [I] has only effects with
    [P]; when it succeeds, [Q] holds of its value and state. *)
Definition triple {E S A} (I : S → Prop) (m : prog E S A) (P : E → Prop) (Q : A → S → Prop) : Prop :=
  ∀ s, I s → Forall P (m s).1 ∧ ∀ a s', (m s).2 = Ok (a, s') → Q a s'.
(** The state keeps [I]. *)
Definition keeps {E S A} (P : E → Prop) (I : S → Prop) (m : prog E S A) : Prop :=
  triple I m P (λ _, I).

Section triple.
Context {E S : Type} (P : E → Prop).

Lemma triple_bind {A B} (I : S → Prop) (R : A → S → Prop) Q (m : prog E S A) (f : A → prog E S B) :
  triple I m P R → (∀ a, triple (R a) (f a) P Q) → triple I (m ≫= f) P Q.
Proof.
  intros Hm Hf s Hs. destruct (Hm s Hs) as [Htr Hok]. unfold mbind, prog_bind.
  destruct (m s) as [tr [[a s1]| |]]; [|done..]. simpl in *.
  destruct (Hf a s1 (Hok a s1 eq_refl)) as [Htr' Hok']. destruct (f a s1) as [tr' r]. simpl in *.
  split; [by apply Forall_app|done].
Qed.

Lemma triple_conseq {A} (I J : S → Prop) (Q R : A → S → Prop) (P' : E → Prop) (m : prog E S A) :
  triple J m P' R → (∀ s, I s → J s) → (∀ e, P' e → P e) → (∀ a s, R a s → Q a s) → triple I m P Q.
Proof. intros Hm HI HP HQ s Hs. destruct (Hm s (HI s Hs)). split; [by eapply Forall_impl|eauto]. Qed.

Lemma triple_ret {A} (I : S → Prop) (Q : A → S → Prop) (a : A) :
  (∀ s, I s → Q a s) → triple I (mret a : prog E S A) P Q.
Proof. intros HQ s Hs. split; [constructor|]. intros ? ? [= <- <-]. auto. Qed.

Lemma triple_lift {A} (I : S → Prop) (Q : A → S → Prop) (m : outcome A) :
  (∀ a s, m = Ok a → I s → Q a s) → triple I (lift m : prog E S A) P Q.
Proof. intros HQ s Hs. split; [constructor|]. destruct m; naive_solver. Qed.

Lemma triple_bind_lift {A B} (I : S → Prop) Q (m : outcome A) (f : A → prog E S B) :
  (∀ a, m = Ok a → triple I (f a) P Q) → triple I (lift m ≫= f) P Q.
Proof.
  intros Hf. apply (triple_bind _ (λ a s, m = Ok a ∧ I s)); [by apply triple_lift|].
  intros a s [Ha Hs]. by apply Hf.
Qed.

Lemma triple_modify (I : S → Prop) (Q : unit → S → Prop) f :
  (∀ s, I s → Q tt (f s)) → triple I (modify f : prog E S unit) P Q.
Proof. intros HQ s Hs. split; [constructor|]. intros ? ? [= <- <-]. auto. Qed.

Lemma triple_fact {A} (φ : Prop) Q (m : prog E S A) :
  (φ → triple (λ _, True) m P Q) → triple (λ _, φ) m P Q.
Proof. intros Hm s Hφ. by apply Hm. Qed.

Lemma triple_exists {A B} (I : B → S → Prop) Q (m : prog E S A) :
  (∀ b, triple (I b) m P Q) → triple (λ s, ∃ b, I b s) m P Q.
Proof. intros Hm s [b Hs]. by apply (Hm b). Qed.

Lemma triple_and_fact {A} (φ : Prop) (I : S → Prop) Q (m : prog E S A) :
  (φ → triple I m P Q) → triple (λ s, φ ∧ I s) m P Q.
Proof. intros Hm s [Hφ Hs]. by apply Hm. Qed.

Lemma triple_if {A} (I : S → Prop) Q (b : bool) (m n : prog E S A) :
  (b = true → triple I m P Q) → (b = false → triple I n P Q) → triple I (if b then m else n) P Q.
Proof. destruct b; auto. Qed.

Lemma triple_perform {A} (I : S → Prop) (Q : A → S → Prop) e (m : outcome A) :
  P e → (∀ a s, m = Ok a → I s → Q a s) → triple I (perform e m : prog E S A) P Q.
Proof. intros He HQ s Hs. unfold perform. destruct m; simpl; split; naive_solver. Qed.

Lemma triple_call {A} (I : S → Prop) (Q : A → S → Prop) (r : result A) :
  (∀ a s, r = Done a → I s → Q a s) → triple I (call r : prog E S A) P Q.
Proof. intros HQ. apply triple_lift. intros a s Ha%returned_ok. auto. Qed.

Lemma triple_bind_get {B} (I : S → Prop) Q (f : S → prog E S B) :
  (∀ s, I s → triple (λ s', s' = s) (f s) P Q) → triple I (get_self ≫= f) P Q.
Proof.
  intros Hf s Hs. destruct (Hf s Hs s eq_refl) as [Htr Hok]. unfold mbind, prog_bind, get_self.
  by destruct (f s s).
Qed.

Lemma triple_on_error {A} (I : S → Prop) Q p (m : prog E S A) : triple I m P Q → triple I (on_error p m) P Q.
Proof.
  intros Hm s Hs. destruct (Hm s Hs) as [Htr Hok]. unfold on_error. destruct (m s) as [tr r]. simpl in *.
  split; [done|]. intros a s' Hr%prefix_error_ok. auto.
Qed.

Lemma triple_conj {A} (I : S → Prop) (Q R : A → S → Prop) (m : prog E S A) :
  triple I m P Q → triple I m P R → triple I m P (λ a s, Q a s ∧ R a s).
Proof. intros H1 H2 s Hs. destruct (H1 s Hs), (H2 s Hs). split; [done|]. intros a s' Hr. auto. Qed.

Lemma triple_frame {A} (I R : S → Prop) Q (m : prog E S A) :
  triple I m P Q → triple R m P (λ _, R) → triple (λ s, I s ∧ R s) m P (λ a s, Q a s ∧ R s).
Proof.
  intros H1 H2 s [HI HR]. destruct (H1 s HI), (H2 s HR). split; [done|]. intros a s' Hr. eauto.
Qed.

Lemma triple_run {A} (I : S → Prop) Q (m : prog E S A) s tr a s' :
  triple I m P Q → I s → m s = (tr, Ok (a, s')) → Q a s'.
Proof. intros Hm Hs E'. destruct (Hm s Hs) as [_ Hok]. apply Hok. by rewrite E'. Qed.
End triple.

(** A call whose error is looked at by the caller. The callee does not change the state
    before it fails. *)
Definition attempt {E S A} (m : prog E S A) : prog E S (result A) := λ s,
  match m s with
  | (tr, Ok (a, s')) => (tr, Ok (Done a, s'))
  | (tr, Err e) => (tr, Ok (Failed e, s))
  | (tr, Abort) => (tr, Abort)
  end.

(** A guard that is undone when the function returns, unless its body (which gives its value
    and whether the guard is still set) did. *)
Definition with_cleanup {E S A} (cleanup : E) (body : prog E S (A * bool)) : prog E S A := λ s,
  match body s with
  | (tr, Ok ((a, initialized), s')) => (tr ++ (if initialized : bool then [cleanup] else []), Ok (a, s'))
  | (tr, Err e) => (tr ++ [cleanup], Err e)
  | (tr, Abort) => (tr, Abort)
  end.

(** A program of a part, with its effects among those of the whole, on a part of the state. *)
Definition on_events {E E' S A} (f : E → E') (m : prog E S A) : prog E' S A := λ s,
  let '(tr, r) := m s in (f <$> tr, r).
Definition zoom {E S T A} (get : T → S) (put : S → T → T) (m : prog E S A) : prog E T A := λ t,
  match m (get t) with
  | (tr, Ok (a, s)) => (tr, Ok (a, put s t))
  | (tr, Err e) => (tr, Err e)
  | (tr, Abort) => (tr, Abort)
  end.

Lemma triple_on_events {E E' S A} (f : E → E') (P : E' → Prop) I Q (m : prog E S A) :
  triple I m (λ e, P (f e)) Q → triple I (on_events f m) P Q.
Proof.
  intros Hm s Hs. destruct (Hm s Hs) as [Htr Hok]. unfold on_events. destruct (m s) as [tr r]. simpl in *.
  split; [by apply Forall_fmap|done].
Qed.
Lemma triple_zoom {E S T A} (get : T → S) (put : S → T → T) (P : E → Prop) (I : T → Prop) (J : S → Prop)
    (Q : A → S → Prop) (R : A → T → Prop) (m : prog E S A) :
  triple J m P Q → (∀ t, I t → J (get t)) → (∀ t a s, I t → Q a s → R a (put s t)) →
  triple I (zoom get put m) P R.
Proof.
  intros Hm HI HR t Ht. destruct (Hm (get t) (HI t Ht)) as [Htr Hok]. unfold zoom.
  destruct (m (get t)) as [tr [[a s]| |]]; simpl in *; split; try done. intros ? ? [= <- <-]. eauto.
Qed.
Lemma on_events_inv {E E' S A} (f : E → E') (m : prog E S A) s tr r :
  on_events f m s = (tr, r) ↔ ∃ tr', m s = (tr', r) ∧ tr = f <$> tr'.
Proof. unfold on_events. destruct (m s); naive_solver. Qed.
Lemma zoom_inv {E S T A} (get : T → S) (put : S → T → T) (m : prog E S A) t tr a t' :
  zoom get put m t = (tr, Ok (a, t')) ↔ ∃ s, m (get t) = (tr, Ok (a, s)) ∧ t' = put s t.
Proof. unfold zoom. destruct (m (get t)) as [? [[]| |]]; naive_solver. Qed.

(** [triple], and the program does not abort. *)
Definition total {E S A} (I : S → Prop) (m : prog E S A) (P : E → Prop) (Q : A → S → Prop) : Prop :=
  ∀ s, I s → (m s).2 ≠ Abort ∧ Forall P (m s).1 ∧ ∀ a s', (m s).2 = Ok (a, s') → Q a s'.

Section total.
Context {E S : Type} (P : E → Prop).

Lemma total_triple {A} (I : S → Prop) Q (m : prog E S A) : total I m P Q → triple I m P Q.
Proof. intros Hm s Hs. by destruct (Hm s Hs) as (_ & ? & ?). Qed.

Lemma total_bind {A B} (I : S → Prop) (R : A → S → Prop) Q (m : prog E S A) (f : A → prog E S B) :
  total I m P R → (∀ a, total (R a) (f a) P Q) → total I (m ≫= f) P Q.
Proof.
  intros Hm Hf s Hs. destruct (Hm s Hs) as (Hna & Htr & Hok). unfold mbind, prog_bind.
  destruct (m s) as [tr [[a s1]| |]]; [|done..]. simpl in *.
  destruct (Hf a s1 (Hok a s1 eq_refl)) as (Hna' & Htr' & Hok'). destruct (f a s1) as [tr' r]. simpl in *.
  split; [done|]. split; [by apply Forall_app|done].
Qed.

Lemma total_conseq {A} (I J : S → Prop) (Q R : A → S → Prop) (m : prog E S A) :
  total J m P R → (∀ s, I s → J s) → (∀ a s, R a s → Q a s) → total I m P Q.
Proof. intros Hm HI HQ s Hs. destruct (Hm s (HI s Hs)) as (? & ? & ?). eauto. Qed.

Lemma total_ret {A} (I : S → Prop) (Q : A → S → Prop) (a : A) :
  (∀ s, I s → Q a s) → total I (mret a : prog E S A) P Q.
Proof. intros HQ s Hs. split; [done|]. split; [constructor|]. intros ? ? [= <- <-]. auto. Qed.

Lemma total_lift {A} (I : S → Prop) (Q : A → S → Prop) (m : outcome A) :
  (∀ s, I s → m ≠ Abort) → (∀ a s, m = Ok a → I s → Q a s) → total I (lift m : prog E S A) P Q.
Proof. intros Hna HQ s Hs. specialize (Hna s Hs). destruct m; simpl; split_and!; naive_solver. Qed.

Lemma total_perform {A} (I : S → Prop) (Q : A → S → Prop) e (m : outcome A) :
  (∀ s, I s → m ≠ Abort) → (∀ a s, m = Ok a → I s → P e ∧ Q a s) → total I (perform e m : prog E S A) P Q.
Proof.
  intros Hna HQ s Hs. specialize (Hna s Hs). unfold perform. destruct m; simpl; split_and!; try done.
  - constructor; [|done]. by apply (HQ a s).
  - intros ? ? [= <- <-]. by apply HQ.
Qed.

Lemma total_call {A} (I : S → Prop) (Q : A → S → Prop) (r : result A) :
  (∀ a s, r = Done a → I s → Q a s) → total I (call r : prog E S A) P Q.
Proof. intros HQ. apply total_lift; [intros; apply returned_no_abort|]. intros a s Ha%returned_ok. auto. Qed.

Lemma total_performs {A} (I : S → Prop) (Q : A → S → Prop) e (r : result A) :
  (∀ a s, r = Done a → I s → P e ∧ Q a s) → total I (performs e r : prog E S A) P Q.
Proof. intros HQ. apply total_perform; [intros; apply returned_no_abort|]. intros a s Ha%returned_ok. auto. Qed.

Lemma total_bind_get {B} (I : S → Prop) Q (f : S → prog E S B) :
  (∀ s, I s → total (λ s', s' = s) (f s) P Q) → total I (get_self ≫= f) P Q.
Proof.
  intros Hf s Hs. destruct (Hf s Hs s eq_refl) as (? & ? & ?). unfold mbind, prog_bind, get_self.
  by destruct (f s s).
Qed.

Lemma total_modify (I : S → Prop) (Q : unit → S → Prop) f :
  (∀ s, I s → Q tt (f s)) → total I (modify f : prog E S unit) P Q.
Proof. intros HQ s Hs. split; [done|]. split; [constructor|]. intros ? ? [= <- <-]. auto. Qed.

Lemma total_when (I : S → Prop) (Q : unit → S → Prop) b (m : prog E S unit) :
  (b = true → total I m P Q) → (b = false → ∀ s, I s → Q tt s) → total I (when b m) P Q.
Proof. destruct b; intros Hm HQ; [by apply Hm|]. apply total_ret. auto. Qed.

Lemma total_on_error {A} (I : S → Prop) Q p (m : prog E S A) : total I m P Q → total I (on_error p m) P Q.
Proof.
  intros Hm s Hs. destruct (Hm s Hs) as (? & ? & ?). unfold on_error.
  destruct (m s) as [tr []]; simpl in *; split_and!; naive_solver.
Qed.

Lemma total_attempt {A} (I : S → Prop) (Q : A → S → Prop) (m : prog E S A) :
  total I m P Q → total I (attempt m) P (λ r s, match r with Done a => Q a s | Failed _ => I s end).
Proof.
  intros Hm s Hs. destruct (Hm s Hs) as (? & ? & Hok). unfold attempt.
  destruct (m s) as [tr [[a s']| |]]; simpl in *; split_and!; try done.
  - intros ? ? [= <- <-]. by apply Hok.
  - by intros ? ? [= <- <-].
Qed.
End total.

Section keeps.
Context {E S : Type} (P : E → Prop) (I : S → Prop).

Lemma keeps_bind {A B} (m : prog E S A) (f : A → prog E S B) :
  keeps P I m → (∀ a, keeps P I (f a)) → keeps P I (m ≫= f).
Proof. apply triple_bind. Qed.

(** The value of a call without effects is known. *)
Lemma keeps_bind_lift {A B} (m : outcome A) (f : A → prog E S B) :
  (∀ a, m = Ok a → keeps P I (f a)) → keeps P I (lift m ≫= f).
Proof. apply triple_bind_lift. Qed.

Lemma keeps_bind_get {B} (f : S → prog E S B) :
  (∀ s, I s → keeps P I (f s)) → keeps P I (get_self ≫= f).
Proof.
  intros Hf s Hs. specialize (Hf s Hs s Hs). unfold mbind, prog_bind, get_self.
  by destruct (f s s).
Qed.

(** The state read is the state. *)
Lemma keeps_bind_get_state {B} (f : S → prog E S B) :
  (∀ s, I s → triple (λ s', s' = s) (f s) P (λ _, I)) → keeps P I (get_self ≫= f).
Proof.
  intros Hf s Hs. specialize (Hf s Hs s eq_refl). unfold mbind, prog_bind, get_self.
  by destruct (f s s).
Qed.

Lemma keeps_ret {A} (a : A) : keeps P I (mret a).
Proof. intros s Hs. split; [constructor|]. by intros ? ? [= <- <-]. Qed.

Lemma keeps_lift {A} (m : outcome A) : keeps P I (lift m).
Proof. intros s Hs. split; [constructor|]. destruct m; naive_solver. Qed.

Lemma keeps_perform {A} e (m : outcome A) : (∀ a, m = Ok a → P e) → keeps P I (perform e m).
Proof.
  intros He s Hs. unfold perform. destruct m; simpl; naive_solver.
Qed.

Lemma keeps_call {A} (r : result A) : keeps P I (call r).
Proof. apply keeps_lift. Qed.

Lemma keeps_performs {A} e (r : result A) : P e → keeps P I (performs e r).
Proof. intros He. by apply keeps_perform. Qed.

Lemma keeps_get : keeps P I get_self.
Proof. intros s Hs. split; [constructor|]. by intros ? ? [= <- <-]. Qed.

Lemma keeps_modify f : (∀ s, I s → I (f s)) → keeps P I (modify f).
Proof. intros Hf s Hs. split; [constructor|]. intros ? ? [= <- <-]. by apply Hf. Qed.

Lemma keeps_on_error {A} p (m : prog E S A) : keeps P I m → keeps P I (on_error p m).
Proof.
  intros Hm s Hs. specialize (Hm s Hs). unfold on_error. destruct (m s) as [tr []]; simpl in *;
    naive_solver.
Qed.

Lemma keeps_when b (m : prog E S unit) : (b = true → keeps P I m) → keeps P I (when b m).
Proof. destruct b; simpl; intros Hm; [by apply Hm|apply keeps_ret]. Qed.

Lemma keeps_if {A} (b : bool) (m n : prog E S A) :
  (b = true → keeps P I m) → (b = false → keeps P I n) → keeps P I (if b then m else n).
Proof. destruct b; auto. Qed.
End keeps.

Create HintDb keeps discriminated.

(** One step of a program whose effects are all allowed; [keeps_state] shows that an
    assignment to the state keeps the invariant. *)
Ltac keeps_state := done.
Ltac keeps_step :=
  lazymatch goal with
  | |- keeps _ _ (get_self ≫= _) => apply keeps_bind_get; intros ? ?
  | |- keeps _ _ (_ ≫= _) => apply keeps_bind; [|intros ?]
  | |- keeps _ _ (mret _) => apply keeps_ret
  | |- keeps _ _ (lift _) => apply keeps_lift
  | |- keeps _ _ (call _) => apply keeps_call
  | |- keeps _ _ (perform _ _) => apply keeps_perform; intros ? ?; simpl; solve [auto|by intros]
  | |- keeps _ _ (performs _ _) => apply keeps_performs; simpl; solve [auto|by intros]
  | |- keeps _ _ (modify _) => apply keeps_modify; intros ? ?; keeps_state
  | |- keeps _ _ (on_error _ _) => apply keeps_on_error
  | |- keeps _ _ (when _ _) => apply keeps_when; intros ?
  | |- keeps _ _ (match ?x with _ => _ end) =>
      lazymatch type of x with bool => apply keeps_if; intros ? | _ => destruct x end
  | |- keeps _ _ _ => solve [auto with keeps nocore]
  end; cbv beta iota zeta.
Ltac keeps_auto := repeat keeps_step.

(** [for (auto &a : l)] with a body that can fail. *)
Fixpoint for_each {E S A} (f : A → prog E S unit) (l : list A) : prog E S unit :=
  match l with [] => mret tt | a :: l => _ ← f a; for_each f l end.

Lemma keeps_for_each {E S A} (P : E → Prop) (I : S → Prop) (f : A → prog E S unit) l :
  (∀ a, a ∈ l → keeps P I (f a)) → keeps P I (for_each f l).
Proof.
  induction l as [|a l IH]; intros Hf; simpl; [apply keeps_ret|].
  apply keeps_bind; [apply Hf; left|]. intros []. apply IH. intros b Hb. apply Hf. by right.
Qed.

(** The loop establishes [Q a] for each element, if a body keeps what was established. *)
Lemma triple_for_each {E S A} (P : E → Prop) (I : S → Prop) (Q : A → S → Prop) (f : A → prog E S unit) l :
  (∀ a, a ∈ l → triple I (f a) P (λ _ s, I s ∧ Q a s)) →
  (∀ a b, a ∈ l → b ∈ l → triple (λ s, I s ∧ Q a s) (f b) P (λ _ s, Q a s)) →
  triple I (for_each f l) P (λ _ s, I s ∧ ∀ a, a ∈ l → Q a s).
Proof.
  intros Hf Hk. assert (∀ rest : list A, (∀ a, a ∈ rest → a ∈ l) → ∀ seen : list A, (∀ a, a ∈ seen → a ∈ l) →
    triple (λ s, I s ∧ ∀ a, a ∈ seen → Q a s) (for_each f rest) P
      (λ _ s, I s ∧ ∀ a, a ∈ seen ∨ a ∈ rest → Q a s)) as Hgen.
  { induction rest as [|b rest IH]; intros Hr seen Hd; simpl.
    { apply triple_ret. intros s [? ?]. split; [done|]. intros a [?|[]%elem_of_nil]; auto. }
    assert (b ∈ l) as Hb by (apply Hr; left).
    apply (triple_bind _ _ (λ _ s, I s ∧ ∀ a, a ∈ b :: seen → Q a s)).
    - intros s [HI HQ]. destruct (Hf b Hb s HI) as [Htr Hok]. split; [done|].
      intros [] s' E'. destruct (Hok _ _ E') as [HI' Hb']. split; [done|].
      intros a [->|Ha]%elem_of_cons; [done|].
      destruct (Hk a b (Hd a Ha) Hb s (conj HI (HQ a Ha))) as [_ Hk']. by eapply Hk'.
    - intros []. eapply triple_conseq; [apply (IH ltac:(intros a ?; apply Hr; by right) (b :: seen))|done|done|].
      + intros a [->|?]%elem_of_cons; auto.
      + intros [] s [? HQ]. split; [done|]. intros a Ha. apply HQ. rewrite elem_of_cons in *. naive_solver. }
  eapply triple_conseq; [apply (Hgen l ltac:(done) [])| |done|].
  - by intros a ?%elem_of_nil.
  - intros s Hs. split; [done|]. by intros a ?%elem_of_nil.
  - intros [] s [? HQ]. auto.
Qed.

Lemma keeps_effects {E S A} (P : E → Prop) (I : S → Prop) (m : prog E S A) s :
  I s → keeps P I m → Forall P (m s).1.
Proof. intros Hs Hm. by apply Hm. Qed.

Lemma keeps_mono {E S A} (P Q : E → Prop) (I : S → Prop) (m : prog E S A) :
  keeps P I m → (∀ e, P e → Q e) → keeps Q I m.
Proof. intros Hm HPQ. by eapply triple_conseq. Qed.

(** * Traces *)

(** The effects come in phases that do not decrease, from [lo] to [hi]: every effect is one
    that is allowed in its phase. *)
Definition in_phases {E} (allowed : nat → E → Prop) (lo hi : nat) (tr : list E) : Prop :=
  ∃ ns, StronglySorted le ns ∧ Forall (λ n, lo ≤ n ≤ hi) ns ∧ Forall2 allowed ns tr.
(** ... whatever the outcome of the program is. *)
Definition phased {E S A} (allowed : nat → E → Prop) (lo hi : nat) (m : prog E S A) : Prop :=
  ∀ s, in_phases allowed lo hi (m s).1.

(** When the program succeeds, what [K] sees of its effects is [l]. *)
Definition emits {E S A K} (see : E → option K) (m : prog E S A) (l : list K) : Prop :=
  ∀ s tr a s', m s = (tr, Ok (a, s')) → omap see tr = l.

Section phased.
Context {E S : Type} (allowed : nat → E → Prop).

Lemma sorted_app (l k : list nat) lo mid hi :
  StronglySorted le l → StronglySorted le k → Forall (λ n, lo ≤ n ≤ mid) l → Forall (λ n, mid ≤ n ≤ hi) k →
  StronglySorted le (l ++ k).
Proof.
  intros Hl Hk Fl Fk. induction Hl as [|x l Hl IH Hx]; [done|]. simpl. apply Forall_cons in Fl as [? Fl].
  constructor; [auto|]. apply Forall_app. split; [done|]. eapply Forall_impl; [exact Fk|]. simpl. lia.
Qed.

Lemma in_phases_weaken lo hi lo' hi' tr :
  in_phases allowed lo hi tr → lo' ≤ lo → hi ≤ hi' → in_phases allowed lo' hi' tr.
Proof.
  intros (ns & ? & Hf & ?) ? ?. exists ns. split_and!; [done| |done]. eapply Forall_impl; [exact Hf|]. simpl. lia.
Qed.
Lemma in_phases_app lo mid hi tr tr' : lo ≤ mid → mid ≤ hi →
  in_phases allowed lo mid tr → in_phases allowed mid hi tr' → in_phases allowed lo hi (tr ++ tr').
Proof.
  intros ? ? (ns & Hs & Hf & Ha) (ns' & Hs' & Hf' & Ha'). exists (ns ++ ns'). split_and!.
  - by eapply sorted_app.
  - apply Forall_app. split; eapply Forall_impl; [exact Hf|simpl; lia|exact Hf'|simpl; lia].
  - by apply Forall2_app.
Qed.
Lemma in_phases_one n tr : Forall (allowed n) tr → in_phases allowed n n tr.
Proof.
  intros Htr. exists (replicate (length tr) n). induction Htr as [|e tr He _ (IH1 & IH2 & IH3)]; simpl.
  { by repeat constructor. }
  split_and!; constructor; try done. eapply Forall_impl; [exact IH2|]. simpl. lia.
Qed.

(** Code that has only effects of one phase. *)
Lemma phased_keeps {A} n (m : prog E S A) : keeps (allowed n) (λ _, True) m → phased allowed n n m.
Proof. intros Hm s. apply in_phases_one. by destruct (Hm s I). Qed.
Lemma phased_weaken {A} lo hi lo' hi' (m : prog E S A) :
  phased allowed lo hi m → lo' ≤ lo → hi ≤ hi' → phased allowed lo' hi' m.
Proof. intros Hm ? ? s. by eapply in_phases_weaken. Qed.
Lemma phased_bind {A B} lo mid hi (m : prog E S A) (f : A → prog E S B) : lo ≤ mid → mid ≤ hi →
  phased allowed lo mid m → (∀ a, phased allowed mid hi (f a)) → phased allowed lo hi (m ≫= f).
Proof.
  intros ? ? Hm Hf s. specialize (Hm s). unfold mbind, prog_bind. destruct (m s) as [tr [[a s1]| |]]; simpl in *.
  2-3: by eapply in_phases_weaken.
  specialize (Hf a s1). destruct (f a s1) as [tr' r]. by eapply in_phases_app.
Qed.
Lemma phased_on_error {A} lo hi p (m : prog E S A) : phased allowed lo hi m → phased allowed lo hi (on_error p m).
Proof. intros Hm s. specialize (Hm s). unfold on_error. by destruct (m s). Qed.
Lemma phased_with_cleanup {A} lo hi e (body : prog E S (A * bool)) : lo ≤ hi → allowed hi e →
  phased allowed lo hi body → phased allowed lo hi (with_cleanup e body).
Proof.
  intros ? He Hm s. specialize (Hm s). unfold with_cleanup.
  assert (∀ tr, in_phases allowed lo hi tr → in_phases allowed lo hi (tr ++ [e])) as Happ.
  { intros tr Htr. eapply (in_phases_app _ hi); [done|done|done|]. apply in_phases_one. by repeat constructor. }
  destruct (body s) as [tr [[[a []] s1]| |]]; simpl in *; auto. by rewrite app_nil_r.
Qed.
End phased.

Section emits.
Context {E S K : Type} (see : E → option K).

Lemma emits_keeps {A} (m : prog E S A) : keeps (λ e, see e = None) (λ _, True) m → emits see m [].
Proof.
  intros Hm s tr a s' Hrun. destruct (Hm s I) as [Htr _]. rewrite Hrun in Htr. simpl in Htr. clear Hrun.
  induction Htr as [|e l He _ IH]; [done|]. simpl. by rewrite He.
Qed.
Lemma emits_bind {A B} l k (m : prog E S A) (f : A → prog E S B) :
  emits see m l → (∀ a, emits see (f a) k) → emits see (m ≫= f) (l ++ k).
Proof.
  intros Hm Hf s tr b s' (a & s1 & tr1 & tr2 & Em & Ef & ->)%prog_bind_inv. rewrite omap_app.
  by rewrite (Hm _ _ _ _ Em), (Hf _ _ _ _ _ Ef).
Qed.
Lemma emits_skip {A B} l (m : prog E S A) (f : A → prog E S B) :
  keeps (λ e, see e = None) (λ _, True) m → (∀ a, emits see (f a) l) → emits see (m ≫= f) l.
Proof. intros Hm%emits_keeps Hf. apply (emits_bind [] l); auto. Qed.
Lemma emits_on_error {A} p (m : prog E S A) l : emits see m l → emits see (on_error p m) l.
Proof. intros Hm s tr a s' Hrun%on_error_inv. eauto. Qed.
Lemma emits_for_each {A} (f : A → prog E S unit) (g : A → list K) l :
  (∀ a, emits see (f a) (g a)) → emits see (for_each f l) (l ≫= g).
Proof.
  intros Hf. induction l as [|a l IH]; [by intros s tr ? s' [= <- _ _]|]. simpl. by apply emits_bind.
Qed.
End emits.

Lemma keeps_with_cleanup {E S A} (P : E → Prop) (I : S → Prop) e (body : prog E S (A * bool)) :
  P e → keeps P I body → keeps P I (with_cleanup e body).
Proof.
  intros He Hb s Hs. destruct (Hb s Hs) as [Htr Hok]. unfold with_cleanup.
  destruct (body s) as [tr [[[a b] s1]| |]]; simpl in *.
  - split; [apply Forall_app; split; [done|destruct b; by repeat constructor]|]. intros ? ? [= <- <-]. by eapply Hok.
  - split; [apply Forall_app; split; [done|by repeat constructor]|done].
  - done.
Qed.
Lemma keeps_attempt {E S A} (P : E → Prop) (I : S → Prop) (m : prog E S A) : keeps P I m → keeps P I (attempt m).
Proof.
  intros Hm s Hs. destruct (Hm s Hs) as [Htr Hok]. unfold attempt.
  destruct (m s) as [tr [[a s1]| |]]; simpl in *; split; try done; intros ? ? [= <- <-]; [by eapply Hok|done].
Qed.

(** A run that succeeds is taken apart into the runs of its parts. *)
Ltac prog_inv H :=
  repeat (apply prog_bind_inv in H as (? & ? & ? & ? & ?Hm & H & ->); cbv beta zeta in H).

(** * Comparison functions *)

(** What a C comparison function ([strcmp], [rpmverCmp], a [GCompareFunc])
    promises: the sign of its result is a total preorder. *)
Class CmpOrder {A : Type} (cmp : A → A → Z) := {
  cmp_refl x : cmp x x = 0%Z;
  cmp_sgn x y : Z.sgn (cmp y x) = (- Z.sgn (cmp x y))%Z;
  cmp_trans x y z : (cmp x y ≤ 0 → cmp y z ≤ 0 → cmp x z ≤ 0)%Z;
}.

Section cmp_order.
Context {A : Type} (cmp : A → A → Z) `{!CmpOrder cmp}.

Lemma cmp_gt_lt x y : (0 < cmp x y ↔ cmp y x < 0)%Z.
Proof. pose proof (cmp_sgn x y). lia. Qed.

Lemma cmp_le_ge x y : (cmp x y ≤ 0 ↔ 0 ≤ cmp y x)%Z.
Proof. pose proof (cmp_sgn x y). lia. Qed.

Lemma cmp_eq_sym x y : (cmp x y = 0 → cmp y x = 0)%Z.
Proof. pose proof (cmp_sgn x y). lia. Qed.

Lemma cmp_lt_le_trans x y z : (cmp x y < 0 → cmp y z ≤ 0 → cmp x z < 0)%Z.
Proof.
  intros Hxy Hyz. assert (cmp x z ≤ 0)%Z by (apply (cmp_trans x y z); lia).
  destruct (Z.eq_dec (cmp x z) 0) as [He|?]; [|lia].
  assert (cmp z x ≤ 0)%Z by (apply cmp_eq_sym in He; lia).
  assert (cmp y x ≤ 0)%Z by eauto using cmp_trans.
  pose proof (cmp_sgn x y). lia.
Qed.

Lemma cmp_le_lt_trans x y z : (cmp x y ≤ 0 → cmp y z < 0 → cmp x z < 0)%Z.
Proof.
  intros Hxy Hyz. assert (cmp x z ≤ 0)%Z by (apply (cmp_trans x y z); lia).
  destruct (Z.eq_dec (cmp x z) 0) as [He|?]; [|lia].
  assert (cmp z x ≤ 0)%Z by (apply cmp_eq_sym in He; lia).
  assert (cmp z y ≤ 0)%Z by eauto using cmp_trans.
  pose proof (cmp_sgn y z). lia.
Qed.

Lemma cmp_eq_trans x y z : (cmp x y = 0 → cmp y z = 0 → cmp x z = 0)%Z.
Proof.
  intros Hxy Hyz. apply Z.le_antisymm.
  - eapply (cmp_trans x y z); lia.
  - apply cmp_le_ge, (cmp_trans z y x); apply cmp_eq_sym in Hxy, Hyz; lia.
Qed.
End cmp_order.

(** Lexicographic combination, the shape
    [ret = cmp1 (..); if (ret) return ret; return cmp2 (..);]. *)
Definition cmp_then (r1 r2 : Z) : Z := if decide (r1 = 0%Z) then r2 else r1.

Lemma cmp_then_order {A B C} (f : A → B) (g : A → C) cmp1 cmp2
    `{!CmpOrder cmp1, !CmpOrder cmp2} :
  CmpOrder (λ x y, cmp_then (cmp1 (f x) (f y)) (cmp2 (g x) (g y))).
Proof.
  split; unfold cmp_then.
  - intros x. rewrite !cmp_refl. by case_decide.
  - intros x y. pose proof (cmp_sgn (f x) (f y)). pose proof (cmp_sgn (g x) (g y)).
    repeat case_decide; lia.
  - intros x y z. destruct (Z.eq_dec (cmp1 (f x) (f y)) 0) as [Exy|Nxy].
    + rewrite (decide_True _ _ Exy). destruct (Z.eq_dec (cmp1 (f y) (f z)) 0) as [Eyz|Nyz].
      * rewrite (decide_True _ _ Eyz), decide_True
          by (by eapply (cmp_eq_trans cmp1)). apply cmp_trans.
      * rewrite (decide_False _ _ Nyz). intros _ ?.
        assert (cmp1 (f x) (f z) < 0)%Z
          by (eapply (cmp_le_lt_trans cmp1 _ (f y)); lia).
        case_decide; lia.
    + rewrite (decide_False _ _ Nxy). intros ? Hyz.
      assert (cmp1 (f y) (f z) ≤ 0)%Z by (case_decide; lia).
      assert (cmp1 (f x) (f z) < 0)%Z
        by (eapply (cmp_lt_le_trans cmp1 _ (f y)); lia).
      clear Hyz; case_decide; lia.
Qed.

(** [strcmp]: bytes compared as unsigned, lexicographically; C fixes only
    the sign of the result, and the modelled code only looks at the sign. *)
Definition strcmp (a b : string) : Z :=
  match String.compare a b with Lt => -1 | Eq => 0 | Gt => 1 end.

Lemma string_compare_refl s : String.compare s s = Eq.
Proof.
  induction s as [|c s IH]; [done|]. simpl. unfold Ascii.compare.
  by rewrite N.compare_refl.
Qed.

Lemma strcmp_eq a b : strcmp a b = 0%Z ↔ a = b.
Proof.
  unfold strcmp. split.
  - pose proof (String.compare_eq_iff a b). destruct (String.compare a b); auto; done.
  - intros ->. by rewrite string_compare_refl.
Qed.

Lemma strcmp_le a b : (strcmp a b ≤ 0)%Z ↔ String.le a b.
Proof.
  unfold strcmp, String.le, String.leb. destruct (String.compare a b); simpl; split; (done || lia).
Qed.

#[global] Instance strcmp_order : CmpOrder strcmp.
Proof.
  split.
  - intros x. by apply strcmp_eq.
  - intros x y. unfold strcmp. rewrite String.compare_antisym.
    by destruct (String.compare x y).
  - intros x y z. rewrite !strcmp_le. apply (transitivity (R := String.le)).
Qed.

(** The newline escape of C string literals. *)
Definition nl : string := String "010"%char "".
Definition dquote : string := String "034"%char "".

(** * C strings *)

Lemma str_app_cons c (s t : string) : String c s +:+ t = String c (s +:+ t).
Proof. done. Qed.

Lemma str_app_assoc (s t u : string) : s +:+ t +:+ u = (s +:+ t) +:+ u.
Proof. induction s as [|c s IH]; [done|]. rewrite ?str_app_cons; simpl; congruence. Qed.

Lemma str_app_nil_r (s : string) : s +:+ "" = s.
Proof. induction s as [|c s IH]; [done|]. rewrite ?str_app_cons; simpl; congruence. Qed.

Lemma str_app_length (s t : string) :
  String.length (s +:+ t) = String.length s + String.length t.
Proof. induction s as [|c s IH]; [done|]. rewrite ?str_app_cons; simpl; congruence. Qed.

Lemma str_app_inj_l (s t u : string) : s +:+ t = s +:+ u → t = u.
Proof. apply String.app_inj. Qed.

#[export] Hint Rewrite str_app_nil_r str_app_length : rpmostree.

(** [String.concat] as a fold: the separator goes before every item but the
    first. *)
Lemma str_concat_cons sep x xs :
  String.concat sep (x :: xs) = x +:+ foldr (λ y acc, sep +:+ y +:+ acc) "" xs.
Proof.
  revert x. induction xs as [|y xs IH]; intros x; [simpl; by rewrite str_app_nil_r|].
  change (String.concat sep (x :: y :: xs)) with (x +:+ sep +:+ String.concat sep (y :: xs)).
  by rewrite IH.
Qed.

(** * [GPtrArray] *)

(** [g_ptr_array_sort]: GLib documents it as a stable sort, so its result is
    determined by the comparison function; insertion sort computes it. *)
Fixpoint g_ptr_array_insert {A} (cmp : A → A → Z) (x : A) (l : list A) : list A :=
  match l with
  | [] => [x]
  | y :: l' =>
      if decide (cmp x y ≤ 0)%Z then x :: l else y :: g_ptr_array_insert cmp x l'
  end.

Definition g_ptr_array_sort {A} (cmp : A → A → Z) (l : list A) : list A :=
  foldr (g_ptr_array_insert cmp) [] l.

Lemma g_ptr_array_insert_perm {A} (cmp : A → A → Z) x l :
  g_ptr_array_insert cmp x l ≡ₚ x :: l.
Proof.
  induction l as [|y l IH]; simpl; [done|]. case_decide; [done|].
  rewrite IH. constructor.
Qed.

Lemma g_ptr_array_sort_perm {A} (cmp : A → A → Z) l : g_ptr_array_sort cmp l ≡ₚ l.
Proof.
  induction l as [|x l IH]; simpl; [done|].
  by rewrite g_ptr_array_insert_perm, IH.
Qed.

Lemma g_ptr_array_sort_sorted {A} (cmp : A → A → Z) `{!CmpOrder cmp} l :
  Sorted (λ x y, cmp x y ≤ 0)%Z (g_ptr_array_sort cmp l).
Proof.
  induction l as [|x l IH]; simpl; [constructor|].
  induction IH as [|y k Hl IHl Hy]; simpl; [by repeat constructor|].
  case_decide as Hxy; [by repeat constructor|].
  constructor; [done|]. assert (cmp y x ≤ 0)%Z.
  { pose proof (cmp_sgn x y). lia. }
  destruct Hy as [|z l' Hyz]; simpl; [by constructor|].
  case_decide; by constructor.
Qed.

(** * Proof automation *)

Create HintDb rpmostree.

(** Case analysis on every [if decide]/[match] left in the goal. *)
Ltac split_ifs :=
  repeat first [ case_decide | case_match ]; simplify_eq/=; try done; try lia.
