(* ===== verification/Package.v ===== *)
(** The package model of librpmostree: [src/lib/rpmostree-package.c] (package
    objects, their ordering, the package-list diff), [src/lib/rpmostree-db.c]
    (the public diff entry point) and
    [src/daemon/rpmostree-package-variants.cxx] (the D-Bus form of a diff).

    librpm's version comparison and the ostree repository are parameters:
    librpm is used through [CmpOrder], the repository through the record
    [pkglist_repo]. *)

From S2P Require Import Prelude.

(** * Package objects *)

(** A [(sssss)] variant: name, epoch, version, release, arch. *)
Record nevra_v := NevraV {
  v_name : string; v_epoch : string; v_version : string;
  v_release : string; v_arch : string;
}.

Record RpmOstreePackage := MkPackage {
  gv_nevra : nevra_v;
  p_nevra : string;
  p_name : string;
  p_evr : string;
  p_arch : string;
}.

#[global] Instance nevra_v_eq_dec : EqDecision nevra_v.
Proof. solve_decision. Defined.
#[global] Instance package_eq_dec : EqDecision RpmOstreePackage.
Proof. solve_decision. Defined.

Definition rpm_ostree_package_new_from_variant (gv : nevra_v) : RpmOstreePackage :=
  let evr :=
    if decide (v_epoch gv = "0") then v_version gv +:+ "-" +:+ v_release gv
    else v_epoch gv +:+ ":" +:+ v_version gv +:+ "-" +:+ v_release gv in
  {| gv_nevra := gv;
     p_nevra := v_name gv +:+ "-" +:+ evr +:+ "." +:+ v_arch gv;
     p_name := v_name gv; p_evr := evr; p_arch := v_arch gv |}.

(** The five output arrays of the diff. *)
Record pkg_diff := PkgDiff {
  unique_a : list RpmOstreePackage;
  unique_b : list RpmOstreePackage;
  modified_a : list RpmOstreePackage;
  modified_b : list RpmOstreePackage;
  common : list RpmOstreePackage;
}.

Definition empty_diff : pkg_diff := PkgDiff [] [] [] [] [].

Definition add_unique_a (p : RpmOstreePackage) (d : pkg_diff) : pkg_diff :=
  PkgDiff (unique_a d ++ [p]) (unique_b d) (modified_a d) (modified_b d) (common d).
Definition add_unique_b (p : RpmOstreePackage) (d : pkg_diff) : pkg_diff :=
  PkgDiff (unique_a d) (unique_b d ++ [p]) (modified_a d) (modified_b d) (common d).
Definition add_modified (p q : RpmOstreePackage) (d : pkg_diff) : pkg_diff :=
  PkgDiff (unique_a d) (unique_b d) (modified_a d ++ [p]) (modified_b d ++ [q]) (common d).
Definition add_common (p : RpmOstreePackage) (d : pkg_diff) : pkg_diff :=
  PkgDiff (unique_a d) (unique_b d) (modified_a d) (modified_b d) (common d ++ [p]).

(** Two packages with the same name and architecture are versions of one package. *)
Definition same_na (p q : RpmOstreePackage) : Prop :=
  p_name p = p_name q ∧ p_arch p = p_arch q.

(** Name-then-architecture order, in which the merge walks its inputs. *)
Definition na_cmp (p q : RpmOstreePackage) : Z :=
  cmp_then (strcmp (p_name p) (p_name q)) (strcmp (p_arch p) (p_arch q)).

(** Inputs sorted by name and then architecture, without repetition. *)
Abbreviation na_sorted := (StronglySorted (λ p q, na_cmp p q < 0)%Z).

(** [next_pkg_has_different_name (name, pkgs, cur_i)]; [rest] is what follows
    index [cur_i] in [pkgs]. *)
Definition next_pkg_has_different_name (name : string) (rest : list RpmOstreePackage) : bool :=
  match rest with
  | [] => true
  | pkg :: _ => negb (bool_decide (name = p_name pkg))
  end.

Section package.
(** librpm's [rpmverParse] and [rpmverCmp]. *)
Context {rpmver : Type} (rpmverParse : string → rpmver) (rpmverCmp : rpmver → rpmver → Z).

Definition evr_cmp (a b : string) : Z := rpmverCmp (rpmverParse a) (rpmverParse b).

Definition rpm_ostree_package_cmp (p1 p2 : RpmOstreePackage) : Z :=
  cmp_then (strcmp (p_name p1) (p_name p2))
    (cmp_then (evr_cmp (p_evr p1) (p_evr p2)) (strcmp (p_arch p1) (p_arch p2))).

(** The loop of [_rpm_ostree_diff_package_lists].  [a] and [b] are the parts of
    the arrays from [cur_a] and [cur_b] on; the two flushes after the loop are
    the cases where one of them is empty. *)
Fixpoint diff_loop (a : list RpmOstreePackage) : list RpmOstreePackage → pkg_diff → pkg_diff :=
  fix diff_loop_b (b : list RpmOstreePackage) (d : pkg_diff) : pkg_diff :=
  match a, b with
  | [], _ => foldl (λ d p, add_unique_b p d) d b
  | _, [] => foldl (λ d p, add_unique_a p d) d a
  | pkg_a :: a', pkg_b :: b' =>
      let cmp := strcmp (p_name pkg_a) (p_name pkg_b) in
      if decide (cmp < 0)%Z then diff_loop a' b (add_unique_a pkg_a d)
      else if decide (cmp > 0)%Z then diff_loop_b b' (add_unique_b pkg_b d)
      else
        let cmp := strcmp (p_arch pkg_a) (p_arch pkg_b) in
        if decide (cmp = 0)%Z then
          let cmp := evr_cmp (p_evr pkg_a) (p_evr pkg_b) in
          diff_loop a' b'
            (if decide (cmp = 0)%Z then add_common pkg_a d else add_modified pkg_a pkg_b d)
        else
          let single_a := next_pkg_has_different_name (p_name pkg_a) a' in
          let single_b := next_pkg_has_different_name (p_name pkg_b) b' in
          if single_a && single_b then diff_loop a' b' (add_modified pkg_a pkg_b d)
          else if decide (cmp < 0)%Z then diff_loop a' b (add_unique_a pkg_a d)
          else diff_loop_b b' (add_unique_b pkg_b d)
  end.

Definition rpm_ostree_diff_package_lists (a b : list RpmOstreePackage) : pkg_diff :=
  diff_loop a b empty_diff.

(** * Specification of the diff *)

Definition app_diff (d e : pkg_diff) : pkg_diff :=
  PkgDiff (unique_a d ++ unique_a e) (unique_b d ++ unique_b e)
    (modified_a d ++ modified_a e) (modified_b d ++ modified_b e) (common d ++ common e).

(** An architecture change of a package that has no successor of its name. *)
Definition arch_change (p q : RpmOstreePackage) (a b : list RpmOstreePackage) : Prop :=
  p_name p = p_name q ∧ p_arch p ≠ p_arch q ∧
  next_pkg_has_different_name (p_name p) a = true ∧
  next_pkg_has_different_name (p_name q) b = true.

(** The merge as a relation: one rule per way the loop consumes its inputs. *)
Inductive diff_spec : list RpmOstreePackage → list RpmOstreePackage → pkg_diff → Prop :=
  | DS_a_end b : diff_spec [] b (PkgDiff [] b [] [] [])
  | DS_b_end a : diff_spec a [] (PkgDiff a [] [] [] [])
  | DS_unique_a p a q b d :
      (na_cmp p q < 0)%Z → ¬ arch_change p q a b → diff_spec a (q :: b) d →
      diff_spec (p :: a) (q :: b) (app_diff (add_unique_a p empty_diff) d)
  | DS_unique_b p a q b d :
      (na_cmp p q > 0)%Z → ¬ arch_change p q a b → diff_spec (p :: a) b d →
      diff_spec (p :: a) (q :: b) (app_diff (add_unique_b q empty_diff) d)
  | DS_common p a q b d :
      same_na p q → evr_cmp (p_evr p) (p_evr q) = 0%Z → diff_spec a b d →
      diff_spec (p :: a) (q :: b) (app_diff (add_common p empty_diff) d)
  | DS_modified p a q b d :
      same_na p q → evr_cmp (p_evr p) (p_evr q) ≠ 0%Z → diff_spec a b d →
      diff_spec (p :: a) (q :: b) (app_diff (add_modified p q empty_diff) d)
  | DS_arch_change p a q b d :
      arch_change p q a b → diff_spec a b d →
      diff_spec (p :: a) (q :: b) (app_diff (add_modified p q empty_diff) d).

Lemma app_diff_nil_l d : app_diff empty_diff d = d.
Proof. by destruct d. Qed.

Lemma app_diff_assoc d e f : app_diff d (app_diff e f) = app_diff (app_diff d e) f.
Proof. destruct d, e, f. unfold app_diff. simpl. by rewrite !app_assoc. Qed.

Lemma flush_a_spec a d : foldl (λ d p, add_unique_a p d) d a = app_diff d (PkgDiff a [] [] [] []).
Proof.
  revert d. induction a as [|p a IH]; intros d; simpl.
  - destruct d. unfold app_diff; simpl. by rewrite !app_nil_r.
  - rewrite IH. unfold app_diff, add_unique_a; simpl. by rewrite <-app_assoc.
Qed.

Lemma flush_b_spec b d : foldl (λ d p, add_unique_b p d) d b = app_diff d (PkgDiff [] b [] [] []).
Proof.
  revert d. induction b as [|p b IH]; intros d; simpl.
  - destruct d. unfold app_diff; simpl. by rewrite !app_nil_r.
  - rewrite IH. unfold app_diff, add_unique_b; simpl. by rewrite <-app_assoc.
Qed.

Lemma add_unique_a_app p d : add_unique_a p d = app_diff d (add_unique_a p empty_diff).
Proof. destruct d. unfold app_diff; simpl. by rewrite !app_nil_r. Qed.
Lemma add_unique_b_app p d : add_unique_b p d = app_diff d (add_unique_b p empty_diff).
Proof. destruct d. unfold app_diff; simpl. by rewrite !app_nil_r. Qed.
Lemma add_modified_app p q d : add_modified p q d = app_diff d (add_modified p q empty_diff).
Proof. destruct d. unfold app_diff; simpl. by rewrite !app_nil_r. Qed.
Lemma add_common_app p d : add_common p d = app_diff d (add_common p empty_diff).
Proof. destruct d. unfold app_diff; simpl. by rewrite !app_nil_r. Qed.

Lemma arch_change_dec_false p q a b :
  p_name p = p_name q → p_arch p ≠ p_arch q →
  next_pkg_has_different_name (p_name p) a && next_pkg_has_different_name (p_name q) b = false →
  ¬ arch_change p q a b.
Proof. intros ?? Hf (?&?&Ha&Hb). by rewrite Ha, Hb in Hf. Qed.

Lemma na_cmp_name p q :
  p_name p ≠ p_name q → na_cmp p q = strcmp (p_name p) (p_name q).
Proof. intros Hn. unfold na_cmp, cmp_then. rewrite decide_False; [done|by rewrite strcmp_eq]. Qed.

Lemma na_cmp_arch p q :
  p_name p = p_name q → na_cmp p q = strcmp (p_arch p) (p_arch q).
Proof. intros Hn. unfold na_cmp, cmp_then. rewrite decide_True; [done|by rewrite strcmp_eq]. Qed.

Lemma na_cmp_same p q : na_cmp p q = 0%Z ↔ same_na p q.
Proof.
  unfold na_cmp, cmp_then, same_na. rewrite <-!strcmp_eq. case_decide; tauto.
Qed.

(** One iteration of the loop with both inputs non-empty. *)
Lemma diff_loop_step p a q b d :
  (∃ e, diff_loop (p :: a) (q :: b) d = diff_loop a (q :: b) (app_diff d e) ∧
     e = add_unique_a p empty_diff ∧ (na_cmp p q < 0)%Z ∧ ¬ arch_change p q a b) ∨
  (∃ e, diff_loop (p :: a) (q :: b) d = diff_loop (p :: a) b (app_diff d e) ∧
     e = add_unique_b q empty_diff ∧ (na_cmp p q > 0)%Z ∧ ¬ arch_change p q a b) ∨
  (∃ e, diff_loop (p :: a) (q :: b) d = diff_loop a b (app_diff d e) ∧
     (e = add_common p empty_diff ∧ same_na p q ∧ evr_cmp (p_evr p) (p_evr q) = 0%Z ∨
      e = add_modified p q empty_diff ∧
        (same_na p q ∧ evr_cmp (p_evr p) (p_evr q) ≠ 0%Z ∨ arch_change p q a b))).
Proof.
  pose proof (strcmp_eq (p_name p) (p_name q)) as Hname.
  pose proof (strcmp_eq (p_arch p) (p_arch q)) as Harch.
  destruct (decide (p_name p = p_name q)) as [En|En].
  - pose proof (na_cmp_arch p q En) as Hc. apply Hname in En as Z0.
    simpl. rewrite decide_False, decide_False by lia. case_decide as H3.
    + right; right. assert (same_na p q) by (split; [done|by apply Harch]).
      case_decide; [rewrite add_common_app|rewrite add_modified_app]; eauto 10.
    + assert (p_arch p ≠ p_arch q) as Ea by by rewrite <-Harch.
      destruct (_ && _) eqn:Hs.
      { apply andb_true_iff in Hs as [??]. rewrite add_modified_app.
        right; right. eexists. split; [done|]. right. split; [done|]. right. by repeat split. }
      apply arch_change_dec_false in Hs; [|done..].
      case_decide; [left; rewrite add_unique_a_app|right; left; rewrite add_unique_b_app];
        eexists; (split; [done|]); split_and!; try done; lia.
  - pose proof (na_cmp_name p q En) as Hc. assert (strcmp (p_name p) (p_name q) ≠ 0%Z) by tauto.
    assert (¬ arch_change p q a b) by (intros (?&_); congruence).
    simpl. case_decide; [left; rewrite add_unique_a_app|rewrite decide_True by lia;
      right; left; rewrite add_unique_b_app]; eexists; (split; [done|]); split_and!; try done; lia.
Qed.

(** The loop computes the relation, appended to what it had collected. *)
Lemma diff_loop_spec a b d : ∃ e, diff_spec a b e ∧ diff_loop a b d = app_diff d e.
Proof.
  revert b d. induction a as [|p a IHa]; intros b d.
  { exists (PkgDiff [] b [] [] []). split; [constructor|].
    destruct b as [|q b]; [apply (flush_b_spec [])|apply (flush_b_spec (q :: b))]. }
  revert d. induction b as [|q b IHb]; intros d.
  { exists (PkgDiff (p :: a) [] [] [] []). split; [constructor|]. apply (flush_a_spec (p :: a)). }
  destruct (diff_loop_step p a q b d)
    as [(e&->&->&?&?)|[(e&->&->&?&?)|(e&->&[(->&?&?)|(->&[[??]|?])])]].
  - destruct (IHa (q :: b) (app_diff d (add_unique_a p empty_diff))) as (e&?&->).
    rewrite <-app_diff_assoc. eauto using diff_spec.
  - destruct (IHb (app_diff d (add_unique_b q empty_diff))) as (e&?&->).
    rewrite <-app_diff_assoc. eauto using diff_spec.
  - destruct (IHa b (app_diff d (add_common p empty_diff))) as (e&?&->).
    rewrite <-app_diff_assoc. eauto using diff_spec.
  - destruct (IHa b (app_diff d (add_modified p q empty_diff))) as (e&?&->).
    rewrite <-app_diff_assoc. eauto using diff_spec.
  - destruct (IHa b (app_diff d (add_modified p q empty_diff))) as (e&?&->).
    rewrite <-app_diff_assoc. eauto using diff_spec.
Qed.

Lemma diff_package_lists_spec a b : diff_spec a b (rpm_ostree_diff_package_lists a b).
Proof.
  unfold rpm_ostree_diff_package_lists.
  destruct (diff_loop_spec a b empty_diff) as (e&He&->). by rewrite app_diff_nil_l.
Qed.

#[local] Hint Constructors Forall2 : core.

#[global] Instance na_cmp_order : CmpOrder na_cmp.
Proof. exact (cmp_then_order p_name p_arch strcmp strcmp). Qed.

Lemma na_sorted_head p q b x :
  na_sorted (q :: b) → (na_cmp p q < 0)%Z → x ∈ q :: b → (na_cmp p x < 0)%Z.
Proof.
  intros [_ Hq]%StronglySorted_inv Hpq [->|Hx]%elem_of_cons; [done|].
  rewrite Forall_forall in Hq. specialize (Hq x Hx). apply (cmp_lt_le_trans na_cmp _ q); lia.
Qed.

Lemma na_lt_not_same p q : (na_cmp p q < 0)%Z → ¬ same_na p q ∧ ¬ same_na q p.
Proof.
  rewrite <-!na_cmp_same. pose proof (cmp_sgn (cmp := na_cmp) p q). lia.
Qed.

Lemma na_sorted_tail p a x :
  na_sorted (p :: a) → x ∈ a → (na_cmp p x < 0)%Z.
Proof. intros [_ Hp]%StronglySorted_inv. rewrite Forall_forall in Hp. auto. Qed.

(** When the next package has another name, no later one has this name. *)
Lemma last_of_name p a x :
  na_sorted (p :: a) → next_pkg_has_different_name (p_name p) a = true →
  x ∈ a → p_name x ≠ p_name p.
Proof.
  intros Hs Hn Hx. destruct a as [|y a]; [by apply not_elem_of_nil in Hx|].
  simpl in Hn. apply negb_true_iff, bool_decide_eq_false in Hn.
  pose proof (na_sorted_tail p (y :: a) y Hs ltac:(set_solver)) as Hpy.
  rewrite na_cmp_name in Hpy by done.
  apply StronglySorted_inv in Hs as [Hs _].
  apply elem_of_cons in Hx as [->|Hx]; [done|].
  pose proof (na_sorted_tail y a x Hs Hx) as Hyx. intros Hnx.
  destruct (decide (p_name y = p_name x)) as [E|E]; [congruence|].
  rewrite na_cmp_name in Hyx by done. rewrite Hnx in Hyx.
  pose proof (cmp_sgn (p_name p) (p_name y)). lia.
Qed.

Lemma na_sorted_tl p a : na_sorted (p :: a) → na_sorted a.
Proof. by intros [? _]%StronglySorted_inv. Qed.

#[local] Hint Resolve na_sorted_tl : core.

(** What the diff promises on sorted inputs. *)
Record diff_exact (a b : list RpmOstreePackage) (d : pkg_diff) : Prop := {
  de_common p : p ∈ common d ↔
    p ∈ a ∧ ∃ q, q ∈ b ∧ same_na p q ∧ evr_cmp (p_evr p) (p_evr q) = 0%Z;
  de_modified p q : same_na p q →
    (p, q) ∈ zip (modified_a d) (modified_b d) ↔
    p ∈ a ∧ q ∈ b ∧ evr_cmp (p_evr p) (p_evr q) ≠ 0%Z;
  de_unique_a p : p ∈ unique_a d → p ∈ a ∧ ∀ q, q ∈ b → ¬ same_na p q;
  de_unique_b q : q ∈ unique_b d → q ∈ b ∧ ∀ p, p ∈ a → ¬ same_na p q;
}.

Lemma diff_exact_unique_a p a q b d :
  na_sorted (q :: b) → (na_cmp p q < 0)%Z →
  diff_exact a (q :: b) d → diff_exact (p :: a) (q :: b) (app_diff (add_unique_a p empty_diff) d).
Proof.
  intros Hb Hlt [Hc Hm Ha Hu].
  assert (∀ y, y ∈ q :: b → ¬ same_na p y) as Hp
    by (intros y Hy; by apply (na_lt_not_same p y), (na_sorted_head p q b)).
  split; simpl.
  - intros x. rewrite Hc. set_solver.
  - intros x y ?. rewrite Hm by done. set_solver.
  - intros x. rewrite elem_of_cons. set_solver.
  - set_solver.
Qed.

Lemma diff_exact_unique_b p a q b d :
  na_sorted (p :: a) → (na_cmp p q > 0)%Z →
  diff_exact (p :: a) b d → diff_exact (p :: a) (q :: b) (app_diff (add_unique_b q empty_diff) d).
Proof.
  intros Hs Hlt [Hc Hm Ha Hu].
  assert (na_cmp q p < 0)%Z by (apply (cmp_gt_lt na_cmp); lia).
  assert (∀ x, x ∈ p :: a → ¬ same_na x q) as Hq
    by (intros x Hx; by apply (na_lt_not_same q x), (na_sorted_head q p a)).
  split; simpl.
  - intros x. rewrite Hc. set_solver.
  - intros x y ?. rewrite Hm by done. set_solver.
  - set_solver.
  - intros x. rewrite elem_of_cons. set_solver.
Qed.

(** Heads of the same name and architecture match nothing else. *)
Lemma heads_match_nothing_else p a q b :
  na_sorted (p :: a) → na_sorted (q :: b) → same_na p q →
  (∀ x, x ∈ a → ¬ same_na x q) ∧ (∀ y, y ∈ b → ¬ same_na p y).
Proof.
  intros Ha Hb Hpq%na_cmp_same. assert (na_cmp q p = 0)%Z as Hqp by by apply (cmp_eq_sym na_cmp).
  split; intros z Hz.
  - apply (na_lt_not_same q z), (cmp_le_lt_trans na_cmp _ p); [lia|].
    by apply (na_sorted_tail p a).
  - apply (na_lt_not_same p z), (cmp_le_lt_trans na_cmp _ q); [lia|].
    by apply (na_sorted_tail q b).
Qed.

Lemma diff_exact_common p a q b d :
  na_sorted (p :: a) → na_sorted (q :: b) → same_na p q →
  evr_cmp (p_evr p) (p_evr q) = 0%Z → diff_exact a b d →
  diff_exact (p :: a) (q :: b) (app_diff (add_common p empty_diff) d).
Proof.
  intros Ha Hb Hs He [Hc Hm Hua Hub].
  destruct (heads_match_nothing_else p a q b Ha Hb Hs) as [Hxa Hyb].
  split; simpl.
  - intros x. rewrite elem_of_cons, Hc. set_solver.
  - intros x y ?. rewrite Hm by done. set_solver.
  - set_solver.
  - set_solver.
Qed.

Lemma diff_exact_modified p a q b d :
  na_sorted (p :: a) → na_sorted (q :: b) → same_na p q →
  evr_cmp (p_evr p) (p_evr q) ≠ 0%Z → diff_exact a b d →
  diff_exact (p :: a) (q :: b) (app_diff (add_modified p q empty_diff) d).
Proof.
  intros Ha Hb Hs He [Hc Hm Hua Hub].
  destruct (heads_match_nothing_else p a q b Ha Hb Hs) as [Hxa Hyb].
  split; simpl.
  - intros x. rewrite Hc. set_solver.
  - intros x y ?. rewrite elem_of_cons, Hm by done. set_solver.
  - set_solver.
  - set_solver.
Qed.

Lemma diff_exact_arch_change p a q b d :
  na_sorted (p :: a) → na_sorted (q :: b) → arch_change p q a b → diff_exact a b d →
  diff_exact (p :: a) (q :: b) (app_diff (add_modified p q empty_diff) d).
Proof.
  intros Ha Hb (Hn&Har&Hla&Hlb) [Hc Hm Hua Hub].
  assert (∀ x, x ∈ p :: a → ¬ same_na x q) as Hq.
  { intros x [->|Hx]%elem_of_cons [??]; [done|]. by apply (last_of_name p a x Ha Hla Hx); congruence. }
  assert (∀ y, y ∈ q :: b → ¬ same_na p y) as Hp.
  { intros y [->|Hy]%elem_of_cons [??]; [done|]. by apply (last_of_name q b y Hb Hlb Hy); congruence. }
  split; simpl.
  - intros x. rewrite Hc. set_solver.
  - intros x y ?. rewrite elem_of_cons, Hm by done. set_solver.
  - set_solver.
  - set_solver.
Qed.

(** On inputs sorted by (name, arch) the merge is exact. *)
Lemma diff_spec_exact a b d :
  diff_spec a b d → na_sorted a → na_sorted b → diff_exact a b d.
Proof.
  induction 1 as [b|a|p a q b d Hlt Hna _ IH|p a q b d Hgt Hna _ IH|p a q b d Hs He _ IH
    |p a q b d Hs He _ IH|p a q b d Hac _ IH]; intros Ha Hb.
  - split; set_solver.
  - split; set_solver.
  - eapply diff_exact_unique_a; eauto.
  - eapply diff_exact_unique_b; eauto.
  - eapply diff_exact_common; eauto.
  - eapply diff_exact_modified; eauto.
  - eapply diff_exact_arch_change; eauto.
Qed.

(** The pairs the diff calls unchanged. *)
Definition unchanged (p q : RpmOstreePackage) : Prop :=
  same_na p q ∧ evr_cmp (p_evr p) (p_evr q) = 0%Z.

(** The pairs the diff calls modified: another version, or the only package of
    its name (from here on) with another architecture. *)
Definition changed (p q : RpmOstreePackage) : Prop :=
  p_name p = p_name q ∧ (p_arch p = p_arch q → evr_cmp (p_evr p) (p_evr q) ≠ 0%Z).

Lemma diff_spec_partition a b d :
  diff_spec a b d → ∃ common_b,
    a ≡ₚ unique_a d ++ modified_a d ++ common d ∧
    b ≡ₚ unique_b d ++ modified_b d ++ common_b ∧
    Forall2 changed (modified_a d) (modified_b d) ∧
    Forall2 unchanged (common d) common_b.
Proof.
  induction 1 as [b|a|p a q b d _ _ _ (cb&IHa&IHb&?&?)|p a q b d _ _ _ (cb&IHa&IHb&?&?)
    |p a q b d [??] ? _ (cb&IHa&IHb&?&?)|p a q b d [??] ? _ (cb&IHa&IHb&?&?)
    |p a q b d (?&?&_) _ (cb&IHa&IHb&?&?)]; simpl.
  - exists []. rewrite ?app_nil_r. split_and!; reflexivity || constructor.
  - exists []. rewrite ?app_nil_r. split_and!; reflexivity || constructor.
  - exists cb. split_and!; [by rewrite IHa|done..].
  - exists cb. split_and!; [done|by rewrite IHb|done..].
  - exists (q :: cb). split_and!; [rewrite IHa; solve_Permutation|rewrite IHb; solve_Permutation|done|].
    constructor; [by repeat split|done].
  - exists cb. split_and!; [rewrite IHa; solve_Permutation|rewrite IHb; solve_Permutation| |done].
    constructor; [|done]. by split.
  - exists cb. split_and!; [rewrite IHa; solve_Permutation|rewrite IHb; solve_Permutation| |done].
    constructor; [|done]. by split.
Qed.

Lemma arch_change_na p q a b : arch_change p q a b → na_cmp p q ≠ 0%Z.
Proof. intros (?&?&_). by rewrite na_cmp_same; intros [??]. Qed.

(** The rules exclude each other, so the relation is a function. *)
Lemma diff_spec_det a b d e : diff_spec a b d → diff_spec a b e → d = e.
Proof.
  intros Hd. revert e.
  induction Hd as [b|a|p a q b d ?? _ IH|p a q b d ?? _ IH|p a q b d Hs ? _ IH
    |p a q b d Hs ? _ IH|p a q b d Hac _ IH]; intros e He; inversion He; subst; try done;
    try apply na_cmp_same in Hs;
    repeat match goal with
    | H : same_na _ _ |- _ => apply na_cmp_same in H
    | H : arch_change p q a b |- _ => pose proof (arch_change_na _ _ _ _ H); revert H
    end; intros; try lia; try done; by f_equal; apply IH.
Qed.

Lemma arch_change_sym p q a b : arch_change p q a b ↔ arch_change q p b a.
Proof. unfold arch_change. naive_solver. Qed.

Lemma na_cmp_swap p q : (na_cmp q p < 0 ↔ na_cmp p q > 0)%Z ∧ (na_cmp q p > 0 ↔ na_cmp p q < 0)%Z.
Proof. pose proof (cmp_sgn (cmp := na_cmp) p q). lia. Qed.

Section ordered.
(** librpm's promise: [rpmverCmp] is a comparison function. *)
Context `{!CmpOrder rpmverCmp}.

#[global] Instance evr_cmp_order : CmpOrder evr_cmp.
Proof.
  split; unfold evr_cmp; intros; [apply cmp_refl|apply cmp_sgn|].
  by eapply cmp_trans.
Qed.

(** [rpm_ostree_package_cmp] is a sorting order on packages. *)
#[global] Instance package_cmp_order : CmpOrder rpm_ostree_package_cmp.
Proof.
  pose proof (cmp_then_order p_evr p_arch evr_cmp strcmp).
  exact (cmp_then_order p_name id strcmp (λ x y : RpmOstreePackage,
    cmp_then (evr_cmp (p_evr x) (p_evr y)) (strcmp (p_arch x) (p_arch y)))).
Qed.

Lemma diff_spec_swap a b d :
  diff_spec a b d → ∃ c,
    diff_spec b a (PkgDiff (unique_b d) (unique_a d) (modified_b d) (modified_a d) c) ∧
    Forall2 unchanged (common d) c.
Proof.
  induction 1 as [b|a|p a q b d Hlt Hna _ (c&IH&?)|p a q b d Hgt Hna _ (c&IH&?)
    |p a q b d [??] He _ (c&IH&?)|p a q b d [??] He _ (c&IH&?)|p a q b d Hac _ (c&IH&?)].
  - exists []. by repeat constructor.
  - exists []. by repeat constructor.
  - exists c. split; [|done]. apply (DS_unique_b q b p a) in IH; [done|by apply na_cmp_swap|].
    by rewrite arch_change_sym.
  - exists c. split; [|done]. apply (DS_unique_a q b p a) in IH; [done|by apply na_cmp_swap|].
    by rewrite arch_change_sym.
  - exists (q :: c). split; [|by constructor]. apply (DS_common q b p a) in IH; [done|done|].
    by apply (cmp_eq_sym evr_cmp).
  - exists c. split; [|done]. apply (DS_modified q b p a) in IH; [done|done|].
    intros ?%(cmp_eq_sym evr_cmp). done.
  - exists c. split; [|done]. apply (DS_arch_change q b p a) in IH; [done|].
    by apply arch_change_sym.
Qed.
End ordered.
End package.

(** * The repository side *)

(** What the package-list code reads of an [OstreeRepo] and of the helper
    process it spawns: revision resolution, the [rpmostree.rpmdb.pkglist]
    metadata of a commit (when present), and the reply of
    [rpm-ostree shlib-backend packagelist-from-commit], a maybe-package-list. *)
Record pkglist_repo := PkglistRepo {
  repo_resolve_rev : string → outcome string;
  repo_commit_pkglist : string → outcome (option (list nevra_v));
  shlib_ipc_pkglist : string → outcome (option (list nevra_v));
}.

(** [impl_packagelist_from_commit]: what that helper answers, given the
    packages of the commit's own rpmdb. *)
Definition impl_packagelist_from_commit (refsack_pkgs : outcome (list nevra_v)) :
    outcome (option (list nevra_v)) :=
  match refsack_pkgs with
  | Err e => if decide (err_code e = G_IO_ERROR_NOT_FOUND) then Ok None else Err e
  | Ok pkgs => Ok (Some pkgs)
  | Abort => Abort
  end.

Definition rpm_ostree_package_variant_list_for_commit (repo : pkglist_repo) (rev : string)
    (allow_noent : bool) : outcome (option (list nevra_v)) :=
  prefix_error "Loading package list" (
    checksum ← repo_resolve_rev repo rev;
    pkglist_v ← repo_commit_pkglist repo checksum;
    match pkglist_v with
    | Some l => Ok (Some l)
    | None =>
        maybe_pkglist_v ← shlib_ipc_pkglist repo rev;
        match maybe_pkglist_v with
        | Some l => Ok (Some l)
        | None => if allow_noent then Ok None else glnx_throw "No package database found"
        end
    end).

(** On success the output location is set to the list.
    [g_variant_n_children] on a NULL variant is a NULL dereference, and a list
    that comes out empty fails the sanity assertion. *)
Definition rpm_ostree_package_list_for_commit (repo : pkglist_repo) (rev : string)
    (allow_noent : bool) : outcome (option (list RpmOstreePackage)) :=
  pkglist_v ← rpm_ostree_package_variant_list_for_commit repo rev allow_noent;
  match pkglist_v with
  | None => Abort
  | Some l =>
      let pkglist := rpm_ostree_package_new_from_variant <$> l in
      _ ← g_assert (bool_decide (0 < length pkglist));
      Ok (Some pkglist)
  end.

Definition rpm_ostree_db_query_all (repo : pkglist_repo) (ref : string) :
    outcome (option (list RpmOstreePackage)) :=
  rpm_ostree_package_list_for_commit repo ref false.

Section db_diff.
Context {rpmver : Type} (rpmverParse : string → rpmver) (rpmverCmp : rpmver → rpmver → Z).

Definition RPM_OSTREE_DB_DIFF_EXT_ALLOW_NOENT : Z := Z.shiftl 1 0.

(** [rpm_ostree_db_diff_ext], with all output locations requested; [None] is
    success with the four arrays set to NULL. *)
Definition rpm_ostree_db_diff_ext (repo : pkglist_repo) (orig_ref new_ref : string)
    (flags : Z) : outcome (option pkg_diff) :=
  let allow_noent := bool_decide (Z.land flags RPM_OSTREE_DB_DIFF_EXT_ALLOW_NOENT > 0)%Z in
  orig_pkglist ← prefix_error "Failed to load package list"
    (rpm_ostree_package_list_for_commit repo orig_ref allow_noent);
  new_pkglist ←
    match orig_pkglist with
    | Some _ => prefix_error "Failed to load package list"
        (rpm_ostree_package_list_for_commit repo new_ref allow_noent)
    | None => Ok None
    end;
  match orig_pkglist, new_pkglist with
  | Some orig, Some new =>
      Ok (Some (rpm_ostree_diff_package_lists rpmverParse rpmverCmp orig new))
  | _, _ => _ ← g_assert allow_noent; Ok None
  end.

Definition rpm_ostree_db_diff (repo : pkglist_repo) (orig_ref new_ref : string) :
    outcome (option pkg_diff) :=
  rpm_ostree_db_diff_ext repo orig_ref new_ref 0.

(** * The D-Bus form of a diff *)

Inductive db_diff_type :=
  | RPM_OSTREE_PACKAGE_ADDED
  | RPM_OSTREE_PACKAGE_REMOVED
  | RPM_OSTREE_PACKAGE_UPGRADED
  | RPM_OSTREE_PACKAGE_DOWNGRADED.

#[global] Instance db_diff_type_eq_dec : EqDecision db_diff_type.
Proof. solve_decision. Defined.

(** The [guint] the enumerator is sent as. *)
Definition db_diff_type_u (t : db_diff_type) : Z :=
  match t with
  | RPM_OSTREE_PACKAGE_ADDED => 0
  | RPM_OSTREE_PACKAGE_REMOVED => 1
  | RPM_OSTREE_PACKAGE_UPGRADED => 2
  | RPM_OSTREE_PACKAGE_DOWNGRADED => 3
  end.

(** A [(sss)] of [package_variant_new]. *)
Definition package_variant_new (p : RpmOstreePackage) : string * string * string :=
  (p_name p, p_evr p, p_arch p).

(** A [(sua{sv})]: the dictionary has the keys "PreviousPackage" and
    "NewPackage", each present or not. *)
Record diff_variant := DiffVariant {
  dv_name : string;
  dv_type : Z;
  dv_previous : option (string * string * string);
  dv_new : option (string * string * string);
}.

Definition build_diff_variant (name : string) (t : db_diff_type)
    (old_package new_package : option RpmOstreePackage) : diff_variant :=
  DiffVariant name (db_diff_type_u t)
    (package_variant_new <$> old_package) (package_variant_new <$> new_package).

Definition rpm_ostree_db_diff_variant_compare_by_name (v1 v2 : diff_variant) : Z :=
  strcmp (dv_name v1) (dv_name v2).

(** [type1 - type2] on small unsigned values, converted to [int]: the signed
    difference. *)
Definition rpm_ostree_db_diff_variant_compare_by_type (v1 v2 : diff_variant) : Z :=
  if decide (dv_type v1 = dv_type v2) then rpm_ostree_db_diff_variant_compare_by_name v1 v2
  else dv_type v1 - dv_type v2.

Definition modified_variant (old new : RpmOstreePackage) : diff_variant :=
  build_diff_variant (p_name old)
    (if decide (rpm_ostree_package_cmp rpmverParse rpmverCmp old new > 0)%Z
     then RPM_OSTREE_PACKAGE_DOWNGRADED else RPM_OSTREE_PACKAGE_UPGRADED)
    (Some old) (Some new).

(** The part of [rpm_ostree_db_diff_variant] after the package lists have
    been compared. *)
Definition diff_variants (d : pkg_diff) : outcome (list diff_variant) :=
  _ ← g_assert (bool_decide (length (modified_a d) = length (modified_b d)));
  let found :=
    zip_with modified_variant (modified_a d) (modified_b d) ++
    ((λ p, build_diff_variant (p_name p) RPM_OSTREE_PACKAGE_REMOVED (Some p) None) <$> unique_a d) ++
    ((λ p, build_diff_variant (p_name p) RPM_OSTREE_PACKAGE_ADDED None (Some p)) <$> unique_b d) in
  Ok (g_ptr_array_sort rpm_ostree_db_diff_variant_compare_by_type found).

(** [None] is success with a NULL variant; without [allow_noent] NULL arrays
    would be dereferenced. *)
Definition rpm_ostree_db_diff_variant (repo : pkglist_repo) (from_rev to_rev : string)
    (allow_noent : bool) : outcome (option (list diff_variant)) :=
  let flags :=
    if allow_noent then Z.lor 0 RPM_OSTREE_DB_DIFF_EXT_ALLOW_NOENT else 0%Z in
  d ← rpm_ostree_db_diff_ext repo from_rev to_rev flags;
  match d with
  | None => if allow_noent then Ok None else Abort
  | Some d => vs ← diff_variants d; Ok (Some vs)
  end.

#[global] Instance compare_by_type_order : CmpOrder rpm_ostree_db_diff_variant_compare_by_type.
Proof.
  assert (CmpOrder Z.sub) as HZ by (split; intros; lia).
  assert (∀ x y, rpm_ostree_db_diff_variant_compare_by_type x y =
    cmp_then (dv_type x - dv_type y)%Z (strcmp (dv_name x) (dv_name y))) as E.
  { intros x y. unfold rpm_ostree_db_diff_variant_compare_by_type, cmp_then.
    repeat case_decide; try done; lia. }
  destruct (cmp_then_order dv_type dv_name Z.sub strcmp) as [H1 H2 H3].
  split; intros; rewrite ?E in *; [apply H1|apply H2|by eapply H3].
Qed.
End db_diff.

(** * Properties *)

Section properties.
Context {rpmver : Type} (rpmverParse : string → rpmver) (rpmverCmp : rpmver → rpmver → Z).

(** The package-list diff loses and invents nothing.  For any two lists
    [a] and [b], sorted or not, every package of [a] is in exactly one of
    [unique_a], [modified_a] and [common], every package of [b] in exactly one of
    [unique_b], [modified_b] and the partners of [common]; the modified packages
    are paired (equal lengths, same name, another version unless the
    architecture changed), and each common package has a partner of the same
    name, architecture and version. *)
Theorem diff_package_lists_partition a b :
  let d := rpm_ostree_diff_package_lists rpmverParse rpmverCmp a b in
  ∃ common_b,
    a ≡ₚ unique_a d ++ modified_a d ++ common d ∧
    b ≡ₚ unique_b d ++ modified_b d ++ common_b ∧
    Forall2 (changed rpmverParse rpmverCmp) (modified_a d) (modified_b d) ∧
    Forall2 (unchanged rpmverParse rpmverCmp) (common d) common_b.
Proof. eapply diff_spec_partition, diff_package_lists_spec. Qed.


(** Diffing in the other direction mirrors the result: removed and added
    packages swap, so do the old and the new side of every modification, and
    the common packages correspond one to one.  librpm's version comparison is
    assumed to be a comparison function. *)
Theorem diff_package_lists_mirror `{!CmpOrder rpmverCmp} a b :
  let d := rpm_ostree_diff_package_lists rpmverParse rpmverCmp a b in
  let d' := rpm_ostree_diff_package_lists rpmverParse rpmverCmp b a in
  unique_a d' = unique_b d ∧ unique_b d' = unique_a d ∧
  modified_a d' = modified_b d ∧ modified_b d' = modified_a d ∧
  Forall2 (unchanged rpmverParse rpmverCmp) (common d) (common d').
Proof.
  intros d d'.
  destruct (diff_spec_swap rpmverParse rpmverCmp a b d) as (c&Hc&?);
    [apply diff_package_lists_spec|].
  pose proof (diff_spec_det _ _ _ _ _ _ Hc (diff_package_lists_spec rpmverParse rpmverCmp b a)) as E.
  change (rpm_ostree_diff_package_lists _ _ b a) with d' in E. by rewrite <-E.
Qed.
(** The order packages are stored in ([rpm_ostree_package_cmp]: name, then
    version, then architecture) gives the diff the order it needs (name, then
    architecture) as long as the packages of one name have one version, the
    usual multilib situation. *)
Theorem package_sorted_na_sorted l :
  StronglySorted (λ p q, rpm_ostree_package_cmp rpmverParse rpmverCmp p q < 0)%Z l →
  (∀ p q, p ∈ l → q ∈ l → p_name p = p_name q →
    evr_cmp rpmverParse rpmverCmp (p_evr p) (p_evr q) = 0%Z) →
  na_sorted l.
Proof.
  induction 1 as [|p l Hl IH Hp]; intros Hevr; constructor.
  - apply IH. set_solver.
  - rewrite Forall_forall in Hp |- *. intros q Hq. specialize (Hp q Hq).
    unfold rpm_ostree_package_cmp, na_cmp, cmp_then in *.
    destruct (decide (strcmp (p_name p) (p_name q) = 0%Z)) as [E|E]; [|done].
    rewrite decide_True in Hp by (apply Hevr; [set_solver..|by apply strcmp_eq]). done.
Qed.

(** The arch-change rule only looks ahead.  Two packages of one name, of
    which the first sorts before the new package's architecture, against one
    package of that name with a third architecture: the last one is reported as
    "modified", although the name is not a single package on the old side. *)
Theorem diff_multilib_arch_change p1 p2 q :
  p_name p1 = p_name q → p_name p2 = p_name q →
  (strcmp (p_arch p1) (p_arch q) < 0)%Z → p_arch p2 ≠ p_arch q →
  rpm_ostree_diff_package_lists rpmverParse rpmverCmp [p1; p2] [q] =
    PkgDiff [p1] [] [p2] [q] [].
Proof.
  intros H1 H2 Ha Hb. eapply diff_spec_det; [apply diff_package_lists_spec|].
  apply (DS_unique_a _ _ p1 [p2] q [] (PkgDiff [] [] [p2] [q] [])).
  - by rewrite na_cmp_arch.
  - intros (_&_&Hn&_). simpl in Hn. by rewrite bool_decide_true in Hn by congruence.
  - apply (DS_arch_change _ _ p2 [] q [] empty_diff); [by repeat split|constructor].
Qed.

(** Asking for a diff with RPM_OSTREE_DB_DIFF_EXT_ALLOW_NOENT of a commit
    without package metadata and without an rpmdb aborts the process, although
    the flag is documented not to error out in this situation. *)
Theorem db_diff_allow_noent_aborts repo orig_ref new_ref checksum :
  repo_resolve_rev repo orig_ref = Ok checksum →
  repo_commit_pkglist repo checksum = Ok None →
  shlib_ipc_pkglist repo orig_ref = Ok None →
  rpm_ostree_db_diff_ext rpmverParse rpmverCmp repo orig_ref new_ref
    RPM_OSTREE_DB_DIFF_EXT_ALLOW_NOENT = Abort.
Proof.
  intros H1 H2 H3. unfold rpm_ostree_db_diff_ext, rpm_ostree_package_list_for_commit,
    rpm_ostree_package_variant_list_for_commit.
  by rewrite H1; simpl; rewrite H2; simpl; rewrite H3.
Qed.

(** The D-Bus diff: on the output of a package-list diff
    [rpm_ostree_db_diff_variant] never fails its assertion, and produces exactly
    one entry per modified pair (typed by the version comparison), per removed
    and per added package, sorted by type and then by name. *)
Theorem diff_variants_complete a b :
  let d := rpm_ostree_diff_package_lists rpmverParse rpmverCmp a b in
  ∃ vs, diff_variants rpmverParse rpmverCmp d = Ok vs ∧
    vs ≡ₚ zip_with (modified_variant rpmverParse rpmverCmp) (modified_a d) (modified_b d) ++
      ((λ p, build_diff_variant (p_name p) RPM_OSTREE_PACKAGE_REMOVED (Some p) None) <$> unique_a d) ++
      ((λ p, build_diff_variant (p_name p) RPM_OSTREE_PACKAGE_ADDED None (Some p)) <$> unique_b d) ∧
    length vs = length (modified_a d) + length (unique_a d) + length (unique_b d) ∧
    Sorted (λ v w, rpm_ostree_db_diff_variant_compare_by_type v w ≤ 0)%Z vs.
Proof.
  intros d. unfold diff_variants.
  destruct (diff_spec_partition rpmverParse rpmverCmp a b d) as (cb&_&_&Hm%Forall2_length&_);
    [apply diff_package_lists_spec|].
  rewrite bool_decide_true by done. simpl. eexists. split; [done|].
  split; [apply g_ptr_array_sort_perm|]. split.
  - rewrite g_ptr_array_sort_perm, !length_app, length_zip_with, !length_fmap. lia.
  - apply g_ptr_array_sort_sorted, _.
Qed.
End properties.

(** Concrete inputs: [strcmp] stands for librpm's comparison (on these versions
    it agrees), packages are built from their variants. *)
Definition ex_pkg (name version arch : string) : RpmOstreePackage :=
  rpm_ostree_package_new_from_variant (NevraV name "0" version "1" arch).

Definition ex_old : list RpmOstreePackage :=
  [ex_pkg "bash" "1" "x86_64"; ex_pkg "glibc" "1" "i686"; ex_pkg "glibc" "1" "x86_64";
   ex_pkg "vim" "1" "x86_64"].
Definition ex_new : list RpmOstreePackage :=
  [ex_pkg "bash" "2" "x86_64"; ex_pkg "glibc" "1" "x86_64"; ex_pkg "zsh" "1" "x86_64"].


Lemma diff_package_lists_mirror_witness :
  unique_a (rpm_ostree_diff_package_lists id strcmp ex_new ex_old) =
  unique_b (rpm_ostree_diff_package_lists id strcmp ex_old ex_new).
Proof. apply (diff_package_lists_mirror id strcmp ex_old ex_new). Defined.

Lemma package_sorted_na_sorted_witness : na_sorted ex_old.
Proof.
  apply (package_sorted_na_sorted id strcmp ex_old); [repeat constructor|].
  intros p q Hp Hq. unfold ex_old in *.
  repeat (apply elem_of_cons in Hp as [->|Hp]; [|]); try by apply not_elem_of_nil in Hp.
  all: repeat (apply elem_of_cons in Hq as [->|Hq]; [done|]); by apply not_elem_of_nil in Hq.
Defined.

Lemma diff_multilib_arch_change_witness :
  rpm_ostree_diff_package_lists id strcmp
    [ex_pkg "foo" "1" "i686"; ex_pkg "foo" "1" "x86_64"] [ex_pkg "foo" "1" "noarch"] =
  PkgDiff [ex_pkg "foo" "1" "i686"] [] [ex_pkg "foo" "1" "x86_64"] [ex_pkg "foo" "1" "noarch"] [].
Proof. apply (diff_multilib_arch_change id strcmp); done. Defined.

Definition ex_repo_no_rpmdb : pkglist_repo :=
  PkglistRepo (λ _, Ok "c0ffee") (λ _, Ok None)
    (λ _, impl_packagelist_from_commit (g_set_error G_IO_ERROR_NOT_FOUND "No such file")).

Lemma db_diff_allow_noent_aborts_witness :
  rpm_ostree_db_diff_ext id strcmp ex_repo_no_rpmdb "old" "new"
    RPM_OSTREE_DB_DIFF_EXT_ALLOW_NOENT = Abort.
Proof. apply (db_diff_allow_noent_aborts id strcmp _ _ _ "c0ffee"); reflexivity. Defined.

(** The stored order is not always the one the diff needs.  Two lists
    sorted by [rpm_ostree_package_cmp] can share a package that the diff reports
    both as removed and as added: packages of one name whose versions differ
    between architectures. *)
Theorem diff_stored_order_not_exact :
  ∃ a b p,
    Sorted (λ p q, rpm_ostree_package_cmp id strcmp p q ≤ 0)%Z a ∧
    Sorted (λ p q, rpm_ostree_package_cmp id strcmp p q ≤ 0)%Z b ∧
    p ∈ a ∧ p ∈ b ∧
    p ∈ unique_a (rpm_ostree_diff_package_lists id strcmp a b) ∧
    p ∈ unique_b (rpm_ostree_diff_package_lists id strcmp a b).
Proof.
  exists [ex_pkg "foo" "1" "x86_64"; ex_pkg "foo" "2" "i686"], [ex_pkg "foo" "2" "i686"],
    (ex_pkg "foo" "2" "i686").
  split_and!; [repeat constructor; done..| | | |].
  all: vm_compute; repeat (constructor; fail) || (repeat constructor).
Qed.
