(* ===== verification/DiffPrint.v ===== *)
(** The human- and script-readable renderings of a package diff, from
    [src/libpriv/rpmostree-util.cxx]: [rpmostree_generate_diff_summary],
    [rpmostree_diff_print_formatted], [rpmostree_diff_print] and the variant
    printers.  Standard output is the list of strings passed to [g_print]. *)

From S2P Require Import Prelude Package.

(** * Formatting *)

(** [%*s]: right-justified in a field of the given width. *)
Definition pad_left (width : nat) (s : string) : string :=
  String.concat "" (replicate (width - String.length s) " ") +:+ s.

(** One appended item of the summary loop. *)
Definition summary_step (summary : string) (item : nat * string) : string :=
  let '(n, desc) := item in
  if decide (n = 0) then summary
  else (if decide (0 < String.length summary) then summary +:+ ", " else summary)
       +:+ pretty n +:+ " " +:+ desc.

Definition rpmostree_generate_diff_summary (upgraded downgraded removed added : nat) : string :=
  foldl summary_step "" [(upgraded, "upgraded"); (downgraded, "downgraded");
                         (removed, "removed"); (added, "added")].

Inductive RpmOstreeDiffPrintFormat :=
  | RPMOSTREE_DIFF_PRINT_FORMAT_SUMMARY
  | RPMOSTREE_DIFF_PRINT_FORMAT_FULL_ALIGNED
  | RPMOSTREE_DIFF_PRINT_FORMAT_FULL_MULTILINE.

(** ["  %*s%s ..."] with the header and its colon on the first row only. *)
Definition aligned_key (max_key_len i : nat) (header : string) : string :=
  "  " +:+ pad_left max_key_len (if decide (i = 0) then header else "")
  +:+ (if decide (i = 0) then ":" else " ").

Definition change_text (oldpkg newpkg : RpmOstreePackage) : string :=
  p_name oldpkg +:+ " " +:+ p_evr oldpkg +:+ " -> " +:+ p_evr newpkg +:+ nl.

Definition header_with (prefix : option string) (h : string) : string :=
  match prefix with Some p => p +:+ h | None => h end.

(** * Three-way merge *)

(** What one iteration of a script-format loop reports. *)
Inductive diff_event (A : Type) :=
  | EvAdded (p : A)
  | EvRemoved (p : A)
  | EvModified (old new : A).
Arguments EvAdded {A} _.
Arguments EvRemoved {A} _.
Arguments EvModified {A} _ _.

Definition event_key {A} (e : diff_event A) : A :=
  match e with EvAdded p => p | EvRemoved p => p | EvModified old _ => old end.

Section merge.
Context {A : Type} `{!EqDecision A} (cmp : A → A → Z).

(** [pkg_cmp_end]: an exhausted list (NULL) sorts after everything. *)
Definition pkg_cmp_end (a b : option A) : Z :=
  match a, b with
  | _, None => -1
  | None, Some _ => 1
  | Some a, Some b => cmp a b
  end.

(** The [while] loop of [rpmostree_diff_print], from the current positions on:
    [a], [r] and [m] are the rests of [added], [removed] and the modified pairs.
    Every iteration consumes one element, so the sum of their lengths bounds the
    iterations; [Abort] stands for a failed [g_assert] and for running out of
    fuel, and [diff_print_loop_ok] shows that neither happens. *)
Fixpoint diff_print_loop (fuel : nat) (a r : list A) (m : list (A * A)) :
    outcome (list (diff_event A)) :=
  match fuel with
  | 0 => match a, r, m with [], [], [] => Ok [] | _, _, _ => Abort end
  | S fuel =>
      if decide (a = [] ∧ r = [] ∧ m = []) then Ok [] else
      let pkg_a := head a in
      let pkg_r := head r in
      let pkg_m := fst <$> head m in
      let add_is_first :=
        match a with
        | p :: a' => es ← diff_print_loop fuel a' r m; Ok (EvAdded p :: es)
        | [] => Abort
        end in
      if decide (pkg_cmp_end pkg_m pkg_r < 0)%Z then
        if decide (pkg_cmp_end pkg_m pkg_a < 0)%Z then
          match m with
          | (p, q) :: m' => es ← diff_print_loop fuel a r m'; Ok (EvModified p q :: es)
          | [] => Abort
          end
        else add_is_first
      else if decide (pkg_cmp_end pkg_r pkg_a < 0)%Z then
        match r with
        | p :: r' => es ← diff_print_loop fuel a r' m; Ok (EvRemoved p :: es)
        | [] => Abort
        end
      else add_is_first
  end.

(** The assertions of the loop: the element a branch takes is there. *)
Lemma cmp_end_None_l o : (pkg_cmp_end None o < 0)%Z → o = None.
Proof. destruct o; simpl; [lia|done]. Qed.

Lemma diff_print_loop_ok fuel a r m :
  length a + length r + length m ≤ fuel →
  ∃ es, diff_print_loop fuel a r m = Ok es ∧
    es ≡ₚ (EvAdded <$> a) ++ (EvRemoved <$> r) ++ (uncurry EvModified <$> m).
Proof.
  revert a r m. induction fuel as [|fuel IH]; intros a r m Hlen; simpl.
  { destruct a, r, m; simpl in *; try lia. eauto. }
  case_decide as Hend. { destruct Hend as (->&->&->). eauto. }
  assert (∀ p a', a = p :: a' → ∃ es,
    (es ← diff_print_loop fuel a' r m; Ok (EvAdded p :: es)) = Ok es ∧
    es ≡ₚ (EvAdded <$> a) ++ (EvRemoved <$> r) ++ (uncurry EvModified <$> m)) as Hadd.
  { intros p a' ->. destruct (IH a' r m) as (es&->&Hes); [simpl in *; lia|].
    eexists. split; [done|]. by rewrite Hes. }
  case_decide as Hmr; [case_decide as Hma|case_decide as Hra].
  - destruct m as [|[p q] m].
    { apply cmp_end_None_l in Hmr, Hma. destruct a, r; naive_solver. }
    destruct (IH a r m) as (es&->&Hes); [simpl in *; lia|].
    eexists. split; [done|]. rewrite Hes. simpl. by rewrite !(app_assoc _ (_ <$> r)), Permutation_middle.
  - destruct a as [|p a']; [|by apply (Hadd p a')]. destruct (fst <$> head m); simpl in Hma; lia.
  - destruct r as [|p r].
    { destruct (fst <$> head m); simpl in Hmr; lia. }
    destruct (IH a r m) as (es&->&Hes); [simpl in *; lia|].
    eexists. split; [done|]. rewrite Hes. simpl. by rewrite Permutation_middle.
  - destruct a as [|p a']; [|by apply (Hadd p a')]. destruct (head r); simpl in Hra; lia.
Qed.

Section sorted.
Context `{!CmpOrder cmp}.
Local Abbreviation pkg_sorted := (StronglySorted (λ p q, cmp p q ≤ 0)%Z).

Lemma cmp_end_le x l :
  pkg_sorted l → (pkg_cmp_end (Some x) (head l) ≤ 0)%Z → Forall (λ y, cmp x y ≤ 0)%Z l.
Proof.
  destruct l as [|h l]; [by constructor|]. intros [_ Hh]%StronglySorted_inv Hx.
  constructor; [done|]. eapply Forall_impl; [exact Hh|]. simpl. intros y ?.
  by apply (cmp_trans x h y).
Qed.

Lemma cmp_end_flip o x : ¬ (pkg_cmp_end o (Some x) < 0)%Z → (pkg_cmp_end (Some x) o ≤ 0)%Z.
Proof.
  destruct o as [y|]; simpl; [|lia]. pose proof (cmp_sgn x y). lia.
Qed.

Lemma cmp_end_trans x o o' :
  (pkg_cmp_end (Some x) o ≤ 0)%Z → (pkg_cmp_end o o' ≤ 0)%Z → (pkg_cmp_end (Some x) o' ≤ 0)%Z.
Proof.
  destruct o as [y|], o' as [z|]; simpl; try lia. apply (cmp_trans x y z).
Qed.

(** The chosen package is a least one of all that remain. *)
Lemma event_key_least x a r (m : list (A * A)) es :
  pkg_sorted a → pkg_sorted r → pkg_sorted m.*1 →
  (pkg_cmp_end (Some x) (head a) ≤ 0)%Z → (pkg_cmp_end (Some x) (head r) ≤ 0)%Z →
  (pkg_cmp_end (Some x) (fst <$> head m) ≤ 0)%Z →
  es ≡ₚ (EvAdded <$> a) ++ (EvRemoved <$> r) ++ (uncurry EvModified <$> m) →
  Forall (λ e, cmp x (event_key e) ≤ 0)%Z es.
Proof.
  intros Ha Hr Hm Hxa Hxr Hxm ->.
  assert (fst <$> head m = head m.*1) as Eh by by destruct m.
  rewrite Eh in Hxm. rewrite !Forall_app, !Forall_fmap. split_and!.
  - by apply cmp_end_le.
  - by apply cmp_end_le.
  - apply cmp_end_le in Hxm; [|done]. rewrite Forall_fmap in Hxm.
    eapply Forall_impl; [exact Hxm|]. by intros [??].
Qed.

Lemma diff_print_loop_sorted fuel a r m es :
  diff_print_loop fuel a r m = Ok es → length a + length r + length m ≤ fuel →
  pkg_sorted a → pkg_sorted r → pkg_sorted m.*1 →
  StronglySorted (λ e e', cmp (event_key e) (event_key e') ≤ 0)%Z es.
Proof.
  revert a r m es. induction fuel as [|fuel IH]; intros a r m es Hes Hlen Ha Hr Hm; simpl in Hes.
  { destruct a, r, m; simplify_eq/=; try constructor; lia. }
  case_decide as Hend; [simplify_eq; constructor|].
  assert (∀ e es', es = e :: es' → es ≡ₚ (EvAdded <$> a) ++ (EvRemoved <$> r) ++
      (uncurry EvModified <$> m) → (pkg_cmp_end (Some (event_key e)) (head a) ≤ 0)%Z →
      (pkg_cmp_end (Some (event_key e)) (head r) ≤ 0)%Z →
      (pkg_cmp_end (Some (event_key e)) (fst <$> head m) ≤ 0)%Z →
      Forall (λ e', cmp (event_key e) (event_key e') ≤ 0)%Z es') as Hleast.
  { intros e es' -> Hp ???. eapply Forall_inv_tail, (event_key_least _ a r m); eauto. }
  destruct (diff_print_loop_ok (S fuel) a r m Hlen) as (es0&Hes0&Hperm). simpl in Hes0.
  rewrite decide_False in Hes0 by done. rewrite Hes in Hes0. injection Hes0 as <-.
  case_decide as Hmr; [case_decide as Hma|case_decide as Hra].
  - destruct m as [|[p q] m]; [done|]. apply bind_ok in Hes as (es'&Hl&[= <-]).
    constructor; [apply (IH a r m); [done|simpl in *; lia|(done || by inversion Hm)..]|].
    eapply Hleast; [done|done|simpl in *; try lia..]. simpl. rewrite cmp_refl. lia.
  - destruct a as [|p a]; [done|]. apply bind_ok in Hes as (es'&Hl&[= <-]).
    constructor; [apply (IH a r m); [done|simpl in *; lia|(done || by inversion Ha)..]|].
    apply cmp_end_flip in Hma.
    eapply Hleast; [done|done| | |done]; simpl; [rewrite cmp_refl; lia|].
    eapply cmp_end_trans; [done|lia].
  - destruct r as [|p r]; [done|]. apply bind_ok in Hes as (es'&Hl&[= <-]).
    constructor; [apply (IH a r m); [done|simpl in *; lia|(done || by inversion Hr)..]|].
    apply cmp_end_flip in Hmr.
    eapply Hleast; [done|done|simpl in *; lia| |done]; simpl. rewrite cmp_refl; lia.
  - destruct a as [|p a]; [done|]. apply bind_ok in Hes as (es'&Hl&[= <-]).
    constructor; [apply (IH a r m); [done|simpl in *; lia|(done || by inversion Ha)..]|].
    apply cmp_end_flip in Hra.
    eapply Hleast; [done|done| |done|]; simpl; [rewrite cmp_refl; lia|].
    destruct r as [|q r]; [destruct (fst <$> head m); simpl in Hmr; lia|].
    apply cmp_end_flip in Hmr. by eapply cmp_end_trans.
Qed.
End sorted.
End merge.

Section print.
Context {rpmver : Type} (rpmverParse : string → rpmver) (rpmverCmp : rpmver → rpmver → Z).
Local Abbreviation package_cmp := (rpm_ostree_package_cmp rpmverParse rpmverCmp).

(** The upgrade loop from index [i] on; returns what it prints and the final
    value of [upgraded]. *)
Fixpoint print_upgraded (format : RpmOstreeDiffPrintFormat) (prefix : option string)
    (max_key_len i upgraded : nat) (modified : list (RpmOstreePackage * RpmOstreePackage)) :
    list string * nat :=
  match modified with
  | [] => ([], upgraded)
  | (oldpkg, newpkg) :: rest =>
      if decide (package_cmp oldpkg newpkg > 0)%Z
      then print_upgraded format prefix max_key_len (S i) upgraded rest
      else
        let out :=
          match format with
          | RPMOSTREE_DIFF_PRINT_FORMAT_SUMMARY => []
          | RPMOSTREE_DIFF_PRINT_FORMAT_FULL_ALIGNED =>
              [aligned_key max_key_len i "Upgraded" +:+ " " +:+ change_text oldpkg newpkg]
          | RPMOSTREE_DIFF_PRINT_FORMAT_FULL_MULTILINE =>
              (if decide (upgraded = 0) then [header_with prefix "Upgraded:" +:+ nl] else []) ++
              ["  " +:+ change_text oldpkg newpkg]
          end in
        let '(out', n) := print_upgraded format prefix max_key_len (S i) (S upgraded) rest in
        (out ++ out', n)
  end.

Fixpoint print_downgraded (format : RpmOstreeDiffPrintFormat) (prefix : option string)
    (max_key_len i downgraded : nat) (modified : list (RpmOstreePackage * RpmOstreePackage)) :
    list string * nat :=
  match modified with
  | [] => ([], downgraded)
  | (oldpkg, newpkg) :: rest =>
      if decide (package_cmp oldpkg newpkg < 0)%Z
      then print_downgraded format prefix max_key_len (S i) downgraded rest
      else
        let out :=
          match format with
          | RPMOSTREE_DIFF_PRINT_FORMAT_SUMMARY => []
          | RPMOSTREE_DIFF_PRINT_FORMAT_FULL_ALIGNED =>
              [aligned_key max_key_len i (header_with prefix "Downgraded")
               +:+ " " +:+ change_text oldpkg newpkg]
          | RPMOSTREE_DIFF_PRINT_FORMAT_FULL_MULTILINE =>
              (if decide (downgraded = 0) then [header_with prefix "Downgraded:" +:+ nl] else []) ++
              ["  " +:+ change_text oldpkg newpkg]
          end in
        let '(out', n) := print_downgraded format prefix max_key_len (S i) (S downgraded) rest in
        (out ++ out', n)
  end.

(** The loops over removed and over added packages; the summary format has
    returned before, so there it is [g_assert_not_reached]. *)
Fixpoint print_singles (format : RpmOstreeDiffPrintFormat) (prefix : option string)
    (max_key_len : nat) (label : string) (i : nat) (pkgs : list RpmOstreePackage) :
    outcome (list string) :=
  match pkgs with
  | [] => Ok []
  | pkg :: rest =>
      out ←
        match format with
        | RPMOSTREE_DIFF_PRINT_FORMAT_FULL_ALIGNED =>
            Ok [aligned_key max_key_len i (header_with prefix label) +:+ " " +:+ p_nevra pkg +:+ nl]
        | RPMOSTREE_DIFF_PRINT_FORMAT_FULL_MULTILINE =>
            Ok ((if decide (i = 0) then [header_with prefix label +:+ ":" +:+ nl] else []) ++
                ["  " +:+ p_nevra pkg +:+ nl])
        | RPMOSTREE_DIFF_PRINT_FORMAT_SUMMARY => Abort
        end;
      out' ← print_singles format prefix max_key_len label (S i) rest;
      Ok (out ++ out')
  end.

Definition rpmostree_diff_print_formatted (format : RpmOstreeDiffPrintFormat)
    (prefix : option string) (max_key_len : nat)
    (removed added modified_old modified_new : list RpmOstreePackage) : outcome (list string) :=
  _ ← g_assert (bool_decide (length modified_old = length modified_new));
  let modified := zip modified_old modified_new in
  let '(out_up, upgraded) := print_upgraded format prefix max_key_len 0 0 modified in
  let '(out_down, downgraded) := print_downgraded format prefix max_key_len 0 0 modified in
  match format with
  | RPMOSTREE_DIFF_PRINT_FORMAT_SUMMARY =>
      let diff_summary :=
        rpmostree_generate_diff_summary upgraded downgraded (length removed) (length added) in
      Ok (out_up ++ out_down ++
          if decide (0 < String.length diff_summary)
          then ["  " +:+ pad_left max_key_len (header_with prefix "Diff") +:+ ": "
                +:+ diff_summary +:+ nl]
          else [])
  | _ =>
      out_removed ← print_singles format prefix max_key_len "Removed" 0 removed;
      out_added ← print_singles format prefix max_key_len "Added" 0 added;
      Ok (out_up ++ out_down ++ out_removed ++ out_added)
  end.

(** * The script format *)

Definition render_event (e : diff_event RpmOstreePackage) : list string :=
  match e with
  | EvAdded p => ["+" +:+ p_nevra p +:+ nl]
  | EvRemoved p => ["-" +:+ p_nevra p +:+ nl]
  | EvModified old new => ["!" +:+ p_nevra old +:+ nl; "=" +:+ p_nevra new +:+ nl]
  end.

Definition diff_print_events (removed added modified_old modified_new : list RpmOstreePackage) :
    outcome (list (diff_event RpmOstreePackage)) :=
  _ ← g_assert (bool_decide (length modified_old = length modified_new));
  diff_print_loop package_cmp (length added + length removed + length modified_old)
    added removed (zip modified_old modified_new).

Definition rpmostree_diff_print (removed added modified_old modified_new : list RpmOstreePackage) :
    outcome (list string) :=
  es ← diff_print_events removed added modified_old modified_new;
  Ok (es ≫= render_event).
End print.

(** * Printing the D-Bus form *)

(** A [(us(ss)(ss))] child: package type, name, old and new (evr, arch). *)
Record modified_v := ModifiedV {
  mv_type : Z; mv_name : string;
  mv_old : string * string; mv_new : string * string;
}.
(** A [(usss)] child. *)
Record single_v := SingleV {
  sv_type : Z; sv_name : string; sv_evr : string; sv_arch : string;
}.

Definition variant_diff_print_modified (max_key_len : nat) (modified : list modified_v)
    (type : string) : list string :=
  imap (λ i v, aligned_key max_key_len i type +:+ " " +:+ mv_name v +:+ " " +:+ fst (mv_old v)
                 +:+ " -> " +:+ fst (mv_new v) +:+ nl) modified.

Definition variant_diff_print_singles (max_key_len : nat) (singles : list single_v)
    (type : string) : list string :=
  imap (λ i v, aligned_key max_key_len i type +:+ " " +:+ sv_name v +:+ "-" +:+ sv_evr v
                 +:+ "." +:+ sv_arch v +:+ nl) singles.

Definition rpmostree_variant_diff_print_formatted (max_key_len : nat)
    (upgraded downgraded : list modified_v) (removed added : list single_v) : list string :=
  variant_diff_print_modified max_key_len upgraded "Upgraded" ++
  variant_diff_print_modified max_key_len downgraded "Downgraded" ++
  variant_diff_print_singles max_key_len removed "Removed" ++
  variant_diff_print_singles max_key_len added "Added".

(** * Properties of the formatted output *)

(** The reference reading of the summary: the non-zero counts, comma-separated. *)
Definition summary_items (items : list (nat * string)) : list string :=
  omap (λ '(n, desc), if decide (n = 0) then None else Some (pretty n +:+ " " +:+ desc)) items.

Lemma summary_item_nonempty (n : nat) (desc : string) : pretty n +:+ " " +:+ desc ≠ "".
Proof. intros H%(f_equal String.length). rewrite !str_app_length in H. simpl in H. lia. Qed.

Lemma summary_step_nonempty s items :
  s ≠ "" →
  foldl summary_step s items = s +:+ foldr (λ y acc, ", " +:+ y +:+ acc) "" (summary_items items).
Proof.
  revert s. induction items as [|[n desc] items IH]; intros s Hs; simpl.
  { by rewrite str_app_nil_r. }
  case_decide; [by apply IH|].
  rewrite (decide_True (P := 0 < _)) by (destruct s; simpl; [done|lia]).
  rewrite IH by (destruct s; [done|by rewrite !str_app_cons]). simpl.
  by rewrite <-!str_app_assoc.
Qed.

Lemma diff_summary_concat items :
  foldl summary_step "" items = String.concat ", " (summary_items items).
Proof.
  induction items as [|[n desc] items IH]; [done|]. simpl.
  case_decide; [done|].
  rewrite str_concat_cons, summary_step_nonempty; [done|apply summary_item_nonempty].
Qed.

Section formatted_properties.
Context {rpmver : Type} (rpmverParse : string → rpmver) (rpmverCmp : rpmver → rpmver → Z).
Local Abbreviation package_cmp := (rpm_ostree_package_cmp rpmverParse rpmverCmp).

(** The pairs the upgrade loop and the downgrade loop act on. *)
Definition upgrades (ms : list (RpmOstreePackage * RpmOstreePackage)) :=
  filter (λ pq, package_cmp pq.1 pq.2 ≤ 0)%Z ms.
Definition downgrades (ms : list (RpmOstreePackage * RpmOstreePackage)) :=
  filter (λ pq, 0 ≤ package_cmp pq.1 pq.2)%Z ms.

Lemma print_upgraded_count format prefix w i n ms :
  (print_upgraded rpmverParse rpmverCmp format prefix w i n ms).2 = n + length (upgrades ms).
Proof.
  revert i n. induction ms as [|[p q] ms IH]; intros i n; simpl; [lia|].
  unfold upgrades in *. rewrite filter_cons. simpl.
  destruct (decide (package_cmp p q > 0)%Z);
    [rewrite (decide_False (P := (_ ≤ 0)%Z)) by lia; apply IH|].
  rewrite (decide_True (P := (_ ≤ 0)%Z)) by lia. destruct (print_upgraded _ _ _ _ _ _ _ _) as [out m] eqn:E.
  specialize (IH (S i) (S n)). rewrite E in IH. simpl in *. lia.
Qed.

Lemma print_downgraded_count format prefix w i n ms :
  (print_downgraded rpmverParse rpmverCmp format prefix w i n ms).2 = n + length (downgrades ms).
Proof.
  revert i n. induction ms as [|[p q] ms IH]; intros i n; simpl; [lia|].
  unfold downgrades in *. rewrite filter_cons. simpl.
  destruct (decide (package_cmp p q < 0)%Z);
    [rewrite (decide_False (P := (0 ≤ _)%Z)) by lia; apply IH|].
  rewrite (decide_True (P := (0 ≤ _)%Z)) by lia. destruct (print_downgraded _ _ _ _ _ _ _ _) as [out m] eqn:E.
  specialize (IH (S i) (S n)). rewrite E in IH. simpl in *. lia.
Qed.

Lemma print_summary_silent prefix w i n ms :
  (print_upgraded rpmverParse rpmverCmp RPMOSTREE_DIFF_PRINT_FORMAT_SUMMARY prefix w i n ms).1 = [] ∧
  (print_downgraded rpmverParse rpmverCmp RPMOSTREE_DIFF_PRINT_FORMAT_SUMMARY prefix w i n ms).1 = [].
Proof.
  revert i n. induction ms as [|[p q] ms IH]; intros i n; simpl; [done|].
  destruct (IH (S i) n) as [H1 H2], (IH (S i) (S n)) as [H3 H4].
  split; case_decide; try done;
    [destruct (print_upgraded _ _ _ _ _ _ (S n) ms)|destruct (print_downgraded _ _ _ _ _ _ (S n) ms)];
    by simpl in *.
Qed.

Lemma changed_cmp_nonzero p q :
  changed rpmverParse rpmverCmp p q → package_cmp p q ≠ 0%Z.
Proof.
  intros [Hn Hv]. unfold rpm_ostree_package_cmp, cmp_then. apply strcmp_eq in Hn.
  rewrite (decide_True _ _ Hn). case_decide; [|done].
  intros Ha%strcmp_eq. by apply Hv in Ha.
Qed.

Lemma upgrades_downgrades_split ms :
  Forall (λ pq, package_cmp pq.1 pq.2 ≠ 0%Z) ms →
  length (upgrades ms) + length (downgrades ms) = length ms.
Proof.
  induction 1 as [|[p q] ms Hpq _ IH]; [done|].
  unfold upgrades, downgrades in *. rewrite !filter_cons. simpl in *.
  destruct (decide (package_cmp p q ≤ 0)%Z);
    [rewrite (decide_False (P := (0 ≤ _)%Z)) by lia|rewrite (decide_True (P := (0 ≤ _)%Z)) by lia];
    simpl; lia.
Qed.

Lemma diff_modified_nonzero a b :
  let d := rpm_ostree_diff_package_lists rpmverParse rpmverCmp a b in
  length (modified_a d) = length (modified_b d) ∧
  Forall (λ pq, package_cmp pq.1 pq.2 ≠ 0%Z) (zip (modified_a d) (modified_b d)).
Proof.
  intros d. destruct (diff_spec_partition rpmverParse rpmverCmp a b d) as (cb&_&_&Hm&_);
    [apply diff_package_lists_spec|].
  split; [by eapply Forall2_length|].
  induction Hm; simpl; constructor; auto using changed_cmp_nonzero.
Qed.

Lemma print_upgraded_aligned_tail prefix w i n ms :
  0 < i →
  (print_upgraded rpmverParse rpmverCmp RPMOSTREE_DIFF_PRINT_FORMAT_FULL_ALIGNED prefix w i n ms).1 =
  (λ pq, aligned_key w 1 "" +:+ " " +:+ change_text pq.1 pq.2) <$> upgrades ms.
Proof.
  revert i n. induction ms as [|[p q] ms IH]; intros i n Hi; simpl; [done|].
  unfold upgrades in *. rewrite filter_cons. simpl.
  destruct (decide (package_cmp p q > 0)%Z);
    [rewrite (decide_False (P := (_ ≤ 0)%Z)) by lia; apply IH; lia|].
  rewrite (decide_True (P := (_ ≤ 0)%Z)) by lia. destruct (print_upgraded _ _ _ _ _ _ _ _) as [out m] eqn:E.
  specialize (IH (S i) (S n) ltac:(lia)). rewrite E in IH. simpl in *. rewrite IH.
  by destruct i; [lia|].
Qed.

(** [rpmostree_diff_print] reports every change exactly once and never
    fails an assertion: its loop ends within as many iterations as there are
    packages, and its events are a permutation of the added, removed and modified
    packages given to it. *)
Theorem diff_print_complete removed added modified_old modified_new :
  length modified_old = length modified_new →
  ∃ es, diff_print_events rpmverParse rpmverCmp removed added modified_old modified_new = Ok es ∧
    es ≡ₚ (EvAdded <$> added) ++ (EvRemoved <$> removed) ++
          (uncurry EvModified <$> zip modified_old modified_new) ∧
    rpmostree_diff_print rpmverParse rpmverCmp removed added modified_old modified_new =
      Ok (es ≫= render_event).
Proof.
  intros Hlen. unfold rpmostree_diff_print, diff_print_events.
  rewrite bool_decide_true by done. simpl.
  destruct (diff_print_loop_ok package_cmp
    (length added + length removed + length modified_old) added removed
    (zip modified_old modified_new)) as (es&->&?); [rewrite length_zip; lia|]. eauto.
Qed.

(** On inputs sorted by [rpm_ostree_package_cmp] the script output is a
    merge: the events come out sorted by package (a modification by its old
    package), so additions, removals and changes of neighbouring packages stay
    together. *)
Theorem diff_print_sorted `{!CmpOrder rpmverCmp} removed added modified_old modified_new es :
  diff_print_events rpmverParse rpmverCmp removed added modified_old modified_new = Ok es →
  StronglySorted (λ p q, package_cmp p q ≤ 0)%Z removed →
  StronglySorted (λ p q, package_cmp p q ≤ 0)%Z added →
  StronglySorted (λ p q, package_cmp p q ≤ 0)%Z modified_old →
  StronglySorted (λ e e', package_cmp (event_key e) (event_key e') ≤ 0)%Z es.
Proof.
  unfold diff_print_events. case_bool_decide; [|done]. simpl. intros Hes Hr Ha Hm.
  apply (diff_print_loop_sorted package_cmp _ _ _ _ _ Hes); try done.
  - rewrite length_zip; lia.
  - rewrite fst_zip by lia. done.
Qed.

(** The summary line counts every modified package once.  On the output
    of a package-list diff the numbers of upgrades and downgrades add up to the
    number of modified packages, and the printed line (none when nothing changed)
    is the comma-separated list of the non-zero counts. *)
Theorem diff_summary_counts prefix w a b :
  let d := rpm_ostree_diff_package_lists rpmverParse rpmverCmp a b in
  let ms := zip (modified_a d) (modified_b d) in
  length (upgrades ms) + length (downgrades ms) = length (modified_a d) ∧
  let text := String.concat ", " (summary_items
    [(length (upgrades ms), "upgraded"); (length (downgrades ms), "downgraded");
     (length (unique_a d), "removed"); (length (unique_b d), "added")]) in
  rpmostree_diff_print_formatted rpmverParse rpmverCmp RPMOSTREE_DIFF_PRINT_FORMAT_SUMMARY
    prefix w (unique_a d) (unique_b d) (modified_a d) (modified_b d) =
  Ok (if decide (0 < String.length text)
      then ["  " +:+ pad_left w (header_with prefix "Diff") +:+ ": " +:+ text +:+ nl] else []).
Proof.
  intros d ms. destruct (diff_modified_nonzero a b) as [Hlen Hnz]. fold d in Hlen, Hnz. fold ms in Hnz.
  split. { rewrite upgrades_downgrades_split by done. unfold ms. rewrite length_zip. lia. }
  intros text. unfold rpmostree_diff_print_formatted. rewrite bool_decide_true by done. simpl.
  fold ms. pose proof (print_upgraded_count RPMOSTREE_DIFF_PRINT_FORMAT_SUMMARY prefix w 0 0 ms) as Hu.
  pose proof (print_downgraded_count RPMOSTREE_DIFF_PRINT_FORMAT_SUMMARY prefix w 0 0 ms) as Hd.
  destruct (print_summary_silent prefix w 0 0 ms) as [Hou Hod].
  destruct (print_upgraded _ _ _ _ _ _ _ ms), (print_downgraded _ _ _ _ _ _ _ ms); simpl in *.
  subst. unfold rpmostree_generate_diff_summary. by rewrite diff_summary_concat.
Qed.

(** The aligned format loses its "Upgraded" label when the first modified
    package is a downgrade: the label is tied to the index in the array and not
    to the first upgrade, so every upgrade is printed as a continuation row. *)
Theorem aligned_upgraded_label_lost prefix w old new ms :
  (package_cmp old new > 0)%Z →
  (print_upgraded rpmverParse rpmverCmp RPMOSTREE_DIFF_PRINT_FORMAT_FULL_ALIGNED
     prefix w 0 0 ((old, new) :: ms)).1 =
  (λ pq, "  " +:+ pad_left w "" +:+ " " +:+ " " +:+ change_text pq.1 pq.2) <$> upgrades ms.
Proof.
  intros Hgt. simpl. rewrite decide_True by done. rewrite print_upgraded_aligned_tail by lia.
  apply list_fmap_ext. intros i [p q] _. unfold aligned_key. simpl. by rewrite <-!str_app_assoc.
Qed.
End formatted_properties.

(** * Witnesses *)

Definition ex_diff : pkg_diff := rpm_ostree_diff_package_lists id strcmp ex_old ex_new.

Lemma diff_print_complete_witness :
  ∃ es, diff_print_events id strcmp (unique_a ex_diff) (unique_b ex_diff)
    (modified_a ex_diff) (modified_b ex_diff) = Ok es ∧ length es = 4.
Proof.
  destruct (diff_print_complete id strcmp (unique_a ex_diff) (unique_b ex_diff)
    (modified_a ex_diff) (modified_b ex_diff)) as (es&?&Hp&_); [reflexivity|].
  exists es. split; [done|]. by rewrite Hp.
Defined.

Lemma diff_print_sorted_witness :
  StronglySorted (λ e e', rpm_ostree_package_cmp id strcmp (event_key e) (event_key e') ≤ 0)%Z
    [EvModified (ex_pkg "bash" "1" "x86_64") (ex_pkg "bash" "2" "x86_64");
     EvRemoved (ex_pkg "glibc" "1" "i686"); EvRemoved (ex_pkg "vim" "1" "x86_64");
     EvAdded (ex_pkg "zsh" "1" "x86_64")].
Proof.
  apply (diff_print_sorted id strcmp (unique_a ex_diff) (unique_b ex_diff)
    (modified_a ex_diff) (modified_b ex_diff));
    [vm_compute; reflexivity|repeat constructor; vm_compute; discriminate..].
Defined.

Lemma aligned_upgraded_label_lost_witness :
  (print_upgraded id strcmp RPMOSTREE_DIFF_PRINT_FORMAT_FULL_ALIGNED None 8 0 0
    [(ex_pkg "bash" "2" "x86_64", ex_pkg "bash" "1" "x86_64");
     (ex_pkg "vim" "1" "x86_64", ex_pkg "vim" "2" "x86_64")]).1 =
  ["            vim 1-1 -> 2-1" +:+ nl].
Proof.
  rewrite (aligned_upgraded_label_lost id strcmp); [vm_compute; reflexivity|].
  vm_compute. reflexivity.
Defined.
