(* ===== verification/Nevra.v ===== *)
(** Package names and cache branches: the NEVRA strings and the quoting of
    package identities into ostree branch names of
    [src/libpriv/rpmostree-rpm-util.cxx], the checksum-prefixed NEVRAs of
    [src/libpriv/rpmostree-util.cxx], and the inverse direction
    ([cache_branch_to_nevra], [rust/src/rpmutils.rs]). *)

From S2P Require Import Prelude.

(** * NEVRA strings *)

(** [RpmOstreePkgNevraFlags] are bits of an [int]. *)
Definition PKG_NEVRA_FLAGS_NAME : Z := Z.shiftl 1 0.
Definition PKG_NEVRA_FLAGS_EPOCH_VERSION_RELEASE : Z := Z.shiftl 1 1.
Definition PKG_NEVRA_FLAGS_EVR : Z := PKG_NEVRA_FLAGS_EPOCH_VERSION_RELEASE.
Definition PKG_NEVRA_FLAGS_VERSION_RELEASE : Z := Z.shiftl 1 2.
Definition PKG_NEVRA_FLAGS_ARCH : Z := Z.shiftl 1 3.

Definition has_flag (flags f : Z) : bool := negb (Z.land flags f =? 0)%Z.

(** [rpmostree_custom_nevra] appends to a [GString]; [buffer->len] is compared
    with its length at entry, so what matters is what was appended since. *)
Definition rpmostree_custom_nevra (buffer name : string) (epoch : N)
    (version release arch : string) (flags : Z) : string :=
  let original_len := String.length buffer in
  let b1 := if has_flag flags PKG_NEVRA_FLAGS_NAME then buffer +:+ name else buffer in
  let b2 :=
    if has_flag flags (Z.lor PKG_NEVRA_FLAGS_EPOCH_VERSION_RELEASE PKG_NEVRA_FLAGS_VERSION_RELEASE)
    then
      let b := if decide (original_len < String.length b1) then b1 +:+ "-" else b1 in
      let b := if has_flag flags PKG_NEVRA_FLAGS_EPOCH_VERSION_RELEASE && (0 <? epoch)%N
               then b +:+ pretty epoch +:+ ":" else b in
      b +:+ version +:+ "-" +:+ release
    else b1 in
  if has_flag flags PKG_NEVRA_FLAGS_ARCH
  then (if decide (original_len < String.length b2) then b2 +:+ "." else b2) +:+ arch
  else b2.

Definition rpmostree_custom_nevra_strdup (name : string) (epoch : N)
    (version release arch : string) (flags : Z) : string :=
  rpmostree_custom_nevra "" name epoch version release arch flags.

(** One [%changelog] entry: the tags CHANGELOGTIME, CHANGELOGNAME, CHANGELOGTEXT. *)
Record changelog_entry := Changelog { cl_date : N; cl_name : string; cl_text : string }.

(** The tags of an rpm [Header] that this code reads; SOURCERPM may be missing,
    the changelog is newest first. *)
Record Header := MkHeader {
  h_name : string; h_epoch : N; h_version : string; h_release : string; h_arch : string;
  h_sourcerpm : option string; h_changelog : list changelog_entry;
}.

Definition rpmostree_header_custom_nevra_strdup (h : Header) (flags : Z) : string :=
  rpmostree_custom_nevra_strdup (h_name h) (h_epoch h) (h_version h) (h_release h) (h_arch h) flags.

Definition pkg_nevra_strdup (h : Header) : string :=
  rpmostree_header_custom_nevra_strdup h
    (Z.lor (Z.lor PKG_NEVRA_FLAGS_NAME PKG_NEVRA_FLAGS_EVR) PKG_NEVRA_FLAGS_ARCH).
Definition pkg_na_strdup (h : Header) : string :=
  rpmostree_header_custom_nevra_strdup h (Z.lor PKG_NEVRA_FLAGS_NAME PKG_NEVRA_FLAGS_ARCH).
Definition pkg_nvr_strdup (h : Header) : string :=
  rpmostree_header_custom_nevra_strdup h
    (Z.lor PKG_NEVRA_FLAGS_NAME PKG_NEVRA_FLAGS_VERSION_RELEASE).
Definition pkg_evra_strdup (h : Header) : string :=
  rpmostree_header_custom_nevra_strdup h
    (Z.lor PKG_NEVRA_FLAGS_EPOCH_VERSION_RELEASE PKG_NEVRA_FLAGS_ARCH).

(** The legacy form, epoch first, that checksums are computed over. *)
Definition pkg_envra_strdup (h : Header) : string :=
  if (h_epoch h =? 0)%N
  then h_name h +:+ "-" +:+ h_version h +:+ "-" +:+ h_release h +:+ "." +:+ h_arch h
  else pretty (h_epoch h) +:+ ":" +:+ h_name h +:+ "-" +:+ h_version h +:+ "-"
       +:+ h_release h +:+ "." +:+ h_arch h.

(** * Quoting *)

Definition hex_digit (n : N) : ascii :=
  (if n <? 10 then ascii_of_N (48 + n) else ascii_of_N (55 + n))%N.

(** [printf "%02X"] of an [unsigned int]: hexadecimal, upper case, without
    leading zeros but at least two digits. *)
Fixpoint hex_go (fuel : nat) (v : N) (acc : string) : string :=
  match fuel with
  | 0 => acc
  | S fuel =>
      if (v =? 0)%N && (2 <=? String.length acc) then acc
      else hex_go fuel (N.shiftr v 4) (String (hex_digit (N.land v 15)) acc)
  end.
Definition printf_02X (v : N) : string := hex_go 8 v "".

(** A plain [char] passed through "...": sign-extended to 32 bits where [char]
    is signed (x86), zero-extended where it is not (ARM, POWER, s390). *)
Definition char_to_uint (char_signed : bool) (c : ascii) : N :=
  let v := N_of_ascii c in
  (if char_signed && (128 <=? v) then 2 ^ 32 - 256 + v else v)%N.

Definition g_ascii_isalnum (c : ascii) : bool :=
  let v := N_of_ascii c in
  ((48 <=? v) && (v <=? 57) || (65 <=? v) && (v <=? 90) || (97 <=? v) && (v <=? 122))%N.

(** What [append_quoted] appends for one character. *)
Definition quote_char (char_signed : bool) (c : ascii) : string :=
  if decide (c = "."%char ∨ c = "-"%char) then String c ""
  else if g_ascii_isalnum c then String c ""
  else if decide (c = "_"%char) then "__"
  else "_" +:+ printf_02X (char_to_uint char_signed c).

Fixpoint append_quoted (char_signed : bool) (r value : string) : string :=
  match value with
  | EmptyString => r
  | String c p => append_quoted char_signed (r +:+ quote_char char_signed c) p
  end.

(** [evr += 2] past a leading "0:". *)
Definition skip_zero_epoch (evr : string) : string :=
  match evr with
  | String "0" (String ":" rest) => rest
  | _ => evr
  end.

Definition get_branch_for_n_evr_a (char_signed : bool) (type name evr arch : string) : string :=
  let r := "rpmostree/" +:+ type +:+ "/" in
  let r := append_quoted char_signed r name +:+ "/" in
  let r := append_quoted char_signed r (skip_zero_epoch evr) +:+ "." in
  append_quoted char_signed r arch.

Definition rpmostree_get_cache_branch_for_n_evr_a (char_signed : bool) (name evr arch : string) :
    string :=
  get_branch_for_n_evr_a char_signed "pkg" name evr arch.

(** * Decomposing *)

(** [hy_split_nevra] of libdnf: [None] is a non-zero return. *)
Record split_nevra := SplitNevra {
  sn_name : string; sn_epoch : Z; sn_version : string; sn_release : string; sn_arch : string;
}.

Section decompose.
Context (hy_split_nevra : string → option split_nevra).

(** The [int] epoch is widened to [guint64]. *)
Definition rpmostree_decompose_nevra (nevra : string) : outcome (string * N * string * string * string) :=
  match hy_split_nevra nevra with
  | None => glnx_throw ("Failed to decompose NEVRA string '" +:+ nevra +:+ "'")
  | Some s => Ok (sn_name s, Z.to_N (sn_epoch s mod 2 ^ 64), sn_version s, sn_release s, sn_arch s)
  end.

Definition rpmostree_is_valid_nevra (subject : string) : bool :=
  is_ok (rpmostree_decompose_nevra subject).

Definition nevra_to_cache_branch (char_signed : bool) (nevra : string) : outcome string :=
  '(name, epoch, version, release, arch) ← rpmostree_decompose_nevra nevra;
  let evr := rpmostree_custom_nevra_strdup name epoch version release arch PKG_NEVRA_FLAGS_EVR in
  Ok (rpmostree_get_cache_branch_for_n_evr_a char_signed name evr arch).
End decompose.

(** [g_strndup]/pointer arithmetic on NUL-terminated strings. *)
Fixpoint str_take (n : nat) (s : string) : string :=
  match n, s with
  | S n, String c s => String c (str_take n s)
  | _, _ => ""
  end.
Fixpoint str_drop (n : nat) (s : string) : string :=
  match n, s with
  | S n, String c s => str_drop n s
  | 0, _ => s
  | _, EmptyString => ""
  end.

(** [rpmostree_decompose_sha256_nevra]: the pair of the NEVRA [*nevra] is moved
    to and the checksum; [validate] is [ostree_validate_checksum_string]. *)
Definition rpmostree_decompose_sha256_nevra (validate : string → outcome unit)
    (sha256_nevra : string) : outcome (string * string) :=
  if decide (String.length sha256_nevra < 66) then
    glnx_throw ("Invalid sha256-nevra: " +:+ sha256_nevra)
  else if decide (String.get 64 sha256_nevra ≠ Some ":"%char) then
    glnx_throw ("Invalid sha256-nevra: " +:+ sha256_nevra)
  else
    let sha256 := str_take 64 sha256_nevra in
    _ ← validate sha256;
    Ok (str_drop 65 sha256_nevra, sha256).

(** * The inverse direction, in Rust *)

Definition hexval (c : ascii) : option N :=
  let v := N_of_ascii c in
  (if (48 <=? v) && (v <=? 57) then Some (v - 48)
   else if (65 <=? v) && (v <=? 70) then Some (v - 65 + 10)
   else None)%N.

(** [String::push] of [b as char]: one byte below 0x80, two bytes of UTF-8 above. *)
Definition push_char (b : N) (rest : string) : string :=
  if (b <? 128)%N then String (ascii_of_N b) rest
  else String (ascii_of_N (192 + N.shiftr b 6))
         (String (ascii_of_N (128 + N.land b 63)) rest).

(** The loop of [cache_branch_to_nevra]; a malformed escape ends it. *)
Fixpoint unquote (s : string) : string :=
  match s with
  | EmptyString => ""
  | String c s1 =>
      if negb (Ascii.eqb c "_") then
        String (if Ascii.eqb c "/" then "-"%char else c) (unquote s1)
      else
        match s1 with
        | EmptyString => ""
        | String c1 s2 =>
            if Ascii.eqb c1 "_" then String "_" (unquote s2)
            else
              match hexval c1, s2 with
              | Some b, String c2 s3 =>
                  match hexval c2 with
                  | Some l => push_char (N.land (N.shiftl b 4 + l) 255) (unquote s3)
                  | None => ""
                  end
              | _, _ => ""
              end
        end
  end.

(** [None] is the panic on a branch without the prefix. *)
Definition cache_branch_to_nevra (branch : string) : option string :=
  let prefix := "rpmostree/pkg/" in
  if String.prefix prefix branch
  then Some (unquote (str_drop (String.length prefix) branch)) else None.

(** * Quoting is a code *)

Lemma append_quoted_acc b r s : append_quoted b r s = r +:+ append_quoted b "" s.
Proof.
  revert r. induction s as [|c s IH]; intros r; simpl; [by rewrite str_app_nil_r|].
  rewrite IH, (IH (_ +:+ _)). by rewrite <-str_app_assoc.
Qed.

Lemma append_quoted_cons b c s :
  append_quoted b "" (String c s) = quote_char b c +:+ append_quoted b "" s.
Proof. simpl. by rewrite append_quoted_acc. Qed.

(** Reading back one quoted character. *)
Definition hex2 (c1 c2 : ascii) : ascii :=
  match hexval c1, hexval c2 with
  | Some h, Some l => ascii_of_N (16 * h + l)
  | _, _ => "000"%char
  end.
Definition dequote (b : bool) (s : string) : option (ascii * string) :=
  match s with
  | String c (String c1 r) =>
      if negb (Ascii.eqb c "_") then Some (c, String c1 r)
      else if Ascii.eqb c1 "_" then Some ("_"%char, r)
      else
        match r with
        | String c2 r' =>
            if b && Ascii.eqb c1 "F" then
              match r' with
              | String _ (String _ (String _ (String _ (String c7 (String c8 r''))))) =>
                  Some (hex2 c7 c8, r'')
              | _ => None
              end
            else Some (hex2 c1 c2, r')
        | EmptyString => None
        end
  | String c EmptyString => Some (c, "")
  | EmptyString => None
  end.

Lemma dequote_quote b c r : dequote b (quote_char b c +:+ r) = Some (c, r).
Proof. destruct b, c as [[] [] [] [] [] [] [] []], r; reflexivity. Qed.

Lemma quote_char_inj b c1 c2 r1 r2 :
  quote_char b c1 +:+ r1 = quote_char b c2 +:+ r2 → c1 = c2 ∧ r1 = r2.
Proof. intros H%(f_equal (dequote b)). rewrite !dequote_quote in H. by simplify_eq. Qed.

(** The bytes a string is made of. *)
Fixpoint str_all (P : ascii → bool) (s : string) : bool :=
  match s with EmptyString => true | String c s => P c && str_all P s end.

Lemma str_all_app P s t : str_all P (s +:+ t) = str_all P s && str_all P t.
Proof.
  induction s as [|c s IH]; [done|]. rewrite str_app_cons. simpl. rewrite IH. by destruct (P c).
Qed.

Definition not_char (d c : ascii) : bool := negb (Ascii.eqb c d).

Lemma quoted_no_slash b s : str_all (not_char "/") (append_quoted b "" s) = true.
Proof.
  induction s as [|c s IH]; [done|]. rewrite append_quoted_cons, str_all_app, IH, andb_true_r.
  by destruct b, c as [[] [] [] [] [] [] [] []].
Qed.

Lemma quoted_no_dot b s :
  str_all (not_char ".") s = true → str_all (not_char ".") (append_quoted b "" s) = true.
Proof.
  induction s as [|c s IH]; [done|]. simpl. intros [Hc Hs]%andb_true_iff.
  rewrite append_quoted_acc, str_all_app, (IH Hs), andb_true_r. clear -Hc.
  by destruct b, c as [[] [] [] [] [] [] [] []].
Qed.

Lemma not_char_refl d : not_char d d = false.
Proof. unfold not_char. by rewrite Ascii.eqb_refl. Qed.

(** Splitting at the first occurrence of a character ... *)
Lemma split_first d s t u v :
  str_all (not_char d) s = true → str_all (not_char d) t = true →
  s +:+ String d u = t +:+ String d v → s = t ∧ u = v.
Proof.
  revert t. induction s as [|c s IH]; intros [|c' t] Hs Ht; simpl in *.
  - intros Heq. by injection Heq.
  - intros [= -> _]. by rewrite not_char_refl in Ht.
  - intros [= -> _]. by rewrite not_char_refl in Hs.
  - apply andb_true_iff in Hs as [_ ?], Ht as [_ ?]. rewrite !str_app_cons.
    intros [= -> Heq]. destruct (IH t) as [-> ->]; auto.
Qed.

(** ... and at the last. *)
Lemma split_last d s t u v :
  str_all (not_char d) u = true → str_all (not_char d) v = true →
  s +:+ String d u = t +:+ String d v → s = t ∧ u = v.
Proof.
  revert t. induction s as [|c s IH]; intros [|c' t] Hu Hv.
  - intros Heq. by injection Heq.
  - rewrite str_app_cons. intros [= -> ->]. rewrite str_all_app in Hu. simpl in Hu.
    by rewrite not_char_refl, andb_false_r in Hu.
  - rewrite str_app_cons. intros [= -> <-]. rewrite str_all_app in Hv. simpl in Hv.
    by rewrite not_char_refl, andb_false_r in Hv.
  - rewrite !str_app_cons. intros [= -> Heq]. destruct (IH t) as [-> ->]; auto.
Qed.

Lemma append_quoted_inj b s t : append_quoted b "" s = append_quoted b "" t → s = t.
Proof.
  revert t. induction s as [|c s IH]; intros [|c' t] E; [done|..].
  - apply (f_equal (dequote b)) in E. by rewrite append_quoted_cons, dequote_quote in E.
  - apply (f_equal (dequote b)) in E. by rewrite append_quoted_cons, dequote_quote in E.
  - rewrite !append_quoted_cons in E. apply quote_char_inj in E as [-> E]. by rewrite (IH t E).
Qed.

Lemma get_branch_shape b type name evr arch :
  get_branch_for_n_evr_a b type name evr arch =
  ("rpmostree/" +:+ type +:+ "/") +:+ append_quoted b "" name +:+ String "/"
    (append_quoted b "" (skip_zero_epoch evr) +:+ String "." (append_quoted b "" arch)).
Proof.
  unfold get_branch_for_n_evr_a.
  rewrite (append_quoted_acc b _ arch), (append_quoted_acc b _ (skip_zero_epoch evr)),
    (append_quoted_acc b _ name). by rewrite <-!str_app_assoc.
Qed.

(** * Unquoting inverts quoting on ASCII *)

Definition is_ascii (c : ascii) : bool := (N_of_ascii c <? 128)%N.

Lemma unquote_quote_char b c r :
  is_ascii c = true → unquote (quote_char b c +:+ r) = String c (unquote r).
Proof. intros Hc. destruct b, c as [[] [] [] [] [] [] [] []]; try done; reflexivity. Qed.

Lemma unquote_quoted b s r :
  str_all is_ascii s = true → unquote (append_quoted b "" s +:+ r) = s +:+ unquote r.
Proof.
  induction s as [|c s IH]; [done|]. intros [Hc Hs]%andb_true_iff.
  rewrite append_quoted_cons, <-str_app_assoc, unquote_quote_char, IH by done. done.
Qed.

Lemma skip_zero_epoch_ascii s : str_all is_ascii s = true → str_all is_ascii (skip_zero_epoch s) = true.
Proof.
  intros Hs. unfold skip_zero_epoch.
  repeat (case_match; simpl in *; try done).
Qed.

(** Decimal numbers consist of digits. *)
Lemma pretty_N_all P (x : N) : (∀ n, P (pretty_N_char n) = true) → str_all P (pretty x) = true.
Proof.
  intros HP.
  assert (∀ s, str_all P s = true → str_all P (pretty_N_go x s) = true) as Hgo.
  { induction (N.lt_wf_0 x) as [x _ IH]; intros s Hs.
    assert (x = 0 ∨ 0 < x)%N as [->|?] by lia; [by rewrite pretty_N_go_0|].
    rewrite pretty_N_go_step by done. apply IH; [by apply N.div_lt|].
    simpl. by rewrite Hs, HP. }
  unfold pretty, pretty_N. case_decide; [|by apply Hgo].
  simpl. by rewrite (HP 0%N : P "0"%char = true).
Qed.

Lemma pretty_N_no_colon (x : N) : str_all (not_char ":") (pretty x) = true.
Proof. apply pretty_N_all. intros n. unfold pretty_N_char. by repeat case_match. Qed.

Lemma skip_zero_epoch_id s :
  (∀ rest, s ≠ String "0" (String ":" rest)) → skip_zero_epoch s = s.
Proof.
  intros Hs. unfold skip_zero_epoch. repeat (case_match; try done). by edestruct Hs.
Qed.

(** The EVR that is put into a branch name has no zero epoch to skip. *)
Lemma custom_evr_no_zero_epoch name epoch version release arch :
  str_all (not_char ":") version = true →
  skip_zero_epoch (rpmostree_custom_nevra_strdup name epoch version release arch PKG_NEVRA_FLAGS_EVR)
  = rpmostree_custom_nevra_strdup name epoch version release arch PKG_NEVRA_FLAGS_EVR.
Proof.
  intros Hv. apply skip_zero_epoch_id. intros rest.
  unfold rpmostree_custom_nevra_strdup, rpmostree_custom_nevra. simpl.
  destruct (N.ltb_spec 0 epoch) as [He|He]; simpl.
  - change (String "0" (String ":" rest)) with ("0" +:+ String ":" rest).
    change ("" +:+ ?s) with s. rewrite <-str_app_assoc.
    intros [E _]%(split_first ":" (pretty epoch)); [|apply pretty_N_no_colon|done].
    change "0" with (pretty 0%N) in E. apply (inj pretty) in E. lia.
  - change (String "0" (String ":" rest)) with ("0" +:+ String ":" rest). intros E.
    destruct version as [|c1 [|c2 version]]; rewrite ?str_app_cons in E; simplify_eq/=.
    change ("" +:+ ?s) with s in E. simplify_eq/=.
Qed.

Lemma pkg_nevra_shape h :
  pkg_nevra_strdup h =
  h_name h +:+ (if decide (0 < String.length (h_name h)) then "-" else "") +:+
  rpmostree_custom_nevra_strdup (h_name h) (h_epoch h) (h_version h) (h_release h) (h_arch h)
    PKG_NEVRA_FLAGS_EVR +:+ "." +:+ h_arch h.
Proof.
  destruct h as [n e v r a sr cl].
  unfold pkg_nevra_strdup, rpmostree_header_custom_nevra_strdup, rpmostree_custom_nevra_strdup,
    rpmostree_custom_nevra. simpl.
  change ("" +:+ ?s) with s.
  destruct (decide (0 < String.length n)) as [Hn|Hn], (0 <? e)%N; simpl;
    rewrite ?(decide_True (P := 0 < String.length (_ +:+ _))) by (rewrite !str_app_length; simpl; lia);
    by rewrite <-?str_app_assoc.
Qed.

Lemma str_take_drop_app n s t :
  String.length s = n → str_take n (s +:+ t) = s ∧ str_drop n (s +:+ t) = t.
Proof.
  revert s. induction n as [|n IH]; intros [|c s] Hn; try done.
  rewrite !str_app_cons. simpl in *. by destruct (IH s) as [-> ->]; [lia|].
Qed.

Lemma str_prefix_app s t : String.prefix s (s +:+ t) = true.
Proof.
  induction s as [|c s IH]; [by destruct t|]. rewrite str_app_cons. simpl.
  destruct (ascii_dec c c); [done|congruence].
Qed.

(** The Rust decoder on a cache branch. *)
Lemma cache_branch_decode b n e a :
  str_all is_ascii n = true → str_all is_ascii e = true → str_all is_ascii a = true →
  cache_branch_to_nevra (rpmostree_get_cache_branch_for_n_evr_a b n e a) =
    Some (n +:+ "-" +:+ skip_zero_epoch e +:+ "." +:+ a).
Proof.
  intros Hn He Ha. apply skip_zero_epoch_ascii in He.
  unfold cache_branch_to_nevra, rpmostree_get_cache_branch_for_n_evr_a. rewrite get_branch_shape.
  change ("rpmostree/" +:+ "pkg" +:+ "/") with "rpmostree/pkg/".
  rewrite str_prefix_app. f_equal.
  destruct (str_take_drop_app 14 "rpmostree/pkg/"
    (append_quoted b "" n +:+ String "/" (append_quoted b "" (skip_zero_epoch e) +:+
      String "." (append_quoted b "" a))) eq_refl) as [_ E].
  change (String.length "rpmostree/pkg/") with 14. rewrite E, (unquote_quoted b n) by done.
  simpl. rewrite (unquote_quoted b (skip_zero_epoch e)) by done. simpl.
  rewrite <-(str_app_nil_r (append_quoted b "" a)), unquote_quoted by done. simpl.
  by rewrite str_app_nil_r.
Qed.

(** * Properties *)

(** C38: Packages whose architectures have no dot in their names share a cache branch only if
    they are the same up to an explicit zero epoch: the names and architectures are equal, and
    so are the versions without a leading "0:".  This holds for arbitrary bytes and for signed
    and unsigned [char]. *)
Theorem cache_branch_injective b n1 e1 a1 n2 e2 a2 :
  str_all (not_char ".") a1 = true → str_all (not_char ".") a2 = true →
  rpmostree_get_cache_branch_for_n_evr_a b n1 e1 a1 =
    rpmostree_get_cache_branch_for_n_evr_a b n2 e2 a2 →
  n1 = n2 ∧ skip_zero_epoch e1 = skip_zero_epoch e2 ∧ a1 = a2.
Proof.
  intros H1 H2. unfold rpmostree_get_cache_branch_for_n_evr_a. rewrite !get_branch_shape.
  intros E%str_app_inj_l. apply split_first in E as [En E]; [|apply quoted_no_slash..].
  apply split_last in E as [Ee Ea]; [|by apply quoted_no_dot..].
  by apply append_quoted_inj in En, Ee, Ea.
Qed.

(** The Rust decoder inverts the C++ encoder: for ASCII names, versions
    and architectures [cache_branch_to_nevra] applied to the cache branch of a
    package gives its NEVRA, with an explicit zero epoch dropped. *)
Theorem cache_branch_roundtrip b n e a :
  str_all is_ascii n = true → str_all is_ascii e = true → str_all is_ascii a = true →
  cache_branch_to_nevra (rpmostree_get_cache_branch_for_n_evr_a b n e a) =
    Some (n +:+ "-" +:+ skip_zero_epoch e +:+ "." +:+ a).
Proof. apply cache_branch_decode. Qed.

(** NEVRA to cache branch and back is the identity.  For a package header
    with a name, with ASCII tags and no colon in its version, of which libdnf's
    [hy_split_nevra] recovers the fields, [nevra_to_cache_branch] succeeds on its
    canonical NEVRA and [cache_branch_to_nevra] returns that NEVRA. *)
Theorem nevra_cache_branch_roundtrip hy_split_nevra b h :
  h_name h ≠ "" → str_all (not_char ":") (h_version h) = true → (h_epoch h < 2 ^ 31)%N →
  str_all is_ascii (pkg_nevra_strdup h) = true →
  hy_split_nevra (pkg_nevra_strdup h) = Some (SplitNevra (h_name h) (Z.of_N (h_epoch h))
    (h_version h) (h_release h) (h_arch h)) →
  ∃ branch, nevra_to_cache_branch hy_split_nevra b (pkg_nevra_strdup h) = Ok branch ∧
    cache_branch_to_nevra branch = Some (pkg_nevra_strdup h).
Proof.
  intros Hn Hv He Hascii Hsplit. unfold nevra_to_cache_branch, rpmostree_decompose_nevra.
  rewrite Hsplit. simpl. eexists. split; [done|].
  assert (Z.to_N (Z.of_N (h_epoch h) mod 2 ^ 64) = h_epoch h) as ->.
  { rewrite Z.mod_small; [lia|]. change (2 ^ 31)%N with 2147483648%N in He. lia. }
  rewrite pkg_nevra_shape in Hascii |- *.
  rewrite decide_True in Hascii |- * by (destruct (h_name h); simpl; [done|lia]).
  rewrite !str_all_app in Hascii. rewrite !andb_true_iff in Hascii.
  destruct Hascii as (?&_&?&_&?). rewrite cache_branch_decode by done.
  by rewrite custom_evr_no_zero_epoch.
Qed.

Lemma str_get_take_drop n c s :
  String.get n s = Some c → s = str_take n s +:+ String c (str_drop (S n) s).
Proof.
  revert s. induction n as [|n IH]; intros [|d s]; simpl; try done.
  - intros [= ->]. by destruct s.
  - intros E. rewrite (IH s E) at 1. done.
Qed.

Lemma str_length_take n s : n ≤ String.length s → String.length (str_take n s) = n.
Proof.
  revert s. induction n as [|n IH]; intros [|c s]; simpl; try lia. intros ?. rewrite IH; lia.
Qed.

(** A checksum-prefixed NEVRA is accepted exactly when it is a 64-byte
    checksum that ostree considers valid, a colon and a non-empty rest; the
    checksum and the rest are returned.  In every other case the function fails
    without reading past the string. *)
Theorem decompose_sha256_nevra_iff validate s nevra sha256 :
  rpmostree_decompose_sha256_nevra validate s = Ok (nevra, sha256) ↔
  s = sha256 +:+ ":" +:+ nevra ∧ String.length sha256 = 64 ∧ nevra ≠ "" ∧
  validate sha256 = Ok tt.
Proof.
  unfold rpmostree_decompose_sha256_nevra. split.
  - case_decide as Hlen; [done|]. case_decide as Hget; [done|].
    apply str_get_take_drop in Hget as Hs.
    assert (String.length (str_take 64 s) = 64) as Ht by (apply str_length_take; lia).
    intros ([]&Hval&Heq)%bind_ok.
    assert (sha256 = str_take 64 s ∧ nevra = str_drop 65 s) as [-> ->] by by inversion Heq.
    split_and!; [exact Hs|exact Ht| |exact Hval].
    intros E. rewrite E in Hs. apply (f_equal String.length) in Hs.
    rewrite str_app_length, Ht in Hs. simpl in Hs. lia.
  - intros (->&H64&Hne&Hval). rewrite decide_False.
    2: { rewrite !str_app_length. destruct nevra; simpl; [done|lia]. }
    assert (String.get 64 (sha256 +:+ ":" +:+ nevra) = Some ":"%char) as Hget.
    { clear -H64. revert sha256 H64. generalize 64.
      induction n as [|n IH]; intros [|c s] H; try done.
      rewrite str_app_cons. apply (IH s). simpl in H. lia. }
    rewrite decide_False by (intros Hn; by apply Hn).
    destruct (str_take_drop_app 64 sha256 (":" +:+ nevra) H64) as [-> _]. rewrite Hval.
    change (Ok (str_drop 65 (sha256 +:+ ":" +:+ nevra), sha256) = Ok (nevra, sha256)).
    destruct (str_take_drop_app 65 (sha256 +:+ ":") nevra) as [_ E].
    { rewrite str_app_length, H64. done. }
    rewrite <-str_app_assoc in E. by rewrite E.
Qed.

(** * Witnesses *)

Lemma cache_branch_injective_witness :
  "0:1.0-1" = "0:1.0-1" ∧ skip_zero_epoch "0:1.0-1" = skip_zero_epoch "1.0-1".
Proof.
  split; [done|].
  apply (cache_branch_injective true "foo" "0:1.0-1" "x86_64" "foo" "1.0-1" "x86_64"); reflexivity.
Defined.

Lemma cache_branch_roundtrip_witness :
  cache_branch_to_nevra "rpmostree/pkg/perl/4_3A5.16.3-291.el7.x86__64" =
    Some "perl-4:5.16.3-291.el7.x86_64".
Proof. apply (cache_branch_roundtrip true "perl" "4:5.16.3-291.el7" "x86_64"); reflexivity. Defined.

Definition ex_header : Header := MkHeader "perl" 4 "5.16.3" "291.el7" "x86_64" None [].
(** libdnf's answer on the NEVRA of that header. *)
Definition ex_split (s : string) : option split_nevra :=
  if decide (s = "perl-4:5.16.3-291.el7.x86_64")
  then Some (SplitNevra "perl" 4 "5.16.3" "291.el7" "x86_64") else None.

Lemma nevra_cache_branch_roundtrip_witness :
  ∃ branch, nevra_to_cache_branch ex_split true "perl-4:5.16.3-291.el7.x86_64" = Ok branch ∧
    cache_branch_to_nevra branch = Some "perl-4:5.16.3-291.el7.x86_64".
Proof. apply (nevra_cache_branch_roundtrip ex_split true ex_header); done. Defined.

(** On a platform with signed [char] a byte above 0x7F is escaped as eight
    digits, which the decoder does not read back. *)
Lemma nonascii_quote_not_inverted :
  append_quoted true "" (String "195" "") = "_FFFFFFC3" ∧
  append_quoted false "" (String "195" "") = "_C3" ∧
  unquote "_FFFFFFC3" ≠ String "195" "".
Proof. by vm_compute. Qed.
