(* ===== verification/RpmHeaders.v ===== *)
(** Headers of an rpm database: listing with glob patterns, the header diff and
    its two renderings, from [src/libpriv/rpmostree-rpm-util.cxx].

    librpm's [rpmVersionCompare], libc's [fnmatch] (with FNM_CASEFOLD) and the
    date formatting of GLib are parameters. *)

From S2P Require Import Prelude DiffPrint Nevra.

#[global] Instance changelog_eq_dec : EqDecision changelog_entry.
Proof. solve_decision. Defined.
#[global] Instance header_eq_dec : EqDecision Header.
Proof. solve_decision. Defined.

Definition header_name_cmp (h1 h2 : Header) : Z := strcmp (h_name h1) (h_name h2).

(** * Patterns *)

Definition g_ascii_tolower (c : ascii) : ascii :=
  let v := N_of_ascii c in
  if ((65 <=? v) && (v <=? 90))%N then ascii_of_N (v + 32) else c.

(** [CASENCMP_EQ (x, y, n)]: [g_ascii_strncasecmp] is zero. *)
Fixpoint casencmp_eq (x y : string) (n : N) : bool :=
  if (n =? 0)%N then true else
  match x, y with
  | String c x', String d y' =>
      if Ascii.eqb (g_ascii_tolower c) (g_ascii_tolower d) then casencmp_eq x' y' (n - 1) else false
  | EmptyString, EmptyString => true
  | _, _ => false
  end.

(** The characters at which a prefix that needs no [fnmatch] ends. *)
Definition pat_break (c : ascii) : bool :=
  match c with
  | ":" | "-" | "*" | "?" | "." | "[" => true
  | _ => false
  end%char.

Fixpoint pat_prefix_len (pat : string) : N :=
  match pat with
  | EmptyString => 0
  | String c pat' => if pat_break c then 0 else 1 + pat_prefix_len pat'
  end.

Definition G_MAXSIZE : N := 2 ^ 64 - 1.

(** [None] is a NULL array of patterns. *)
Definition pat_fnmatch_prefix (patterns : option (list string)) : N :=
  match patterns with
  | None => 0
  | Some ps => foldl (λ ret pat, N.min ret (pat_prefix_len pat)) G_MAXSIZE ps
  end.

Section headers.
(** [rpmVersionCompare], and [fnmatch (pattern, s, FNM_CASEFOLD) == 0]. *)
Context (rpmVersionCompare : Header → Header → Z) (fnmatch : string → string → bool).

Definition pat_match_one (pkg : Header) (name : string) (patprefixlen : N) (pattern : string) : bool :=
  if negb (patprefixlen =? 0)%N && negb (casencmp_eq name pattern patprefixlen) then false
  else fnmatch pattern name || fnmatch pattern (pkg_nevra_strdup pkg)
       || fnmatch pattern (pkg_na_strdup pkg) || fnmatch pattern (pkg_nvr_strdup pkg).

Definition pat_fnmatch_match (pkg : Header) (name : string) (patprefixlen : N)
    (patterns : option (list string)) : bool :=
  match patterns with
  | None => true
  | Some ps => existsb (pat_match_one pkg name patprefixlen) ps
  end.

Definition header_cmp_p (h1 h2 : Header) : Z :=
  let cmp := header_name_cmp h1 h2 in
  if decide (cmp = 0%Z) then rpmVersionCompare h1 h2 else cmp.

(** [rpmhdrs_new]: [db] is what iterating over RPMDBI_PACKAGES yields. *)
Definition rpmhdrs_new (db : list Header) (patterns : option (list string)) : list Header :=
  let patprefixlen := pat_fnmatch_prefix patterns in
  let hs := filter (λ h1, negb (bool_decide (h_name h1 = "gpg-pubkey"))
                          && pat_fnmatch_match h1 (h_name h1) patprefixlen patterns) db in
  g_ptr_array_sort header_cmp_p hs.

(** * The header diff *)

Record RpmHeadersDiff := MkHeadersDiff {
  hs_add : list Header; hs_del : list Header;
  hs_mod_old : list Header; hs_mod_new : list Header;
}.

Definition rpmhdrs_diff_new : RpmHeadersDiff := MkHeadersDiff [] [] [] [].

Definition diff_add (h : Header) (d : RpmHeadersDiff) : RpmHeadersDiff :=
  MkHeadersDiff (hs_add d ++ [h]) (hs_del d) (hs_mod_old d) (hs_mod_new d).
Definition diff_del (h : Header) (d : RpmHeadersDiff) : RpmHeadersDiff :=
  MkHeadersDiff (hs_add d) (hs_del d ++ [h]) (hs_mod_old d) (hs_mod_new d).
Definition diff_mod (h1 h2 : Header) (d : RpmHeadersDiff) : RpmHeadersDiff :=
  MkHeadersDiff (hs_add d) (hs_del d) (hs_mod_old d ++ [h1]) (hs_mod_new d ++ [h2]).

(** The two loops of [rpmhdrs_diff]: [l1] and [l2] are the headers from [n1]
    and [n2] on; once [l1] is used up the second loop adds what is left. *)
Fixpoint rpmhdrs_diff_loop (l1 : list Header) : list Header → RpmHeadersDiff → RpmHeadersDiff :=
  fix go (l2 : list Header) (ret : RpmHeadersDiff) : RpmHeadersDiff :=
  match l1, l2 with
  | [], _ => foldl (λ ret h2, diff_add h2 ret) ret l2
  | h1 :: l1', [] => rpmhdrs_diff_loop l1' [] (diff_del h1 ret)
  | h1 :: l1', h2 :: l2' =>
      let cmp := header_name_cmp h1 h2 in
      if decide (cmp > 0)%Z then go l2' (diff_add h2 ret)
      else if decide (cmp < 0)%Z then rpmhdrs_diff_loop l1' l2 (diff_del h1 ret)
      else
        let cmp := rpmVersionCompare h1 h2 in
        if decide (cmp = 0%Z) then rpmhdrs_diff_loop l1' l2' ret
        else rpmhdrs_diff_loop l1' l2' (diff_mod h1 h2 ret)
  end.

Definition rpmhdrs_diff (l1 l2 : list Header) : RpmHeadersDiff :=
  rpmhdrs_diff_loop l1 l2 rpmhdrs_diff_new.

Definition pkg_print (h : Header) : string := pkg_nevra_strdup h +:+ nl.
Definition pkg_print_changed (opkg npkg : Header) : string :=
  h_name opkg +:+ " " +:+ pkg_evra_strdup opkg +:+ " -> " +:+ pkg_evra_strdup npkg +:+ nl.

Definition rpmhdrs_list (hs : list Header) : list string :=
  hs ≫= λ h, [" "; pkg_print h].

(** [rpmhdrs_rpmdbv]: [sha256] is the digest of the concatenated updates. *)
Definition rpmhdrs_rpmdbv (sha256 : string → string) (hs : list Header) : string :=
  pretty (length hs) +:+ ":" +:+ sha256 (String.concat "" (pkg_envra_strdup <$> hs)).

(** * Script format *)

(** [_gptr_array_reverse]: swap the ends of the window of [num] elements at
    [ptr] and shrink it from both sides. *)
Fixpoint gptr_array_reverse_loop {A} (fuel : nat) (data : list A) (ptr num : nat) : list A :=
  match fuel with
  | 0 => data
  | S fuel =>
      if decide (2 ≤ num) then
        match data !! ptr, data !! (ptr + (num - 1)) with
        | Some swap, Some last =>
            gptr_array_reverse_loop fuel
              (<[ptr + (num - 1) := swap]> (<[ptr := last]> data)) (S ptr) (num - 2)
        | _, _ => data
        end
      else data
  end.
Definition gptr_array_reverse {A} (data : list A) : list A :=
  gptr_array_reverse_loop (length data) data 0 (length data).

(** [hs->pdata[hs->len - 1]] and [g_ptr_array_remove_index (hs, hs->len - 1)]. *)
Definition pop {A} (l : list A) : option (A * list A) :=
  match last l with Some x => Some (x, take (length l - 1) l) | None => None end.

Definition rpmhdrs_diff_cmp_end (hs1 hs2 : list Header) : Z :=
  match last hs1, last hs2 with
  | _, None => -1
  | None, Some _ => 1
  | Some h1, Some h2 => header_name_cmp h1 h2
  end.

(** The loop of [rpmhdrs_diff_prnt_diff] on the reversed arrays; reading the
    last element of an empty array is out of bounds ([Abort]). *)
Fixpoint prnt_diff_loop (fuel : nat) (add del mod_old mod_new : list Header) :
    outcome (list (diff_event Header)) :=
  match fuel with
  | 0 => match add, del, mod_old with [], [], [] => Ok [] | _, _, _ => Abort end
  | S fuel =>
      if decide (add = [] ∧ del = [] ∧ mod_old = []) then Ok [] else
      let add_is_first :=
        match pop add with
        | Some (ha, add') => es ← prnt_diff_loop fuel add' del mod_old mod_new; Ok (EvAdded ha :: es)
        | None => Abort
        end in
      if decide (rpmhdrs_diff_cmp_end mod_old del < 0)%Z then
        if decide (rpmhdrs_diff_cmp_end mod_old add < 0)%Z then
          match pop mod_old, pop mod_new with
          | Some (ho, mod_old'), Some (hn, mod_new') =>
              es ← prnt_diff_loop fuel add del mod_old' mod_new'; Ok (EvModified ho hn :: es)
          | _, _ => Abort
          end
        else add_is_first
      else if decide (rpmhdrs_diff_cmp_end del add < 0)%Z then
        match pop del with
        | Some (hd, del') => es ← prnt_diff_loop fuel add del' mod_old mod_new; Ok (EvRemoved hd :: es)
        | None => Abort
        end
      else add_is_first
  end.

Definition render_header_event (e : diff_event Header) : list string :=
  match e with
  | EvAdded h => ["+"; pkg_print h]
  | EvRemoved h => ["-"; pkg_print h]
  | EvModified ho hn => ["!"; pkg_print ho; "="; pkg_print hn]
  end.

Definition prnt_diff_events (diff : RpmHeadersDiff) : outcome (list (diff_event Header)) :=
  let add := gptr_array_reverse (hs_add diff) in
  let del := gptr_array_reverse (hs_del diff) in
  let mod_old := gptr_array_reverse (hs_mod_old diff) in
  let mod_new := gptr_array_reverse (hs_mod_new diff) in
  _ ← g_assert (bool_decide (length mod_old = length mod_new));
  prnt_diff_loop (length add + length del + length mod_old) add del mod_old mod_new.

Definition rpmhdrs_diff_prnt_diff (diff : RpmHeadersDiff) : outcome (list string) :=
  es ← prnt_diff_events diff;
  Ok (es ≫= render_header_event).

(** * Block format *)

(** [g_strjoinv ("\n    ", g_strsplit (text, "\n", 0))]. *)
Fixpoint indent_lines (text : string) : string :=
  match text with
  | EmptyString => ""
  | String c text' =>
      if Ascii.eqb c "010" then String c ("    " +:+ indent_lines text')
      else String c (indent_lines text')
  end.

(** The [while (ncnum > 0)] loop: the new entries, newest first, down to
    [ochange], the latest old one; [fmt_date] is [g_date_time_format] of the date
    with "%a %b %d %Y". *)
Fixpoint prnt_changelog (fmt_date : N → string) (ochange : changelog_entry)
    (nchanges : list changelog_entry) : list string :=
  match nchanges with
  | [] => []
  | nchange :: rest =>
      if decide (cl_date nchange < cl_date ochange)%N then []
      else if decide (nchange = ochange) then []
      else ("    * " +:+ fmt_date (cl_date nchange) +:+ " " +:+ cl_name nchange +:+ nl +:+
            "    " +:+ indent_lines (cl_text nchange) +:+ nl +:+ nl)
           :: prnt_changelog fmt_date ochange rest
  end.

Definition prnt_pkg_changelog (fmt_date : N → string) (ho hn : Header) : list string :=
  match h_changelog ho with
  | [] => []
  | ochange :: _ => prnt_changelog fmt_date ochange (h_changelog hn)
  end.

(** The first loop over the modified pairs. [next_srpm] is only assigned when a
    pair is not skipped. *)
Fixpoint prnt_block_upgraded (fmt_date : N → string) (changelogs done : bool)
    (next_srpm : option string) (mods : list (Header * Header)) : outcome (list string) :=
  match mods with
  | [] => Ok []
  | (ho, hn) :: rest =>
      _ ← g_assert (bool_decide (header_name_cmp ho hn = 0%Z));
      if decide (rpmVersionCompare ho hn > 0)%Z
      then prnt_block_upgraded fmt_date changelogs done next_srpm rest
      else
        let line := (if done then [] else ["Upgraded:" +:+ nl]) ++ ["  "; pkg_print_changed ho hn] in
        if negb changelogs then
          out ← prnt_block_upgraded fmt_date changelogs true next_srpm rest; Ok (line ++ out)
        else
          let current_srpm := match next_srpm with Some s => Some s | None => h_sourcerpm ho end in
          let next_srpm := match rest with [] => None | (next_ho, _) :: _ => h_sourcerpm next_ho end in
          let cl := if decide (current_srpm = next_srpm) then []
                    else prnt_pkg_changelog fmt_date ho hn in
          out ← prnt_block_upgraded fmt_date changelogs true next_srpm rest; Ok (line ++ cl ++ out)
  end.

Fixpoint prnt_block_downgraded (done : bool) (mods : list (Header * Header)) :
    outcome (list string) :=
  match mods with
  | [] => Ok []
  | (ho, hn) :: rest =>
      _ ← g_assert (bool_decide (header_name_cmp ho hn = 0%Z));
      if decide (rpmVersionCompare ho hn < 0)%Z then prnt_block_downgraded done rest
      else
        out ← prnt_block_downgraded true rest;
        Ok ((if done then [] else ["Downgraded:" +:+ nl]) ++ ["  "; pkg_print_changed ho hn] ++ out)
  end.

Definition prnt_block_singles (title : string) (hs : list Header) : list string :=
  match hs with
  | [] => []
  | _ => (title +:+ nl) :: (hs ≫= λ h, ["  "; pkg_print h])
  end.

Definition rpmhdrs_diff_prnt_block (fmt_date : N → string) (changelogs : bool)
    (diff : RpmHeadersDiff) : outcome (list string) :=
  _ ← g_assert (bool_decide (length (hs_mod_old diff) = length (hs_mod_new diff)));
  let mods := zip (hs_mod_old diff) (hs_mod_new diff) in
  up ← prnt_block_upgraded fmt_date changelogs false None mods;
  down ← prnt_block_downgraded false mods;
  Ok (up ++ down ++ prnt_block_singles "Removed:" (hs_del diff)
         ++ prnt_block_singles "Added:" (hs_add diff)).
End headers.

(** * Reversal *)

Lemma gptr_array_reverse_loop_mid {A} fuel (pre mid post : list A) :
  length mid ≤ fuel →
  gptr_array_reverse_loop fuel (pre ++ mid ++ post) (length pre) (length mid) =
  pre ++ reverse mid ++ post.
Proof.
  revert pre mid post. induction fuel as [|fuel IH]; intros pre mid post Hf.
  { destruct mid; [done|simpl in Hf; lia]. }
  destruct mid as [|x mid]; [done|].
  destruct mid as [|y mid _] using rev_ind; [done|].
  simpl. rewrite decide_True by (rewrite length_app; simpl; lia).
  rewrite list_lookup_middle by done.
  replace (length pre + (length (mid ++ [y]) - 0)) with (length (pre ++ x :: mid))
    by (rewrite !length_app; simpl; lia).
  replace (pre ++ x :: (mid ++ [y]) ++ post) with ((pre ++ x :: mid) ++ y :: post)
    by (by rewrite <-!app_assoc; simpl; rewrite <-?app_assoc).
  rewrite list_lookup_middle by done.
  rewrite <-(app_assoc pre), insert_app_r_alt, Nat.sub_diag by done. simpl.
  replace (pre ++ y :: mid ++ y :: post) with ((pre ++ y :: mid) ++ y :: post)
    by (by rewrite <-!app_assoc).
  rewrite insert_app_r_alt by (rewrite !length_app; simpl; lia).
  replace (length (pre ++ x :: mid) - length (pre ++ y :: mid)) with 0
    by (rewrite !length_app; simpl; lia). simpl.
  replace (length (mid ++ [y]) - 1) with (length mid) by (rewrite length_app; simpl; lia).
  specialize (IH (pre ++ [y]) mid (x :: post)). rewrite length_app in IH. simpl in IH.
  rewrite Nat.add_1_r in IH. rewrite <-!app_assoc in IH. simpl in IH.
  rewrite <-app_assoc. simpl. rewrite IH by (simpl in Hf; rewrite length_app in Hf; simpl in Hf; lia).
  rewrite reverse_cons, reverse_app. simpl. by rewrite <-!app_assoc.
Qed.

Lemma gptr_array_reverse_ok {A} (l : list A) : gptr_array_reverse l = reverse l.
Proof.
  unfold gptr_array_reverse.
  pose proof (gptr_array_reverse_loop_mid (length l) [] l [] (le_n _)) as H.
  by rewrite !app_nil_r in H.
Qed.

(** * Popping a reversed array reads the original from the front *)

Lemma pop_reverse_cons {A} (x : A) l : pop (reverse (x :: l)) = Some (x, reverse l).
Proof.
  unfold pop. rewrite reverse_cons, last_snoc, length_app. simpl.
  by rewrite Nat.add_sub, take_app_length.
Qed.

Lemma reverse_nil_iff {A} (l : list A) : reverse l = [] ↔ l = [].
Proof. split; [|by intros ->]. intros H. by rewrite <-(reverse_involutive l), H. Qed.

Lemma cmp_end_reverse l1 l2 :
  rpmhdrs_diff_cmp_end (reverse l1) (reverse l2) = pkg_cmp_end header_name_cmp (head l1) (head l2).
Proof.
  unfold rpmhdrs_diff_cmp_end, pkg_cmp_end. by rewrite !last_reverse.
Qed.

Lemma prnt_diff_loop_reverse fuel a r m :
  length a + length r + length m ≤ fuel →
  prnt_diff_loop fuel (reverse a) (reverse r) (reverse m.*1) (reverse m.*2) =
  diff_print_loop header_name_cmp fuel a r m.
Proof.
  revert a r m. induction fuel as [|fuel IH]; intros a r m Hf.
  { destruct a, r, m; simpl in Hf; try lia. done. }
  cbn [prnt_diff_loop diff_print_loop]. rewrite !cmp_end_reverse.
  assert (head m.*1 = fst <$> head m) as -> by by destruct m.
  assert ((reverse a = [] ∧ reverse r = [] ∧ reverse m.*1 = []) ↔ (a = [] ∧ r = [] ∧ m = [])) as Hiff.
  { rewrite !reverse_nil_iff. destruct m; naive_solver. }
  rewrite (decide_ext _ _ _ _ Hiff). clear Hiff. case_decide; [done|].
  assert (match pop (reverse a) with
     | Some (ha, add') => es ← prnt_diff_loop fuel add' (reverse r) (reverse m.*1) (reverse m.*2);
         Ok (EvAdded ha :: es)
     | None => Abort end =
     match a with
     | [] => Abort
     | p :: a' => es ← diff_print_loop header_name_cmp fuel a' r m; Ok (EvAdded p :: es)
     end) as ->.
  { destruct a as [|p a]; [done|]. rewrite pop_reverse_cons, IH by (simpl in Hf; lia). done. }
  case_decide; [case_decide; [|done]|case_decide; [|done]].
  - destruct m as [|[p q] m]; [done|]. cbn [fmap list_fmap].
    rewrite !pop_reverse_cons, IH by (simpl in Hf; lia). done.
  - destruct r as [|p r]; [done|]. rewrite pop_reverse_cons, IH by (simpl in Hf; lia). done.
Qed.

Lemma prnt_diff_events_merge d :
  length (hs_mod_old d) = length (hs_mod_new d) →
  prnt_diff_events d =
  diff_print_loop header_name_cmp
    (length (hs_add d) + length (hs_del d) + length (hs_mod_old d))
    (hs_add d) (hs_del d) (zip (hs_mod_old d) (hs_mod_new d)).
Proof.
  intros Hlen. unfold prnt_diff_events. rewrite !gptr_array_reverse_ok.
  rewrite !length_reverse, bool_decide_true by done. simpl.
  rewrite <-prnt_diff_loop_reverse by (rewrite length_zip_with, Hlen; lia).
  by rewrite fst_zip, snd_zip by lia.
Qed.

(** * The header diff *)

Definition name_count (n : string) (hs : list Header) : nat :=
  length (filter (λ h, h_name h = n) hs).

Lemma name_count_app n l k : name_count n (l ++ k) = name_count n l + name_count n k.
Proof. unfold name_count. by rewrite filter_app, length_app. Qed.

#[global] Instance name_count_proper n : Proper ((≡ₚ) ==> (=)) (name_count n).
Proof. intros l k Hlk. unfold name_count. by rewrite Hlk. Qed.

Lemma name_count_0 n l : name_count n l = 0 ↔ n ∉ h_name <$> l.
Proof.
  unfold name_count. induction l as [|h l IH]; [split; [intros _; apply not_elem_of_nil|done]|].
  rewrite fmap_cons, not_elem_of_cons, <-IH, filter_cons. case_decide; simpl; naive_solver.
Qed.

Lemma name_count_ext l k n : h_name <$> l = h_name <$> k → name_count n l = name_count n k.
Proof.
  revert k. induction l as [|h l IH]; intros [|h' k] Hlk; try done.
  simpl in Hlk. injection Hlk as Hh Hlk. apply IH in Hlk. unfold name_count in *.
  rewrite !filter_cons, Hh. case_decide; simpl; congruence.
Qed.

Section header_diff.
Context (rpmVersionCompare : Header → Header → Z).
Local Abbreviation loop := (rpmhdrs_diff_loop rpmVersionCompare).
Local Abbreviation name_sorted := (StronglySorted (λ h k, header_name_cmp h k ≤ 0)%Z).

Definition diff_app (d e : RpmHeadersDiff) : RpmHeadersDiff :=
  MkHeadersDiff (hs_add d ++ hs_add e) (hs_del d ++ hs_del e)
    (hs_mod_old d ++ hs_mod_old e) (hs_mod_new d ++ hs_mod_new e).

Lemma diff_add_all l ret : foldl (λ ret h2, diff_add h2 ret) ret l =
  diff_app ret (MkHeadersDiff l [] [] []).
Proof.
  revert ret. induction l as [|h l IH]; intros [a r o m]; simpl.
  - unfold diff_app. simpl. by rewrite !app_nil_r.
  - rewrite IH. unfold diff_app. simpl. by rewrite <-app_assoc.
Qed.

(** The branches of the loop, on the lists ahead. *)
Lemma rpmhdrs_diff_loop_eq l1 l2 ret :
  loop l1 l2 ret =
  match l1, l2 with
  | [], _ => diff_app ret (MkHeadersDiff l2 [] [] [])
  | h1 :: l1', [] => loop l1' [] (diff_del h1 ret)
  | h1 :: l1', h2 :: l2' =>
      if decide (header_name_cmp h1 h2 > 0)%Z then loop l1 l2' (diff_add h2 ret)
      else if decide (header_name_cmp h1 h2 < 0)%Z then loop l1' l2 (diff_del h1 ret)
      else if decide (rpmVersionCompare h1 h2 = 0%Z) then loop l1' l2' ret
      else loop l1' l2' (diff_mod h1 h2 ret)
  end.
Proof. destruct l1, l2; [apply diff_add_all..|done|done]. Qed.

Lemma rpmhdrs_diff_loop_ind (P : list Header → list Header → RpmHeadersDiff → Prop) :
  (∀ l2, P [] l2 (MkHeadersDiff l2 [] [] [])) →
  (∀ h1 l1 d, P l1 [] d → P (h1 :: l1) [] (diff_app (MkHeadersDiff [] [h1] [] []) d)) →
  (∀ h1 h2 l1 l2 d, (header_name_cmp h1 h2 > 0)%Z → P (h1 :: l1) l2 d →
     P (h1 :: l1) (h2 :: l2) (diff_app (MkHeadersDiff [h2] [] [] []) d)) →
  (∀ h1 h2 l1 l2 d, (header_name_cmp h1 h2 < 0)%Z → P l1 (h2 :: l2) d →
     P (h1 :: l1) (h2 :: l2) (diff_app (MkHeadersDiff [] [h1] [] []) d)) →
  (∀ h1 h2 l1 l2 d, h_name h1 = h_name h2 → rpmVersionCompare h1 h2 = 0%Z →
     P l1 l2 d → P (h1 :: l1) (h2 :: l2) d) →
  (∀ h1 h2 l1 l2 d, h_name h1 = h_name h2 → rpmVersionCompare h1 h2 ≠ 0%Z →
     P l1 l2 d → P (h1 :: l1) (h2 :: l2) (diff_app (MkHeadersDiff [] [] [h1] [h2]) d)) →
  ∀ l1 l2, P l1 l2 (rpmhdrs_diff rpmVersionCompare l1 l2).
Proof.
  intros H1 H2 H3 H4 H5 H6 l1 l2.
  cut (∀ n l1 l2 ret, length l1 + length l2 ≤ n →
    ∃ d, loop l1 l2 ret = diff_app ret d ∧ P l1 l2 d).
  { intros Hcut. destruct (Hcut _ l1 l2 rpmhdrs_diff_new (le_n _)) as (d&Hd&HP).
    unfold rpmhdrs_diff. rewrite Hd. by destruct d. }
  clear l1 l2. induction n as [|n IH]; intros l1 l2 ret Hn; rewrite rpmhdrs_diff_loop_eq.
  { destruct l1; simpl in Hn; [eauto|lia]. }
  assert (∀ e d, diff_app (diff_app ret e) d = diff_app ret (diff_app e d)) as Hassoc.
  { intros. unfold diff_app. simpl. by rewrite !app_assoc. }
  assert (∀ h, diff_del h ret = diff_app ret (MkHeadersDiff [] [h] [] [])) as Hdel.
  { intros. unfold diff_del, diff_app. simpl. by rewrite !app_nil_r. }
  assert (∀ h, diff_add h ret = diff_app ret (MkHeadersDiff [h] [] [] [])) as Hadd.
  { intros. unfold diff_add, diff_app. simpl. by rewrite !app_nil_r. }
  assert (∀ h k, diff_mod h k ret = diff_app ret (MkHeadersDiff [] [] [h] [k])) as Hmod.
  { intros. unfold diff_mod, diff_app. simpl. by rewrite !app_nil_r. }
  rewrite ?Hdel, ?Hadd, ?Hmod.
  destruct l1 as [|h1 l1]; [eauto|]. destruct l2 as [|h2 l2].
  { destruct (IH l1 [] (diff_del h1 ret)) as (d&Hd&?); [simpl in *; lia|].
    rewrite Hd, Hdel, Hassoc. eauto. }
  simpl in Hn. case_decide; [|case_decide; [|case_decide]].
  - destruct (IH (h1 :: l1) l2 (diff_add h2 ret)) as (d&Hd&?); [simpl; lia|].
    rewrite Hd, Hadd, Hassoc. eauto.
  - destruct (IH l1 (h2 :: l2) (diff_del h1 ret)) as (d&Hd&?); [simpl; lia|].
    rewrite Hd, Hdel, Hassoc. eauto.
  - destruct (IH l1 l2 ret) as (d&Hd&?); [simpl; lia|]. rewrite Hd. eexists; split; [done|].
    apply H5; [apply strcmp_eq; unfold header_name_cmp in *; lia|done..].
  - destruct (IH l1 l2 (diff_mod h1 h2 ret)) as (d&Hd&?); [simpl; lia|].
    rewrite Hd, Hmod, Hassoc. eexists; split; [done|].
    apply H6; [apply strcmp_eq; unfold header_name_cmp in *; lia|done..].
Qed.

(** What every diff satisfies: the headers of both sides are partitioned, and
    pairs have one name. *)
Definition diff_partition (l1 l2 : list Header) (d : RpmHeadersDiff) : Prop :=
  ∃ same : list (Header * Header),
    l1 ≡ₚ hs_del d ++ hs_mod_old d ++ same.*1 ∧
    l2 ≡ₚ hs_add d ++ hs_mod_new d ++ same.*2 ∧
    Forall (λ '(h, k), h_name h = h_name k ∧ rpmVersionCompare h k = 0%Z) same ∧
    Forall2 (λ h k, h_name h = h_name k ∧ rpmVersionCompare h k ≠ 0%Z)
      (hs_mod_old d) (hs_mod_new d).

Lemma rpmhdrs_diff_partition l1 l2 : diff_partition l1 l2 (rpmhdrs_diff rpmVersionCompare l1 l2).
Proof.
  apply rpmhdrs_diff_loop_ind; clear l1 l2.
  - intros l2. exists []. simpl. rewrite !app_nil_r. by repeat constructor.
  - intros h1 l1 d (same&E1&E2&?&?). exists same. simpl. rewrite <-E1, <-E2. done.
  - intros h1 h2 l1 l2 d _ (same&E1&E2&?&?). exists same. simpl. rewrite <-E1, <-E2. done.
  - intros h1 h2 l1 l2 d _ (same&E1&E2&?&?). exists same. simpl. rewrite <-E1, <-E2. done.
  - intros h1 h2 l1 l2 d ?? (same&E1&E2&?&?). exists ((h1, h2) :: same). split_and!; [..|by constructor|done].
    + cbn [fmap list_fmap fst]. rewrite E1. by rewrite !app_assoc, Permutation_middle.
    + cbn [fmap list_fmap snd]. rewrite E2. by rewrite !app_assoc, Permutation_middle.
  - intros h1 h2 l1 l2 d ?? (same&E1&E2&?&?). exists same. simpl. split_and!; [..|done|by constructor].
    + rewrite E1. by rewrite Permutation_middle.
    + rewrite E2. by rewrite Permutation_middle.
Qed.

Lemma rpmhdrs_diff_sublist l1 l2 :
  let d := rpmhdrs_diff rpmVersionCompare l1 l2 in
  hs_del d `sublist_of` l1 ∧ hs_mod_old d `sublist_of` l1 ∧ hs_add d `sublist_of` l2.
Proof.
  apply (rpmhdrs_diff_loop_ind (λ l1 l2 d,
    hs_del d `sublist_of` l1 ∧ hs_mod_old d `sublist_of` l1 ∧ hs_add d `sublist_of` l2));
    simpl; intros; destruct_and?; split_and!; try done; try apply sublist_nil_l;
    by constructor.
Qed.

Lemma name_sorted_lt h k l :
  (header_name_cmp h k < 0)%Z → name_sorted (k :: l) → h_name h ∉ h_name <$> (k :: l).
Proof.
  intros Hhk [_ Hl]%StronglySorted_inv. unfold header_name_cmp in *.
  rewrite fmap_cons, not_elem_of_cons. split.
  { intros E%strcmp_eq. lia. }
  intros (k'&E&Hk')%list_elem_of_fmap. rewrite Forall_forall in Hl. specialize (Hl k' Hk').
  assert (strcmp (h_name h) (h_name k') < 0)%Z by (eapply (cmp_lt_le_trans strcmp); done).
  rewrite E in *. rewrite (cmp_refl (cmp := strcmp)) in *. lia.
Qed.

(** On name-sorted lists no name is both added and removed. *)
Lemma rpmhdrs_diff_disjoint l1 l2 :
  name_sorted l1 → name_sorted l2 →
  let d := rpmhdrs_diff rpmVersionCompare l1 l2 in
  ∀ n, n ∉ h_name <$> hs_add d ∨ n ∉ h_name <$> hs_del d.
Proof.
  cut (let d := rpmhdrs_diff rpmVersionCompare l1 l2 in
    hs_del d ⊆ l1 ∧ hs_add d ⊆ l2 ∧ (name_sorted l1 → name_sorted l2 →
    ∀ n, n ∉ h_name <$> hs_add d ∨ n ∉ h_name <$> hs_del d)); [naive_solver|].
  apply (rpmhdrs_diff_loop_ind (λ l1 l2 d, hs_del d ⊆ l1 ∧ hs_add d ⊆ l2 ∧
    (name_sorted l1 → name_sorted l2 →
    ∀ n, n ∉ h_name <$> hs_add d ∨ n ∉ h_name <$> hs_del d))); clear l1 l2; simpl.
  - intros l2. split_and!; [set_solver..|]. intros _ _ n. right. apply not_elem_of_nil.
  - intros h1 l1 d (?&?&_). split_and!; [set_solver..|]. intros _ _ n. left.
    assert (hs_add d = []) as -> by (destruct (hs_add d); set_solver). apply not_elem_of_nil.
  - intros h1 h2 l1 l2 d Hc (?&?&IH). split_and!; [set_solver..|]. intros Hs1 Hs2 n.
    apply StronglySorted_inv in Hs2 as [Hs2 _]. destruct (IH Hs1 Hs2 n) as [Hn|Hn]; [|by right].
    rewrite not_elem_of_cons. destruct (decide (n = h_name h2)) as [->|]; [right|by left].
    assert (header_name_cmp h2 h1 < 0)%Z as Hlt
      by (unfold header_name_cmp in *; apply (cmp_gt_lt strcmp); lia).
    pose proof (name_sorted_lt _ _ _ Hlt Hs1). set_solver.
  - intros h1 h2 l1 l2 d Hc (?&?&IH). split_and!; [set_solver..|]. intros Hs1 Hs2 n.
    apply StronglySorted_inv in Hs1 as [Hs1 _]. destruct (IH Hs1 Hs2 n) as [Hn|Hn]; [by left|].
    rewrite not_elem_of_cons. destruct (decide (n = h_name h1)) as [->|]; [left|by right].
    pose proof (name_sorted_lt _ _ _ Hc Hs2). set_solver.
  - intros h1 h2 l1 l2 d _ _ (?&?&IH). split_and!; [set_solver..|].
    intros [Hs1 _]%StronglySorted_inv [Hs2 _]%StronglySorted_inv. by apply IH.
  - intros h1 h2 l1 l2 d _ _ (?&?&IH). split_and!; [set_solver..|].
    intros [Hs1 _]%StronglySorted_inv [Hs2 _]%StronglySorted_inv. by apply IH.
Qed.

Lemma diff_partition_counts l1 l2 d n :
  diff_partition l1 l2 d → n ∉ h_name <$> hs_add d ∨ n ∉ h_name <$> hs_del d →
  name_count n (hs_del d) = name_count n l1 - name_count n l2 ∧
  name_count n (hs_add d) = name_count n l2 - name_count n l1.
Proof.
  intros (same&->&->&Hsame&Hmod). rewrite <-!name_count_0. rewrite !name_count_app.
  assert (name_count n same.*1 = name_count n same.*2) as ->.
  { apply name_count_ext. induction Hsame as [|[h k] ? [E _] _ IH]; [done|].
    simpl in *. by f_equal. }
  assert (name_count n (hs_mod_old d) = name_count n (hs_mod_new d)) as ->.
  { apply name_count_ext. induction Hmod as [|???? [E _] _ IH]; [done|]. simpl in *. by f_equal. }
  lia.
Qed.

(** For lists sorted by name, [rpmhdrs_diff] classifies every header of both
    sides exactly once (removed, old half of a change, or unchanged; added, new half
    of a change, or unchanged), pairs only headers of one name, reports a pair as
    modified only if the versions differ, and reports a name as removed (added)
    exactly as many times as the old (new) side has more headers of that name. *)
Theorem rpmhdrs_diff_exact l1 l2 :
  name_sorted l1 → name_sorted l2 →
  let d := rpmhdrs_diff rpmVersionCompare l1 l2 in
  diff_partition l1 l2 d ∧
  ∀ n, name_count n (hs_del d) = name_count n l1 - name_count n l2 ∧
       name_count n (hs_add d) = name_count n l2 - name_count n l1.
Proof.
  intros Hs1 Hs2 d. pose proof (rpmhdrs_diff_partition l1 l2) as Hp. split; [done|].
  intros n. apply diff_partition_counts; [done|]. by apply rpmhdrs_diff_disjoint.
Qed.

(** * The script format prints the diff, in name order *)

#[local] Instance header_name_cmp_order : CmpOrder header_name_cmp.
Proof.
  split; unfold header_name_cmp.
  - intros x. apply cmp_refl.
  - intros x y. apply cmp_sgn.
  - intros x y z. apply cmp_trans.
Qed.

Lemma sublist_name_sorted l k : l `sublist_of` k → name_sorted k → name_sorted l.
Proof.
  induction 1 as [|x l k Hlk IH|x l k Hlk IH]; [done| |]; intros [Hk Hx]%StronglySorted_inv; auto.
  constructor; [auto|]. rewrite Forall_forall in *. intros y Hy. apply Hx.
  by eapply elem_of_sublist.
Qed.

(** [rpmhdrs_diff_prnt_diff] on the diff of two name-sorted header lists
    fails no assertion, prints every added, removed and modified header exactly
    once, and prints them in the order of their names. *)
Theorem rpmhdrs_prnt_diff_complete l1 l2 :
  name_sorted l1 → name_sorted l2 →
  let d := rpmhdrs_diff rpmVersionCompare l1 l2 in
  ∃ es,
    rpmhdrs_diff_prnt_diff d = Ok (es ≫= render_header_event) ∧
    es ≡ₚ (EvAdded <$> hs_add d) ++ (EvRemoved <$> hs_del d) ++
          (uncurry EvModified <$> zip (hs_mod_old d) (hs_mod_new d)) ∧
    StronglySorted (λ e e', header_name_cmp (event_key e) (event_key e') ≤ 0)%Z es.
Proof.
  intros Hs1 Hs2 d. destruct (rpmhdrs_diff_partition l1 l2) as (_&_&_&_&Hmod).
  apply Forall2_length in Hmod as Hlen. fold d in Hlen.
  destruct (rpmhdrs_diff_sublist l1 l2) as (?&?&?).
  destruct (diff_print_loop_ok header_name_cmp
    (length (hs_add d) + length (hs_del d) + length (hs_mod_old d))
    (hs_add d) (hs_del d) (zip (hs_mod_old d) (hs_mod_new d))) as (es&Hes&Hperm).
  { rewrite length_zip_with. lia. }
  exists es. split_and!; [|done|].
  - unfold rpmhdrs_diff_prnt_diff. by rewrite prnt_diff_events_merge, Hes by done.
  - apply (diff_print_loop_sorted header_name_cmp _ _ _ _ _ Hes).
    + rewrite length_zip_with. lia.
    + by eapply sublist_name_sorted.
    + by eapply sublist_name_sorted.
    + rewrite fst_zip by lia. by eapply sublist_name_sorted.
Qed.

(** * The block format *)

Definition changed_section (title : string) (mods : list (Header * Header)) : list string :=
  match mods with
  | [] => []
  | _ => (title +:+ nl) :: (mods ≫= λ '(ho, hn), ["  "; pkg_print_changed ho hn])
  end.

Local Abbreviation is_upgrade := (λ m : Header * Header, rpmVersionCompare m.1 m.2 < 0)%Z.
Local Abbreviation is_downgrade := (λ m : Header * Header, rpmVersionCompare m.1 m.2 > 0)%Z.
Local Abbreviation modified_pair :=
  (λ m : Header * Header, h_name m.1 = h_name m.2 ∧ rpmVersionCompare m.1 m.2 ≠ 0%Z).

Lemma name_assert h k : h_name h = h_name k → g_assert (bool_decide (header_name_cmp h k = 0%Z)) = Ok tt.
Proof. intros Hn. rewrite bool_decide_true; [done|]. by apply strcmp_eq. Qed.

Lemma prnt_block_upgraded_plain fmt_date seen srpm mods :
  Forall modified_pair mods →
  prnt_block_upgraded rpmVersionCompare fmt_date false seen srpm mods =
  Ok (if seen : bool then filter is_upgrade mods ≫= λ '(ho, hn), ["  "; pkg_print_changed ho hn]
      else changed_section "Upgraded:" (filter is_upgrade mods)).
Proof.
  intros Hm. revert seen. induction Hm as [|[ho hn] mods [Hn Hv] _ IH]; intros seen; [by destruct seen|].
  cbn [prnt_block_upgraded]. simpl in Hn, Hv. rewrite name_assert by done. simpl.
  rewrite filter_cons. simpl. case_decide.
  { rewrite decide_False by lia. apply IH. }
  rewrite decide_True by lia. rewrite IH. simpl. by destruct seen.
Qed.

Lemma prnt_block_downgraded_plain seen mods :
  Forall modified_pair mods →
  prnt_block_downgraded rpmVersionCompare seen mods =
  Ok (if seen : bool then filter is_downgrade mods ≫= λ '(ho, hn), ["  "; pkg_print_changed ho hn]
      else changed_section "Downgraded:" (filter is_downgrade mods)).
Proof.
  intros Hm. revert seen. induction Hm as [|[ho hn] mods [Hn Hv] _ IH]; intros seen; [by destruct seen|].
  cbn [prnt_block_downgraded]. simpl in Hn, Hv. rewrite name_assert by done. simpl.
  rewrite filter_cons. simpl. case_decide.
  { rewrite decide_False by lia. apply IH. }
  rewrite decide_True by lia. rewrite IH. simpl. by destruct seen.
Qed.

Lemma rpmhdrs_diff_mods l1 l2 :
  let d := rpmhdrs_diff rpmVersionCompare l1 l2 in
  length (hs_mod_old d) = length (hs_mod_new d) ∧
  Forall modified_pair (zip (hs_mod_old d) (hs_mod_new d)).
Proof.
  intros d. destruct (rpmhdrs_diff_partition l1 l2) as (_&_&_&_&Hmod). fold d in Hmod.
  split; [by eapply Forall2_length|]. induction Hmod; simpl; by constructor.
Qed.

(** [rpmhdrs_diff_prnt_block] without changelogs, on the diff of any two
    header lists, fails no assertion and prints up to four sections: every modified
    pair is in exactly one of Upgraded and Downgraded according to its versions, every
    removed header is in Removed and every added one in Added, and the heading of
    an empty section is left out. *)
Theorem rpmhdrs_prnt_block_sections fmt_date l1 l2 :
  let d := rpmhdrs_diff rpmVersionCompare l1 l2 in
  let mods := zip (hs_mod_old d) (hs_mod_new d) in
  rpmhdrs_diff_prnt_block rpmVersionCompare fmt_date false d =
  Ok (changed_section "Upgraded:" (filter is_upgrade mods) ++
      changed_section "Downgraded:" (filter is_downgrade mods) ++
      prnt_block_singles "Removed:" (hs_del d) ++ prnt_block_singles "Added:" (hs_add d)) ∧
  filter is_upgrade mods ++ filter is_downgrade mods ≡ₚ mods.
Proof.
  intros d mods. destruct (rpmhdrs_diff_mods l1 l2) as [Hlen Hmods]. split.
  - unfold rpmhdrs_diff_prnt_block. rewrite bool_decide_true by done. simpl.
    by rewrite prnt_block_upgraded_plain, prnt_block_downgraded_plain by done.
  - fold d in Hmods. fold mods in Hmods. induction Hmods as [|m mods' [_ Hv] _ IH]; [done|].
    rewrite !filter_cons. case_decide.
    + rewrite decide_False by lia. simpl. by rewrite IH.
    + rewrite decide_True by lia. by rewrite <-Permutation_middle, IH.
Qed.

(** The entries printed for one pair when changelogs are grouped by source
    package: those of the last package of each run. *)
Fixpoint grouped_changelogs (fmt_date : N → string) (mods : list (Header * Header)) : list string :=
  match mods with
  | [] => []
  | (ho, hn) :: rest =>
      ["  "; pkg_print_changed ho hn] ++
      (if decide (h_sourcerpm ho = (fst <$> head rest) ≫= h_sourcerpm) then []
       else prnt_pkg_changelog fmt_date ho hn) ++
      grouped_changelogs fmt_date rest
  end.

Lemma prnt_block_upgraded_grouped fmt_date srpm seen mods :
  Forall (λ m, modified_pair m ∧ is_upgrade m) mods →
  srpm = None ∨ srpm = (fst <$> head mods) ≫= h_sourcerpm →
  prnt_block_upgraded rpmVersionCompare fmt_date true seen srpm mods =
  Ok ((if seen || bool_decide (mods = []) then [] else ["Upgraded:" +:+ nl]) ++
      grouped_changelogs fmt_date mods).
Proof.
  intros Hm. revert srpm seen. induction Hm as [|[ho hn] mods [[Hn _] Hv] _ IH]; intros srpm seen Hs.
  { by destruct seen. }
  cbn [prnt_block_upgraded grouped_changelogs]. simpl in Hn, Hv. rewrite name_assert by done.
  rewrite (decide_False (P := (_ > 0)%Z)) by lia. simpl.
  replace (match srpm with Some s => Some s | None => h_sourcerpm ho end) with (h_sourcerpm ho)
    by (destruct Hs as [->|Hs]; [done|]; destruct srpm; simpl in Hs; congruence).
  rewrite IH by (right; by destruct mods as [|[]]). simpl.
  assert (match mods with [] => None | (next_ho, _) :: _ => h_sourcerpm next_ho end =
    (fst <$> head mods) ≫= h_sourcerpm) as -> by by destruct mods as [|[]].
  by rewrite orb_false_r, <-app_assoc.
Qed.

(** When every modified pair is an upgrade, the changelogs are printed
    once per run of consecutive packages of one source package, after the last
    package of the run. *)
Theorem rpmhdrs_prnt_block_changelogs fmt_date l1 l2 :
  let d := rpmhdrs_diff rpmVersionCompare l1 l2 in
  let mods := zip (hs_mod_old d) (hs_mod_new d) in
  Forall is_upgrade mods →
  rpmhdrs_diff_prnt_block rpmVersionCompare fmt_date true d =
  Ok ((if decide (mods = []) then [] else ["Upgraded:" +:+ nl]) ++
      grouped_changelogs fmt_date mods ++
      prnt_block_singles "Removed:" (hs_del d) ++ prnt_block_singles "Added:" (hs_add d)).
Proof.
  intros d mods Hup. destruct (rpmhdrs_diff_mods l1 l2) as [Hlen Hmods].
  unfold rpmhdrs_diff_prnt_block. rewrite bool_decide_true by done. simpl.
  rewrite prnt_block_upgraded_grouped by first [by left|apply Forall_and; split; done]. simpl.
  rewrite prnt_block_downgraded_plain by done. simpl.
  fold d. fold mods. assert (filter is_downgrade mods = []) as ->.
  { clear Hmods. induction Hup as [|m ms Hm _ IH]; [done|].
    rewrite filter_cons, decide_False by lia. done. }
  simpl. rewrite <-!app_assoc. by destruct (decide (mods = [])) as [->|?];
    [|rewrite bool_decide_false by done].
Qed.
End header_diff.

(** * The literal prefix of the patterns *)

(** The characters [fnmatch] does not take literally. *)
Definition fnm_special (c : ascii) : bool :=
  match c with "*" | "?" | "[" | "\" => true | _ => false end%char.

Lemma tolower_dash c : g_ascii_tolower c = "-"%char → c = "-"%char.
Proof. destruct c as [[] [] [] [] [] [] [] []]; by vm_compute. Qed.

Lemma tolower_dot c : g_ascii_tolower c = "."%char → c = "."%char.
Proof. destruct c as [[] [] [] [] [] [] [] []]; by vm_compute. Qed.

Lemma pat_break_special c : c ≠ "\"%char → pat_break c = false → fnm_special c = false.
Proof. destruct c as [[] [] [] [] [] [] [] []]; by vm_compute. Qed.

(** The tail of a NEVRA, NA or NVR after its name. *)
Definition after_name (s : string) : Prop :=
  match s with
  | EmptyString => True
  | String c _ => c = "-"%char ∨ c = "."%char
  end.

Lemma nevra_after_name h : h_name h ≠ "" →
  ∀ s, s ∈ [h_name h; pkg_nevra_strdup h; pkg_na_strdup h; pkg_nvr_strdup h] →
  ∃ t, s = h_name h +:+ t ∧ after_name t.
Proof.
  intros Hn. assert (0 < String.length (h_name h)) as Hl by (destruct (h_name h); simpl; [done|lia]).
  apply Forall_forall. repeat apply Forall_cons_2; [..|apply Forall_nil_2].
  - exists "". by rewrite str_app_nil_r.
  - rewrite pkg_nevra_shape, decide_True by done. eexists. split; [done|]. by left.
  - unfold pkg_na_strdup, rpmostree_header_custom_nevra_strdup, rpmostree_custom_nevra_strdup,
      rpmostree_custom_nevra. simpl. change ("" +:+ ?s) with s.
    rewrite decide_True, <-str_app_assoc by done. eexists. split; [done|]. by right.
  - unfold pkg_nvr_strdup, rpmostree_header_custom_nevra_strdup, rpmostree_custom_nevra_strdup,
      rpmostree_custom_nevra. simpl. change ("" +:+ ?s) with s.
    rewrite decide_True by done. rewrite <-str_app_assoc. eexists. split; [done|]. by left.
Qed.

Lemma pat_fnmatch_prefix_le ps p : p ∈ ps → (pat_fnmatch_prefix (Some ps) ≤ pat_prefix_len p)%N.
Proof.
  simpl. generalize G_MAXSIZE. induction ps as [|q ps IH]; intros m Hp; [by apply not_elem_of_nil in Hp|].
  simpl. apply elem_of_cons in Hp as [->|Hp]; [|by apply IH].
  clear IH. assert (∀ m, foldl (λ ret pat, N.min ret (pat_prefix_len pat)) m ps ≤ m)%N as Hle.
  { induction ps as [|r ps IH]; intros m'; simpl; [done|]. etrans; [apply IH|]. lia. }
  etrans; [apply Hle|]. lia.
Qed.

Section prefilter.
Context (fnmatch : string → string → bool).
(** POSIX: a character that is not special matches itself; with FNM_CASEFOLD
    case is ignored. *)
Hypothesis fnmatch_literal : ∀ c p s,
  fnm_special c = false → fnmatch (String c p) s = true →
  ∃ d s', s = String d s' ∧ g_ascii_tolower c = g_ascii_tolower d ∧ fnmatch p s' = true.

Lemma fnmatch_prefix_name p name t k :
  str_all (not_char "\") p = true → after_name t → (k ≤ pat_prefix_len p)%N →
  fnmatch p (name +:+ t) = true → casencmp_eq name p k = true.
Proof.
  revert name k. induction p as [|c p IH]; intros name k Hp Ht Hk Hm.
  { assert (k = 0%N) as -> by (simpl in Hk; lia). by destruct name. }
  destruct (decide (k = 0%N)) as [->|Hk0]; [by destruct name|].
  simpl in Hp, Hk. destruct (pat_break c) eqn:Hc; [lia|]. apply andb_true_iff in Hp as [Hbs Hp].
  assert (c ≠ "\"%char) as Hcb by (intros ->; done).
  destruct (fnmatch_literal _ _ _ (pat_break_special _ Hcb Hc) Hm) as (d&s'&Es&Ed&Hm').
  assert ((k =? 0)%N = false) as Hkb by by apply N.eqb_neq.
  destruct name as [|d' name].
  - change (t = String d s') in Es. subst t. destruct Ht as [-> | ->].
    + by apply tolower_dash in Ed as ->.
    + by apply tolower_dot in Ed as ->.
  - rewrite str_app_cons in Es. injection Es as -> <-.
    cbn [casencmp_eq]. rewrite Hkb, Ed, Ascii.eqb_refl. apply (IH name); [done..|lia|done].
Qed.

Definition pat_match_any (h : Header) (p : string) : bool :=
  fnmatch p (h_name h) || fnmatch p (pkg_nevra_strdup h)
  || fnmatch p (pkg_na_strdup h) || fnmatch p (pkg_nvr_strdup h).

Lemma pat_match_one_any h p k :
  str_all (not_char "\") p = true → h_name h ≠ "" → (k ≤ pat_prefix_len p)%N →
  pat_match_one fnmatch h (h_name h) k p = pat_match_any h p.
Proof.
  intros Hp Hn Hk. unfold pat_match_one. fold (pat_match_any h p).
  destruct (casencmp_eq _ _ _) eqn:Hc; simpl; [by rewrite andb_false_r|].
  rewrite andb_true_r. case_match; [|done]. symmetry. apply not_true_is_false. intros Hm.
  assert (∃ s, s ∈ [h_name h; pkg_nevra_strdup h; pkg_na_strdup h; pkg_nvr_strdup h] ∧
    fnmatch p s = true) as (s&Hs&Hfm).
  { unfold pat_match_any in Hm. rewrite !orb_true_iff in Hm.
    destruct Hm as [[[Hm|Hm]|Hm]|Hm]; eexists; (split; [|exact Hm]); set_solver. }
  destruct (nevra_after_name h Hn s Hs) as (t&->&Ht).
  by rewrite (fnmatch_prefix_name p (h_name h) t) in Hc.
Qed.

(** Comparing the literal prefixes first never changes which packages
    match: for patterns without a backslash and a package with a name,
    [pat_fnmatch_match] with the prefix length of [pat_fnmatch_prefix] accepts
    exactly the packages of which some pattern matches the name, the NEVRA, the
    name.arch or the NVR. *)
Theorem pat_prefix_sound ps h :
  Forall (λ p, str_all (not_char "\") p = true) ps → h_name h ≠ "" →
  pat_fnmatch_match fnmatch h (h_name h) (pat_fnmatch_prefix (Some ps)) (Some ps) =
  existsb (λ p, fnmatch p (h_name h) || fnmatch p (pkg_nevra_strdup h)
                || fnmatch p (pkg_na_strdup h) || fnmatch p (pkg_nvr_strdup h)) ps.
Proof.
  intros Hps Hn. rewrite Forall_forall in Hps. unfold pat_fnmatch_match.
  pose proof (pat_fnmatch_prefix_le ps) as Hle. revert Hps Hle.
  generalize (pat_fnmatch_prefix (Some ps)). intros k.
  induction ps as [|p ps IH]; intros Hps Hle; [done|]. cbn [existsb]. f_equal.
  - apply pat_match_one_any; [apply Hps|done|apply Hle]; set_solver.
  - apply IH; set_solver.
Qed.
End prefilter.

(** * Concrete instances *)

(** An [fnmatch] for patterns with literals, "?", "*" and escapes. *)
Fixpoint ex_fnmatch (p : string) : string → bool :=
  match p with
  | EmptyString => λ s, match s with EmptyString => true | _ => false end
  | String c p' =>
      if Ascii.eqb c "*" then
        fix star s := ex_fnmatch p' s || match s with EmptyString => false | String _ s' => star s' end
      else if Ascii.eqb c "\" then
        match p' with
        | EmptyString => λ _, false
        | String e p'' => λ s,
            match s with
            | EmptyString => false
            | String d s' => Ascii.eqb (g_ascii_tolower e) (g_ascii_tolower d) && ex_fnmatch p'' s'
            end
        end
      else λ s,
        match s with
        | EmptyString => false
        | String d s' =>
            (Ascii.eqb c "?" || Ascii.eqb (g_ascii_tolower c) (g_ascii_tolower d)) && ex_fnmatch p' s'
        end
  end.

Lemma ex_fnmatch_literal c p s :
  fnm_special c = false → ex_fnmatch (String c p) s = true →
  ∃ d s', s = String d s' ∧ g_ascii_tolower c = g_ascii_tolower d ∧ ex_fnmatch p s' = true.
Proof.
  intros Hc. cbn [ex_fnmatch].
  assert (Ascii.eqb c "*" = false ∧ Ascii.eqb c "\" = false ∧ Ascii.eqb c "?" = false) as (->&->&->).
  { split_and!; apply Ascii.eqb_neq; intros ->; done. }
  destruct s as [|d s]; [done|]. simpl. intros [E%Ascii.eqb_eq ?]%andb_true_iff. eauto.
Qed.

Definition ex_vercmp (h k : Header) : Z := strcmp (h_version h) (h_version k).
Definition ex_hdr (name version srpm : string) (log : list changelog_entry) : Header :=
  MkHeader name 0 version "1" "x86_64" (Some srpm) log.
Definition ex_entry (date : N) : changelog_entry := Changelog date "A <a@b>" "- text".
Definition ex_hdrs_old : list Header :=
  [ex_hdr "bash" "1" "bash.src" [ex_entry 10]; ex_hdr "glibc" "1" "glibc.src" [ex_entry 10];
   ex_hdr "zlib" "1" "zlib.src" []].
Definition ex_hdrs_new : list Header :=
  [ex_hdr "bash" "2" "bash.src" [ex_entry 20; ex_entry 10];
   ex_hdr "glibc" "1" "glibc.src" [ex_entry 10]; ex_hdr "vim" "1" "vim.src" []].

Lemma ex_hdrs_sorted :
  StronglySorted (λ h k, header_name_cmp h k ≤ 0)%Z ex_hdrs_old ∧
  StronglySorted (λ h k, header_name_cmp h k ≤ 0)%Z ex_hdrs_new.
Proof. split; repeat constructor; by vm_compute. Qed.

Lemma rpmhdrs_diff_exact_witness :
  diff_partition ex_vercmp ex_hdrs_old ex_hdrs_new (rpmhdrs_diff ex_vercmp ex_hdrs_old ex_hdrs_new).
Proof.
  apply (rpmhdrs_diff_exact ex_vercmp ex_hdrs_old ex_hdrs_new); apply ex_hdrs_sorted.
Defined.

Lemma rpmhdrs_prnt_diff_complete_witness :
  ∃ es, rpmhdrs_diff_prnt_diff (rpmhdrs_diff ex_vercmp ex_hdrs_old ex_hdrs_new) =
    Ok (es ≫= render_header_event).
Proof.
  destruct (rpmhdrs_prnt_diff_complete ex_vercmp ex_hdrs_old ex_hdrs_new) as (es&Hes&_);
    [apply ex_hdrs_sorted..|]. by exists es.
Defined.

Lemma rpmhdrs_prnt_block_changelogs_witness :
  rpmhdrs_diff_prnt_block ex_vercmp pretty true (rpmhdrs_diff ex_vercmp ex_hdrs_old ex_hdrs_new) =
  Ok ["Upgraded:" +:+ nl; "  "; "bash 1-1.x86_64 -> 2-1.x86_64" +:+ nl;
      "    * 20 A <a@b>" +:+ nl +:+ "    - text" +:+ nl +:+ nl;
      "Removed:" +:+ nl; "  "; "zlib-1-1.x86_64" +:+ nl;
      "Added:" +:+ nl; "  "; "vim-1-1.x86_64" +:+ nl].
Proof.
  etransitivity; [apply (rpmhdrs_prnt_block_changelogs ex_vercmp pretty ex_hdrs_old ex_hdrs_new)|].
  - repeat constructor.
  - by vm_compute.
Defined.

Lemma pat_prefix_sound_witness :
  pat_fnmatch_match ex_fnmatch (ex_hdr "bash" "1" "" []) "bash"
    (pat_fnmatch_prefix (Some ["zsh"; "BA*1-1"])) (Some ["zsh"; "BA*1-1"]) = true.
Proof.
  etransitivity.
  - apply (pat_prefix_sound ex_fnmatch ex_fnmatch_literal ["zsh"; "BA*1-1"]
      (ex_hdr "bash" "1" "" [])); [by repeat constructor|done].
  - by vm_compute.
Defined.

(** An escaped character is counted into the literal prefix together with its
    backslash: the pattern "\bash" matches "bash" but the package is rejected. *)
Lemma pat_prefix_escape_rejected :
  ex_fnmatch "\bash" "bash" = true ∧
  pat_fnmatch_match ex_fnmatch (ex_hdr "bash" "1" "" []) "bash"
    (pat_fnmatch_prefix (Some ["\bash"])) (Some ["\bash"]) = false.
Proof. by vm_compute. Qed.

(** The grouping of changelogs looks ahead to the next modified package
    even when that package is a downgrade and is skipped: an upgraded package that is
    followed by a downgraded package of the same source package gets no changelog
    at all, although its new changelog has an entry the old one does not have. *)
Theorem prnt_block_changelog_lost :
  let mods_old := [ex_hdr "a" "1" "s.src" [ex_entry 10]; ex_hdr "b" "2" "s.src" [ex_entry 10]] in
  let mods_new := [ex_hdr "a" "2" "s.src" [ex_entry 20; ex_entry 10];
                   ex_hdr "b" "1" "s.src" [ex_entry 10]] in
  let d := rpmhdrs_diff ex_vercmp mods_old mods_new in
  rpmhdrs_diff_prnt_block ex_vercmp pretty true d = rpmhdrs_diff_prnt_block ex_vercmp pretty false d ∧
  prnt_pkg_changelog pretty (ex_hdr "a" "1" "s.src" [ex_entry 10])
    (ex_hdr "a" "2" "s.src" [ex_entry 20; ex_entry 10]) ≠ [].
Proof. by vm_compute. Qed.
