(* ===== verification/Transaction.v ===== *)
(** The life of a transaction in the daemon: creation on behalf of a D-Bus method
    call, Start, execution, completion, and the ways it goes away, from
    [src/daemon/rpmostreed-transaction.cxx] and [src/daemon/rpmostreed-sysroot.cxx].

    The daemon is a state machine: a [Daemon] state, one function per callback or
    method handler, and the events of the main loop that run them. *)

From S2P Require Import Prelude.
From stdpp Require Import gmap.

(** * State *)

Record Invocation := MkInvocation {
  inv_method : string; inv_parameters : string; inv_sender : string; inv_path : string;
}.

(** [_RpmostreedTransactionPrivate]. [t_task] says that the GTask of Start is
    pending or running (it holds a reference to the transaction); [t_closed_cb] are the
    connections whose "closed" signal is connected and not yet emitted. *)
Record Txn := MkTxn {
  t_invocation : Invocation;
  t_title : string;
  t_watch_id : bool;
  t_task : bool;
  t_executed : bool;
  t_cancelled : bool;
  t_sysroot : bool;
  t_sysroot_locked : bool;
  t_server : bool;
  t_peer_connections : gset nat;
  t_closed_cb : gset nat;
  t_finished_params : option (bool * string);
}.

(** The lock of the sysroot: free, taken through the [OstreeSysroot] of a
    transaction of this daemon, or taken by another process. *)
Inductive sysroot_lock := LockFree | LockTxn (t : nat) | LockOther.

Inductive signal :=
  | SigClosed (t : nat)
  | SigFinished (t : nat) (params : bool * string)
  | SigFinishedOn (t conn : nat) (params : bool * string)
  | RetStart (t conn : nat) (started : bool)
  | RetCancel (t conn : nat)
  | RetAddress (t : nat)
  | RetError (e : gerror)
  | RetAutoUpdateDisabled.

(** The daemon: the live transaction objects, the fields of [_RpmostreedSysroot]
    about transactions, the lock, and what was sent. *)
Record Daemon := MkDaemon {
  d_txns : gmap nat Txn;
  d_next : nat;
  s_transaction : option nat;
  s_close_timeout : bool;
  s_active_transaction : string * string * string;
  d_lock : sysroot_lock;
  d_rebooting : bool;
  d_out : list signal;
}.

Definition init_daemon : Daemon :=
  MkDaemon ∅ 0 None false (""%string, ""%string, ""%string) LockFree false [].

(** ** Field updates *)

Definition set_txns (m : gmap nat Txn) (d : Daemon) : Daemon :=
  MkDaemon m (d_next d) (s_transaction d) (s_close_timeout d) (s_active_transaction d)
    (d_lock d) (d_rebooting d) (d_out d).
Definition set_lock (l : sysroot_lock) (d : Daemon) : Daemon :=
  MkDaemon (d_txns d) (d_next d) (s_transaction d) (s_close_timeout d) (s_active_transaction d)
    l (d_rebooting d) (d_out d).
Definition set_timeout (b : bool) (d : Daemon) : Daemon :=
  MkDaemon (d_txns d) (d_next d) (s_transaction d) b (s_active_transaction d)
    (d_lock d) (d_rebooting d) (d_out d).
Definition set_active (o : option nat) (a : string * string * string) (d : Daemon) : Daemon :=
  MkDaemon (d_txns d) (d_next d) o (s_close_timeout d) a (d_lock d) (d_rebooting d) (d_out d).
Definition emit (s : signal) (d : Daemon) : Daemon :=
  MkDaemon (d_txns d) (d_next d) (s_transaction d) (s_close_timeout d) (s_active_transaction d)
    (d_lock d) (d_rebooting d) (d_out d ++ [s]).
Definition set_rebooting (d : Daemon) : Daemon :=
  MkDaemon (d_txns d) (d_next d) (s_transaction d) (s_close_timeout d) (s_active_transaction d)
    (d_lock d) true (d_out d).

Definition upd (f : Txn → Txn) (t : nat) (d : Daemon) : Daemon := set_txns (alter f t (d_txns d)) d.

Definition with_title (title : string) (x : Txn) : Txn :=
  MkTxn (t_invocation x) title (t_watch_id x) (t_task x) (t_executed x) (t_cancelled x)
    (t_sysroot x) (t_sysroot_locked x) (t_server x) (t_peer_connections x) (t_closed_cb x)
    (t_finished_params x).
Definition with_watch_id (b : bool) (x : Txn) : Txn :=
  MkTxn (t_invocation x) (t_title x) b (t_task x) (t_executed x) (t_cancelled x)
    (t_sysroot x) (t_sysroot_locked x) (t_server x) (t_peer_connections x) (t_closed_cb x)
    (t_finished_params x).
Definition with_task (b : bool) (x : Txn) : Txn :=
  MkTxn (t_invocation x) (t_title x) (t_watch_id x) b (t_executed x) (t_cancelled x)
    (t_sysroot x) (t_sysroot_locked x) (t_server x) (t_peer_connections x) (t_closed_cb x)
    (t_finished_params x).
Definition with_cancelled (x : Txn) : Txn :=
  MkTxn (t_invocation x) (t_title x) (t_watch_id x) (t_task x) (t_executed x) true
    (t_sysroot x) (t_sysroot_locked x) (t_server x) (t_peer_connections x) (t_closed_cb x)
    (t_finished_params x).
Definition with_executed (params : bool * string) (x : Txn) : Txn :=
  MkTxn (t_invocation x) (t_title x) (t_watch_id x) (t_task x) true (t_cancelled x)
    (t_sysroot x) (t_sysroot_locked x) (t_server x) (t_peer_connections x) (t_closed_cb x)
    (Some params).
Definition with_locked (b : bool) (x : Txn) : Txn :=
  MkTxn (t_invocation x) (t_title x) (t_watch_id x) (t_task x) (t_executed x) (t_cancelled x)
    (t_sysroot x) b (t_server x) (t_peer_connections x) (t_closed_cb x) (t_finished_params x).
Definition with_sysroot (b : bool) (x : Txn) : Txn :=
  MkTxn (t_invocation x) (t_title x) (t_watch_id x) (t_task x) (t_executed x) (t_cancelled x)
    b (t_sysroot_locked x) (t_server x) (t_peer_connections x) (t_closed_cb x) (t_finished_params x).
Definition with_server (b : bool) (x : Txn) : Txn :=
  MkTxn (t_invocation x) (t_title x) (t_watch_id x) (t_task x) (t_executed x) (t_cancelled x)
    (t_sysroot x) (t_sysroot_locked x) b (t_peer_connections x) (t_closed_cb x) (t_finished_params x).
Definition with_peers (peers closed_cb : gset nat) (x : Txn) : Txn :=
  MkTxn (t_invocation x) (t_title x) (t_watch_id x) (t_task x) (t_executed x) (t_cancelled x)
    (t_sysroot x) (t_sysroot_locked x) (t_server x) peers closed_cb (t_finished_params x).

(** Reading a transaction that is gone is a use after free. *)
Definition get (t : nat) (d : Daemon) : outcome Txn :=
  match d_txns d !! t with Some x => Ok x | None => Abort end.

(** * Handlers *)

Section handlers.
(** Whether freeing a locked [OstreeSysroot] releases its lock. *)
Context (sysroot_free_unlocks : bool).

Definition rpmostreed_transaction_get_active (t : nat) (d : Daemon) : outcome bool :=
  x ← get t d; Ok (match t_finished_params x with None => true | Some _ => false end).

Definition unlock_sysroot (t : nat) (d : Daemon) : outcome Daemon :=
  x ← get t d;
  if negb (t_sysroot x && t_sysroot_locked x) then Ok d
  else Ok (upd (with_locked false) t (set_lock LockFree d)).

(** [transaction_dispose]: dropping [priv->sysroot] frees the [OstreeSysroot]. *)
Definition transaction_dispose (t : nat) (d : Daemon) : outcome Daemon :=
  x ← get t d;
  let d1 := upd (λ x, with_server false (with_sysroot false (with_peers ∅ (t_closed_cb x) x))) t d in
  Ok (if sysroot_free_unlocks && (t_sysroot x && t_sysroot_locked x)
      then set_lock LockFree d1 else d1).

(** [transaction_finalize]; the object and its signal handlers are gone. *)
Definition transaction_finalize (t : nat) (d : Daemon) : outcome Daemon :=
  d1 ← unlock_sysroot t d;
  Ok (set_txns (delete t (d_txns d1)) d1).

(** [g_object_unref] of a reference that is not the sysroot's or the GTask's. *)
Definition transaction_unref (t : nat) (d : Daemon) : outcome Daemon :=
  x ← get t d;
  if t_task x || bool_decide (s_transaction d = Some t) then Ok d
  else d1 ← transaction_dispose t d; transaction_finalize t d1.

Definition rpmostreed_sysroot_has_txn (d : Daemon) : bool :=
  match s_transaction d with Some _ => true | None => false end.

Definition rpmostreed_sysroot_set_txn (txn : option nat) (d : Daemon) : outcome Daemon :=
  let d := set_timeout false d in
  match txn with
  | Some t =>
      _ ← g_assert (negb (rpmostreed_sysroot_has_txn d));
      x ← get t d;
      let i := t_invocation x in
      Ok (set_active (Some t) (inv_method i, inv_sender i, inv_path i) d)
  | None =>
      match s_transaction d with
      | None => Abort
      | Some t => transaction_unref t (set_active None (""%string, ""%string, ""%string) d)
      end
  end.

Definition rpmostreed_sysroot_set_txn_and_title (t : nat) (title : string) (d : Daemon) :
    outcome Daemon :=
  rpmostreed_sysroot_set_txn (Some t) (upd (with_title title) t d).

Definition rpmostreed_sysroot_finish_txn (t : nat) (d : Daemon) : outcome Daemon :=
  _ ← g_assert (bool_decide (s_transaction d = Some t));
  rpmostreed_sysroot_set_txn None d.

Definition transaction_maybe_emit_closed (t : nat) (d : Daemon) : outcome Daemon :=
  active ← rpmostreed_transaction_get_active t d;
  if active : bool then Ok d else
  x ← get t d;
  if decide (0 < size (t_peer_connections x)) then Ok d
  else rpmostreed_sysroot_finish_txn t (emit (SigClosed t) d).

Definition transaction_connection_closed_cb (t c : nat) (d : Daemon) : outcome Daemon :=
  _ ← get t d;
  transaction_maybe_emit_closed t
    (upd (λ x, with_peers (t_peer_connections x ∖ {[c]}) (t_closed_cb x ∖ {[c]}) x) t d).

(** [exported]: whether [g_dbus_interface_skeleton_export] succeeded. *)
Definition transaction_new_connection_cb (exported : bool) (t c : nat) (d : Daemon) : outcome Daemon :=
  _ ← get t d;
  if negb exported then Ok d
  else Ok (upd (λ x, with_peers (t_peer_connections x ∪ {[c]}) (t_closed_cb x ∪ {[c]}) x) t d).

Definition transaction_owner_vanished_cb (t : nat) (d : Daemon) : outcome Daemon :=
  x ← get t d;
  if t_watch_id x
  then rpmostreed_sysroot_finish_txn t (emit (SigClosed t) (upd (with_watch_id false) t d))
  else Ok d.

Definition on_txn_executed_changed (t : nat) (d : Daemon) : outcome Daemon :=
  x ← get t d;
  Ok (if t_executed x && negb (s_close_timeout d) then set_timeout true d else d).

(** What [clazz->execute] does: return with or without an error set, or throw. *)
Inductive execute_result :=
  | ExecRet (success : bool) (err : option string)
  | ExecThrow (what : string).
Inductive task_result := TaskError (msg : string) | TaskBoolean (b : bool).

Definition transaction_execute_thread (failpoint : option string)
    (execute : option execute_result) : task_result :=
  let '(success, local_error) :=
    match failpoint with Some e => (false, Some e) | None => (true, None) end in
  let '(success, local_error) :=
    match success, execute with
    | true, Some (ExecRet s e) => (s, e)
    | true, Some (ExecThrow e) => (false, Some e)
    | _, _ => (success, local_error)
    end in
  match local_error with Some e => TaskError e | None => TaskBoolean success end.

(** [reload]: the error of [rpmostreed_sysroot_reload], if it fails. *)
Definition transaction_execute_done_cb (t : nat) (result : task_result) (reload : option string)
    (d : Daemon) : outcome Daemon :=
  let '(success, local_error) :=
    match result with
    | TaskError e => (false, Some e)
    | TaskBoolean false => (false, None)
    | TaskBoolean true =>
        match reload with Some e => (false, Some e) | None => (true, None) end
    end in
  let error_message := match local_error with Some e => e | None => ""%string end in
  _ ← get t d;
  let d := emit (SigFinished t (success, error_message)) d in
  let d := upd (with_executed (success, error_message)) t d in
  d ← unlock_sysroot t d;
  d ← on_txn_executed_changed t d;
  transaction_maybe_emit_closed t d.

(** The completion of the GTask: its callback, after which it drops its reference. *)
Definition task_done (t : nat) (result : task_result) (reload : option string) (d : Daemon) :
    outcome Daemon :=
  d ← transaction_execute_done_cb t result reload d;
  transaction_unref t (upd (with_task false) t d).

Definition transaction_handle_cancel (t c : nat) (d : Daemon) : outcome Daemon :=
  _ ← get t d;
  Ok (emit (RetCancel t c) (upd with_cancelled t d)).

Definition transaction_handle_start (t c : nat) (d : Daemon) : outcome Daemon :=
  x ← get t d;
  let started := t_watch_id x in
  let d := if started then upd (λ x, with_task true (with_watch_id false x)) t d else d in
  let d := emit (RetStart t c started) d in
  Ok (match t_finished_params x with
      | Some p => emit (SigFinishedOn t c p) d
      | None => d
      end).

(** The "closed" signals of the connections arrive later. *)
Definition rpmostreed_transaction_force_close (t : nat) (d : Daemon) : outcome Daemon :=
  x ← get t d;
  _ ← g_assert (t_executed x);
  Ok (upd (λ x, with_server false (with_peers ∅ (t_closed_cb x) x)) t d).

Definition on_force_close (d : Daemon) : outcome Daemon :=
  match s_transaction d with
  | Some t => d ← rpmostreed_transaction_force_close t d; rpmostreed_sysroot_set_txn None d
  | None => Ok d
  end.

(** ** Creation *)

(** What the environment answers during construction: setting up the D-Bus
    server, loading the sysroot, trying its lock, and the checks a constructor does
    after [g_initable_new]. *)
Record InitEnv := MkInitEnv {
  ie_server : outcome unit;
  ie_load : outcome unit;
  ie_try_lock : outcome unit;
  ie_post : outcome unit;
}.

Definition new_txn (inv : Invocation) : Txn :=
  MkTxn inv "" true false false false false false false ∅ ∅ None.

(** [transaction_initable_init]; an error is returned next to the state it leaves. *)
Definition transaction_initable_init (env : InitEnv) (t : nat) (d : Daemon) :
    outcome (Daemon * option gerror) :=
  match ie_server env with
  | Abort => Abort
  | Err e => Ok (d, Some e)
  | Ok _ =>
      let d := upd (with_sysroot true) t d in
      match (_ ← ie_load env; ie_try_lock env) with
      | Abort => Abort
      | Err e => Ok (d, Some e)
      | Ok _ =>
          match d_lock d with
          | LockFree => Ok (upd (λ x, with_server true (with_locked true x)) t (set_lock (LockTxn t) d), None)
          | _ => Ok (d, Some (GError G_IO_ERROR_BUSY "System transaction in progress"))
          end
      end
  end.

(** [g_initable_new] and the rest of a [rpmostreed_transaction_new_*]: on an
    error the only reference is dropped. *)
Definition transaction_new (env : InitEnv) (inv : Invocation) (d : Daemon) :
    outcome (Daemon * (gerror + nat)) :=
  _ ← g_assert (negb (rpmostreed_sysroot_has_txn d));
  let t := d_next d in
  let d := MkDaemon (<[t := new_txn inv]> (d_txns d)) (S t) (s_transaction d) (s_close_timeout d)
             (s_active_transaction d) (d_lock d) (d_rebooting d) (d_out d) in
  r ← transaction_initable_init env t d;
  match r.2, ie_post env with
  | Some e, _ | None, Err e => d ← transaction_unref t r.1; Ok (d, inl e)
  | None, Ok _ => Ok (r.1, inr t)
  | None, Abort => Abort
  end.

Definition rpmostreed_transaction_is_compatible (x : Txn) (inv : Invocation) : bool :=
  bool_decide (inv_method (t_invocation x) = inv_method inv)
  && bool_decide (inv_parameters (t_invocation x) = inv_parameters inv).

Definition rpmostreed_sysroot_prep_for_txn (inv : Invocation) (d : Daemon) : outcome (option nat) :=
  if d_rebooting d then glnx_throw "Reboot initiated, cannot start new transaction" else
  match s_transaction d with
  | Some t =>
      x ← get t d;
      if rpmostreed_transaction_is_compatible x inv then Ok (Some t)
      else g_set_error G_IO_ERROR_BUSY
             ("Transaction in progress: " +:+ t_title x +:+ nl +:+
              " You can cancel the current transaction with `rpm-ostree cancel`")
  | None => Ok None
  end.

(** The body of the method handlers that start a transaction; [load] is
    [rpmostreed_sysroot_load_state]. *)
Definition os_merge_or_start_txn (inv : Invocation) (title : string) (load : outcome unit)
    (env : InitEnv) (d : Daemon) : outcome Daemon :=
  match rpmostreed_sysroot_prep_for_txn inv d with
  | Abort => Abort
  | Err e => Ok (emit (RetError e) d)
  | Ok (Some t) => Ok (emit (RetAddress t) d)
  | Ok None =>
      match load with
      | Abort => Abort
      | Err e => Ok (emit (RetError e) d)
      | Ok _ =>
          r ← transaction_new env inv d;
          match r.2 with
          | inl e => Ok (emit (RetError e) r.1)
          | inr t => d ← rpmostreed_sysroot_set_txn_and_title t title r.1; Ok (emit (RetAddress t) d)
          end
      end
  end.

(** * The main loop *)

Inductive event :=
  | EvMethod (inv : Invocation) (title : string) (load : outcome unit) (env : InitEnv)
  | EvStart (t c : nat)
  | EvCancel (t c : nat)
  | EvNewConnection (exported : bool) (t c : nat)
  | EvConnectionClosed (t c : nat)
  | EvOwnerVanished (t : nat)
  | EvTaskDone (t : nat) (result : task_result) (reload : option string)
  | EvForceClose
  | EvReboot
  | EvOtherLock
  | EvOtherUnlock.

Definition handle (e : event) (d : Daemon) : outcome Daemon :=
  match e with
  | EvMethod inv title load env => os_merge_or_start_txn inv title load env d
  | EvStart t c => transaction_handle_start t c d
  | EvCancel t c => transaction_handle_cancel t c d
  | EvNewConnection exported t c => transaction_new_connection_cb exported t c d
  | EvConnectionClosed t c => transaction_connection_closed_cb t c d
  | EvOwnerVanished t => transaction_owner_vanished_cb t d
  | EvTaskDone t result reload => task_done t result reload d
  | EvForceClose => on_force_close d
  | EvReboot => Ok (set_rebooting d)
  | EvOtherLock => Ok (set_lock LockOther d)
  | EvOtherUnlock => Ok (set_lock LockFree d)
  end.

(** When GLib, D-Bus and the other processes can produce an event: a method of the
    transaction is called over a peer connection, a connection is accepted while the
    server runs, "closed" is emitted once per connection, the name watch and the
    task call back while they exist, the timeout fires while it is armed. *)
Definition enabled (e : event) (d : Daemon) : Prop :=
  let live t P := ∃ x, d_txns d !! t = Some x ∧ P x in
  match e with
  | EvMethod _ _ load env =>
      load ≠ Abort ∧ ie_server env ≠ Abort ∧ ie_load env ≠ Abort ∧ ie_try_lock env ≠ Abort ∧
      ie_post env ≠ Abort
  | EvStart t c | EvCancel t c => live t (λ x, c ∈ t_peer_connections x)
  | EvNewConnection _ t c => live t (λ x, t_server x = true ∧ c ∉ t_closed_cb x)
  | EvConnectionClosed t c => live t (λ x, c ∈ t_closed_cb x)
  | EvOwnerVanished t => live t (λ x, t_watch_id x = true)
  | EvTaskDone t _ _ => live t (λ x, t_task x = true)
  | EvForceClose => s_close_timeout d = true
  | EvReboot => True
  | EvOtherLock => d_lock d = LockFree
  | EvOtherUnlock => d_lock d = LockOther
  end.

Inductive reachable : Daemon → Prop :=
  | reachable_init : reachable init_daemon
  | reachable_step d e d' : reachable d → enabled e d → handle e d = Ok d' → reachable d'.
End handlers.

(** * The invariant *)

Inductive phase := Waiting | Running | Executed (success : bool) (msg : string).

Definition phase_of (x : Txn) : option phase :=
  match t_watch_id x, t_task x, t_executed x, t_finished_params x, t_sysroot_locked x with
  | true, false, false, None, true => Some Waiting
  | false, true, false, None, true => Some Running
  | false, false, true, Some (success, msg), false => Some (Executed success msg)
  | _, _, _, _, _ => None
  end.

Definition is_txn_lock (l : sysroot_lock) : bool :=
  match l with LockTxn _ => true | _ => false end.

(** There is at most one transaction object, and it is the one the sysroot
    points to; it is waiting for Start, running, or executed and still watched
    by a client; it has the lock until it is executed; the close timeout is armed
    once it is executed. *)
Definition daemon_inv (d : Daemon) : Prop :=
  match s_transaction d with
  | None =>
      d_txns d = ∅ ∧ s_close_timeout d = false ∧ is_txn_lock (d_lock d) = false
  | Some t => ∃ x p,
      d_txns d = {[t := x]} ∧ phase_of x = Some p ∧ t_sysroot x = true ∧ t_server x = true ∧
      t_peer_connections x = t_closed_cb x ∧ t < d_next d ∧
      match p with
      | Executed _ _ =>
          s_close_timeout d = true ∧ is_txn_lock (d_lock d) = false ∧ t_peer_connections x ≠ ∅
      | _ => s_close_timeout d = false ∧ d_lock d = LockTxn t
      end
  end.

(** * Computing with the one transaction *)

#[local] Hint Rewrite (lookup_singleton_eq (K := nat) (M := gmap nat) (A := Txn))
  (alter_singleton_eq (K := nat) (M := gmap nat) (A := Txn))
  (delete_singleton_eq (K := nat) (M := gmap nat) (A := Txn)) : txn.

Ltac txn_simpl :=
  repeat progress (unfold transaction_dispose, transaction_finalize, unlock_sysroot, get, upd; simpl;
    autorewrite with txn; simpl).

Section one_txn.
Context (t n : nat) (act : string * string * string) (rb : bool) (out : list signal).

(** The daemon with transaction [x]. *)
Definition with_txn (x : Txn) (timeout : bool) (lock : sysroot_lock) : Daemon :=
  MkDaemon {[t := x]} n (Some t) timeout act lock rb out.

(** The daemon without transactions. *)
Definition idle (lock : sysroot_lock) : Daemon :=
  MkDaemon ∅ n None false (""%string, ""%string, ""%string) lock rb out.

(** Dropping the last reference frees the transaction and its lock. *)
Lemma transaction_unref_last x timeout lock :
  t_task x = false →
  transaction_unref true t
    (MkDaemon {[t := x]} n None timeout (""%string, ""%string, ""%string) lock rb out) =
  Ok (MkDaemon ∅ n None timeout (""%string, ""%string, ""%string)
        (if t_sysroot x && t_sysroot_locked x then LockFree else lock) rb out).
Proof.
  destruct x as [inv ti w tk ex cz sr lk sv ps cc fp]. simpl. intros ->.
  unfold transaction_unref. by destruct sr, lk; txn_simpl.
Qed.

Lemma finish_txn_ok x timeout lock :
  t_task x = false →
  rpmostreed_sysroot_finish_txn true t (with_txn x timeout lock) =
  Ok (idle (if t_sysroot x && t_sysroot_locked x then LockFree else lock)).
Proof.
  intros Ht. unfold rpmostreed_sysroot_finish_txn. simpl. rewrite bool_decide_true by done. simpl.
  unfold set_active, set_timeout. simpl. by apply transaction_unref_last.
Qed.
End one_txn.

(** The three shapes of a live transaction. *)
Definition waiting_txn (inv : Invocation) (title : string) (cz : bool) (ps : gset nat) : Txn :=
  MkTxn inv title true false false cz true true true ps ps None.
Definition running_txn (inv : Invocation) (title : string) (cz : bool) (ps : gset nat) : Txn :=
  MkTxn inv title false true false cz true true true ps ps None.
Definition executed_txn (inv : Invocation) (title : string) (cz : bool) (ps : gset nat)
    (params : bool * string) : Txn :=
  MkTxn inv title false false true cz true false true ps ps (Some params).

Variant daemon_shape : Daemon → Prop :=
  | shape_idle n rb out lock :
      is_txn_lock lock = false → daemon_shape (idle n rb out lock)
  | shape_waiting t n act rb out inv title cz ps :
      t < n → daemon_shape (with_txn t n act rb out (waiting_txn inv title cz ps) false (LockTxn t))
  | shape_running t n act rb out inv title cz ps :
      t < n → daemon_shape (with_txn t n act rb out (running_txn inv title cz ps) false (LockTxn t))
  | shape_executed t n act rb out inv title cz ps params lock :
      t < n → ps ≠ ∅ → is_txn_lock lock = false →
      daemon_shape (with_txn t n act rb out (executed_txn inv title cz ps params) true lock).

Lemma daemon_shape_inv d : daemon_shape d → daemon_inv d.
Proof.
  intros [| | |t n act rb out inv title cz ps [success msg] lock]; unfold daemon_inv; simpl.
  - done.
  - by eexists _, Waiting.
  - by eexists _, Running.
  - by eexists _, (Executed success msg).
Qed.

(** * The abstract transaction *)

(** What clients can rely on: the next identifier and the phase of the one
    transaction; a step is labelled with what it sends. *)
Definition abs_state : Type := nat * option (nat * phase).

Definition abs_of (d : Daemon) : abs_state :=
  (d_next d,
   t ← s_transaction d; x ← d_txns d !! t; p ← phase_of x; Some (t, p)).

Inductive abs_step : abs_state → list signal → abs_state → Prop :=
  | abs_create n : abs_step (n, None) [RetAddress n] (S n, Some (n, Waiting))
  | abs_create_failed n e : abs_step (n, None) [RetError e] (S n, None)
  | abs_reject n p e : abs_step (n, p) [RetError e] (n, p)
  | abs_join n t p : abs_step (n, Some (t, p)) [RetAddress t] (n, Some (t, p))
  | abs_start n t c : abs_step (n, Some (t, Waiting)) [RetStart t c true] (n, Some (t, Running))
  | abs_started n t c : abs_step (n, Some (t, Running)) [RetStart t c false] (n, Some (t, Running))
  | abs_replay n t c success msg :
      abs_step (n, Some (t, Executed success msg))
        [RetStart t c false; SigFinishedOn t c (success, msg)] (n, Some (t, Executed success msg))
  | abs_cancel n t p c : abs_step (n, Some (t, p)) [RetCancel t c] (n, Some (t, p))
  | abs_vanished n t : abs_step (n, Some (t, Waiting)) [SigClosed t] (n, None)
  | abs_done n t success msg :
      abs_step (n, Some (t, Running)) [SigFinished t (success, msg)]
        (n, Some (t, Executed success msg))
  | abs_done_closed n t success msg :
      abs_step (n, Some (t, Running)) [SigFinished t (success, msg); SigClosed t] (n, None)
  | abs_closed n t success msg :
      abs_step (n, Some (t, Executed success msg)) [SigClosed t] (n, None)
  | abs_force_closed n t success msg : abs_step (n, Some (t, Executed success msg)) [] (n, None)
  | abs_silent n p : abs_step (n, p) [] (n, p).

Lemma abs_of_idle n rb out lock : abs_of (idle n rb out lock) = (n, None).
Proof. done. Qed.

Lemma abs_of_waiting t n act rb out inv title cz ps b l :
  abs_of (with_txn t n act rb out (waiting_txn inv title cz ps) b l) = (n, Some (t, Waiting)).
Proof. unfold abs_of. by txn_simpl. Qed.

Lemma abs_of_running t n act rb out inv title cz ps b l :
  abs_of (with_txn t n act rb out (running_txn inv title cz ps) b l) = (n, Some (t, Running)).
Proof. unfold abs_of. by txn_simpl. Qed.

Lemma abs_of_executed t n act rb out inv title cz ps params b l :
  abs_of (with_txn t n act rb out (executed_txn inv title cz ps params) b l) =
  (n, Some (t, Executed params.1 params.2)).
Proof. unfold abs_of. txn_simpl. by destruct params. Qed.

#[local] Hint Rewrite abs_of_idle abs_of_waiting abs_of_running abs_of_executed : absdb.

(** * Every event keeps the shape and is an abstract step *)

Section steps.
Local Abbreviation handle := (handle true).

Definition keeps (e : event) (d : Daemon) : Prop :=
  ∃ d' sigs, handle e d = Ok d' ∧ daemon_shape d' ∧
    d_out d' = d_out d ++ sigs ∧ abs_step (abs_of d) sigs (abs_of d').

(** Introduces the state a handler leaves, given as a shape. *)
Lemma keeps_intro e d d' sigs :
  handle e d = Ok d' → daemon_shape d' → d_out d' = d_out d ++ sigs →
  abs_step (abs_of d) sigs (abs_of d') → keeps e d.
Proof. intros. by exists d', sigs. Qed.

Lemma emit_shape s d : daemon_shape d → daemon_shape (emit s d).
Proof.
  intros []; [by apply shape_idle|by apply shape_waiting|by apply shape_running|
    by apply shape_executed].
Qed.

Lemma abs_of_emit s d : abs_of (emit s d) = abs_of d.
Proof. done. Qed.

Lemma reply_keeps e d s :
  handle e d = Ok (emit s d) → daemon_shape d → abs_step (abs_of d) [s] (abs_of d) → keeps e d.
Proof. intros He Hd Ha. eapply keeps_intro; [done|by apply emit_shape|done|by rewrite abs_of_emit]. Qed.

(** An error while constructing a transaction leaves the daemon idle. *)
Lemma transaction_new_shape env inv n rb out lock :
  is_txn_lock lock = false →
  ie_server env ≠ Abort → ie_load env ≠ Abort → ie_try_lock env ≠ Abort → ie_post env ≠ Abort →
  (∃ e lock', transaction_new true env inv (idle n rb out lock) = Ok (idle (S n) rb out lock', inl e) ∧
     is_txn_lock lock' = false) ∨
  lock = LockFree ∧
  transaction_new true env inv (idle n rb out lock) =
  Ok (MkDaemon {[n := waiting_txn inv "" false ∅]} (S n) None false
        (""%string, ""%string, ""%string) (LockTxn n) rb out, inr n).
Proof.
  intros Hl Hs Hld Htl Hp. unfold transaction_new, idle. simpl. rewrite insert_empty.
  unfold transaction_initable_init.
  destruct (ie_server env) as [[]|e|]; [|left; simpl|done].
  2:{ eexists e, _. by rewrite transaction_unref_last. }
  unfold upd, set_txns, set_lock. simpl. rewrite alter_singleton_eq. simpl.
  destruct (ie_load env) as [[]|e|]; [simpl|left; simpl|done].
  2:{ eexists e, _. by rewrite transaction_unref_last. }
  destruct (ie_try_lock env) as [[]|e|]; [|left; simpl|done].
  2:{ eexists e, _. by rewrite transaction_unref_last. }
  destruct lock; [|done|left; simpl; eexists _, _; by rewrite transaction_unref_last].
  simpl. rewrite alter_singleton_eq.
  destruct (ie_post env) as [[]|e|]; [by right|left|done].
  eexists e, _. by rewrite transaction_unref_last.
Qed.

(** The reply to a method call while there is a transaction. *)
Definition busy_error (x : Txn) : gerror :=
  GError G_IO_ERROR_BUSY ("Transaction in progress: " +:+ t_title x +:+ nl +:+
    " You can cancel the current transaction with `rpm-ostree cancel`").

Lemma merge_with_txn inv title load env t n act out x b l :
  let d := with_txn t n act false out x b l in
  os_merge_or_start_txn true inv title load env d =
  Ok (emit (if rpmostreed_transaction_is_compatible x inv then RetAddress t
            else RetError (busy_error x)) d).
Proof.
  simpl. unfold os_merge_or_start_txn, rpmostreed_sysroot_prep_for_txn. txn_simpl.
  by destruct (rpmostreed_transaction_is_compatible x inv).
Qed.

Lemma merge_idle inv title env n out lock :
  os_merge_or_start_txn true inv title (Ok tt) env (idle n false out lock) =
  (r ← transaction_new true env inv (idle n false out lock);
   match r.2 with
   | inl e => Ok (emit (RetError e) r.1)
   | inr t => d ← rpmostreed_sysroot_set_txn_and_title true t title r.1; Ok (emit (RetAddress t) d)
   end).
Proof. done. Qed.

Lemma method_keeps inv title load env d :
  daemon_shape d → enabled (EvMethod inv title load env) d → keeps (EvMethod inv title load env) d.
Proof.
  intros Hd (Hload&Hs&Hld&Htl&Hp).
  destruct (d_rebooting d) eqn:Hrb.
  { eapply reply_keeps; [|done|].
    - cbn. unfold os_merge_or_start_txn, rpmostreed_sysroot_prep_for_txn. by rewrite Hrb.
    - destruct (abs_of d). apply abs_reject. }
  destruct Hd as [n rb out lock Hl| | |]; simpl in Hrb; subst rb.
  { destruct load as [[]|e|]; [|by eapply reply_keeps; [|apply shape_idle|apply abs_reject]|done].
    destruct (transaction_new_shape env inv n false out lock) as [(e&lock'&He&?)|(->&He)]; [done..| |].
    - eapply (keeps_intro _ _ (emit (RetError e) (idle (S n) false out lock')));
        [|by apply emit_shape, shape_idle|done|apply abs_create_failed].
      cbn [Transaction.handle]. by rewrite merge_idle, He.
    - eapply (keeps_intro _ _ (emit (RetAddress n) (with_txn n (S n)
        (inv_method inv, inv_sender inv, inv_path inv) false out (waiting_txn inv title false ∅)
        false (LockTxn n)))).
      + cbn [Transaction.handle]. rewrite merge_idle, He. simpl.
        unfold rpmostreed_sysroot_set_txn_and_title, rpmostreed_sysroot_set_txn. by txn_simpl.
      + apply emit_shape, shape_waiting. lia.
      + done.
      + rewrite abs_of_emit, abs_of_waiting. apply abs_create. }
  all: eapply reply_keeps; [apply merge_with_txn|by constructor|autorewrite with absdb];
    destruct (rpmostreed_transaction_is_compatible _ _); [apply abs_join|apply abs_reject].
Qed.

Lemma live_with_txn t n act rb out x timeout lock t' (P : Txn → Prop) :
  (∃ y, d_txns (with_txn t n act rb out x timeout lock) !! t' = Some y ∧ P y) → t' = t ∧ P x.
Proof. simpl. intros (y&[-> ->]%lookup_singleton_Some&?). done. Qed.

Lemma live_idle n rb out lock t' (P : Txn → Prop) :
  ¬ (∃ y, d_txns (idle n rb out lock) !! t' = Some y ∧ P y).
Proof. simpl. intros (y&Hy&?). by rewrite lookup_empty in Hy. Qed.

Ltac live_cases Hd He :=
  destruct Hd as [n rb out lock Hlock|t n act rb out inv title cz ps Htn
    |t n act rb out inv title cz ps Htn|t n act rb out inv title cz ps [success msg] lock Htn Hps Hlock];
  [by apply live_idle in He|apply live_with_txn in He as [-> He]..]; simpl in He.

Lemma start_keeps t0 c d : daemon_shape d → enabled (EvStart t0 c) d → keeps (EvStart t0 c) d.
Proof.
  intros Hd He. live_cases Hd He.
  - eapply (keeps_intro _ _ (emit (RetStart t c true)
      (with_txn t n act rb out (running_txn inv title cz ps) false (LockTxn t)))).
    + cbn. unfold transaction_handle_start. by txn_simpl.
    + by apply emit_shape, shape_running.
    + done.
    + rewrite abs_of_emit. autorewrite with absdb. apply abs_start.
  - eapply reply_keeps; [|by apply shape_running|autorewrite with absdb; apply abs_started].
    cbn. unfold transaction_handle_start. by txn_simpl.
  - eapply (keeps_intro _ _ (emit (SigFinishedOn t c (success, msg)) (emit (RetStart t c false)
      (with_txn t n act rb out (executed_txn inv title cz ps (success, msg)) true lock)))).
    + cbn. unfold transaction_handle_start. by txn_simpl.
    + by apply emit_shape, emit_shape, shape_executed.
    + simpl. by rewrite <-app_assoc.
    + rewrite !abs_of_emit. autorewrite with absdb. apply abs_replay.
Qed.

Lemma cancel_keeps t0 c d : daemon_shape d → enabled (EvCancel t0 c) d → keeps (EvCancel t0 c) d.
Proof.
  intros Hd He. live_cases Hd He.
  - eapply (keeps_intro _ _ (emit (RetCancel t c)
      (with_txn t n act rb out (waiting_txn inv title true ps) false (LockTxn t))));
      [cbn; unfold transaction_handle_cancel; by txn_simpl|by apply emit_shape, shape_waiting|done|].
    rewrite abs_of_emit. autorewrite with absdb. apply abs_cancel.
  - eapply (keeps_intro _ _ (emit (RetCancel t c)
      (with_txn t n act rb out (running_txn inv title true ps) false (LockTxn t))));
      [cbn; unfold transaction_handle_cancel; by txn_simpl|by apply emit_shape, shape_running|done|].
    rewrite abs_of_emit. autorewrite with absdb. apply abs_cancel.
  - eapply (keeps_intro _ _ (emit (RetCancel t c)
      (with_txn t n act rb out (executed_txn inv title true ps (success, msg)) true lock)));
      [cbn; unfold transaction_handle_cancel; by txn_simpl|by apply emit_shape, shape_executed|done|].
    rewrite abs_of_emit. autorewrite with absdb. apply abs_cancel.
Qed.

Lemma new_connection_keeps b t0 c d :
  daemon_shape d → enabled (EvNewConnection b t0 c) d → keeps (EvNewConnection b t0 c) d.
Proof.
  intros Hd He. live_cases Hd He; set (ps' := if b then ps ∪ {[c]} else ps).
  - eapply (keeps_intro _ _ (with_txn t n act rb out (waiting_txn inv title cz ps') false (LockTxn t)) []);
      [|by apply shape_waiting|by rewrite app_nil_r|autorewrite with absdb; apply abs_silent].
    cbn; unfold transaction_new_connection_cb; txn_simpl. by destruct b.
  - eapply (keeps_intro _ _ (with_txn t n act rb out (running_txn inv title cz ps') false (LockTxn t)) []);
      [|by apply shape_running|by rewrite app_nil_r|autorewrite with absdb; apply abs_silent].
    cbn; unfold transaction_new_connection_cb; txn_simpl. by destruct b.
  - eapply (keeps_intro _ _ (with_txn t n act rb out (executed_txn inv title cz ps' (success, msg))
      true lock) []); [| |by rewrite app_nil_r|autorewrite with absdb; apply abs_silent].
    + cbn; unfold transaction_new_connection_cb; txn_simpl. by destruct b.
    + apply shape_executed; [done| |done]. subst ps'. destruct b; set_solver.
Qed.

Lemma size_pos_iff (X : gset nat) : 0 < size X ↔ X ≠ ∅.
Proof.
  pose proof (size_empty_iff X) as Hs. rewrite leibniz_equiv_iff in Hs.
  destruct (decide (X = ∅)) as [E|E]; [apply Hs in E as Hz|assert (size X ≠ 0) by tauto];
    (split; [intros ?|intros ?]); try lia; done.
Qed.

Lemma connection_closed_keeps t0 c d :
  daemon_shape d → enabled (EvConnectionClosed t0 c) d → keeps (EvConnectionClosed t0 c) d.
Proof.
  intros Hd He. live_cases Hd He.
  - eapply (keeps_intro _ _ (with_txn t n act rb out (waiting_txn inv title cz (ps ∖ {[c]})) false
      (LockTxn t)) []);
      [|by apply shape_waiting|by rewrite app_nil_r|autorewrite with absdb; apply abs_silent].
    cbn. unfold transaction_connection_closed_cb, transaction_maybe_emit_closed,
      rpmostreed_transaction_get_active. by txn_simpl.
  - eapply (keeps_intro _ _ (with_txn t n act rb out (running_txn inv title cz (ps ∖ {[c]})) false
      (LockTxn t)) []);
      [|by apply shape_running|by rewrite app_nil_r|autorewrite with absdb; apply abs_silent].
    cbn. unfold transaction_connection_closed_cb, transaction_maybe_emit_closed,
      rpmostreed_transaction_get_active. by txn_simpl.
  - destruct (decide (0 < size (ps ∖ {[c]}))) as [Hsz|Hsz].
    + eapply (keeps_intro _ _ (with_txn t n act rb out (executed_txn inv title cz (ps ∖ {[c]})
        (success, msg)) true lock) []); [| |by rewrite app_nil_r|autorewrite with absdb; apply abs_silent].
      * cbn. unfold transaction_connection_closed_cb, transaction_maybe_emit_closed,
          rpmostreed_transaction_get_active. txn_simpl. by rewrite decide_True.
      * apply size_pos_iff in Hsz. by apply shape_executed.
    + eapply (keeps_intro _ _ (idle n rb (out ++ [SigClosed t]) lock));
        [|by apply shape_idle|done|autorewrite with absdb; apply abs_closed].
      cbn. unfold transaction_connection_closed_cb, transaction_maybe_emit_closed,
        rpmostreed_transaction_get_active. txn_simpl. rewrite decide_False by done.
      by apply finish_txn_ok.
Qed.

Lemma owner_vanished_keeps t0 d :
  daemon_shape d → enabled (EvOwnerVanished t0) d → keeps (EvOwnerVanished t0) d.
Proof.
  intros Hd He. live_cases Hd He; [|done..].
  eapply (keeps_intro _ _ (idle n rb (out ++ [SigClosed t]) LockFree));
    [|by apply shape_idle|done|autorewrite with absdb; apply abs_vanished].
  cbn. unfold transaction_owner_vanished_cb. txn_simpl. by apply finish_txn_ok.
Qed.

(** What the completion of a task reports. *)
Definition task_outcome (result : task_result) (reload : option string) : bool * string :=
  match result with
  | TaskError e => (false, e)
  | TaskBoolean false => (false, ""%string)
  | TaskBoolean true => match reload with Some e => (false, e) | None => (true, ""%string) end
  end.

Lemma execute_done_params t result reload d :
  transaction_execute_done_cb true t result reload d =
  (_ ← get t d;
   d ← unlock_sysroot t (upd (with_executed (task_outcome result reload)) t
         (emit (SigFinished t (task_outcome result reload)) d));
   d ← on_txn_executed_changed t d;
   transaction_maybe_emit_closed true t d).
Proof. unfold transaction_execute_done_cb. by destruct result as [|[]], reload. Qed.

Lemma task_done_running t n act rb out inv title cz ps result reload :
  let params := task_outcome result reload in
  task_done true t result reload
    (with_txn t n act rb out (running_txn inv title cz ps) false (LockTxn t)) =
  Ok (if decide (0 < size ps)
      then with_txn t n act rb (out ++ [SigFinished t params])
             (executed_txn inv title cz ps params) true LockFree
      else idle n rb ((out ++ [SigFinished t params]) ++ [SigClosed t]) LockFree).
Proof.
  simpl. unfold task_done. rewrite execute_done_params.
  unfold on_txn_executed_changed, transaction_maybe_emit_closed, rpmostreed_transaction_get_active.
  txn_simpl. case_decide.
  - unfold transaction_unref. txn_simpl. by rewrite bool_decide_true.
  - unfold rpmostreed_sysroot_finish_txn, rpmostreed_sysroot_set_txn. simpl.
    rewrite bool_decide_true by done. simpl. unfold transaction_unref. by txn_simpl.
Qed.

Lemma task_done_keeps t0 result reload d :
  daemon_shape d → enabled (EvTaskDone t0 result reload) d → keeps (EvTaskDone t0 result reload) d.
Proof.
  intros Hd He. live_cases Hd He; [done| |done].
  pose proof (task_done_running t n act rb out inv title cz ps result reload) as Hd'.
  destruct (decide (0 < size ps)) as [Hsz|Hsz]; (eapply keeps_intro; [exact Hd'|..]).
  - apply size_pos_iff in Hsz. by apply shape_executed.
  - done.
  - autorewrite with absdb. destruct (task_outcome result reload). apply abs_done.
  - by apply shape_idle.
  - simpl. by rewrite <-app_assoc.
  - autorewrite with absdb. destruct (task_outcome result reload). apply abs_done_closed.
Qed.

Lemma force_close_keeps d : daemon_shape d → enabled EvForceClose d → keeps EvForceClose d.
Proof.
  intros Hd He. destruct Hd as [| | |t n act rb out inv title cz ps [success msg] lock]; [done..|].
  eapply (keeps_intro _ _ (idle n rb out lock) []);
    [|by apply shape_idle|by rewrite app_nil_r|autorewrite with absdb; apply abs_force_closed].
  cbn. unfold on_force_close, rpmostreed_transaction_force_close. txn_simpl.
  by apply transaction_unref_last.
Qed.

Lemma step_keeps e d : daemon_shape d → enabled e d → keeps e d.
Proof.
  destruct e; eauto using method_keeps, start_keeps, cancel_keeps, new_connection_keeps,
    connection_closed_keeps, owner_vanished_keeps, task_done_keeps, force_close_keeps; intros Hd He;
    (eapply (keeps_intro _ _ _ []); [done| |by rewrite app_nil_r|apply abs_silent]).
  - destruct Hd; [apply shape_idle|apply shape_waiting|apply shape_running|apply shape_executed]; done.
  - destruct Hd; simpl in He; try done; [by apply shape_idle|by apply shape_executed].
  - destruct Hd; simpl in He; try done; [by apply shape_idle|by apply shape_executed].
Qed.

Lemma reachable_shape d : reachable true d → daemon_shape d.
Proof.
  induction 1 as [|d e d' _ IH He Hd']; [by apply (shape_idle 0)|].
  destruct (step_keeps e d IH He) as (d''&sigs&Hd''&?&_). congruence.
Qed.
End steps.

(** * Runs *)

Inductive abs_run : abs_state → list signal → abs_state → Prop :=
  | abs_run_nil s : abs_run s [] s
  | abs_run_snoc s out s' sigs s'' :
      abs_run s out s' → abs_step s' sigs s'' → abs_run s (out ++ sigs) s''.

Lemma reachable_abs_run d : reachable true d → abs_run (0, None) (d_out d) (abs_of d).
Proof.
  induction 1 as [|d e d' Hr IH He Hd']; [apply abs_run_nil|].
  destruct (step_keeps e d (reachable_shape d Hr) He) as (d''&sigs&Hd''&_&Ho&Ha).
  assert (d'' = d') as -> by congruence. rewrite Ho. by eapply abs_run_snoc.
Qed.

Fixpoint count_sig (P : signal → bool) (out : list signal) : nat :=
  match out with [] => 0 | s :: out => (if P s then 1 else 0) + count_sig P out end.

Lemma count_sig_app P out out' : count_sig P (out ++ out') = count_sig P out + count_sig P out'.
Proof. induction out as [|s out IH]; simpl; [done|]. rewrite IH. lia. Qed.

(** How often Start was answered with TRUE, and Finished sent to all peers. *)
Definition is_start (t : nat) (s : signal) : bool :=
  match s with RetStart t' _ true => bool_decide (t' = t) | _ => false end.
Definition is_finished (t : nat) (s : signal) : bool :=
  match s with SigFinished t' _ => bool_decide (t' = t) | _ => false end.
Definition starts (t : nat) (out : list signal) : nat := count_sig (is_start t) out.
Definition finishes (t : nat) (out : list signal) : nat := count_sig (is_finished t) out.

Definition phase_counts (p : phase) : nat * nat :=
  match p with Waiting => (0, 0) | Running => (1, 0) | Executed _ _ => (1, 1) end.

Definition log_inv (s : abs_state) (out : list signal) : Prop :=
  (∀ t p, s.2 = Some (t, p) → t < s.1 ∧ starts t out = (phase_counts p).1 ∧
     finishes t out = (phase_counts p).2) ∧
  (∀ t, (∀ p, s.2 ≠ Some (t, p)) →
     finishes t out = starts t out ∧ starts t out ≤ 1 ∧ (s.1 ≤ t → starts t out = 0)).

Lemma log_inv_live s sigs s' out t p :
  abs_step s sigs s' → log_inv s out → s'.2 = Some (t, p) →
  t < s'.1 ∧ starts t out + starts t sigs = (phase_counts p).1 ∧
  finishes t out + finishes t sigs = (phase_counts p).2.
Proof.
  unfold starts at 2, finishes at 2. intros Hs [Hlive Hdead] Ht. destruct Hs; simplify_eq/=;
    rewrite ?bool_decide_true by done;
    first [destruct (Hlive _ _ eq_refl) as (?&?&?)|destruct (Hdead t) as (?&?&?); [done|]];
    simpl in *; lia.
Qed.

Lemma log_inv_dead s sigs s' out t :
  abs_step s sigs s' → log_inv s out → (∀ p, s'.2 ≠ Some (t, p)) →
  finishes t out + finishes t sigs = starts t out + starts t sigs ∧
  starts t out + starts t sigs ≤ 1 ∧ (s'.1 ≤ t → starts t out + starts t sigs = 0).
Proof.
  unfold starts at 2 4 6, finishes at 2. intros Hs [Hlive Hdead] Ht.
  assert ((∃ p, s.2 = Some (t, p)) ∨ ¬ (∃ p, s.2 = Some (t, p))) as [[p Hp]|Hn].
  { destruct s as [? [[t' p']|]]; simpl; [|naive_solver].
    destruct (decide (t' = t)); naive_solver. }
  - destruct (Hlive _ _ Hp) as (?&?&?). destruct Hs; simplify_eq/=; try by edestruct Ht.
    all: repeat case_bool_decide; lia.
  - destruct (Hdead t) as (?&?&?); [naive_solver|]. destruct Hs; simpl in *;
      rewrite ?bool_decide_false by (intros ->; apply Hn; eauto); lia.
Qed.

Lemma log_inv_step s sigs s' out : abs_step s sigs s' → log_inv s out → log_inv s' (out ++ sigs).
Proof.
  intros Hs Hl. assert (∀ t, starts t (out ++ sigs) = starts t out + starts t sigs ∧
    finishes t (out ++ sigs) = finishes t out + finishes t sigs) as Happ.
  { intros t. unfold starts, finishes. by rewrite !count_sig_app. }
  split; [intros t p Ht|intros t Ht]; destruct (Happ t) as [-> ->];
    eauto using log_inv_live, log_inv_dead.
Qed.

(** Events in a row, each one enabled. *)
Inductive runs : Daemon → list event → Daemon → Prop :=
  | runs_nil d : runs d [] d
  | runs_cons d e d' es d'' :
      enabled e d → handle true e d = Ok d' → runs d' es d'' → runs d (e :: es) d''.

(** ** The end of a transaction *)

Lemma runs_reachable d es d' : runs d es d' → reachable true d → reachable true d'.
Proof. induction 1; eauto using reachable_step. Qed.

(** Identifiers are not used again, and a transaction that was executed stays so. *)
Lemma abs_step_old s sigs s' t p' : abs_step s sigs s' → s'.2 = Some (t, p') → t < s.1 →
  ∃ p, s.2 = Some (t, p) ∧ match p with Executed _ _ => p' = p | _ => True end.
Proof. destruct 1; simpl; intros Hs' ?; simplify_eq/=; try lia; eexists; (split; [done|]); try done; by case_match. Qed.

Lemma abs_step_next s sigs s' : abs_step s sigs s' → s.1 ≤ s'.1.
Proof. destruct 1; simpl; lia. Qed.

Lemma shape_txn d t : daemon_shape d →
  (d_txns d !! t = None ∧ ∀ p, (abs_of d).2 ≠ Some (t, p)) ∨
  ∃ x p, d_txns d !! t = Some x ∧ phase_of x = Some p ∧ (abs_of d).2 = Some (t, p) ∧ t < d_next d.
Proof.
  intros [n rb out lock|t' n act rb out inv title cz ps|t' n act rb out inv title cz ps
    |t' n act rb out inv title cz ps [success msg] lock]; [left; by split; [apply lookup_empty|]|..];
    (destruct (decide (t' = t)) as [->|Hne];
      [right; eexists _, _; simpl; rewrite lookup_singleton_eq; split_and!; [done..|by autorewrite with absdb|done]
      |left; split; [by apply lookup_singleton_ne|]; intros p; autorewrite with absdb; simpl; congruence]).
Qed.

(** The events that end the phase a transaction is in. *)
Lemma vanished_ends t d d' : daemon_shape d → enabled (EvOwnerVanished t) d →
  handle true (EvOwnerVanished t) d = Ok d' → d_txns d' = ∅.
Proof.
  intros Hd He. destruct Hd as [|t' n act rb out inv title cz ps| |]; [by apply live_idle in He|..];
    apply live_with_txn in He as [-> He]; [|done..].
  assert (handle true (EvOwnerVanished t') (with_txn t' n act rb out (waiting_txn inv title cz ps) false (LockTxn t'))
    = Ok (idle n rb (out ++ [SigClosed t']) LockFree)) as ->; [|by intros [= <-]].
  cbn. unfold transaction_owner_vanished_cb. txn_simpl. by apply finish_txn_ok.
Qed.

Lemma force_close_ends d d' : daemon_shape d → enabled EvForceClose d →
  handle true EvForceClose d = Ok d' → d_txns d' = ∅.
Proof.
  intros Hd He. destruct Hd as [| | |t n act rb out inv title cz ps params lock]; [done..|].
  assert (handle true EvForceClose (with_txn t n act rb out (executed_txn inv title cz ps params) true lock)
    = Ok (idle n rb out lock)) as ->; [|by intros [= <-]].
  cbn. unfold on_force_close, rpmostreed_transaction_force_close. txn_simpl. by apply transaction_unref_last.
Qed.

Lemma task_done_ends t result reload d d' : daemon_shape d → enabled (EvTaskDone t result reload) d →
  handle true (EvTaskDone t result reload) d = Ok d' →
  ∀ x, d_txns d' !! t = Some x → phase_of x = Some (Executed (task_outcome result reload).1 (task_outcome result reload).2).
Proof.
  intros Hd He. destruct Hd as [| |t' n act rb out inv title cz ps|]; [by apply live_idle in He|..];
    apply live_with_txn in He as [-> He]; [done| |done].
  cbn [handle]. rewrite task_done_running. intros [= <-] x. case_decide; simpl.
  - rewrite lookup_singleton_eq. intros [= <-]. simpl. by destruct (task_outcome result reload).
  - by rewrite lookup_empty.
Qed.

(** What is still to come for transaction [t] in phase [p], after the events [es]. *)
Definition pending (t : nat) (p : phase) (es : list event) (d : Daemon) : Prop :=
  EvOwnerVanished t ∉ es ∧ EvForceClose ∉ es ∧
  (∀ result reload, EvTaskDone t result reload ∈ es → ∃ success msg, p = Executed success msg) ∧
  match p with
  | Waiting => enabled (EvOwnerVanished t) d
  | Running => ∀ result reload, enabled (EvTaskDone t result reload) d
  | Executed _ _ => enabled EvForceClose d
  end.

Lemma shape_enabled d t x p : daemon_shape d → d_txns d !! t = Some x → phase_of x = Some p → pending t p [] d.
Proof.
  intros Hd Hx Hp. unfold pending. rewrite !elem_of_nil. split_and!; [by intros []..|by intros ? ? ?%elem_of_nil|].
  destruct Hd as [|t' n act rb out inv title cz ps|t' n act rb out inv title cz ps
    |t' n act rb out inv title cz ps [success msg] lock]; simpl in Hx; [by rewrite lookup_empty in Hx|..];
    apply lookup_singleton_Some in Hx as [-> <-]; cbn in Hp; injection Hp as <-; simpl; rewrite ?lookup_singleton_eq; eauto.
Qed.

(** One more event before the others. *)
Lemma pending_cons d t x p e d1 x1 p1 : reachable true d → enabled e d → handle true e d = Ok d1 →
  d_txns d !! t = Some x → phase_of x = Some p → d_txns d1 !! t = Some x1 → phase_of x1 = Some p1 →
  match p with Executed _ _ => p1 = p | _ => True end ∧ e ≠ EvOwnerVanished t ∧ e ≠ EvForceClose ∧
  (∀ result reload, e = EvTaskDone t result reload → ∃ success msg, p1 = Executed success msg).
Proof.
  intros Hr He Hd1 Hx Hp Hx1 Hp1. pose proof (reachable_shape d Hr) as Hs.
  destruct (step_keeps e d Hs He) as (d1' & sigs & E & Hs1 & _ & Habs). assert (d1' = d1) as -> by congruence.
  destruct (shape_txn d t Hs) as [[? _]|(x' & p' & ? & ? & Ha & Ht)]; [congruence|]. simplify_eq.
  destruct (shape_txn d1 t Hs1) as [[? _]|(x1' & p1' & ? & ? & Ha1 & _)]; [congruence|]. simplify_eq.
  destruct (abs_step_old _ _ _ _ _ Habs Ha1 Ht) as (p'' & E' & Hmono). rewrite Ha in E'. injection E' as <-.
  split_and!; [done|..].
  - intros ->. eapply vanished_ends in Hd1; [|done..]. by rewrite Hd1, lookup_empty in Hx1.
  - intros ->. eapply force_close_ends in Hd1; [|done..]. by rewrite Hd1, lookup_empty in Hx1.
  - intros result reload ->. eapply task_done_ends in Hd1; [|done..|exact Hx1]. rewrite Hp1 in Hd1. injection Hd1 as ->. eauto.
Qed.

(** Once a transaction is gone it does not come back. *)
Lemma gone_stays d es d' t : runs d es d' → reachable true d → t < d_next d → d_txns d !! t = None →
  d_txns d' !! t = None.
Proof.
  induction 1 as [|d e d1 es d' He Hd1 Hrun IH]; [done|]. intros Hr Hlt Hn.
  pose proof (reachable_shape d Hr) as Hs. pose proof (reachable_step true d e d1 Hr He Hd1) as Hr1.
  destruct (step_keeps e d Hs He) as (d1' & sigs & E & Hs1 & _ & Habs). assert (d1' = d1) as -> by congruence.
  apply IH; [done|apply abs_step_next in Habs; simpl in Habs; lia|].
  destruct (shape_txn d1 t Hs1) as [[? _]|(x1 & p1 & _ & _ & Ha1 & _)]; [done|].
  destruct (abs_step_old _ _ _ _ _ Habs Ha1 Hlt) as (p & Ha & _).
  destruct (shape_txn d t Hs) as [[_ Hno]|(? & ? & ? & _)]; [by apply Hno in Ha|congruence].
Qed.

(** An executed transaction that is still there is still executed. *)
Lemma executed_stays d es d' t x success msg x' p : runs d es d' → reachable true d →
  d_txns d !! t = Some x → phase_of x = Some (Executed success msg) →
  d_txns d' !! t = Some x' → phase_of x' = Some p → ∃ success msg, p = Executed success msg.
Proof.
  intros Hrun. revert x. induction Hrun as [|d e d1 es d' He Hd1 Hrun IH]; intros x Hr Hx Hp Hx' Hp'; [simplify_eq; eauto|].
  pose proof (reachable_shape d Hr) as Hs. pose proof (reachable_step true d e d1 Hr He Hd1) as Hr1.
  destruct (shape_txn d t Hs) as [[? _]|(x0 & p0 & _ & _ & _ & Hlt)]; [congruence|].
  destruct (shape_txn d1 t (reachable_shape d1 Hr1)) as [[Hn _]|(x1 & p1 & Hx1 & Hp1 & _)].
  - destruct (step_keeps e d Hs He) as (d1' & sigs & E & _ & _ & Habs). assert (d1' = d1) as -> by congruence.
    apply abs_step_next in Habs. simpl in Habs.
    rewrite (gone_stays _ _ _ t Hrun Hr1) in Hx'; [done|lia|done].
  - destruct (pending_cons d t x _ e d1 x1 p1 Hr He Hd1 Hx Hp Hx1 Hp1) as (-> & _). by eapply IH.
Qed.

Lemma lock_of_live d t : daemon_shape d → d_txns d !! t = None → d_lock d ≠ LockTxn t.
Proof.
  intros [n rb out lock Hl|t' n act rb out inv title cz ps|t' n act rb out inv title cz ps
    |t' n act rb out inv title cz ps params lock ? ? Hl]; simpl; [by intros _ ->|..].
  1,2: intros Hn [= ->]; by rewrite lookup_singleton_eq in Hn.
  by intros _ ->.
Qed.

(** ** The order of the transactions *)

(** The transaction an answer or a signal is about. *)
Definition sig_txn (s : signal) : option nat :=
  match s with
  | SigClosed t | SigFinished t _ | SigFinishedOn t _ _ | RetStart t _ _ | RetCancel t _ | RetAddress t => Some t
  | RetError _ | RetAutoUpdateDisabled => None
  end.

(** The bound of the identifiers used so far: that of the transaction there is. *)
Definition newest (s : abs_state) (t : nat) : Prop :=
  match s.2 with Some (t', _) => t ≤ t' | None => t < s.1 end.

Lemma abs_step_newest s sigs s' : abs_step s sigs s' → (∀ t p, s.2 = Some (t, p) → t < s.1) →
  (∀ t, newest s t → newest s' t) ∧ Forall (λ s, ∀ t', sig_txn s = Some t' → newest s' t') sigs ∧
  StronglySorted le (omap sig_txn sigs) ∧
  ∀ t t', newest s t → t' ∈ omap sig_txn sigs → t ≤ t'.
Proof.
  unfold newest. intros [] Hlt; simpl in *; split_and!; intros; repeat constructor; simpl; intros; simplify_eq;
    repeat match goal with H : _ ∈ _ :: _ |- _ => apply elem_of_cons in H as [->|H] | H : _ ∈ [] |- _ => by apply elem_of_nil in H end;
    try done; try lia; try (specialize (Hlt _ _ eq_refl); lia).
Qed.

Lemma abs_run_sorted s out s' : abs_run s out s' → s = (0, None) →
  (∀ t p, s'.2 = Some (t, p) → t < s'.1) ∧ (∀ t, t ∈ omap sig_txn out → newest s' t) ∧
  StronglySorted le (omap sig_txn out).
Proof.
  induction 1 as [s|s out s' sigs s'' _ IH Hstep]; intros ->.
  { split_and!; [done|by intros ? ?%elem_of_nil|constructor]. }
  destruct (IH eq_refl) as (Hlt & Hnew & Hsort). destruct (abs_step_newest _ _ _ Hstep Hlt) as (H1 & H2 & H3 & H4).
  rewrite omap_app. split_and!.
  - intros t p Ht. destruct Hstep; simplify_eq/=; try lia; by eapply Hlt.
  - intros t [?|Hin]%elem_of_app; [by apply H1, Hnew|]. apply list_elem_of_omap in Hin as (s0 & Hin & Hs0).
    rewrite Forall_forall in H2. by eapply H2.
  - apply StronglySorted_app_2; [|done|done]. intros x y Hx%Hnew Hy. by eapply H4.
Qed.

Lemma abs_run_log_inv s out s' : abs_run s out s' → s = (0, None) → log_inv s' out.
Proof.
  induction 1 as [s|s out s' sigs s'' _ IH Hstep]; intros ->; [|by eauto using log_inv_step].
  split; [done|]. intros t _. unfold starts, finishes. simpl. lia.
Qed.

(** When the address of a transaction is given out, every earlier one has finished if it was
    started. *)
Lemma abs_run_serial s out s' : abs_run s out s' → s = (0, None) →
  ∀ t t' l1 l2, out = l1 ++ RetAddress t' :: l2 → t ≠ t' → finishes t l1 = starts t l1 ∧ starts t l1 ≤ 1.
Proof.
  induction 1 as [s|s out s' sigs s'' Hrun IH Hstep]; intros -> t t' l1 l2 Heq Hne; [by destruct l1|].
  assert (∀ l, sigs = RetAddress t' :: l → finishes t out = starts t out ∧ starts t out ≤ 1) as Hlast.
  { intros l ->. destruct (abs_run_log_inv _ _ _ Hrun eq_refl) as [_ Hdead].
    destruct (Hdead t) as (? & ? & _); [|done]. intros p. inversion Hstep; subst; simpl; congruence. }
  apply app_eq_inv in Heq as [(k & Hk & Hsig)|(k & -> & Hsig)].
  - destruct k as [|s0 k]; simplify_eq/=; [|by eapply IH]. rewrite app_nil_r in *. by eapply Hlast.
  - assert (k = []) as ->.
    { destruct k as [|s1 k]; [done|]. exfalso. inversion Hstep; subst; simplify_eq/=; by destruct k as [|? []]; simplify_eq/=. }
    rewrite app_nil_r. by eapply Hlast.
Qed.

(** * Properties *)

(** C1: no assertion of the transaction code can fail and no freed transaction is
    used: whatever events happened since the daemon started, every event that can
    happen next is handled, keeps the daemon's invariant (at most one transaction
    object, which holds the sysroot lock until it is executed), and is one step of
    the abstract transaction, which says exactly what is sent to the clients. *)
Theorem txn_refines_abstract d e :
  reachable true d → enabled e d →
  ∃ d' sigs, handle true e d = Ok d' ∧ daemon_inv d' ∧
    d_out d' = d_out d ++ sigs ∧ abs_step (abs_of d) sigs (abs_of d').
Proof.
  intros Hr He. destruct (step_keeps e d (reachable_shape d Hr) He) as (d'&sigs&?&?&?&?).
  exists d', sigs. eauto using daemon_shape_inv.
Qed.

(** C7: transactions are executed one after the other. In everything the daemon ever sent,
    once the address of a transaction was given out nothing is about an earlier one, and each
    earlier one that was started has announced Finished, after at most one Start. While there
    is a transaction and no reboot was initiated, a method call that would start another one
    only sends the address of the present one, if it asks for the same method with the same
    parameters, or a BUSY error. *)
Theorem txn_serial d :
  reachable true d →
  StronglySorted le (omap sig_txn (d_out d)) ∧
  (∀ t t' l1 l2, d_out d = l1 ++ RetAddress t' :: l2 → t < t' →
     finishes t l1 = starts t l1 ∧ starts t l1 ≤ 1) ∧
  (∀ t inv title load env, s_transaction d = Some t → d_rebooting d = false →
     ∃ x, d_txns d = {[t := x]} ∧
       os_merge_or_start_txn true inv title load env d =
       Ok (emit (if bool_decide (inv_method (t_invocation x) = inv_method inv ∧
                    inv_parameters (t_invocation x) = inv_parameters inv)
                 then RetAddress t else RetError (busy_error x)) d)).
Proof.
  intros Hr. pose proof (reachable_abs_run d Hr) as Hrun. split_and!.
  - by apply (abs_run_sorted _ _ _ Hrun).
  - intros t t' l1 l2 Heq Hlt. eapply (abs_run_serial _ _ _ Hrun eq_refl); [done|lia].
  - intros t inv title load env Ht Hrb. apply reachable_shape in Hr.
    destruct Hr; simplify_eq/=; eexists; (split; [done|]); rewrite merge_with_txn;
      unfold rpmostreed_transaction_is_compatible; by rewrite <-bool_decide_and.
Qed.

(** Start succeeds at most once per transaction, Finished is announced at most
    once and only after Start, and a transaction that is gone has announced Finished
    exactly if it had been started. *)
Theorem txn_start_finish_once d t :
  reachable true d →
  starts t (d_out d) ≤ 1 ∧ finishes t (d_out d) ≤ starts t (d_out d) ∧
  (d_txns d !! t = None → finishes t (d_out d) = starts t (d_out d)).
Proof.
  intros Hr. pose proof (reachable_shape d Hr) as Hshape.
  assert (log_inv (abs_of d) (d_out d)) as [Hlive Hdead].
  { apply reachable_abs_run in Hr. remember (0, None) as s0 eqn:Es0.
    induction Hr as [|s out s' sigs s'' Hrun IH Hstep]; [|by eauto using log_inv_step].
    subst. split; [done|]. intros t' _. unfold starts, finishes. simpl. lia. }
  destruct Hshape; rewrite ?abs_of_idle, ?abs_of_waiting, ?abs_of_running, ?abs_of_executed in *;
    simpl in *.
  { destruct (Hdead t) as (?&?&?); [done|]. lia. }
  all: destruct (decide (t0 = t)) as [->|Hne];
    [destruct (Hlive _ _ eq_refl) as (?&?&?); rewrite lookup_singleton_eq; simpl in *; split_and!; [lia..|done]
    |destruct (Hdead t) as (?&?&?); [congruence|]; lia].
Qed.

(** C37: a transaction ends, whatever else happens. Take a reachable state with transaction
    [t] and any events after it. Either [t] is gone for good and does not hold the sysroot
    lock, or the event that moves it on is still possible: before Start that its client
    vanishes from the bus, while the task runs that it completes (with any result), after
    that the close timeout. Neither of the first and the last can have happened with [t] still
    there, nor the second with [t] not yet executed; so a client that disconnects before
    Start, and a task that returns followed by the timeout, always end the transaction. *)
Theorem txn_ends d t x es d' :
  reachable true d → d_txns d !! t = Some x → runs d es d' →
  (d_txns d' !! t = None ∧ d_lock d' ≠ LockTxn t) ∨
  ∃ x' p, d_txns d' !! t = Some x' ∧ phase_of x' = Some p ∧ pending t p es d'.
Proof.
  intros Hr Hx Hrun. revert x Hr Hx. induction Hrun as [d|d e d1 es d' He Hd1 Hrun IH]; intros x Hr Hx.
  { right. destruct (shape_txn d t (reachable_shape d Hr)) as [[? _]|(x' & p & ? & Hp & _)]; [congruence|].
    exists x', p. split_and!; [done..|]. by eapply shape_enabled; [apply reachable_shape|..]. }
  pose proof (reachable_shape d Hr) as Hs.
  destruct (shape_txn d t Hs) as [[? _]|(x' & p & ? & Hp & _ & Hlt)]; [congruence|]. simplify_eq.
  pose proof (reachable_step true d e d1 Hr He Hd1) as Hr1. pose proof (reachable_shape d1 Hr1) as Hs1.
  destruct (shape_txn d1 t Hs1) as [[Hn _]|(x1 & p1 & Hx1 & Hp1 & _)].
  - left. pose proof (runs_reachable _ _ _ Hrun Hr1) as Hr'.
    assert (t < d_next d1).
    { destruct (step_keeps e d Hs He) as (d1' & sigs & E & _ & _ & Habs). assert (d1' = d1) as -> by congruence.
      apply abs_step_next in Habs. simpl in Habs. lia. }
    pose proof (gone_stays _ _ _ _ Hrun Hr1 ltac:(done) Hn) as Hn'. eauto using lock_of_live, reachable_shape.
  - destruct (IH x1 Hr1 Hx1) as [?|(x' & p' & Hx' & Hp' & H1 & H2 & H3 & H4)]; [by left|]. right. exists x', p'.
    destruct (pending_cons d t _ p e d1 x1 p1 Hr He Hd1 Hx Hp Hx1 Hp1) as (_ & N1 & N2 & N3).
    split_and!; [done..|]. split_and!; [by apply not_elem_of_cons|by apply not_elem_of_cons| |done].
    intros result reload [E|?]%elem_of_cons; [|by eapply H3].
    destruct (N3 result reload (eq_sym E)) as (success & msg & ->).
    by eapply (executed_stays d1 es d' t x1).
Qed.

(** * Concrete runs *)

Definition ex_inv : Invocation := MkInvocation "Upgrade" "()" ":1.42" "/org/projectatomic/rpmostree1/fedora".
Definition ex_env : InitEnv := MkInitEnv (Ok tt) (Ok tt) (Ok tt) (Ok tt).
Definition ex_act : string * string * string :=
  ("Upgrade"%string, ":1.42"%string, "/org/projectatomic/rpmostree1/fedora"%string).

Definition ex_waiting : Daemon :=
  with_txn 0 1 ex_act false [RetAddress 0] (waiting_txn ex_inv "upgrade" false {[7]}) false (LockTxn 0).
Definition ex_running : Daemon :=
  with_txn 0 1 ex_act false [RetAddress 0; RetStart 0 7 true] (running_txn ex_inv "upgrade" false {[7]})
    false (LockTxn 0).
Definition ex_executed : Daemon :=
  with_txn 0 1 ex_act false [RetAddress 0; RetStart 0 7 true; SigFinished 0 (true, ""%string)]
    (executed_txn ex_inv "upgrade" false {[7]} (true, ""%string)) true LockFree.

Lemma ex_waiting_reachable : reachable true ex_waiting.
Proof.
  apply (reachable_step _ (with_txn 0 1 ex_act false [RetAddress 0]
    (waiting_txn ex_inv "upgrade" false ∅) false (LockTxn 0)) (EvNewConnection true 0 7)).
  - apply (reachable_step _ init_daemon (EvMethod ex_inv "upgrade" (Ok tt) ex_env));
      [apply reachable_init|by split_and!|by vm_compute].
  - exists (waiting_txn ex_inv "upgrade" false ∅). by split_and!; [vm_compute|..|set_solver].
  - by vm_compute.
Qed.

Lemma ex_running_reachable : reachable true ex_running.
Proof.
  apply (reachable_step _ ex_waiting (EvStart 0 7)); [apply ex_waiting_reachable| |by vm_compute].
  eexists. split; [apply lookup_singleton_eq|]. simpl. set_solver.
Qed.

Lemma ex_executed_reachable : reachable true ex_executed.
Proof.
  apply (reachable_step _ ex_running (EvTaskDone 0 (TaskBoolean true) None));
    [apply ex_running_reachable| |by vm_compute].
  eexists. by split; [apply lookup_singleton_eq|].
Qed.

Lemma txn_refines_abstract_witness :
  ∃ d' sigs, handle true (EvConnectionClosed 0 7) ex_executed = Ok d' ∧ daemon_inv d' ∧
    d_out d' = d_out ex_executed ++ sigs ∧ abs_step (abs_of ex_executed) sigs (abs_of d').
Proof.
  apply (txn_refines_abstract ex_executed (EvConnectionClosed 0 7) ex_executed_reachable).
  eexists. split; [apply lookup_singleton_eq|]. simpl. set_solver.
Defined.

Lemma txn_serial_witness :
  StronglySorted le (omap sig_txn (d_out ex_running)) ∧
  ∃ x, d_txns ex_running = {[0 := x]} ∧
    os_merge_or_start_txn true (MkInvocation "Rollback" "()" ":1.43" "/") "rollback" (Ok tt) ex_env
      ex_running = Ok (emit (RetError (busy_error x)) ex_running).
Proof.
  destruct (txn_serial ex_running ex_running_reachable) as (H1 & _ & H2). split; [exact H1|].
  destruct (H2 0 (MkInvocation "Rollback" "()" ":1.43" "/") "rollback"%string (Ok tt) ex_env eq_refl eq_refl) as (x&Hx&->).
  exists x. split; [done|]. assert (x = running_txn ex_inv "upgrade" false {[7]}) as ->; [|done].
  assert (Some x = Some (running_txn ex_inv "upgrade" false {[7]})) as [=]; [|done].
  rewrite <-(lookup_singleton_eq (M := gmap nat) 0 x), <-Hx. by vm_compute.
Defined.

Lemma txn_start_finish_once_witness : starts 0 (d_out ex_executed) ≤ 1.
Proof. apply (txn_start_finish_once ex_executed 0 ex_executed_reachable). Defined.

Definition ex_end : list event := [EvTaskDone 0 (TaskBoolean true) None; EvForceClose].
Lemma txn_ends_witness :
  ∃ d', runs ex_running ex_end d' ∧ d_txns d' !! 0 = None ∧ d_lock d' ≠ LockTxn 0.
Proof.
  assert (runs ex_running ex_end (idle 1 false (d_out ex_executed) LockFree)) as Hrun.
  { eapply (runs_cons _ _ ex_executed); [|by vm_compute|].
    - eexists. by split; [apply lookup_singleton_eq|].
    - eapply runs_cons; [by vm_compute|by vm_compute|constructor]. }
  eexists. split; [exact Hrun|].
  destruct (txn_ends ex_running 0 _ ex_end _ ex_running_reachable (lookup_singleton_eq _ _) Hrun)
    as [H|(x' & p & Hx & _)]; [exact H|]. by vm_compute in Hx.
Defined.

(** [transaction_finalize] never unlocks: [transaction_dispose] has dropped
    [priv->sysroot] before. If freeing the [OstreeSysroot] did not release the lock, it
    would stay taken when the client vanishes before Start. *)
Lemma finalize_unlock_dead free_unlocks t d d' :
  transaction_dispose free_unlocks t d = Ok d' → unlock_sysroot t d' = Ok d'.
Proof.
  unfold transaction_dispose, unlock_sysroot, get. destruct (d_txns d !! t) as [x|] eqn:Hx; [|done].
  simpl. intros [= <-]. case_match; simpl; by rewrite lookup_alter_eq, Hx.
Qed.

Lemma owner_vanished_lock_leak :
  ∃ d', handle false (EvOwnerVanished 0) ex_waiting = Ok d' ∧ d_txns d' = ∅ ∧ d_lock d' = LockTxn 0.
Proof. eexists. by vm_compute. Qed.

(** * Output *)

Inductive output :=
  | OutMessage (text : string)
  | OutProgressBegin (percent : bool) (n : N) (prefix : string)
  | OutProgressUpdate (c : N)
  | OutProgressSubMessage (msg : string)
  | OutProgressEnd.

Inductive emission :=
  | EmMessage (text : string)
  | EmPercentProgress (text : option string) (percentage : Z)
  | EmTaskBegin (text : string)
  | EmTaskEnd (text : string)
  | EmProgressEnd.

(** The static variables of [transaction_output_cb]. *)
Record progress_state := ProgressState {
  progress_str : option string; progress_state_percent : bool; progress_state_n_items : N;
}.

(** [c] and [n] are guint; [n * 100] wraps at 32 bits; the quotient of the
    doubles is truncated. Dividing by zero gives no int ([None]). *)
Definition update_percentage (c n : N) : option Z :=
  let nitems_percentage := ((n * 100) mod 2 ^ 32)%N in
  if decide (c = n) then Some 100%Z
  else if decide (nitems_percentage = 0%N) then None
  else Some (Z.of_N (c / nitems_percentage)).

Definition transaction_output_cb (o : output) (st : progress_state) :
    option (progress_state * list emission) :=
  match o with
  | OutMessage text => Some (st, [EmMessage text])
  | OutProgressBegin percent n prefix =>
      if percent then
        Some (ProgressState (Some prefix) true 0, [EmPercentProgress (Some prefix) 0])
      else if decide (0 < n)%N then
        Some (ProgressState (Some prefix) false n, [EmPercentProgress (Some prefix) 0])
      else Some (ProgressState None false 0, [EmTaskBegin prefix])
  | OutProgressUpdate c =>
      if decide (progress_state_n_items st ≠ 0%N) then
        percentage ← update_percentage c (progress_state_n_items st);
        let newtext := default "(null)" (progress_str st) +:+ " (" +:+ pretty c +:+ "/" +:+
                         pretty (progress_state_n_items st) +:+ ")" in
        Some (st, [EmPercentProgress (Some newtext) percentage])
      else Some (st, [EmPercentProgress (progress_str st) (Z.of_N c)])
  | OutProgressSubMessage _ => Some (st, [])
  | OutProgressEnd =>
      Some (st, [if progress_state_percent st || (0 <? progress_state_n_items st)%N
                 then EmProgressEnd else EmTaskEnd "done"])
  end.

(** During an n-item task the percentage the daemon reports stays 0 until
    the last item is done: c is divided by n * 100 where c * 100 / n is meant. *)
Theorem output_percentage_stuck prefix n c :
  (0 < n)%N → (n * 100 < 2 ^ 32)%N → (c < n)%N →
  ∃ st text, transaction_output_cb (OutProgressBegin false n prefix) (ProgressState None false 0) =
      Some (st, [EmPercentProgress (Some prefix) 0]) ∧
    transaction_output_cb (OutProgressUpdate c) st = Some (st, [EmPercentProgress (Some text) 0]) ∧
    transaction_output_cb (OutProgressUpdate n) st =
      Some (st, [EmPercentProgress (Some (prefix +:+ " (" +:+ pretty n +:+ "/" +:+ pretty n +:+ ")")) 100]).
Proof.
  intros Hn Hw Hc. eexists _, _. unfold transaction_output_cb. rewrite decide_True by done.
  split; [done|]. simpl. rewrite decide_True by lia. unfold update_percentage.
  rewrite decide_False, N.mod_small, decide_False by lia. rewrite (decide_True (P := n = n)) by done.
  rewrite N.div_small by lia. split; [done|]. by rewrite (decide_True (P := n ≠ 0%N)) by lia.
Qed.

Lemma output_percentage_stuck_witness :
  ∃ st text, transaction_output_cb (OutProgressBegin false 4 "Importing") (ProgressState None false 0) =
      Some (st, [EmPercentProgress (Some "Importing"%string) 0]) ∧
    transaction_output_cb (OutProgressUpdate 3) st = Some (st, [EmPercentProgress (Some text) 0]).
Proof.
  destruct (output_percentage_stuck "Importing" 4 3) as (st&text&?&?&_); [lia..|]. by exists st, text.
Defined.
