(* ===== verification/Vardict.v ===== *)
(** D-Bus dictionaries ("a{sv}") and the lookups the daemon does in them, from
    [src/daemon/rpmostreed-os.cxx] and [src/daemon/rpmostreed-transaction-types.cxx]. *)

From S2P Require Import Prelude.

(** The values the daemon looks for; [VOther] is a value of any other type. *)
Inductive variant :=
  | VString (s : string)
  | VBool (b : bool)
  | VStrv (l : list string)
  | VHandle (h : Z)
  | VHandles (l : list Z)
  | VUint32 (n : N)
  | VOther.

Abbreviation vardict := (gmap string variant).

(** [g_variant_dict_lookup] fails on a missing key and on another type. *)
Definition vardict_lookup_string (d : vardict) (key : string) : option string :=
  match d !! key with Some (VString s) => Some s | _ => None end.
Definition vardict_lookup_strv (d : vardict) (key : string) : option (list string) :=
  match d !! key with Some (VStrv l) => Some l | _ => None end.
Definition vardict_lookup_handles (d : vardict) (key : string) : option (list Z) :=
  match d !! key with Some (VHandles l) => Some l | _ => None end.
Definition vardict_lookup_handle (d : vardict) (key : string) : option Z :=
  match d !! key with Some (VHandle h) => Some h | _ => None end.
Definition vardict_lookup_boolean (d : vardict) (key : string) : option bool :=
  match d !! key with Some (VBool b) => Some b | _ => None end.

Definition vardict_lookup_bool (d : vardict) (key : string) (dfault : bool) : bool :=
  default dfault (vardict_lookup_boolean d key).

(** The zero-length array is turned into NULL. *)
Definition vardict_lookup_strv_canonical (d : vardict) (key : string) : option (list string) :=
  match vardict_lookup_strv d key with
  | Some (x :: l) => Some (x :: l)
  | _ => None
  end.

(** A value that is not NULL. *)
Definition nonnull {A} (o : option A) : bool := match o with Some _ => true | None => false end.

Lemma strv_canonical_lookup d key l :
  vardict_lookup_strv_canonical d key = Some l → vardict_lookup_strv d key = Some l ∧ l ≠ [].
Proof. unfold vardict_lookup_strv_canonical. destruct (vardict_lookup_strv d key) as [[|]|]; naive_solver. Qed.

Lemma nonnull_true {A} (o : option A) : nonnull o = true ↔ ∃ a, o = Some a.
Proof. destruct o; naive_solver. Qed.
