(* ===== verification/FileTree.v ===== *)
(** Paths, and the root file system that a tree is assembled in. A root is the map of its
    paths, which are relative to it; system calls work on it and fail as the map says they
    do, or with another error the system reports. Following links among the directories of a
    path is the kernel's: it may lead out of the root. *)

From S2P Require Import Prelude Vardict.

(** * Strings *)

Fixpoint strip_prefix (p s : string) : option string :=
  match p, s with
  | EmptyString, _ => Some s
  | String c p, String d s => if bool_decide (c = d) then strip_prefix p s else None
  | String _ _, EmptyString => None
  end.
(** [g_str_has_prefix]. *)
Definition starts_with (p s : string) : bool := nonnull (strip_prefix p s).
Fixpoint ends_with (t s : string) : bool :=
  bool_decide (s = t) || match s with EmptyString => false | String _ s => ends_with t s end.
(** [strchr (s, '/')]. *)
Fixpoint has_slash (s : string) : bool :=
  match s with EmptyString => false | String c s => bool_decide (c = "/"%char) || has_slash s end.
(** [s + strspn (s, "/")]. *)
Fixpoint skip_slashes (s : string) : string :=
  match s with
  | String c t => if bool_decide (c = "/"%char) then skip_slashes t else s
  | EmptyString => EmptyString
  end.
(** Around the first and around the last slash. *)
Fixpoint split_slash (s : string) : option (string * string) :=
  match s with
  | EmptyString => None
  | String c s =>
      if bool_decide (c = "/"%char) then Some (""%string, s)
      else match split_slash s with Some (a, b) => Some (String c a, b) | None => None end
  end.
Fixpoint rsplit_slash (s : string) : option (string * string) :=
  match s with
  | EmptyString => None
  | String c s =>
      match rsplit_slash s with
      | Some (a, b) => Some (String c a, b)
      | None => if bool_decide (c = "/"%char) then Some (""%string, s) else None
      end
  end.
(** The components of a path, empty ones included. *)
Fixpoint split_components (s acc : string) : list string :=
  match s with
  | EmptyString => [acc]
  | String c s =>
      if bool_decide (c = "/"%char) then acc :: split_components s ""
      else split_components s (acc +:+ String c "")
  end.
Fixpoint drop_trailing_slashes (s : string) : string :=
  match s with
  | EmptyString => EmptyString
  | String c s =>
      match drop_trailing_slashes s with
      | EmptyString => if bool_decide (c = "/"%char) then EmptyString else String c EmptyString
      | s => String c s
      end
  end.
(** [g_build_filename] of two elements; an empty element is left out. *)
Definition g_build_filename (a b : string) : string :=
  if bool_decide (b = ""%string) then a else drop_trailing_slashes a +:+ "/" +:+ skip_slashes b.

Lemma strip_prefix_Some p s t : strip_prefix p s = Some t ↔ s = p +:+ t.
Proof.
  revert s. induction p as [|c p IH]; intros s; simpl.
  - split; [by intros [= ->]|by intros ->].
  - destruct s as [|d s]; simpl; [split; [done|by rewrite str_app_cons]|].
    rewrite str_app_cons. case_bool_decide as Hc.
    + rewrite IH. subst. split; [by intros ->|by intros [= ->]].
    + split; [done|]. intros [= ? _]. done.
Qed.
#[global] Arguments strip_prefix : simpl never.
#[global] Arguments starts_with : simpl never.
#[global] Arguments ends_with : simpl never.

Lemma starts_with_spec p s : starts_with p s = true ↔ ∃ t, s = p +:+ t.
Proof. unfold starts_with. rewrite nonnull_true. by setoid_rewrite strip_prefix_Some. Qed.
Lemma starts_with_app p q s : starts_with (p +:+ q) s = true → starts_with p s = true.
Proof. rewrite !starts_with_spec. intros [t ->]. exists (q +:+ t). by rewrite str_app_assoc. Qed.

Lemma starts_with_lit p q s : starts_with p q = true → starts_with p (q +:+ s) = true.
Proof. rewrite !starts_with_spec. intros [t ->]. exists (t +:+ s). by rewrite str_app_assoc. Qed.

Lemma has_slash_app a b : has_slash (a +:+ b) = has_slash a || has_slash b.
Proof. induction a as [|c a IH]; [done|]. rewrite str_app_cons. simpl. by rewrite IH, orb_assoc. Qed.

Lemma rsplit_slash_None s : rsplit_slash s = None ↔ has_slash s = false.
Proof.
  induction s as [|c s IH]; [done|]. simpl. rewrite orb_false_iff, <-IH, bool_decide_eq_false.
  destruct (rsplit_slash s) as [[]|]; [naive_solver|]. case_bool_decide; naive_solver.
Qed.
Lemma rsplit_slash_app a b : has_slash b = false → rsplit_slash (a +:+ "/" +:+ b) = Some (a, b).
Proof.
  intros Hb%rsplit_slash_None. induction a as [|c a IH].
  { change ("" +:+ "/" +:+ b) with (String "/" b). cbn [rsplit_slash]. by rewrite Hb. }
  rewrite str_app_cons. cbn [rsplit_slash]. by rewrite IH.
Qed.
Lemma rsplit_slash_Some s a b : rsplit_slash s = Some (a, b) ↔ s = a +:+ "/" +:+ b ∧ has_slash b = false.
Proof.
  split; [|by intros [-> Hb]; apply rsplit_slash_app].
  revert a b. induction s as [|c s IH]; intros a b; simpl; [done|].
  destruct (rsplit_slash s) as [[a' b']|] eqn:Hr.
  - destruct (IH a' b' eq_refl) as [-> Hb]. by intros [= <- <-].
  - case_bool_decide as Hc; [|done]. intros [= <- <-]. subst c. split; [done|]. by apply rsplit_slash_None.
Qed.

(** * The root *)

Inductive fnode := FDir | FReg (content : string) | FLink (target : string).
#[global] Instance fnode_eq_dec : EqDecision fnode.
Proof. solve_decision. Defined.
Abbreviation tree := (gmap string fnode).

Definition below (dir path : string) : bool := starts_with (dir +:+ "/") path.
Definition has_children (t : tree) (dir : string) : bool := bool_decide (map_Exists (λ p _, below dir p = true) t).
(** A file, or a link that leads nowhere, among the directories of a path. *)
Definition below_file (t : tree) (path : string) : bool :=
  bool_decide (map_Exists (λ p node, node ≠ FDir ∧ below p path = true) t).
Definition parent_ok (t : tree) (path : string) : bool :=
  match rsplit_slash path with Some (d, _) => bool_decide (t !! d = Some FDir) | None => true end.
(** The names in a directory. *)
Definition entry_name (dir path : string) : option string :=
  match strip_prefix (dir +:+ "/") path with
  | Some name => if has_slash name || bool_decide (name = ""%string) then None else Some name
  | None => None
  end.
Definition entries (t : tree) (dir : string) : list (string * fnode) :=
  omap (λ '(p, node), name ← entry_name dir p; Some (name, node)) (map_to_list t).
Definition remove_all (path : string) (t : tree) : tree := filter (λ '(p, _), p ≠ path ∧ below path p = false) t.

(** Everything is in a directory. *)
Definition tree_wf (t : tree) : Prop := ∀ p node, t !! p = Some node → parent_ok t p = true.

(** * System calls *)

Inductive fsevent :=
  | Unlinked (path : string)
  | DirRemoved (path : string)
  | AllRemoved (path : string)
  | Created (path : string) (node : fnode)
  (** a hard link is replaced by a copy, and what is set on a file *)
  | CopiedUp (path : string)
  | OwnerSet (path : string) (uid gid : Z)
  | CapsSet (path caps : string)
  | ModeSet (path : string) (mode : Z).

(** What the system decides: where a path leads when links among its directories are
    followed, the order of directory entries, and errors that the root does not explain. *)
Record FsOps := MkFsOps {
  fs_resolve : tree → string → string;
  fs_order : list (string * fnode) → list (string * fnode);
  fs_error : string → string → option string;
}.
Class FsLaws (fs : FsOps) : Prop := {
  resolve_plain t path :
    (∀ d target, below d path = true → t !! d ≠ Some (FLink target)) → fs_resolve fs t path = path;
  order_perm l : fs_order fs l ≡ₚ l;
}.

Section calls.
Context (fs : FsOps).
Local Abbreviation F := (prog fsevent tree).

Definition errno {A} (op path e : string) : F A := lift (glnx_throw (op +:+ "(" +:+ path +:+ "): " +:+ e)).
(** The path that the kernel reaches. *)
Definition reach (op path : string) : F string :=
  t ← get_self;
  let p := fs_resolve fs t path in
  if below_file t p then errno op path "Not a directory"
  else match fs_error fs op path with
       | Some e => errno op path e
       | None => mret p
       end.
(** [glnx_fstatat_allow_noent] with [AT_SYMLINK_NOFOLLOW]. *)
Definition fstatat (path : string) : F (option fnode) :=
  p ← reach "fstatat" path;
  t ← get_self;
  mret (t !! p).
(** [unlinkat]; [false] is [ENOENT]. *)
Definition unlinkat (path : string) : F bool :=
  p ← reach "unlinkat" path;
  t ← get_self;
  match t !! p with
  | None => mret false
  | Some FDir => errno "unlinkat" path "Is a directory"
  | Some _ =>
      _ ← perform (Unlinked p) (Ok tt);
      _ ← modify (delete p);
      mret true
  end.
Definition glnx_unlinkat (path : string) : F unit :=
  removed ← unlinkat path;
  if removed : bool then mret tt else errno "unlinkat" path "No such file or directory".
(** [unlinkat] with [AT_REMOVEDIR] where [ENOENT], [EEXIST] and [ENOTEMPTY] are accepted. *)
Definition rmdir (path : string) : F unit :=
  p ← reach "rmdir" path;
  t ← get_self;
  match t !! p with
  | None => mret tt
  | Some FDir =>
      if has_children t p then mret tt
      else
        _ ← perform (DirRemoved p) (Ok tt);
        modify (delete p)
  | Some _ => errno "rmdir" path "Not a directory"
  end.
(** [glnx_shutil_rm_rf_at]. *)
Definition rm_rf (path : string) : F unit :=
  p ← reach "rm_rf" path;
  _ ← perform (AllRemoved p) (Ok tt);
  modify (remove_all p).
(** What [linkat], [symlinkat] and [mkdirat] do at their destination; [false] is [EEXIST]. *)
Definition create (op path : string) (node : fnode) : F bool :=
  p ← reach op path;
  t ← get_self;
  if bool_decide (is_Some (t !! p)) then mret false
  else if parent_ok t p then
    _ ← perform (Created p node) (Ok tt);
    _ ← modify (insert p node);
    mret true
  else errno op path "No such file or directory".
Definition linkat (from to : string) : F unit :=
  node ← fstatat from;
  match node with
  | None => errno "linkat" to "No such file or directory"
  | Some FDir => errno "linkat" to "Operation not permitted"
  | Some node =>
      created ← create "linkat" to node;
      if created : bool then mret tt else errno "linkat" to "File exists"
  end.
(** A call that changes a file but not the paths. *)
Definition touch (op path : string) (e : string → fsevent) : F unit :=
  p ← reach op path;
  perform (e p) (Ok tt).
(** Where a path leads when a link at its end is followed as well. *)
Definition follow_path (t : tree) (path : string) : string :=
  match rsplit_slash (fs_resolve fs t (path +:+ "/.")) with Some (d, _) => d | None => path end.
(** [glnx_fstatat_allow_noent] without flags. *)
Definition fstatat_follow (path : string) : F (option fnode) :=
  _ ← reach "fstatat" path;
  t ← get_self;
  mret (t !! follow_path t path).
(** The content of a file; [None] is [ENOENT]. *)
Definition read_file (path : string) : F (option string) :=
  _ ← reach "openat" path;
  t ← get_self;
  match t !! follow_path t path with
  | None => mret None
  | Some (FReg content) => mret (Some content)
  | Some _ => errno "mmap" path "No such device"
  end.
(** A file is replaced by a new one, through a temporary file. *)
Definition replace_file (path content : string) : F unit :=
  p ← reach "rename" path;
  t ← get_self;
  if bool_decide (t !! p = Some FDir) then errno "rename" path "Is a directory"
  else if parent_ok t p then
    _ ← perform (Created p (FReg content)) (Ok tt);
    modify (insert p (FReg content))
  else errno "rename" path "No such file or directory".
(** [glnx_dirfd_iterator_init_at]; [None] is [ENOENT]. *)
Definition readdir (follow : bool) (path : string) : F (option (list (string * fnode))) :=
  p ← reach "opendir" path;
  t ← get_self;
  let p := if follow then follow_path t path else p in
  match t !! p with
  | None => mret None
  | Some FDir => mret (Some (fs_order fs (entries t p)))
  | Some _ => errno "opendir" path "Not a directory"
  end.
End calls.
