(* ===== verification/FileTreeSpec.v ===== *)
(** Properties of the root file system: every call keeps it a tree, and what a call that
    succeeds did. *)

From S2P Require Import Prelude Vardict FileTree.

(** A call without effects, in front of others. *)
Lemma bind_run {E S A B} (m : prog E S A) (f : A → prog E S B) s a s' :
  m s = ([], Ok (a, s')) → (m ≫= f) s = f a s'.
Proof. intros Hm. unfold mbind, prog_bind. rewrite Hm. by destruct (f a s'). Qed.

Lemma ends_with_app s t : ends_with t (s +:+ t) = true.
Proof.
  induction s as [|c s IH].
  - change ("" +:+ t) with t. destruct t; unfold ends_with; rewrite bool_decide_true by done; done.
  - rewrite str_app_cons. unfold ends_with in *. rewrite IH. apply orb_true_r.
Qed.
Lemma ends_with_spec t s : ends_with t s = true ↔ ∃ u, s = u +:+ t.
Proof.
  split; [|intros [u ->]; apply ends_with_app].
  induction s as [|c s IH]; unfold ends_with; fold ends_with.
  - rewrite orb_false_r. intros <-%bool_decide_eq_true. by exists ""%string.
  - intros [H|H]%orb_true_iff.
    + apply bool_decide_eq_true in H. by exists ""%string.
    + destruct (IH H) as [u ->]. by exists (String c u).
Qed.

(** * Trees *)

Lemma below_spec d p : below d p = true ↔ ∃ x, p = d +:+ "/" +:+ x.
Proof. unfold below. rewrite starts_with_spec. by setoid_rewrite <-str_app_assoc. Qed.
Lemma below_trans a b c : below a b = true → below b c = true → below a c = true.
Proof.
  rewrite !below_spec. intros [x ->] [y ->]. exists (x +:+ "/" +:+ y). by rewrite !str_app_assoc.
Qed.
Lemma below_length d p : below d p = true → String.length d < String.length p.
Proof. rewrite below_spec. intros [x ->]. rewrite !str_app_length. simpl. lia. Qed.
Lemma below_irrefl p : below p p = false.
Proof. destruct (below p p) eqn:H; [|done]. apply below_length in H. lia. Qed.
Lemma parent_below p d b : rsplit_slash p = Some (d, b) → below d p = true.
Proof. intros [-> _]%rsplit_slash_Some. apply below_spec. eauto. Qed.

(** What is below a directory is in it, or below what is in it. *)
Lemma below_parent d p : below d p = true → ∃ a b, rsplit_slash p = Some (a, b) ∧ (a = d ∨ below d a = true).
Proof.
  rewrite below_spec. intros [x ->]. destruct (rsplit_slash x) as [[a b]|] eqn:Hx.
  - apply rsplit_slash_Some in Hx as [-> Hb]. exists (d +:+ "/" +:+ a), b. split.
    + rewrite <-rsplit_slash_app by done. by rewrite !str_app_assoc.
    + right. apply below_spec. eauto.
  - apply rsplit_slash_None in Hx. exists d, x. split; [by apply rsplit_slash_app|by left].
Qed.

Section wf.
Context (t : tree) (Hwf : tree_wf t).

Lemma wf_parent p node d b : t !! p = Some node → rsplit_slash p = Some (d, b) → t !! d = Some FDir.
Proof.
  intros Hp Hd. specialize (Hwf p node Hp). unfold parent_ok in Hwf. rewrite Hd in Hwf.
  by apply bool_decide_eq_true in Hwf.
Qed.
Lemma wf_below d p node : t !! p = Some node → below d p = true → t !! d = Some FDir.
Proof.
  revert p node. refine (well_founded_induction (Wf_nat.well_founded_ltof _ String.length) _ _).
  intros p IH node Hp Hb. destruct (below_parent d p Hb) as (a & b & Hab & [->|Ha]).
  - by eapply wf_parent.
  - eapply (IH a); [|by eapply wf_parent|done]. apply below_length. by eapply parent_below.
Qed.
Lemma wf_below_file p node : t !! p = Some node → below_file t p = false.
Proof.
  intros Hp. apply bool_decide_eq_false. intros (d & n & Hd & Hn & Hb). apply Hn.
  pose proof (wf_below d p node Hp Hb). congruence.
Qed.
Lemma wf_file_childless p node : t !! p = Some node → node ≠ FDir → has_children t p = false.
Proof.
  intros Hp Hn. apply bool_decide_eq_false. intros (q & n & Hq & Hb). apply Hn.
  pose proof (wf_below p q n Hq Hb). congruence.
Qed.
Lemma wf_delete p : has_children t p = false → tree_wf (delete p t).
Proof.
  intros Hc%bool_decide_eq_false q node [Hne Hq]%lookup_delete_Some. unfold parent_ok.
  destruct (rsplit_slash q) as [[d b]|] eqn:Hd; [|done]. apply bool_decide_eq_true.
  apply lookup_delete_Some. split; [|by eapply wf_parent].
  intros ->. apply Hc. exists q, node. split; [done|]. by eapply parent_below.
Qed.
Lemma wf_insert p node : t !! p ≠ Some FDir → parent_ok t p = true → tree_wf (<[p := node]> t).
Proof.
  intros Hnd Hp q nq Hq. unfold parent_ok in *. destruct (rsplit_slash q) as [[d b]|] eqn:Hd; [|done].
  apply bool_decide_eq_true. assert (d ≠ q).
  { intros ->. apply parent_below in Hd. by rewrite below_irrefl in Hd. }
  apply lookup_insert_Some in Hq as [[-> ->]|[Hne Hq]].
  - rewrite Hd in Hp. apply bool_decide_eq_true in Hp. by rewrite lookup_insert_ne.
  - pose proof (wf_parent q nq d b Hq Hd) as Hdir. rewrite lookup_insert_ne; [done|]. by intros ->.
Qed.
Lemma wf_remove_all p : tree_wf (remove_all p t).
Proof.
  intros q node (Hq & Hne & Hb)%map_lookup_filter_Some. unfold parent_ok.
  destruct (rsplit_slash q) as [[d b]|] eqn:Hd; [|done]. apply bool_decide_eq_true.
  apply map_lookup_filter_Some. split; [by eapply wf_parent|]. pose proof (parent_below _ _ _ Hd). split.
  - intros ->. congruence.
  - destruct (below p d) eqn:Hpd; [|done]. pose proof (below_trans p d q Hpd H). congruence.
Qed.
End wf.

(** * Entries of directories *)

Lemma entry_name_Some dir path name :
  entry_name dir path = Some name ↔ path = dir +:+ "/" +:+ name ∧ has_slash name = false ∧ name ≠ ""%string.
Proof.
  unfold entry_name. destruct (strip_prefix (dir +:+ "/") path) as [x|] eqn:Hx.
  - apply strip_prefix_Some in Hx as ->. rewrite <-(str_app_assoc dir "/" x).
    destruct (has_slash x || bool_decide (x = ""%string)) eqn:Hb; split.
    + done.
    + intros (->%str_app_inj_l%str_app_inj_l & Hs & Hne). rewrite Hs in Hb. by apply bool_decide_eq_true in Hb.
    + intros [= ->]. apply orb_false_iff in Hb as [? ?%bool_decide_eq_false]. done.
    + by intros (->%str_app_inj_l%str_app_inj_l & _).
  - split; [done|]. intros (-> & _). rewrite str_app_assoc in Hx.
    assert (strip_prefix (dir +:+ "/") ((dir +:+ "/") +:+ name) = Some name) as E by by apply strip_prefix_Some. congruence.
Qed.
Lemma entries_spec t dir name node :
  (name, node) ∈ entries t dir ↔ t !! (dir +:+ "/" +:+ name) = Some node ∧ has_slash name = false ∧ name ≠ ""%string.
Proof.
  unfold entries. rewrite list_elem_of_omap. split.
  - intros ([p n] & Hin%elem_of_map_to_list & Hb). apply bind_Some in Hb as (x & Hx & [= -> ->]).
    apply entry_name_Some in Hx as (-> & ? & ?). done.
  - intros (Hp & Hn). exists (dir +:+ "/" +:+ name, node). split; [by apply elem_of_map_to_list|].
    apply bind_Some. exists name. split; [|done]. by apply entry_name_Some.
Qed.
Lemma entries_subseteq t t' dir e : t' ⊆ t → e ∈ entries t' dir → e ∈ entries t dir.
Proof.
  destruct e as [name node]. rewrite !entries_spec. intros Hsub (H & ? & ?). split_and!; [|done..]. by eapply lookup_weaken.
Qed.
Lemma entries_NoDup t dir : NoDup (entries t dir).*1.
Proof.
  unfold entries. assert (NoDup (map_to_list t).*1) as Hnd by apply NoDup_fst_map_to_list.
  induction (map_to_list t) as [|[p n] l IH]; [constructor|]. apply NoDup_cons in Hnd as [Hp Hnd]. simpl.
  destruct (entry_name dir p) as [name|] eqn:He; simpl; [|auto]. constructor; [|auto].
  intros ([name' n'] & -> & ([q m] & Hin & Hb)%list_elem_of_omap)%list_elem_of_fmap. simpl in *.
  apply bind_Some in Hb as (x & Hx & [= -> ->]).
  apply entry_name_Some in He as (-> & _), Hx as (-> & _). apply Hp. apply list_elem_of_fmap. by exists (dir +:+ "/" +:+ name', n').
Qed.

(** The last component of a path is not empty. *)
Definition tree_plain (t : tree) : Prop := ∀ p node, t !! p = Some node → ∀ d, p ≠ d +:+ "/".

(** What is below a directory is one of its entries or below one. *)
Lemma below_entry t dir x node : tree_wf t → tree_plain t → t !! (dir +:+ "/" +:+ x) = Some node →
  ∃ name n, (name, n) ∈ entries t dir ∧
    (x = name ∧ n = node ∨ n = FDir ∧ ∃ y, x = name +:+ "/" +:+ y).
Proof.
  intros Hwf Hpl Hx. destruct (has_slash x) eqn:Hs.
  - assert (∃ name y, x = name +:+ "/" +:+ y ∧ has_slash name = false) as (name & y & -> & Hn).
    { clear Hx. induction x as [|a x IH]; [done|]. simpl in Hs. destruct (decide (a = "/"%char)) as [->|Hne].
      - by exists ""%string, x.
      - rewrite bool_decide_false in Hs by done. destruct (IH Hs) as (name & y & -> & Hn).
        exists (String a name), y. split; [done|]. simpl. by rewrite bool_decide_false, Hn. }
    assert (t !! (dir +:+ "/" +:+ name) = Some FDir) as Hd.
    { eapply wf_below; [done|exact Hx|]. apply below_spec. exists y. by rewrite !str_app_assoc. }
    exists name, FDir. split; [|right; eauto]. apply entries_spec. split_and!; [done|done|].
    intros ->. by apply (Hpl _ _ Hd dir).
  - exists x, node. split; [|by left]. apply entries_spec. split_and!; [done|done|].
    intros ->. by apply (Hpl _ _ Hx dir).
Qed.

(** * Calls keep the root a tree *)

Section keeps.
Context (fs : FsOps) (P : fsevent → Prop).

Lemma keeps_reach I op path : keeps P I (reach fs op path).
Proof. unfold reach, errno. keeps_auto. Qed.
#[local] Hint Resolve keeps_reach : keeps.
Lemma keeps_fstatat I path : keeps P I (fstatat fs path).
Proof. unfold fstatat. keeps_auto. Qed.
Lemma keeps_fstatat_follow I path : keeps P I (fstatat_follow fs path).
Proof. unfold fstatat_follow. keeps_auto. Qed.
Lemma keeps_read_file I path : keeps P I (read_file fs path).
Proof. unfold read_file, errno. keeps_auto. Qed.
Lemma keeps_readdir I follow path : keeps P I (readdir fs follow path).
Proof. unfold readdir, errno. keeps_auto. Qed.
Lemma keeps_touch I op path e : (∀ p, P (e p)) → keeps P I (touch fs op path e).
Proof. intros He. unfold touch. keeps_auto. Qed.
End keeps.
#[export] Hint Resolve keeps_reach keeps_fstatat keeps_fstatat_follow keeps_read_file keeps_readdir keeps_touch : keeps.

(** The only effect of [create]. *)
Lemma create_effects fs op path node : keeps (λ e, ∃ p, e = Created p node) (λ _, True) (create fs op path node).
Proof.
  unfold create, errno. apply keeps_bind; [apply keeps_reach|]. intros p. apply keeps_bind_get. intros t _.
  apply keeps_if; intros _; [apply keeps_ret|]. apply keeps_if; intros _; [|apply keeps_lift].
  apply keeps_bind; [apply keeps_perform; eauto|]. intros ?. keeps_auto.
Qed.

(** The effects of the other calls are at the paths that the kernel reaches. *)
Section effects.
Context (fs : FsOps) (P : fsevent → Prop) (path : string).
Local Abbreviation plain := (λ _ : tree, True).
Lemma reached {A} op (f : string → prog fsevent tree A) :
  (∀ t, keeps P plain (f (fs_resolve fs t path))) → keeps P plain (reach fs op path ≫= f).
Proof.
  intros Hf. eapply (triple_bind _ _ (λ p _, ∃ t, p = fs_resolve fs t path)).
  - intros t _. unfold reach, errno, mbind, prog_bind, get_self. destruct (below_file _ _); [done|].
    destruct (fs_error fs op path); [done|]. simpl. split; [constructor|]. intros ? ? [= <- <-]. eauto.
  - intros p. apply triple_exists. intros t. apply triple_fact. intros ->. apply Hf.
Qed.
Lemma unlinkat_effects : (∀ t, P (Unlinked (fs_resolve fs t path))) → keeps P plain (unlinkat fs path).
Proof. intros He. unfold unlinkat, errno. apply reached. intros t. keeps_auto. Qed.
Lemma rm_rf_effects : (∀ t, P (AllRemoved (fs_resolve fs t path))) → keeps P plain (rm_rf fs path).
Proof. intros He. unfold rm_rf. apply reached. intros t. keeps_auto. Qed.
Lemma replace_file_effects content : (∀ t, P (Created (fs_resolve fs t path) (FReg content))) →
  keeps P plain (replace_file fs path content).
Proof. intros He. unfold replace_file, errno. apply reached. intros t. keeps_auto. Qed.
End effects.

Section keeps_wf.
Context (fs : FsOps).
Local Abbreviation wf_keeps := (keeps (λ _, True) tree_wf).

(** The path is reached, and the state is read. *)
Lemma wf_call {A} op path (f : string → tree → prog fsevent tree A) :
  (∀ p t, tree_wf t → triple (λ s, s = t) (f p t) (λ _, True) (λ _, tree_wf)) →
  wf_keeps (p ← reach fs op path; t ← get_self; f p t).
Proof.
  intros Hf. apply keeps_bind; [apply keeps_reach|]. intros p. apply keeps_bind_get_state. auto.
Qed.
Ltac wf_state := intros ? ->; first [done|apply wf_delete|apply wf_insert|apply wf_remove_all]; auto.

Lemma wf_unlinkat path : wf_keeps (unlinkat fs path).
Proof.
  apply wf_call. intros p t Hwf. destruct (t !! p) as [[| |]|] eqn:Hp;
    try first [by apply triple_lift|by apply triple_ret; intros ? ->];
    (apply (triple_bind _ _ (λ _ s, s = t)); [by apply triple_perform|]);
    intros []; (apply (triple_bind _ _ (λ _, tree_wf)); [|intros []; by apply triple_ret]);
    apply triple_modify; wf_state; by eapply wf_file_childless.
Qed.
Lemma wf_rmdir path : wf_keeps (rmdir fs path).
Proof.
  apply wf_call. intros p t Hwf. destruct (t !! p) as [[| |]|] eqn:Hp;
    try first [by apply triple_lift|by apply triple_ret; intros ? ->].
  apply triple_if; intros Hc; [by apply triple_ret; intros ? ->|].
  apply (triple_bind _ _ (λ _ s, s = t)); [by apply triple_perform|]. intros []. apply triple_modify. wf_state.
Qed.
Lemma wf_rm_rf path : wf_keeps (rm_rf fs path).
Proof.
  unfold rm_rf. apply keeps_bind; [apply keeps_reach|]. intros p.
  apply keeps_bind; [by apply keeps_perform|]. intros []. apply keeps_modify. intros t Hwf. by apply wf_remove_all.
Qed.
Lemma wf_create op path node : wf_keeps (create fs op path node).
Proof.
  apply wf_call. intros p t Hwf. apply triple_if; intros Hp; [by apply triple_ret; intros ? ->|].
  apply bool_decide_eq_false in Hp. apply triple_if; intros Hpar; [|by apply triple_lift].
  apply (triple_bind _ _ (λ _ s, s = t)); [by apply triple_perform|]. intros [].
  apply (triple_bind _ _ (λ _, tree_wf)); [|intros []; by apply triple_ret].
  apply triple_modify. wf_state.
Qed.
Lemma wf_replace_file path content : wf_keeps (replace_file fs path content).
Proof.
  apply wf_call. intros p t Hwf. apply triple_if; intros Hp; [by apply triple_lift|].
  apply bool_decide_eq_false in Hp. apply triple_if; intros Hpar; [|by apply triple_lift].
  apply (triple_bind _ _ (λ _ s, s = t)); [by apply triple_perform|]. intros []. apply triple_modify. wf_state.
Qed.
End keeps_wf.

(** What the calls that change the root keep, for the code that is made of them. *)
Class FsKeeps (fs : FsOps) (P : fsevent → Prop) (I : tree → Prop) : Prop := {
  fk_unlinkat path : keeps P I (unlinkat fs path);
  fk_rm_rf path : keeps P I (rm_rf fs path);
  fk_create op path node : keeps P I (create fs op path node);
  fk_replace_file path content : keeps P I (replace_file fs path content);
}.
#[export] Hint Resolve fk_unlinkat fk_rm_rf fk_create fk_replace_file : keeps.
#[global] Instance fs_keeps_wf fs : FsKeeps fs (λ _, True) tree_wf.
Proof. split; intros; [apply wf_unlinkat|apply wf_rm_rf|apply wf_create|apply wf_replace_file]. Qed.

Section fs_keeps.
Context (fs : FsOps) (P : fsevent → Prop) (I : tree → Prop) `{!FsKeeps fs P I}.

Lemma keeps_glnx_unlinkat path : keeps P I (glnx_unlinkat fs path).
Proof. unfold glnx_unlinkat, errno. keeps_auto. Qed.
Lemma keeps_linkat from to : keeps P I (linkat fs from to).
Proof. unfold linkat, errno. keeps_auto. Qed.
End fs_keeps.
#[export] Hint Resolve keeps_glnx_unlinkat keeps_linkat : keeps.

(** * What a call that succeeds did *)

Section inversion.
Context (fs : FsOps).

Lemma reach_inv op path t tr p t' : reach fs op path t = (tr, Ok (p, t')) → p = fs_resolve fs t path ∧ tr = [] ∧ t' = t.
Proof.
  unfold reach, errno. intros Hrun. prog_inv Hrun. injection Hm as <- <- <-.
  destruct (below_file _ _); [done|]. destruct (fs_error fs op path); [done|]. by injection Hrun as <- <- <-.
Qed.
(** A call that reaches its path and reads the state. *)
Lemma call_inv {A} op path (f : string → tree → prog fsevent tree A) t tr a t' :
  (p ← reach fs op path; s ← get_self; f p s) t = (tr, Ok (a, t')) → f (fs_resolve fs t path) t t = (tr, Ok (a, t')).
Proof.
  intros Hrun. apply prog_bind_inv in Hrun as (p & t1 & tr1 & tr2 & (-> & -> & ->)%reach_inv & Hrun & ->).
  apply prog_bind_inv in Hrun as (s & t1 & tr1 & tr3 & [= <- <- <-] & Hrun & ->). done.
Qed.
Lemma fstatat_inv path t tr node t' :
  fstatat fs path t = (tr, Ok (node, t')) → node = t !! fs_resolve fs t path ∧ tr = [] ∧ t' = t.
Proof. intros Hrun%call_inv. by injection Hrun as <- <- <-. Qed.
Lemma readdir_inv follow path t tr dents t' : readdir fs follow path t = (tr, Ok (dents, t')) → tr = [] ∧ t' = t.
Proof.
  intros Hrun%call_inv. cbv zeta in Hrun. destruct (t !! _) as [[| |]|]; try done; by injection Hrun as <- _ <-.
Qed.
Lemma unlinkat_inv path t tr b t' : unlinkat fs path t = (tr, Ok (b, t')) →
  let p := fs_resolve fs t path in
  (t !! p = None ∧ b = false ∧ tr = [] ∧ t' = t) ∨
  (∃ node, t !! p = Some node ∧ node ≠ FDir ∧ b = true ∧ tr = [Unlinked p] ∧ t' = delete p t).
Proof.
  intros Hrun%call_inv p. fold p in Hrun. destruct (t !! p) as [[| |]|] eqn:Hp; [done| | |].
  3: injection Hrun as <- <- <-; auto.
  all: prog_inv Hrun; injection Hrun as <- <- <-; apply perform_inv in Hm as (_ & -> & ->); injection Hm0 as <- _ <-;
    right; eexists; split_and!; try done.
Qed.
Lemma glnx_unlinkat_inv path t tr a t' : glnx_unlinkat fs path t = (tr, Ok (a, t')) →
  let p := fs_resolve fs t path in ∃ node, t !! p = Some node ∧ node ≠ FDir ∧ t' = delete p t.
Proof.
  intros Hrun p. unfold glnx_unlinkat in Hrun. apply prog_bind_inv in Hrun as (b & t1 & tr1 & tr2 & Hu & Hrun & ->).
  apply unlinkat_inv in Hu as [(_ & -> & _)|(node & ? & ? & -> & _ & ->)]; [done|]. injection Hrun as _ _ <-. eauto.
Qed.
Lemma rmdir_inv path t tr a t' : rmdir fs path t = (tr, Ok (a, t')) →
  let p := fs_resolve fs t path in
  (t !! p = Some FDir ∧ has_children t p = false ∧ tr = [DirRemoved p] ∧ t' = delete p t) ∨
  ((t !! p = None ∨ t !! p = Some FDir ∧ has_children t p = true) ∧ tr = [] ∧ t' = t).
Proof.
  intros Hrun%call_inv p. fold p in Hrun. destruct (t !! p) as [[| |]|] eqn:Hp; [|done..|].
  2: injection Hrun as <- _ <-; auto.
  destruct (has_children t p); [injection Hrun as <- _ <-; auto|]. prog_inv Hrun.
  apply perform_inv in Hm as (_ & -> & ->). injection Hrun as <- _ <-. auto.
Qed.
Lemma rm_rf_inv path t tr a t' : rm_rf fs path t = (tr, Ok (a, t')) →
  tr = [AllRemoved (fs_resolve fs t path)] ∧ t' = remove_all (fs_resolve fs t path) t.
Proof.
  intros Hrun. unfold rm_rf in Hrun. prog_inv Hrun. apply reach_inv in Hm as (-> & -> & ->).
  apply perform_inv in Hm0 as (_ & -> & ->). by injection Hrun as <- _ <-.
Qed.
Lemma create_inv op path node t tr b t' : create fs op path node t = (tr, Ok (b, t')) →
  let p := fs_resolve fs t path in
  (is_Some (t !! p) ∧ b = false ∧ t' = t) ∨ (t !! p = None ∧ parent_ok t p = true ∧ b = true ∧ t' = <[p := node]> t).
Proof.
  intros Hrun%call_inv p. fold p in Hrun. case_bool_decide as Hp; [injection Hrun as _ <- <-; auto|].
  destruct (parent_ok t p) eqn:Hpar; [|done]. prog_inv Hrun. apply perform_inv in Hm as (_ & _ & ->).
  injection Hm0 as _ _ <-. injection Hrun as _ <- <-. right. split_and!; [|done..]. by apply eq_None_not_Some.
Qed.
Lemma linkat_inv from to t tr a t' : linkat fs from to t = (tr, Ok (a, t')) →
  let p := fs_resolve fs t to in
  ∃ node, t !! fs_resolve fs t from = Some node ∧ node ≠ FDir ∧ t !! p = None ∧ parent_ok t p = true ∧ t' = <[p := node]> t.
Proof.
  intros Hrun p. unfold linkat in Hrun.
  apply prog_bind_inv in Hrun as (node & ? & ? & tr2 & (-> & _ & ->)%fstatat_inv & Hrun & ->).
  destruct (t !! fs_resolve fs t from) as [node|]; [|done]. exists node.
  assert (node ≠ FDir ∧ (created ← create fs "linkat" to node; if created : bool then mret tt else errno "linkat" to "File exists") t
    = (tr2, Ok (a, t'))) as [Hnd Hc] by (by destruct node). clear Hrun.
  apply prog_bind_inv in Hc as (b & t1 & ? & ? & Hc & Hrun & ->).
  apply create_inv in Hc as [(_ & -> & _)|(? & ? & -> & ->)]; [done|]. injection Hrun as _ _ <-. done.
Qed.
Lemma read_file_inv path t tr r t' : read_file fs path t = (tr, Ok (r, t')) → t' = t.
Proof.
  intros Hrun. unfold read_file in Hrun. apply prog_bind_inv in Hrun as (? & ? & ? & ? & (_ & _ & ->)%reach_inv & Hrun & ->).
  apply prog_bind_inv in Hrun as (? & ? & ? & ? & [= <- <- <-] & Hrun & ->).
  destruct (t !! _) as [[| |]|]; try done; by injection Hrun as _ _ <-.
Qed.
Lemma replace_file_inv path content t tr a t' : replace_file fs path content t = (tr, Ok (a, t')) →
  let p := fs_resolve fs t path in t !! p ≠ Some FDir ∧ parent_ok t p = true ∧ t' = <[p := FReg content]> t.
Proof.
  intros Hrun%call_inv p. fold p in Hrun. case_bool_decide as Hp; [done|]. destruct (parent_ok t p); [|done].
  prog_inv Hrun. apply perform_inv in Hm as (_ & _ & ->). injection Hrun as _ _ <-. done.
Qed.
End inversion.

(** * Where paths lead *)

(** No link is in the way to a path. *)
Definition direct (t : tree) (path : string) : Prop := ∀ d target, below d path = true → t !! d ≠ Some (FLink target).
Lemma direct_subseteq (t t' : tree) path : t' ⊆ t → direct t path → direct t' path.
Proof. intros Hsub Hd d target Hb Hl. apply (Hd d target Hb). by eapply lookup_weaken. Qed.
Lemma resolve_direct fs `{!FsLaws fs} t path : direct t path → fs_resolve fs t path = path.
Proof. intros Hd. by apply resolve_plain. Qed.

(** Links that are there were there before. *)
Definition links_sub (t' t : tree) : Prop := ∀ d target, t' !! d = Some (FLink target) → t !! d = Some (FLink target).
Lemma links_sub_trans t t1 t2 : links_sub t2 t1 → links_sub t1 t → links_sub t2 t.
Proof. unfold links_sub. eauto. Qed.
Lemma links_sub_delete t p : links_sub (delete p t) t.
Proof. intros d target Hd. by apply lookup_delete_Some in Hd as [_ ?]. Qed.
Lemma links_sub_insert t p content : links_sub (<[p := FReg content]> t) t.
Proof. intros d target Hd. by apply lookup_insert_Some in Hd as [[_ ?]|[_ ?]]. Qed.
Lemma direct_links t t' path : links_sub t' t → direct t path → direct t' path.
Proof. intros Hs Hd d target Hb Hl. apply (Hd d target Hb). by apply Hs. Qed.
(** What is in the same directory. *)
Lemma direct_sibling t dir a b : has_slash a = false → has_slash b = false →
  direct t (dir +:+ "/" +:+ a) → direct t (dir +:+ "/" +:+ b).
Proof.
  intros Ha Hb Hd d target Hbelow. apply Hd. destruct (below_parent _ _ Hbelow) as (x & y & Hxy & He).
  rewrite rsplit_slash_app in Hxy by done. injection Hxy as <- <-. apply below_spec.
  destruct He as [<-|[z ->]%below_spec]; [by exists a|]. exists (z +:+ "/" +:+ a). by rewrite !str_app_assoc.
Qed.

Section laws.
Context (fs : FsOps) `{!FsLaws fs} (t : tree) (Hwf : tree_wf t).

(** Everything that is there can be reached. *)
Lemma direct_present p node : t !! p = Some node → direct t p.
Proof. intros Hp d target Hb. by rewrite (wf_below t Hwf d p node Hp Hb). Qed.
Lemma resolve_present p node : t !! p = Some node → fs_resolve fs t p = p.
Proof. intros Hp. apply resolve_plain. by eapply direct_present. Qed.
(** What is in a directory, or would be. *)
Lemma direct_child d name : t !! d = Some FDir → has_slash name = false → direct t (d +:+ "/" +:+ name).
Proof.
  intros Hd Hn e target Hb. destruct (below_parent _ _ Hb) as (a & b & Hab & He).
  rewrite rsplit_slash_app in Hab by done. injection Hab as <- <-. destruct He as [<-|He]; [congruence|].
  by rewrite (wf_below t Hwf e d FDir Hd He).
Qed.
Lemma below_dot d p : below d (p +:+ "/.") = true → d = p ∨ below d p = true.
Proof.
  intros Hb. destruct (below_parent _ _ Hb) as (a & b & Hab & Hd).
  change (p +:+ "/.") with (p +:+ "/" +:+ ".") in Hab. rewrite rsplit_slash_app in Hab by done.
  injection Hab as <- <-. naive_solver.
Qed.
Lemma follow_plain p : direct t (p +:+ "/.") → follow_path fs t p = p.
Proof.
  intros Hp. unfold follow_path. rewrite resolve_plain by done.
  change (p +:+ "/.") with (p +:+ "/" +:+ "."). by rewrite rsplit_slash_app.
Qed.
Lemma follow_dir p : t !! p = Some FDir → follow_path fs t p = p.
Proof.
  intros Hp. apply follow_plain. intros d target [->|Hb]%below_dot; [congruence|].
  by rewrite (wf_below t Hwf d p FDir Hp Hb).
Qed.
End laws.

(** * An instance *)

(** A system without links among directories, where nothing fails. *)
Definition plain_fs : FsOps := MkFsOps (λ _ path, path) (λ l, l) (λ _ _, None).
#[global] Instance plain_fs_laws : FsLaws plain_fs.
Proof. by split. Qed.

Lemma tree_wf_decide t : bool_decide (map_Forall (λ p _, parent_ok t p = true) t) = true → tree_wf t.
Proof. intros H%bool_decide_eq_true. exact H. Qed.
Lemma tree_plain_decide t : bool_decide (map_Forall (λ p _, ends_with "/" p = false) t) = true → tree_plain t.
Proof.
  intros H%bool_decide_eq_true p node Hp d ->. specialize (H _ _ Hp). simpl in H. rewrite (ends_with_app d "/") in H. done.
Qed.
