(* ===== verification/Deploy.v ===== *)
(** The deploy transaction: from the dictionaries of a D-Bus call to a validated
    plan, from [src/daemon/rpmostreed-transaction-types.cxx]. *)

From S2P Require Import Prelude Vardict.

(** * Flags *)

Definition RPMOSTREE_TRANSACTION_DEPLOY_FLAG_ALLOW_DOWNGRADE : Z := Z.shiftl 1 2.
Definition RPMOSTREE_TRANSACTION_DEPLOY_FLAG_NO_PULL_BASE : Z := Z.shiftl 1 4.
Definition RPMOSTREE_TRANSACTION_DEPLOY_FLAG_DRY_RUN : Z := Z.shiftl 1 5.
Definition RPMOSTREE_TRANSACTION_DEPLOY_FLAG_DOWNLOAD_ONLY : Z := Z.shiftl 1 8.
Definition RPMOSTREE_TRANSACTION_DEPLOY_FLAG_DOWNLOAD_METADATA_ONLY : Z := Z.shiftl 1 9.

Definition RPMOSTREE_SYSROOT_UPGRADER_FLAGS_IGNORE_UNCONFIGURED : Z := Z.shiftl 1 1.
Definition RPMOSTREE_SYSROOT_UPGRADER_FLAGS_ALLOW_OLDER : Z := Z.shiftl 1 2.
Definition RPMOSTREE_SYSROOT_UPGRADER_FLAGS_DRY_RUN : Z := Z.shiftl 1 3.
Definition RPMOSTREE_SYSROOT_UPGRADER_FLAGS_PKGCACHE_ONLY : Z := Z.shiftl 1 4.
Definition RPMOSTREE_SYSROOT_UPGRADER_FLAGS_SYNTHETIC_PULL : Z := Z.shiftl 1 5.
Definition RPMOSTREE_SYSROOT_UPGRADER_FLAGS_LOCK_FINALIZATION : Z := Z.shiftl 1 6.

(** [(flags & flag) > 0]. *)
Definition flag_set (flags flag : Z) : bool := (0 <? Z.land flags flag)%Z.

Definition set_deploy_flag (flags flag : Z) (val : bool) : Z :=
  let flags := Z.land flags (Z.lnot flag) in
  if val then Z.lor flags flag else flags.

(** One [if (g_variant_dict_lookup (dict, key, "b", &val)) ret = set_deploy_flag (...)]. *)
Definition override_flag (dict : vardict) (ret : Z) (key_flag : string * Z) : Z :=
  match vardict_lookup_boolean dict key_flag.1 with
  | Some val => set_deploy_flag ret key_flag.2 val
  | None => ret
  end.

Definition deploy_flag_options : list (string * Z) :=
  [("allow-downgrade"%string, RPMOSTREE_TRANSACTION_DEPLOY_FLAG_ALLOW_DOWNGRADE);
   ("no-pull-base"%string, RPMOSTREE_TRANSACTION_DEPLOY_FLAG_NO_PULL_BASE);
   ("dry-run"%string, RPMOSTREE_TRANSACTION_DEPLOY_FLAG_DRY_RUN);
   ("download-only"%string, RPMOSTREE_TRANSACTION_DEPLOY_FLAG_DOWNLOAD_ONLY)].

Definition deploy_flags_from_options (dict : vardict) (defaults : Z) : Z :=
  foldl (override_flag dict) defaults deploy_flag_options.

(** * The transaction *)

Record DeployTransaction := MkDeploy {
  dt_flags : Z;
  dt_osname : string;
  dt_options : vardict;
  dt_modifiers : vardict;
  dt_refspec : option string;
  dt_revision : option string;
  dt_fd_list : option (list Z);
}.

(** [rpmostreed_transaction_new_deploy]; the object is zero-initialised. *)
Definition rpmostreed_transaction_new_deploy (osname : string) (default_flags : Z)
    (options modifiers : vardict) (fd_list : option (list Z)) : DeployTransaction :=
  MkDeploy (deploy_flags_from_options options default_flags) osname options modifiers None None fd_list.

(** The handles index the descriptors of the message; a handle out of range fails
    an assertion. *)
Fixpoint get_fd_array_from_sparse (fds : list Z) (idxs : list Z) : outcome (list Z) :=
  match idxs with
  | [] => Ok []
  | h :: idxs =>
      if decide (0 ≤ h)%Z then
        match fds !! Z.to_nat h with
        | Some fd => rest ← get_fd_array_from_sparse fds idxs; Ok (fd :: rest)
        | None => Abort
        end
      else Abort
  end.

(** What a transaction will do: the local variables of [deploy_transaction_execute] that come
    from the options and modifiers. *)
Record deploy_plan := MkPlan {
  dp_refspec : option string;
  dp_revision : option string;
  dp_flags : Z;
  dp_install_pkgs : option (list string);
  dp_uninstall_pkgs : option (list string);
  dp_enable_modules : option (list string);
  dp_disable_modules : option (list string);
  dp_install_modules : option (list string);
  dp_uninstall_modules : option (list string);
  dp_override_remove_pkgs : option (list string);
  dp_override_reset_pkgs : option (list string);
  dp_install_local_pkgs : option (list Z);
  dp_install_fileoverride_local_pkgs : option (list Z);
  dp_override_replace_local_pkgs : option (list Z);
  dp_local_repo_remote_dfd : Z;
  dp_no_overrides : bool;
  dp_no_layering : bool;
  dp_no_initramfs : bool;
  dp_cliwrap : option bool;
  dp_treefile : option string;
  dp_title : string;
  dp_upgrader_flags : Z;
}.

Definition no_pull_base (p : deploy_plan) : bool :=
  flag_set (dp_flags p) RPMOSTREE_TRANSACTION_DEPLOY_FLAG_NO_PULL_BASE.
Definition is_upgrade (p : deploy_plan) : bool :=
  negb (no_pull_base p) && negb (nonnull (dp_refspec p)) && negb (nonnull (dp_revision p)).

(** [if (cond) return glnx_throw (error, msg);] *)
Definition throw_if (cond : bool) (msg : string) : outcome unit :=
  if cond then glnx_throw msg else Ok tt.

Definition n_children {A} (o : option (list A)) : nat := default 0 (length <$> o).

Definition title_count {A} (label : string) (o : option (list A)) : string :=
  match o with Some l => "; " +:+ label +:+ ": " +:+ pretty (length l) | None => "" end.

(** [strstr] as a test. *)
Fixpoint strstr (haystack needle : string) : bool :=
  String.prefix needle haystack ||
  match haystack with EmptyString => false | String _ h => strstr h needle end.

(** * Preparing the plan *)

(** The descriptors, split by the handle arrays. *)
Definition split_fds (fd_list : option (list Z)) (install_local install_fileoverride override_replace :
    option (list Z)) (local_repo_remote_idx : Z) :
    outcome (option (list Z) * option (list Z) * option (list Z) * Z) :=
  match fd_list with
  | None => Ok (None, None, None, (-1)%Z)
  | Some fds =>
      let split (idxs : option (list Z)) : outcome (option (list Z)) :=
        match idxs with
        | None => Ok None
        | Some l => new_fds ← get_fd_array_from_sparse fds l; Ok (Some new_fds)
        end in
      a ← split install_local;
      b ← split install_fileoverride;
      c ← split override_replace;
      if decide (local_repo_remote_idx = -1)%Z then Ok (a, b, c, (-1)%Z)
      else if decide (0 ≤ local_repo_remote_idx)%Z then
        match fds !! Z.to_nat local_repo_remote_idx with
        | Some fd => Ok (a, b, c, fd)
        | None => Abort
        end
      else Abort
  end.

(** The title when the caller gave no command line. *)
Definition deploy_title (p : deploy_plan) (cache_only download_metadata_only download_only : bool) :
    string :=
  let is_override := no_pull_base p &&
    (nonnull (dp_override_reset_pkgs p) || nonnull (dp_override_remove_pkgs p)
     || nonnull (dp_override_replace_local_pkgs p) || dp_no_overrides p) in
  let is_install := no_pull_base p && negb is_override &&
    (nonnull (dp_install_pkgs p) || nonnull (dp_install_local_pkgs p)
     || nonnull (dp_install_fileoverride_local_pkgs p) || nonnull (dp_install_modules p)) in
  let is_uninstall := no_pull_base p && negb is_override && negb is_install in
  (if is_install then "install" else if is_uninstall then "uninstall"
   else if is_override then "override" else if nonnull (dp_refspec p) then "rebase"
   else if nonnull (dp_revision p) then "deploy" else "upgrade") +:+
  (if cache_only then " (cache only)" else if download_metadata_only then " (check only)"
   else if download_only then " (download only)" else "") +:+
  title_count "uninstall" (dp_uninstall_pkgs p) +:+
  title_count "module disable" (dp_disable_modules p) +:+
  title_count "module uninstall" (dp_uninstall_modules p) +:+
  title_count "install" (dp_install_pkgs p) +:+
  title_count "localinstall" (dp_install_local_pkgs p) +:+
  title_count "fileoverride localinstall" (dp_install_fileoverride_local_pkgs p) +:+
  title_count "module enable" (dp_enable_modules p) +:+
  title_count "module install" (dp_install_modules p).

(** [record_driver_info]: [sd_unit] is the unit of the client, [write] the result of
    writing the state file. *)
Definition record_driver_info (sd_unit : option string) (write : outcome unit) : outcome unit :=
  match sd_unit with
  | None => glnx_throw "could not find caller systemd unit"
  | Some _ => write
  end.

Inductive prepared := DriverRegistered | Prepared (p : deploy_plan).

(** [deploy_transaction_execute] up to the creation of the upgrader. Note that
    [refspec_or_revision] is computed before [self->revision] is looked up. *)
Definition deploy_transaction_prepare (sd_unit : option string) (write_driver : outcome unit)
    (self : DeployTransaction) : outcome prepared :=
  let opts := dt_options self in
  let mods := dt_modifiers self in
  let opt key := vardict_lookup_bool opts key false in
  let refspec :=
    match vardict_lookup_string mods "set-refspec" with Some r => Some r | None => dt_refspec self end in
  let refspec_or_revision := nonnull refspec || nonnull (dt_revision self) in
  let revision := vardict_lookup_string mods "set-revision" in
  let override_replace_pkgs := vardict_lookup_strv_canonical mods "override-replace-packages" in
  let override_remove_pkgs := vardict_lookup_strv_canonical mods "override-remove-packages" in
  let override_reset_pkgs := vardict_lookup_strv_canonical mods "override-reset-packages" in
  let flags :=
    if vardict_lookup_bool opts "allow-downgrade" refspec_or_revision
    then Z.lor (dt_flags self) RPMOSTREE_TRANSACTION_DEPLOY_FLAG_ALLOW_DOWNGRADE
    else dt_flags self in
  let install_local_idxs := vardict_lookup_handles mods "install-local-packages" in
  let install_fileoverride_idxs := vardict_lookup_handles mods "install-fileoverride-local-packages" in
  let override_replace_idxs := vardict_lookup_handles mods "override-replace-local-packages" in
  let local_repo_remote_idx :=
    default (-1)%Z (vardict_lookup_handle mods "ex-local-repo-remote") in
  let expected_fdn :=
    n_children install_local_idxs + n_children install_fileoverride_idxs
    + n_children override_replace_idxs
    + (if decide (local_repo_remote_idx = -1)%Z then 0 else 1) in
  let actual_fdn := n_children (dt_fd_list self) in
  _ ← throw_if (negb (bool_decide (expected_fdn = actual_fdn)))
        ("Expected " +:+ pretty expected_fdn +:+ " fds but received " +:+ pretty actual_fdn);
  fds ← split_fds (dt_fd_list self) install_local_idxs install_fileoverride_idxs
          override_replace_idxs local_repo_remote_idx;
  let '(install_local_pkgs, install_fileoverride_local_pkgs, override_replace_local_pkgs,
        local_repo_remote_dfd) := fds in
  let has_local_repo := negb (bool_decide (local_repo_remote_dfd = -1)%Z) in
  _ ← throw_if (negb (nonnull refspec) && opt "skip-purge")
        "Can't specify skip-purge if not setting a new refspec";
  _ ← throw_if (refspec_or_revision && opt "no-pull-base")
        "Can't specify no-pull-base if setting a new refspec or revision";
  _ ← throw_if (opt "cache-only" && opt "download-only") "Can't specify cache-only and download-only";
  _ ← throw_if (opt "dry-run" && opt "download-only") "Can't specify dry-run and download-only";
  _ ← throw_if (nonnull override_replace_pkgs)
        "Non-local replacement overrides not implemented yet";
  _ ← throw_if (opt "no-overrides" &&
                (nonnull override_remove_pkgs || nonnull override_reset_pkgs
                 || nonnull override_replace_pkgs || nonnull override_replace_idxs))
        "Can't specify no-overrides if setting override modifiers";
  _ ← throw_if (negb (nonnull refspec) && has_local_repo) "Missing ref for transient local rebases";
  _ ← throw_if (nonnull revision && has_local_repo)
        "Revision overrides for transient local rebases not implemented yet";
  let dry_run := flag_set flags RPMOSTREE_TRANSACTION_DEPLOY_FLAG_DRY_RUN in
  let cache_only := opt "cache-only" in
  let download_only := flag_set flags RPMOSTREE_TRANSACTION_DEPLOY_FLAG_DOWNLOAD_ONLY in
  let no_pull_base := flag_set flags RPMOSTREE_TRANSACTION_DEPLOY_FLAG_NO_PULL_BASE in
  let download_metadata_only :=
    flag_set flags RPMOSTREE_TRANSACTION_DEPLOY_FLAG_DOWNLOAD_METADATA_ONLY in
  let update_driver := vardict_lookup_string opts "register-driver" in
  let strv key := vardict_lookup_strv_canonical mods key in
  _ ← throw_if (opt "apply-live" && opt "reboot") "Cannot specify `apply-live` and `reboot`";
  _ ← throw_if (nonnull (strv "install-fileoverride-packages")) "Non-local fileoverrides not implemented";
  let upgrader_flags :=
    Z.lor (if flag_set flags RPMOSTREE_TRANSACTION_DEPLOY_FLAG_ALLOW_DOWNGRADE
           then RPMOSTREE_SYSROOT_UPGRADER_FLAGS_ALLOW_OLDER else 0)
   (Z.lor (if dry_run then RPMOSTREE_SYSROOT_UPGRADER_FLAGS_DRY_RUN else 0)
   (Z.lor (if opt "lock-finalization" then RPMOSTREE_SYSROOT_UPGRADER_FLAGS_LOCK_FINALIZATION else 0)
   (Z.lor (if cache_only then Z.lor RPMOSTREE_SYSROOT_UPGRADER_FLAGS_SYNTHETIC_PULL
                                RPMOSTREE_SYSROOT_UPGRADER_FLAGS_PKGCACHE_ONLY else 0)
          (if nonnull refspec then RPMOSTREE_SYSROOT_UPGRADER_FLAGS_IGNORE_UNCONFIGURED else 0)))) in
  let mk title :=
    MkPlan refspec revision flags (strv "install-packages") (strv "uninstall-packages")
      (strv "enable-modules") (strv "disable-modules") (strv "install-modules")
      (strv "uninstall-modules") override_remove_pkgs override_reset_pkgs install_local_pkgs
      install_fileoverride_local_pkgs override_replace_local_pkgs local_repo_remote_dfd
      (opt "no-overrides") (opt "no-layering") (opt "no-initramfs")
      (vardict_lookup_boolean opts "ex-cliwrap") (vardict_lookup_string mods "treefile") title upgrader_flags in
  let title :=
    match vardict_lookup_string opts "initiating-command-line" with
    | Some command_line =>
        if strstr command_line "--trigger-automatic-update-policy"
        then (if download_metadata_only then "automatic (check)" else "automatic (stage)")
        else command_line
    | None => deploy_title (mk "") cache_only download_metadata_only download_only
    end in
  let plan := mk title in
  registered ←
    match update_driver with
    | None => Ok false
    | Some _ =>
        _ ← record_driver_info sd_unit write_driver;
        Ok (bool_decide (revision = Some ""%string))
    end;
  if registered : bool then Ok DriverRegistered else
  _ ← g_assert (negb download_metadata_only || negb (no_pull_base || cache_only || download_only));
  _ ← g_assert (negb (opt "no-overrides") ||
                negb (nonnull override_replace_pkgs || nonnull override_replace_local_pkgs
                      || nonnull override_remove_pkgs || nonnull override_reset_pkgs));
  Ok (Prepared plan).

(** * Flags are set by their option, or by default *)

Lemma flag_set_testbit z n : (0 ≤ n)%Z → flag_set z (Z.shiftl 1 n) = Z.testbit z n.
Proof.
  intros Hn. unfold flag_set. rewrite Z.shiftl_1_l.
  assert (Z.land z (2 ^ n) = if Z.testbit z n then 2 ^ n else 0)%Z as ->.
  { apply Z.bits_inj'. intros m Hm. rewrite Z.land_spec, Z.pow2_bits_eqb by done.
    destruct (Z.eqb_spec n m) as [->|Hne].
    - rewrite andb_true_r. destruct (Z.testbit z m); [by rewrite Z.pow2_bits_true|by rewrite Z.bits_0].
    - rewrite andb_false_r. destruct (Z.testbit z n); [by rewrite Z.pow2_bits_false|by rewrite Z.bits_0]. }
  destruct (Z.testbit z n); [|done]. apply Z.ltb_lt, Z.pow_pos_nonneg; lia.
Qed.

Lemma set_deploy_flag_testbit z n val m :
  (0 ≤ n)%Z → (0 ≤ m)%Z →
  Z.testbit (set_deploy_flag z (Z.shiftl 1 n) val) m = if (n =? m)%Z then val else Z.testbit z m.
Proof.
  intros Hn Hm. unfold set_deploy_flag. rewrite Z.shiftl_1_l.
  destruct val; rewrite ?Z.lor_spec, Z.land_spec, Z.lnot_spec, Z.pow2_bits_eqb by done;
    destruct (n =? m)%Z, (Z.testbit z m); done.
Qed.

Lemma override_flag_testbit dict z key n m :
  (0 ≤ n)%Z → (0 ≤ m)%Z →
  Z.testbit (override_flag dict z (key, Z.shiftl 1 n)) m =
  if (n =? m)%Z then default (Z.testbit z m) (vardict_lookup_boolean dict key) else Z.testbit z m.
Proof.
  intros Hn Hm. unfold override_flag. simpl. destruct (vardict_lookup_boolean dict key); simpl.
  - by apply set_deploy_flag_testbit.
  - by destruct (n =? m)%Z.
Qed.

Lemma deploy_flags_testbit dict z m :
  (0 ≤ m)%Z →
  Z.testbit (deploy_flags_from_options dict z) m =
  match m with
  | 2 => default (Z.testbit z 2) (vardict_lookup_boolean dict "allow-downgrade")
  | 4 => default (Z.testbit z 4) (vardict_lookup_boolean dict "no-pull-base")
  | 5 => default (Z.testbit z 5) (vardict_lookup_boolean dict "dry-run")
  | 8 => default (Z.testbit z 8) (vardict_lookup_boolean dict "download-only")
  | _ => Z.testbit z m
  end%Z.
Proof.
  intros Hm. unfold deploy_flags_from_options, deploy_flag_options. cbn [foldl].
  unfold RPMOSTREE_TRANSACTION_DEPLOY_FLAG_ALLOW_DOWNGRADE, RPMOSTREE_TRANSACTION_DEPLOY_FLAG_NO_PULL_BASE,
    RPMOSTREE_TRANSACTION_DEPLOY_FLAG_DRY_RUN, RPMOSTREE_TRANSACTION_DEPLOY_FLAG_DOWNLOAD_ONLY.
  rewrite !override_flag_testbit by lia.
  destruct (Z.eqb_spec 8 m); [by subst|]. destruct (Z.eqb_spec 5 m); [by subst|].
  destruct (Z.eqb_spec 4 m); [by subst|]. destruct (Z.eqb_spec 2 m); [by subst|].
  repeat case_match; congruence.
Qed.

(** * Inverting a successful preparation *)

Lemma throw_if_ok cond msg u : throw_if cond msg = Ok u → cond = false.
Proof. by destruct cond. Qed.

Lemma g_assert_ok b u : g_assert b = Ok u → b = true.
Proof. by destruct b. Qed.

Ltac inv_bind H :=
  let E := fresh "E" in
  apply bind_ok in H as (?&E&H); first [apply throw_if_ok in E|apply g_assert_ok in E|idtac];
  cbv beta in H.

Lemma get_fd_array_length fds idxs l :
  get_fd_array_from_sparse fds idxs = Ok l → length l = length idxs.
Proof.
  revert l. induction idxs as [|h idxs IH]; intros l; simpl; [by intros [= <-]|].
  case_decide; [|done]. case_match; [|done]. intros (rest&Hrest&[= <-])%bind_ok.
  simpl. by rewrite (IH rest).
Qed.

(** A list of descriptors comes from as many handles. *)
Lemma split_fds_lengths fd_list a b c i x y z r :
  split_fds fd_list a b c i = Ok (x, y, z, r) →
  (∀ l, x = Some l → n_children a = length l) ∧ (∀ l, y = Some l → n_children b = length l) ∧
  (∀ l, z = Some l → n_children c = length l ∧ c ≠ None).
Proof.
  unfold split_fds. destruct fd_list as [fds|]; [|naive_solver].
  intros H. apply bind_ok in H as (x'&Ex&H). apply bind_ok in H as (y'&Ey&H).
  apply bind_ok in H as (z'&Ez&H).
  assert ((x', y', z') = (x, y, z)) as [= -> -> ->].
  { repeat case_decide; simplify_eq; [done|]. case_match; by simplify_eq. }
  assert (∀ o l, match o with None => Ok None | Some l =>
    new_fds ← get_fd_array_from_sparse fds l; Ok (Some new_fds) end = Ok (Some l) →
    n_children o = length l ∧ o ≠ None) as Hsp.
  { intros [idxs|] l Ho; [|done]. apply bind_ok in Ho as (l'&Hl%get_fd_array_length&[= <-]). done. }
  split_and!; intros l ->; by apply Hsp.
Qed.

(** All handles of the file overrides give descriptors. *)
Lemma split_fds_fileoverride fd_list a b c i x y z r :
  split_fds fd_list a b c i = Ok (x, y, z, r) → (fd_list = None → n_children b = 0) →
  n_children y = n_children b.
Proof.
  unfold split_fds. destruct fd_list as [fds|]; [|intros [= _ <- _ _] Hb; by rewrite Hb].
  intros H _. apply bind_ok in H as (x'&_&H). apply bind_ok in H as (y'&Ey&H).
  apply bind_ok in H as (z'&_&H).
  assert (y' = y) as -> by (repeat case_decide; simplify_eq; [done|]; case_match; by simplify_eq).
  destruct b as [idxs|]; [|by injection Ey as <-].
  apply bind_ok in Ey as (l&Hl%get_fd_array_length&[= <-]). exact Hl.
Qed.

(** What a plan has to do with the dictionaries it was made from. *)
Record plan_from (opts mods : vardict) (default_flags : Z) (p : deploy_plan) : Prop := PlanFrom {
  pf_refspec : dp_refspec p = vardict_lookup_string mods "set-refspec";
  pf_revision : dp_revision p = vardict_lookup_string mods "set-revision";
  pf_no_pull_base :
    no_pull_base p = default (Z.testbit default_flags 4) (vardict_lookup_boolean opts "no-pull-base");
  pf_allow_older :
    flag_set (dp_upgrader_flags p) RPMOSTREE_SYSROOT_UPGRADER_FLAGS_ALLOW_OLDER =
    default (nonnull (dp_refspec p) || Z.testbit default_flags 2)
      (vardict_lookup_boolean opts "allow-downgrade");
  pf_layering :
    dp_install_pkgs p = vardict_lookup_strv_canonical mods "install-packages" ∧
    dp_uninstall_pkgs p = vardict_lookup_strv_canonical mods "uninstall-packages" ∧
    dp_enable_modules p = vardict_lookup_strv_canonical mods "enable-modules" ∧
    dp_disable_modules p = vardict_lookup_strv_canonical mods "disable-modules" ∧
    dp_install_modules p = vardict_lookup_strv_canonical mods "install-modules" ∧
    dp_uninstall_modules p = vardict_lookup_strv_canonical mods "uninstall-modules";
  pf_overrides :
    dp_override_remove_pkgs p = vardict_lookup_strv_canonical mods "override-remove-packages" ∧
    dp_override_reset_pkgs p = vardict_lookup_strv_canonical mods "override-reset-packages";
  pf_install_local l :
    dp_install_local_pkgs p = Some l →
    n_children (vardict_lookup_handles mods "install-local-packages") = length l;
  pf_fileoverride :
    n_children (dp_install_fileoverride_local_pkgs p) =
    n_children (vardict_lookup_handles mods "install-fileoverride-local-packages");
  pf_unasked :
    dp_cliwrap p = vardict_lookup_boolean opts "ex-cliwrap" ∧ dp_treefile p = vardict_lookup_string mods "treefile";
  pf_local_repo : dp_local_repo_remote_dfd p ≠ (-1)%Z → dp_refspec p ≠ None;
  pf_override_local l :
    dp_override_replace_local_pkgs p = Some l →
    n_children (vardict_lookup_handles mods "override-replace-local-packages") = length l;
  pf_switches :
    dp_no_overrides p = vardict_lookup_bool opts "no-overrides" false ∧
    dp_no_layering p = vardict_lookup_bool opts "no-layering" false ∧
    dp_no_initramfs p = vardict_lookup_bool opts "no-initramfs" false;
  pf_no_overrides_alone :
    dp_no_overrides p = true →
    dp_override_remove_pkgs p = None ∧ dp_override_reset_pkgs p = None ∧
    dp_override_replace_local_pkgs p = None;
  pf_dry_run :
    flag_set (dp_flags p) RPMOSTREE_TRANSACTION_DEPLOY_FLAG_DRY_RUN =
    default (Z.testbit default_flags 5) (vardict_lookup_boolean opts "dry-run") ∧
    flag_set (dp_upgrader_flags p) RPMOSTREE_SYSROOT_UPGRADER_FLAGS_DRY_RUN =
    flag_set (dp_flags p) RPMOSTREE_TRANSACTION_DEPLOY_FLAG_DRY_RUN;
  pf_download :
    flag_set (dp_flags p) RPMOSTREE_TRANSACTION_DEPLOY_FLAG_DOWNLOAD_ONLY =
    default (Z.testbit default_flags 8) (vardict_lookup_boolean opts "download-only") ∧
    flag_set (dp_flags p) RPMOSTREE_TRANSACTION_DEPLOY_FLAG_DOWNLOAD_METADATA_ONLY =
    Z.testbit default_flags 9;
  pf_rebase_pulls : dp_refspec p ≠ None → Z.testbit default_flags 4 = false → no_pull_base p = false;
}.

Lemma nonnull_false {A} (o : option A) : nonnull o = false ↔ o = None.
Proof. destruct o; naive_solver. Qed.

(** The flags of the transaction after the "allow-downgrade" default. *)
Lemma deploy_flags_other (b : bool) opts dflags n : (0 ≤ n)%Z → n ≠ 2%Z →
  flag_set (if b then Z.lor (deploy_flags_from_options opts dflags)
                    RPMOSTREE_TRANSACTION_DEPLOY_FLAG_ALLOW_DOWNGRADE
            else deploy_flags_from_options opts dflags) (Z.shiftl 1 n) =
  Z.testbit (deploy_flags_from_options opts dflags) n.
Proof.
  intros Hn Hn2. rewrite flag_set_testbit by lia. destruct b; [|done].
  unfold RPMOSTREE_TRANSACTION_DEPLOY_FLAG_ALLOW_DOWNGRADE.
  rewrite Z.lor_spec, Z.shiftl_1_l, Z.pow2_bits_false by lia. apply orb_false_r.
Qed.

Lemma deploy_flags_no_pull_base (b : bool) opts dflags :
  flag_set (if b then Z.lor (deploy_flags_from_options opts dflags)
                    RPMOSTREE_TRANSACTION_DEPLOY_FLAG_ALLOW_DOWNGRADE
            else deploy_flags_from_options opts dflags)
    RPMOSTREE_TRANSACTION_DEPLOY_FLAG_NO_PULL_BASE =
  default (Z.testbit dflags 4) (vardict_lookup_boolean opts "no-pull-base").
Proof.
  unfold RPMOSTREE_TRANSACTION_DEPLOY_FLAG_NO_PULL_BASE.
  rewrite deploy_flags_other by lia. by rewrite deploy_flags_testbit by lia.
Qed.

Lemma deploy_flags_allow_downgrade (b : bool) opts dflags :
  flag_set (if vardict_lookup_bool opts "allow-downgrade" b
            then Z.lor (deploy_flags_from_options opts dflags)
                   RPMOSTREE_TRANSACTION_DEPLOY_FLAG_ALLOW_DOWNGRADE
            else deploy_flags_from_options opts dflags)
    RPMOSTREE_TRANSACTION_DEPLOY_FLAG_ALLOW_DOWNGRADE =
  default (b || Z.testbit dflags 2) (vardict_lookup_boolean opts "allow-downgrade").
Proof.
  unfold RPMOSTREE_TRANSACTION_DEPLOY_FLAG_ALLOW_DOWNGRADE, vardict_lookup_bool.
  rewrite flag_set_testbit by lia. pose proof (deploy_flags_testbit opts dflags 2 ltac:(lia)) as Hb.
  destruct (vardict_lookup_boolean opts "allow-downgrade") as [[]|]; cbn [from_option id] in *;
    [by rewrite Z.lor_spec, Hb|done|]. destruct b; [|done].
  rewrite Z.lor_spec. apply orb_true_r.
Qed.

Lemma upgrader_flags_bits (b1 b2 b3 b4 b5 : bool) :
  let flags :=
    (Z.lor (if b1 then RPMOSTREE_SYSROOT_UPGRADER_FLAGS_ALLOW_OLDER else 0)
    (Z.lor (if b2 then RPMOSTREE_SYSROOT_UPGRADER_FLAGS_DRY_RUN else 0)
    (Z.lor (if b3 then RPMOSTREE_SYSROOT_UPGRADER_FLAGS_LOCK_FINALIZATION else 0)
    (Z.lor (if b4 then Z.lor RPMOSTREE_SYSROOT_UPGRADER_FLAGS_SYNTHETIC_PULL
                         RPMOSTREE_SYSROOT_UPGRADER_FLAGS_PKGCACHE_ONLY else 0)
           (if b5 then RPMOSTREE_SYSROOT_UPGRADER_FLAGS_IGNORE_UNCONFIGURED else 0))))) in
  flag_set flags RPMOSTREE_SYSROOT_UPGRADER_FLAGS_ALLOW_OLDER = b1 ∧
  flag_set flags RPMOSTREE_SYSROOT_UPGRADER_FLAGS_DRY_RUN = b2.
Proof. by destruct b1, b2, b3, b4, b5. Qed.

#[local] Arguments Z.testbit : simpl never.

Lemma prepare_plan_from sd_unit write osname opts mods dflags fds p :
  deploy_transaction_prepare sd_unit write
    (rpmostreed_transaction_new_deploy osname dflags opts mods fds) = Ok (Prepared p) →
  plan_from opts mods dflags p.
Proof.
  unfold deploy_transaction_prepare. cbv zeta. intros H.
  inv_bind H. inv_bind H. destruct x0 as [[[a b] c] r].
  do 10 inv_bind H. inv_bind H. case_match; [done|]. inv_bind H. inv_bind H. injection H as <-.
  cbn [rpmostreed_transaction_new_deploy dt_flags dt_options dt_modifiers dt_refspec dt_revision dt_fd_list] in *.
  destruct (split_fds_lengths _ _ _ _ _ _ _ _ _ E0) as (Ha&Hb&Hc).
  assert (∀ o : option string, match o with Some s => Some s | None => None end = o) as Hid
    by by intros [].
  rewrite Hid in *. clear Hid. rewrite orb_false_r in *.
  split; unfold no_pull_base; simpl; try done.
  - apply deploy_flags_no_pull_base.
  - rewrite (proj1 (upgrader_flags_bits _ _ _ _ _)). apply deploy_flags_allow_downgrade.
  - eapply split_fds_fileoverride; [exact E0|]. intros Hn. apply negb_false_iff, bool_decide_eq_true in E.
    rewrite Hn in E. unfold n_children at 4 in E. simpl in E. lia.
  - intros Hr. rewrite bool_decide_eq_false_2, andb_true_r in E7 by done.
    apply negb_false_iff, nonnull_true in E7 as [? ->]. done.
  - intros l ->. by apply Hc.
  - intros Hno. rewrite Hno, andb_true_l, !orb_false_iff, !nonnull_false in E6.
    destruct E6 as [[[-> ->] _] Hn]. split_and!; [done..|].
    destruct c as [l|]; [|done]. by destruct (Hc l eq_refl).
  - split; [|apply (upgrader_flags_bits _ _ _ _ _)]. unfold RPMOSTREE_TRANSACTION_DEPLOY_FLAG_DRY_RUN.
    by rewrite deploy_flags_other, deploy_flags_testbit by lia.
  - unfold RPMOSTREE_TRANSACTION_DEPLOY_FLAG_DOWNLOAD_ONLY,
      RPMOSTREE_TRANSACTION_DEPLOY_FLAG_DOWNLOAD_METADATA_ONLY.
    by rewrite !deploy_flags_other, !deploy_flags_testbit by lia.
  - intros Hr Hd. rewrite deploy_flags_no_pull_base, Hd.
    apply not_eq_None_Some in Hr as [rs Hr]. rewrite Hr in E2. simpl in E2.
    unfold vardict_lookup_bool in E2. by destruct (vardict_lookup_boolean opts "no-pull-base").
Qed.

(** * Properties *)

(** A plan that passes the checks is the one the dictionaries ask for: refspec,
    revision, packages, modules and overrides are those of the modifiers, an option
    overrides the default of its flag, "no-overrides" comes without any other override,
    a rebase pulls the base, and the local packages are as many as their handles. *)
Theorem deploy_plan_spec sd_unit write osname opts mods dflags fds p :
  deploy_transaction_prepare sd_unit write
    (rpmostreed_transaction_new_deploy osname dflags opts mods fds) = Ok (Prepared p) →
  plan_from opts mods dflags p.
Proof. apply prepare_plan_from. Qed.

Definition ex_opts : vardict := {["dry-run" := VBool true]}.
Definition ex_mods : vardict :=
  <["install-packages" := VStrv ["vim"]]> {["install-local-packages" := VHandles [0%Z]]}.

Lemma deploy_plan_spec_witness :
  ∃ p, deploy_transaction_prepare None (Ok tt)
      (rpmostreed_transaction_new_deploy "fedora" 0 ex_opts ex_mods (Some [9%Z])) = Ok (Prepared p) ∧
    dp_title p = "upgrade; install: 1; localinstall: 1" ∧ plan_from ex_opts ex_mods 0 p.
Proof.
  eexists. split; [vm_compute; reflexivity|]. split; [done|].
  apply (deploy_plan_spec None (Ok tt) "fedora" ex_opts ex_mods 0 (Some [9%Z])). by vm_compute.
Defined.

(** A "set-revision" modifier does not count as setting a revision in the checks:
    downgrades stay disallowed by default, and "no-pull-base" is accepted next to it.
    A "set-refspec" modifier does count: downgrades are allowed by default and
    "no-pull-base" is an error. *)
Theorem set_revision_not_counted osname r sd_unit write :
  (∃ p, deploy_transaction_prepare sd_unit write (rpmostreed_transaction_new_deploy osname 0
        {["no-pull-base" := VBool true]} {["set-revision" := VString r]} None) = Ok (Prepared p) ∧
     dp_revision p = Some r ∧ no_pull_base p = true ∧
     flag_set (dp_upgrader_flags p) RPMOSTREE_SYSROOT_UPGRADER_FLAGS_ALLOW_OLDER = false) ∧
  (∃ p, deploy_transaction_prepare sd_unit write (rpmostreed_transaction_new_deploy osname 0
        ∅ {["set-refspec" := VString r]} None) = Ok (Prepared p) ∧
     flag_set (dp_upgrader_flags p) RPMOSTREE_SYSROOT_UPGRADER_FLAGS_ALLOW_OLDER = true) ∧
  deploy_transaction_prepare sd_unit write (rpmostreed_transaction_new_deploy osname 0
    {["no-pull-base" := VBool true]} {["set-refspec" := VString r]} None) =
  glnx_throw "Can't specify no-pull-base if setting a new refspec or revision".
Proof.
  split_and!; [eexists; (split; [vm_compute; reflexivity|])..|]; by vm_compute.
Qed.

(** A handle that is not an index of the descriptors aborts the daemon. *)
Lemma handle_out_of_range_aborts sd_unit write osname fd h :
  (h < 0 ∨ 1 ≤ h)%Z →
  deploy_transaction_prepare sd_unit write (rpmostreed_transaction_new_deploy osname 0
    ∅ {["install-local-packages" := VHandles [h]]} (Some [fd])) = Abort.
Proof.
  intros Hh. unfold deploy_transaction_prepare. cbv zeta.
  change (split_fds (dt_fd_list _) _ _ _ _) with
    (split_fds (Some [fd]) (Some [h]) None None (-1)).
  assert (split_fds (Some [fd]) (Some [h]) None None (-1) = Abort) as ->; [|done].
  unfold split_fds. simpl. case_decide; [|done].
  by rewrite (lookup_ge_None_2 [fd]) by (simpl; lia).
Qed.
