(* ===== verification/Os.v ===== *)
(** The OS and Sysroot interfaces of the daemon: who may call what, and the request
    each method turns into, from [src/daemon/rpmostreed-os.cxx] and
    [src/daemon/rpmostreed-sysroot.cxx]. polkit, the bus and logind are parameters. *)

From S2P Require Import Prelude Vardict Transaction Deploy.

(** * Authorization *)

Definition ACT_REPO_REFRESH : string := "org.projectatomic.rpmostree1.repo-refresh".
Definition ACT_REPO_MODIFY : string := "org.projectatomic.rpmostree1.repo-modify".
Definition ACT_DEPLOY : string := "org.projectatomic.rpmostree1.deploy".
Definition ACT_UPGRADE : string := "org.projectatomic.rpmostree1.upgrade".
Definition ACT_REBASE : string := "org.projectatomic.rpmostree1.rebase".
Definition ACT_BOOTCONFIG : string := "org.projectatomic.rpmostree1.bootconfig".
Definition ACT_CLEANUP : string := "org.projectatomic.rpmostree1.cleanup".
Definition ACT_ROLLBACK : string := "org.projectatomic.rpmostree1.rollback".
Definition ACT_INSTALL_UNINSTALL : string := "org.projectatomic.rpmostree1.install-uninstall-packages".
Definition ACT_INSTALL_LOCAL : string := "org.projectatomic.rpmostree1.install-local-packages".
Definition ACT_OVERRIDE : string := "org.projectatomic.rpmostree1.override".
Definition ACT_FINALIZE : string := "org.projectatomic.rpmostree1.finalize-deployment".
Definition ACT_RELOAD_DAEMON : string := "org.projectatomic.rpmostree1.reload-daemon".
Definition ACT_CANCEL : string := "org.projectatomic.rpmostree1.cancel".
Definition ACT_CLIENT_MANAGEMENT : string := "org.projectatomic.rpmostree1.client-management".

Definition one_of (method : string) (names : list string) : bool := bool_decide (method ∈ names).

(** The actions an UpdateDeployment call needs. *)
Definition update_deployment_actions (modifiers options : vardict) : list string :=
  let strv key := nonnull (vardict_lookup_strv modifiers key) in
  let handles key := (0 <? n_children (vardict_lookup_handles modifiers key))%nat in
  let refspec := vardict_lookup_string modifiers "set-refspec" in
  let revision := vardict_lookup_string modifiers "set-revision" in
  let no_pull_base := vardict_lookup_bool options "no-pull-base" false in
  let no_overrides := vardict_lookup_bool options "no-overrides" false in
  let no_layering := vardict_lookup_bool options "no-layering" false in
  let actions :=
    (if vardict_lookup_bool options "no-initramfs" false then [ACT_BOOTCONFIG] else []) ++
    (if nonnull refspec then [ACT_REBASE]
     else if nonnull revision then [ACT_DEPLOY]
     else if negb no_pull_base then [ACT_UPGRADE] else []) ++
    (if strv "install-packages" || strv "uninstall-packages" || strv "enable-modules"
        || strv "disable-modules" || strv "install-modules" || strv "uninstall-modules" || no_layering
     then [ACT_INSTALL_UNINSTALL] else []) ++
    (if handles "install-local-packages" || handles "install-local-fileoverride-packages"
     then [ACT_INSTALL_LOCAL] else []) ++
    (if strv "override-replace-packages" || strv "override-remove-packages"
        || strv "override-reset-packages" || handles "override-replace-local-packages" || no_overrides
     then [ACT_OVERRIDE] else []) in
  match actions with [] => [ACT_OVERRIDE] | _ => actions end.

(** [None]: the method is allowed for everybody. *)
Definition os_method_actions (method : string) (modifiers options : vardict) : option (list string) :=
  if one_of method ["GetDeploymentsRpmDiff"; "GetCachedDeployRpmDiff"; "DownloadDeployRpmDiff";
                    "GetCachedUpdateRpmDiff"; "DownloadUpdateRpmDiff"; "GetCachedRebaseRpmDiff";
                    "DownloadRebaseRpmDiff"; "RefreshMd"] then Some [ACT_REPO_REFRESH]
  else if one_of method ["ModifyYumRepo"] then Some [ACT_REPO_MODIFY]
  else if one_of method ["Deploy"] then Some [ACT_DEPLOY]
  else if one_of method ["Upgrade"; "AutomaticUpdateTrigger"] then Some [ACT_UPGRADE]
  else if one_of method ["Rebase"] then Some [ACT_REBASE]
  else if one_of method ["GetDeploymentBootConfig"; "ListRepos"; "WhatProvides"; "GetPackages"; "Search"]
  then None
  else if one_of method ["SetInitramfsState"; "KernelArgs"; "InitramfsEtc"] then Some [ACT_BOOTCONFIG]
  else if one_of method ["Cleanup"] then Some [ACT_CLEANUP]
  else if one_of method ["Rollback"; "ClearRollbackTarget"] then Some [ACT_ROLLBACK]
  else if one_of method ["PkgChange"] then Some [ACT_INSTALL_UNINSTALL]
  else if one_of method ["UpdateDeployment"] then Some (update_deployment_actions modifiers options)
  else if one_of method ["FinalizeDeployment"] then Some [ACT_FINALIZE]
  else Some [].

Inductive auth_result := Authorized | NotAuthorized (msg : string).

Section auth.
(** [rpmostreed_sysroot_authorize_direct], [rpmostreed_sysroot_get_polkit_authority] and
    [polkit_authority_check_authorization_sync] (with interaction allowed or not). *)
Context (authorize_direct : outcome bool) (authority : outcome unit)
  (check_authorization : bool → string → outcome bool).

(** The loop over the actions: stops at the first that is refused. *)
Fixpoint check_actions (authorized : bool) (actions : list string) : outcome bool :=
  match actions with
  | [] => Ok authorized
  | action :: actions =>
      ok ← check_authorization true action;
      if ok : bool then check_actions true actions else Ok false
  end.

Definition auth_reply (method : string) (r : outcome bool) : outcome auth_result :=
  match r with
  | Abort => Abort
  | Err e => Ok (NotAuthorized ("Authorization error: " +:+ err_msg e))
  | Ok true => Ok Authorized
  | Ok false => Ok (NotAuthorized ("rpmostreed OS operation " +:+ method +:+ " not allowed for user"))
  end.

Definition os_authorize_method (method : string) (modifiers options : vardict) : outcome auth_result :=
  match authorize_direct with
  | Abort => Abort
  | Err e => Ok (NotAuthorized ("Failed direct authorization: " +:+ err_msg e))
  | Ok true => Ok Authorized
  | Ok false =>
      match authority with
      | Abort => Abort
      | Err e => Ok (NotAuthorized ("Failed to load polkit: " +:+ err_msg e))
      | Ok _ =>
          match os_method_actions method modifiers options with
          | None => Ok Authorized
          | Some actions => auth_reply method (check_actions false actions)
          end
      end
  end.

(** [session_active]: whether logind reports the state "active" for the user of
    the sender. *)
Definition sysroot_authorize_method (session_active : bool) (method : string) : outcome auth_result :=
  match authorize_direct with
  | Abort => Abort
  | Err e => Ok (NotAuthorized ("Failed to load polkit: " +:+ err_msg e))
  | Ok true => Ok Authorized
  | Ok false =>
      let '(authorized, interactive, action) :=
        if one_of method ["GetOS"; "Reload"] then (true, true, None)
        else if one_of method ["ReloadConfig"] then (false, true, Some ACT_RELOAD_DAEMON)
        else if one_of method ["Cancel"] then (false, true, Some ACT_CANCEL)
        else if one_of method ["RegisterClient"; "UnregisterClient"]
        then (session_active, false, Some ACT_CLIENT_MANAGEMENT)
        else (false, true, None) in
      let denied := NotAuthorized ("rpmostreed Sysroot operation " +:+ method +:+ " not allowed for user") in
      match authorized : bool, action with
      | true, _ => Ok Authorized
      | false, None => Ok denied
      | false, Some action =>
          match authority with
          | Abort => Abort
          | Err e => Ok (NotAuthorized ("Failed to load polkit: " +:+ err_msg e))
          | Ok _ =>
              match check_authorization interactive action with
              | Abort => Abort
              | Err e => Ok (NotAuthorized ("Authorization error: " +:+ err_msg e))
              | Ok true => Ok Authorized
              | Ok false => Ok denied
              end
          end
      end
  end.
End auth.

(** [rpmostreed_sysroot_authorize_direct] and [authorize_method_for_uid0]; [uid] is the
    answer of the bus to GetConnectionUnixUser. *)
Definition authorize_method_for_uid0 (uid : outcome N) : outcome bool :=
  u ← uid; Ok (u =? 0)%N.
Definition rpmostreed_sysroot_authorize_direct (on_session_bus : bool) (uid : outcome N) : outcome bool :=
  if on_session_bus then Ok true else authorize_method_for_uid0 uid.

(** * Requests *)

Definition RPMOSTREE_TRANSACTION_CLEANUP_BASE : Z := Z.shiftl 1 0.
Definition RPMOSTREE_TRANSACTION_CLEANUP_PENDING_DEPLOY : Z := Z.shiftl 1 1.
Definition RPMOSTREE_TRANSACTION_CLEANUP_ROLLBACK_DEPLOY : Z := Z.shiftl 1 2.
Definition RPMOSTREE_TRANSACTION_CLEANUP_REPOMD : Z := Z.shiftl 1 3.
Definition RPMOSTREE_TRANSACTION_REFRESH_MD_FLAG_FORCE : Z := Z.shiftl 1 0.

(** The transaction a handler constructs, with the constructor's arguments. *)
Inductive txn_kind :=
  | PackageDiff (refspec revision : option string)
  | Rollback (reboot : bool)
  | DeployTxn (default_flags : Z) (options modifiers : vardict) (fd_list : option (list Z))
  | RefreshMd (flags : Z)
  | ModifyYumRepo (repo_id : string) (settings : list (string * string))
  | FinalizeDeployment (options : vardict)
  | InitramfsEtc (track untrack : list string) (untrack_all force_sync : bool) (options : vardict)
  | InitramfsState (regenerate : bool) (args : list string) (options : vardict)
  | Cleanup (flags : Z)
  | KernelArg (existing : string) (added replaced deleted : list string) (options : vardict).

(** When [on_auto_update_done] is connected to the "closed" signal: never, when the
    handler created the transaction, or also when it joined one. *)
Inductive refresh := RefreshNever | RefreshIfNew | RefreshAlways.

Record request := MkRequest { rq_title : string; rq_kind : txn_kind; rq_refresh : refresh }.

(** A handler replies at once, or asks for a transaction. An error in [WantTxn] is
    raised only after the attempt to join a running transaction and after loading the
    sysroot. *)
Inductive handler_result :=
  | HandlerError (e : gerror)
  | AutoUpdateDisabled
  | WantTxn (r : outcome request).

Definition vardict_of_string (key : string) (o : option string) : vardict :=
  match o with Some s => {[key := VString s]} | None => ∅ end.

(** [os_merge_or_start_deployment_txn]. *)
Definition os_merge_or_start_deployment_txn (method : string) (default_flags : Z)
    (options modifiers : vardict) (fd_list : option (list Z)) : handler_result :=
  WantTxn (Ok (MkRequest "new-deployment" (DeployTxn default_flags options modifiers fd_list)
    (if bool_decide (method = "AutomaticUpdateTrigger"%string) &&
        negb (Z.land default_flags (Z.lor RPMOSTREE_TRANSACTION_DEPLOY_FLAG_DOWNLOAD_ONLY
                RPMOSTREE_TRANSACTION_DEPLOY_FLAG_DOWNLOAD_METADATA_ONLY) =? 0)%Z
     then RefreshIfNew else RefreshNever))).

Definition os_handle_deploy (fd_list : option (list Z)) (arg_revision : option string)
    (arg_options : vardict) : handler_result :=
  os_merge_or_start_deployment_txn "Deploy" RPMOSTREE_TRANSACTION_DEPLOY_FLAG_ALLOW_DOWNGRADE
    arg_options (vardict_of_string "set-revision" arg_revision) fd_list.

Definition os_handle_upgrade (fd_list : option (list Z)) (arg_options : vardict) : handler_result :=
  os_merge_or_start_deployment_txn "Upgrade" 0 arg_options ∅ fd_list.

Definition os_handle_rebase (fd_list : option (list Z)) (arg_options : vardict)
    (arg_refspec : option string) : handler_result :=
  let opt_revision := vardict_lookup_string arg_options "revision" in
  os_merge_or_start_deployment_txn "Rebase" RPMOSTREE_TRANSACTION_DEPLOY_FLAG_ALLOW_DOWNGRADE
    arg_options
    (vardict_of_string "set-refspec" arg_refspec ∪ vardict_of_string "set-revision" opt_revision)
    fd_list.

Definition os_handle_pkg_change (arg_options : vardict) (arg_packages_added arg_packages_removed :
    list string) : handler_result :=
  os_merge_or_start_deployment_txn "PkgChange" RPMOSTREE_TRANSACTION_DEPLOY_FLAG_NO_PULL_BASE
    arg_options
    (<["install-packages" := VStrv arg_packages_added]>
      {["uninstall-packages" := VStrv arg_packages_removed]})
    None.

Definition os_handle_update_deployment (fd_list : option (list Z)) (arg_modifiers arg_options : vardict) :
    handler_result :=
  os_merge_or_start_deployment_txn "UpdateDeployment" 0 arg_options arg_modifiers fd_list.

(** ** Automatic updates *)

Inductive RpmostreedAutomaticUpdatePolicy :=
  | RPMOSTREED_AUTOMATIC_UPDATE_POLICY_NONE
  | RPMOSTREED_AUTOMATIC_UPDATE_POLICY_CHECK
  | RPMOSTREED_AUTOMATIC_UPDATE_POLICY_STAGE
  | RPMOSTREED_AUTOMATIC_UPDATE_POLICY_APPLY.

Definition rpmostree_auto_update_policy_to_str (policy : RpmostreedAutomaticUpdatePolicy) : string :=
  match policy with
  | RPMOSTREED_AUTOMATIC_UPDATE_POLICY_NONE => "none"
  | RPMOSTREED_AUTOMATIC_UPDATE_POLICY_CHECK => "check"
  | RPMOSTREED_AUTOMATIC_UPDATE_POLICY_STAGE => "stage"
  | RPMOSTREED_AUTOMATIC_UPDATE_POLICY_APPLY => "apply"
  end.

Definition rpmostree_str_to_auto_update_policy (str : string) :
    gerror + RpmostreedAutomaticUpdatePolicy :=
  if one_of str ["none"; "off"] then inr RPMOSTREED_AUTOMATIC_UPDATE_POLICY_NONE
  else if one_of str ["check"] then inr RPMOSTREED_AUTOMATIC_UPDATE_POLICY_CHECK
  else if one_of str ["stage"; "ex-stage"] then inr RPMOSTREED_AUTOMATIC_UPDATE_POLICY_STAGE
  else if one_of str ["apply"] then inr RPMOSTREED_AUTOMATIC_UPDATE_POLICY_APPLY
  else inl (GError G_IO_ERROR_FAILED ("Invalid value for AutomaticUpdatePolicy: '" +:+ str +:+ "'")).

(** [booted_osname]: the OS of the booted deployment; [daemon_policy]: the configured
    policy. The modifiers passed on are NULL, which [g_variant_dict_new] makes an empty
    dictionary. *)
Definition os_handle_automatic_update_trigger (osname : string) (booted_osname : option string)
    (daemon_policy : RpmostreedAutomaticUpdatePolicy) (arg_options : vardict) : handler_result :=
  if negb (bool_decide (booted_osname = Some osname))
  then HandlerError (GError G_IO_ERROR_FAILED
         ("Cannot trigger auto-update for offline OS '" +:+ osname +:+ "'"))
  else
    let mode := default "auto"%string (vardict_lookup_string arg_options "mode") in
    let policy :=
      if bool_decide (mode = "auto"%string) then inr daemon_policy
      else rpmostree_str_to_auto_update_policy mode in
    match policy with
    | inl e => HandlerError e
    | inr policy =>
        let dict :=
          match arg_options !! "output-to-self"%string with
          | None => <["output-to-self" := VBool true]> arg_options
          | Some _ => arg_options
          end in
        match policy with
        | RPMOSTREED_AUTOMATIC_UPDATE_POLICY_NONE => AutoUpdateDisabled
        | RPMOSTREED_AUTOMATIC_UPDATE_POLICY_CHECK =>
            os_merge_or_start_deployment_txn "AutomaticUpdateTrigger"
              RPMOSTREE_TRANSACTION_DEPLOY_FLAG_DOWNLOAD_METADATA_ONLY dict ∅ None
        | RPMOSTREED_AUTOMATIC_UPDATE_POLICY_STAGE =>
            os_merge_or_start_deployment_txn "AutomaticUpdateTrigger" 0 dict ∅ None
        | RPMOSTREED_AUTOMATIC_UPDATE_POLICY_APPLY =>
            os_merge_or_start_deployment_txn "AutomaticUpdateTrigger" 0
              (<["reboot" := VBool true]> dict) ∅ None
        end
    end.

(** ** The other transactions *)

Definition command_line_or (options : vardict) (dfault : string) : string :=
  default dfault (vardict_lookup_string options "initiating-command-line").

Definition os_handle_rollback (arg_options : vardict) : handler_result :=
  WantTxn (Ok (MkRequest "rollback" (Rollback (vardict_lookup_bool arg_options "reboot" false)) RefreshNever)).

Definition os_handle_refresh_md (arg_options : vardict) : handler_result :=
  let force := vardict_lookup_bool arg_options "force" false in
  WantTxn (Ok (MkRequest ("refresh-md" +:+ (if force then " (force)" else ""))
    (RefreshMd (if force then RPMOSTREE_TRANSACTION_REFRESH_MD_FLAG_FORCE else 0)) RefreshNever)).

Definition os_handle_modify_yum_repo (arg_repo_id : string) (arg_settings : list (string * string)) :
    handler_result :=
  WantTxn (Ok (MkRequest "modify-yum-repo" (ModifyYumRepo arg_repo_id arg_settings) RefreshNever)).

Definition os_handle_finalize_deployment (arg_options : vardict) : handler_result :=
  WantTxn (Ok (MkRequest (command_line_or arg_options "finalize-deployment")
    (FinalizeDeployment arg_options) RefreshNever)).

Definition os_handle_clear_rollback_target : handler_result :=
  WantTxn (Ok (MkRequest "clear-rollback" (Cleanup RPMOSTREE_TRANSACTION_CLEANUP_ROLLBACK_DEPLOY) RefreshNever)).

Definition os_handle_initramfs_etc (track untrack : list string) (untrack_all force_sync : bool)
    (options : vardict) : handler_result :=
  WantTxn (Ok (MkRequest (command_line_or options "initramfs-etc")
    (InitramfsEtc track untrack untrack_all force_sync options) RefreshNever)).

Definition os_handle_set_initramfs_state (regenerate : bool) (args : list string) (arg_options : vardict) :
    handler_result :=
  WantTxn (Ok (MkRequest (command_line_or arg_options "initramfs")
    (InitramfsState regenerate args arg_options) RefreshNever)).

Definition os_handle_kernel_args (existing : string) (added replaced deleted : list string)
    (arg_options : vardict) : handler_result :=
  WantTxn (Ok (MkRequest (command_line_or arg_options "kargs")
    (KernelArg existing added replaced deleted arg_options) RefreshNever)).

(** The loop over the cleanup types. *)
Fixpoint cleanup_flags (flags : Z) (args : list string) : outcome Z :=
  match args with
  | [] => Ok flags
  | v :: args =>
      if bool_decide (v = "base"%string)
      then cleanup_flags (Z.lor flags RPMOSTREE_TRANSACTION_CLEANUP_BASE) args
      else if bool_decide (v = "pending-deploy"%string)
      then cleanup_flags (Z.lor flags RPMOSTREE_TRANSACTION_CLEANUP_PENDING_DEPLOY) args
      else if bool_decide (v = "rollback-deploy"%string)
      then cleanup_flags (Z.lor flags RPMOSTREE_TRANSACTION_CLEANUP_ROLLBACK_DEPLOY) args
      else if bool_decide (v = "repomd"%string)
      then cleanup_flags (Z.lor flags RPMOSTREE_TRANSACTION_CLEANUP_REPOMD) args
      else g_set_error G_IO_ERROR_FAILED ("Invalid cleanup type: " +:+ v)
  end.

Definition os_handle_cleanup (args : list string) : handler_result :=
  WantTxn (flags ← cleanup_flags 0 args; Ok (MkRequest "cleanup" (Cleanup flags) RefreshNever)).

Definition os_handle_download_update_rpm_diff : handler_result :=
  WantTxn (Ok (MkRequest "package-diff" (PackageDiff None None) RefreshAlways)).
Definition os_handle_download_rebase_rpm_diff (arg_refspec : string) : handler_result :=
  WantTxn (Ok (MkRequest "package-diff" (PackageDiff (Some arg_refspec) None) RefreshNever)).
Definition os_handle_download_deploy_rpm_diff (arg_revision : string) : handler_result :=
  WantTxn (Ok (MkRequest "package-diff" (PackageDiff None (Some arg_revision)) RefreshNever)).

(** Running a handler on the daemon: the arguments are read after the sysroot was
    loaded, the transaction starts with the title of the request. *)
Definition run_handler (free_unlocks : bool) (inv : Invocation) (h : handler_result)
    (load : outcome unit) (env : InitEnv) (d : Daemon) : outcome Daemon :=
  match h with
  | HandlerError e => Ok (emit (RetError e) d)
  | AutoUpdateDisabled => Ok (emit RetAutoUpdateDisabled d)
  | WantTxn r =>
      os_merge_or_start_txn free_unlocks inv
        (match r with Ok r => rq_title r | _ => ""%string end)
        (_ ← load; _ ← r; Ok tt) env d
  end.

Lemma str_to_auto_update_policy_to_str policy :
  rpmostree_str_to_auto_update_policy (rpmostree_auto_update_policy_to_str policy) = inr policy.
Proof. by destruct policy. Qed.

(** * What an authorization means *)

Lemma check_actions_ok check b actions :
  check_actions check b actions = Ok true ↔
  (actions = [] ∧ b = true) ∨ (actions ≠ [] ∧ Forall (λ a, check true a = Ok true) actions).
Proof.
  revert b. induction actions as [|a actions IH]; intros b; simpl.
  { split; [intros [= ->]; by left|intros [[_ ->]|[? _]]; done]. }
  split.
  - intros (ok&Ha&H)%bind_ok. destruct ok; [|done]. right. split; [done|]. constructor; [done|].
    apply IH in H as [[-> _]|[_ H]]; [constructor|done].
  - intros [[? _]|[_ H]]; [done|]. inversion H as [|?? Ha Hrest]; subst. rewrite Ha. simpl.
    apply IH. destruct actions; [by left|by right].
Qed.

Lemma auth_reply_authorized method r : auth_reply method r = Ok Authorized ↔ r = Ok true.
Proof. destruct r as [[]| |]; simpl; split; congruence. Qed.

Lemma os_authorize_method_polkit authority check method mods opts :
  os_authorize_method (Ok false) authority check method mods opts = Ok Authorized ↔
  authority = Ok tt ∧
  match os_method_actions method mods opts with
  | None => True
  | Some actions => actions ≠ [] ∧ Forall (λ a, check true a = Ok true) actions
  end.
Proof.
  unfold os_authorize_method. destruct authority as [[]| |]; [|naive_solver..].
  destruct (os_method_actions method mods opts) as [actions|]; [|naive_solver].
  rewrite auth_reply_authorized, check_actions_ok. naive_solver.
Qed.

Lemma update_deployment_actions_nonempty mods opts : update_deployment_actions mods opts ≠ [].
Proof. unfold update_deployment_actions. cbv zeta. by case_match. Qed.

(** An action of the list before the fallback is in the list. *)
Lemma in_actions (a : string) (l d : list string) : a ∈ l → a ∈ match l with [] => d | _ => l end.
Proof. destruct l; [by intros ?%elem_of_nil|done]. Qed.

Ltac in_update_actions :=
  unfold update_deployment_actions; cbv zeta; apply in_actions; rewrite !elem_of_app.

Lemma update_actions_initramfs mods opts :
  vardict_lookup_bool opts "no-initramfs" false = true →
  ACT_BOOTCONFIG ∈ update_deployment_actions mods opts.
Proof. intros H. in_update_actions. left. rewrite H. apply list_elem_of_here. Qed.

Lemma update_actions_base mods opts (a : string) :
  (if nonnull (vardict_lookup_string mods "set-refspec") then a = ACT_REBASE
   else if nonnull (vardict_lookup_string mods "set-revision") then a = ACT_DEPLOY
   else vardict_lookup_bool opts "no-pull-base" false = false ∧ a = ACT_UPGRADE) →
  a ∈ update_deployment_actions mods opts.
Proof.
  intros H. in_update_actions. right; left.
  destruct (nonnull (vardict_lookup_string mods "set-refspec")); [subst; apply list_elem_of_here|].
  destruct (nonnull (vardict_lookup_string mods "set-revision")); [subst; apply list_elem_of_here|].
  destruct H as [-> ->]. apply list_elem_of_here.
Qed.

Lemma update_actions_layering mods opts (key : string) l :
  key ∈ ["install-packages"; "uninstall-packages"; "enable-modules"; "disable-modules";
         "install-modules"; "uninstall-modules"]%string →
  vardict_lookup_strv mods key = Some l →
  ACT_INSTALL_UNINSTALL ∈ update_deployment_actions mods opts.
Proof.
  intros Hk Hl. in_update_actions. right; right; left.
  rewrite !elem_of_cons, elem_of_nil in Hk.
  destruct_or! Hk; subst; rewrite Hl; cbn [nonnull]; rewrite ?orb_true_r; first [apply list_elem_of_here|done].
Qed.

Lemma update_actions_no_layering mods opts :
  vardict_lookup_bool opts "no-layering" false = true →
  ACT_INSTALL_UNINSTALL ∈ update_deployment_actions mods opts.
Proof.
  intros H. in_update_actions. right; right; left. rewrite H, orb_true_r. apply list_elem_of_here.
Qed.

Lemma update_actions_local mods opts :
  0 < n_children (vardict_lookup_handles mods "install-local-packages") →
  ACT_INSTALL_LOCAL ∈ update_deployment_actions mods opts.
Proof.
  intros H%Nat.ltb_lt. in_update_actions. do 3 right; left. rewrite H. apply list_elem_of_here.
Qed.

Lemma update_actions_override mods opts (key : string) l :
  key ∈ ["override-remove-packages"; "override-reset-packages"]%string →
  vardict_lookup_strv mods key = Some l →
  ACT_OVERRIDE ∈ update_deployment_actions mods opts.
Proof.
  intros Hk Hl. in_update_actions. do 4 right.
  rewrite !elem_of_cons, elem_of_nil in Hk.
  destruct_or! Hk; subst; rewrite Hl; cbn [nonnull]; rewrite ?orb_true_r; first [apply list_elem_of_here|done].
Qed.

Lemma update_actions_override_local mods opts :
  0 < n_children (vardict_lookup_handles mods "override-replace-local-packages") →
  ACT_OVERRIDE ∈ update_deployment_actions mods opts.
Proof.
  intros H%Nat.ltb_lt. in_update_actions. do 4 right. rewrite H, !orb_true_r. apply list_elem_of_here.
Qed.

Lemma update_actions_no_overrides mods opts :
  vardict_lookup_bool opts "no-overrides" false = true →
  ACT_OVERRIDE ∈ update_deployment_actions mods opts.
Proof. intros H. in_update_actions. do 4 right. rewrite H, !orb_true_r. apply list_elem_of_here. Qed.

(** The actions a plan amounts to. *)
Definition plan_needs (p : deploy_plan) (a : string) : Prop :=
  (a = ACT_REBASE ∧ dp_refspec p ≠ None) ∨
  (a = ACT_DEPLOY ∧ dp_refspec p = None ∧ dp_revision p ≠ None) ∨
  (a = ACT_UPGRADE ∧ is_upgrade p = true) ∨
  (a = ACT_INSTALL_UNINSTALL ∧
     (dp_install_pkgs p ≠ None ∨ dp_uninstall_pkgs p ≠ None ∨ dp_enable_modules p ≠ None
      ∨ dp_disable_modules p ≠ None ∨ dp_install_modules p ≠ None ∨ dp_uninstall_modules p ≠ None
      ∨ dp_no_layering p = true)) ∨
  (a = ACT_INSTALL_LOCAL ∧ 0 < n_children (dp_install_local_pkgs p)) ∨
  (a = ACT_OVERRIDE ∧
     (dp_override_remove_pkgs p ≠ None ∨ dp_override_reset_pkgs p ≠ None
      ∨ 0 < n_children (dp_override_replace_local_pkgs p) ∨ dp_no_overrides p = true)) ∨
  (a = ACT_BOOTCONFIG ∧ dp_no_initramfs p = true).

(** The parts no action is asked for. *)
Definition plan_unasked (p : deploy_plan) : Prop :=
  dp_treefile p ≠ None ∨ dp_cliwrap p ≠ None ∨ 0 < n_children (dp_install_fileoverride_local_pkgs p).

(** A plan that keeps base, packages, overrides and configuration. *)
Definition plan_empty (p : deploy_plan) : Prop :=
  dp_refspec p = None ∧ dp_revision p = None ∧ no_pull_base p = true ∧
  dp_local_repo_remote_dfd p = (-1)%Z ∧
  dp_install_pkgs p = None ∧ dp_uninstall_pkgs p = None ∧ dp_enable_modules p = None ∧
  dp_disable_modules p = None ∧ dp_install_modules p = None ∧ dp_uninstall_modules p = None ∧
  dp_override_remove_pkgs p = None ∧ dp_override_reset_pkgs p = None ∧
  n_children (dp_install_local_pkgs p) = 0 ∧ n_children (dp_install_fileoverride_local_pkgs p) = 0 ∧
  n_children (dp_override_replace_local_pkgs p) = 0 ∧
  dp_no_overrides p = false ∧ dp_no_layering p = false ∧ dp_no_initramfs p = false ∧
  dp_cliwrap p = None ∧ dp_treefile p = None.

Lemma plan_parts p : (dp_local_repo_remote_dfd p ≠ (-1)%Z → dp_refspec p ≠ None) →
  (∀ a, ¬ plan_needs p a) → ¬ plan_unasked p → plan_empty p.
Proof.
  intros Hrepo Hn Hu.
  assert (∀ {A} (o : option A), ¬ (o ≠ None) → o = None) as Hnone by (intros ? []; naive_solver).
  assert (∀ b, b ≠ true → b = false) as Hfalse by (by intros []).
  assert (dp_refspec p = None) as Er by (apply Hnone; intros ?; apply (Hn ACT_REBASE); by left).
  assert (dp_revision p = None) as Ev by (apply Hnone; intros ?; apply (Hn ACT_DEPLOY); right; by left).
  pose proof (Hn ACT_UPGRADE) as H3. pose proof (Hn ACT_INSTALL_UNINSTALL) as H4.
  pose proof (Hn ACT_INSTALL_LOCAL) as H5. pose proof (Hn ACT_OVERRIDE) as H6. pose proof (Hn ACT_BOOTCONFIG) as H7.
  unfold plan_needs in H3, H4, H5, H6, H7. unfold plan_unasked in Hu. unfold plan_empty.
  split_and!; try done; try (apply Hnone; tauto); try (apply Hfalse; tauto).
  - destruct (no_pull_base p) eqn:E; [done|]. exfalso. apply H3. do 2 right; left. split; [done|].
    unfold is_upgrade. by rewrite E, Er, Ev.
  - destruct (decide (dp_local_repo_remote_dfd p = -1)%Z); [done|]. by destruct Hrepo.
  - destruct (n_children (dp_install_local_pkgs p)); [done|]. exfalso. apply H5. do 4 right; left. split; [done|lia].
  - destruct (n_children (dp_install_fileoverride_local_pkgs p)); [done|]. exfalso. apply Hu. do 2 right. lia.
  - destruct (n_children (dp_override_replace_local_pkgs p)); [done|]. exfalso. apply H6. do 5 right; left.
    split; [done|]. do 2 right; left. lia.
Qed.

Lemma canonical_nonnull mods key :
  vardict_lookup_strv_canonical mods key ≠ None → ∃ l, vardict_lookup_strv mods key = Some l.
Proof.
  destruct (vardict_lookup_strv_canonical mods key) as [l|] eqn:E; [|done].
  apply strv_canonical_lookup in E as [? _]. eauto.
Qed.

Lemma handles_positive (o h : option (list Z)) :
  (∀ l, o = Some l → n_children h = length l) → 0 < n_children o → 0 < n_children h.
Proof. destruct o as [l|]; [|intros _ H; by apply Nat.nlt_0_r in H]. intros H. by rewrite (H l). Qed.

Lemma plan_needs_base opts mods p a :
  plan_from opts mods 0 p →
  (a = ACT_REBASE ∧ dp_refspec p ≠ None) ∨
  (a = ACT_DEPLOY ∧ dp_refspec p = None ∧ dp_revision p ≠ None) ∨
  (a = ACT_UPGRADE ∧ is_upgrade p = true) →
  a ∈ update_deployment_actions mods opts.
Proof.
  intros Hp Ha. apply update_actions_base.
  rewrite <-(pf_refspec _ _ _ _ Hp), <-(pf_revision _ _ _ _ Hp).
  unfold is_upgrade in Ha. rewrite (pf_no_pull_base _ _ _ _ Hp) in Ha.
  change (Z.testbit 0 4) with false in Ha. fold (vardict_lookup_bool opts "no-pull-base" false) in Ha.
  destruct (dp_refspec p), (dp_revision p), (vardict_lookup_bool opts "no-pull-base" false); naive_solver.
Qed.

Lemma plan_needs_actions opts mods p a :
  plan_from opts mods 0 p → plan_needs p a → a ∈ update_deployment_actions mods opts.
Proof.
  intros Hp [Ha|[Ha|[Ha|[[-> Ha]|[[-> Ha]|[[-> Ha]|[-> Ha]]]]]]];
    try (apply (plan_needs_base _ _ p); [done|tauto]).
  - destruct (pf_layering _ _ _ _ Hp) as (E1&E2&E3&E4&E5&E6).
    destruct (pf_switches _ _ _ _ Hp) as (_&E7&_).
    rewrite E1, E2, E3, E4, E5, E6, E7 in Ha.
    destruct_or! Ha; try (by apply update_actions_no_layering);
      apply canonical_nonnull in Ha as [l Hl];
      (eapply update_actions_layering; [|exact Hl]); set_solver.
  - apply update_actions_local. by apply (handles_positive (dp_install_local_pkgs p));
      [apply (pf_install_local _ _ _ _ Hp)|].
  - destruct (pf_overrides _ _ _ _ Hp) as (E1&E2). destruct (pf_switches _ _ _ _ Hp) as (E3&_).
    rewrite E1, E2, E3 in Ha. destruct Ha as [Ha|[Ha|[Ha|Ha]]].
    + apply canonical_nonnull in Ha as [l Hl]. eapply update_actions_override; [|exact Hl]; set_solver.
    + apply canonical_nonnull in Ha as [l Hl]. eapply update_actions_override; [|exact Hl]; set_solver.
    + apply update_actions_override_local. by apply (handles_positive (dp_override_replace_local_pkgs p));
        [apply (pf_override_local _ _ _ _ Hp)|].
    + by apply update_actions_no_overrides.
  - destruct (pf_switches _ _ _ _ Hp) as (_&_&E). apply update_actions_initramfs. by rewrite <-E.
Qed.

(** * Claims *)

(** A caller that is neither root nor on the session bus may call an OS method
    exactly when polkit is reachable and the method is an open query, or every action
    of the method was approved and there is at least one; so an unknown method is
    refused, and a refusal of any single action refuses the call. *)
Theorem os_authorize_method_spec authority check method mods opts :
  os_authorize_method (Ok false) authority check method mods opts = Ok Authorized ↔
  authority = Ok tt ∧
  (method ∈ ["GetDeploymentBootConfig"; "ListRepos"; "WhatProvides"; "GetPackages"; "Search"]%string ∨
   ∃ actions, os_method_actions method mods opts = Some actions ∧ actions ≠ [] ∧
     Forall (λ a, check true a = Ok true) actions).
Proof.
  rewrite os_authorize_method_polkit.
  assert (os_method_actions method mods opts = None ↔
    method ∈ ["GetDeploymentBootConfig"; "ListRepos"; "WhatProvides"; "GetPackages"; "Search"]%string)
    as Hopen.
  { split.
    - unfold os_method_actions, one_of. repeat (case_bool_decide; [done|]). done.
    - rewrite !elem_of_cons, elem_of_nil. intros Hm. destruct_or! Hm; subst; done. }
  destruct (os_method_actions method mods opts) as [actions|]; naive_solver.
Qed.


Definition ex_auth_mods : vardict :=
  <["set-refspec" := VString "fedora:rawhide"]> {["install-packages" := VStrv ["vim"]]}.
Definition ex_auth_check (_ : bool) (a : string) : outcome bool :=
  Ok (one_of a [ACT_REBASE; ACT_INSTALL_UNINSTALL]).


(** Only the "override" action is approved. *)
Definition override_only (_ : bool) (a : string) : outcome bool := Ok (bool_decide (a = ACT_OVERRIDE)).

(** Installing a local package as a file override needs no approval of
    "install-local-packages": the authorization looks for the handles under
    "install-local-fileoverride-packages", the transaction under
    "install-fileoverride-local-packages". A caller approved for "override" only gets
    a plan with the package, while the same handles under "install-local-packages"
    are refused. *)
Lemma fileoverride_local_not_authorized osname sd_unit write fd :
  let opts : vardict := {["no-pull-base" := VBool true]} in
  let mods : vardict := {["install-fileoverride-local-packages" := VHandles [0%Z]]} in
  os_authorize_method (Ok false) (Ok tt) override_only "UpdateDeployment" mods opts = Ok Authorized ∧
  (∃ p, deploy_transaction_prepare sd_unit write
      (rpmostreed_transaction_new_deploy osname 0 opts mods (Some [fd])) = Ok (Prepared p) ∧
    dp_install_fileoverride_local_pkgs p = Some [fd]) ∧
  os_authorize_method (Ok false) (Ok tt) override_only "UpdateDeployment"
    {["install-local-packages" := VHandles [0%Z]]} opts =
  Ok (NotAuthorized "rpmostreed OS operation UpdateDeployment not allowed for user").
Proof.
  cbv zeta. split; [by vm_compute|]. split; [|by vm_compute].
  eexists. split; [vm_compute; reflexivity|done].
Qed.

(** Keys the authorization does not look at. *)
Lemma update_actions_insert mods opts (key : string) v :
  key ∉ ["set-refspec"; "set-revision"; "install-packages"; "uninstall-packages"; "enable-modules";
         "disable-modules"; "install-modules"; "uninstall-modules"; "install-local-packages";
         "install-local-fileoverride-packages"; "override-replace-packages"; "override-remove-packages";
         "override-reset-packages"; "override-replace-local-packages"]%string →
  update_deployment_actions (<[key := v]> mods) opts = update_deployment_actions mods opts.
Proof.
  rewrite !not_elem_of_cons. intros Hk. destruct_and! Hk.
  unfold update_deployment_actions, vardict_lookup_string, vardict_lookup_strv, vardict_lookup_handles. cbv zeta.
  by rewrite !lookup_insert_ne by done.
Qed.
Lemma update_actions_insert_option mods opts (key : string) v :
  key ∉ ["no-pull-base"; "no-overrides"; "no-layering"; "no-initramfs"]%string →
  update_deployment_actions mods (<[key := v]> opts) = update_deployment_actions mods opts.
Proof.
  rewrite !not_elem_of_cons. intros Hk. destruct_and! Hk.
  unfold update_deployment_actions, vardict_lookup_bool, vardict_lookup_boolean. cbv zeta.
  by rewrite !lookup_insert_ne by done.
Qed.

(** C39: the authorization does not see a treefile, "ex-cliwrap" or local file overrides: adding
    them to any UpdateDeployment call leaves the decision as it is, for every caller and every
    answer of polkit, while a transaction that is prepared from the call has all three in its
    plan. So what a treefile asks for (packages, overrides) is deployed with no more than the
    approval of the call without it. *)
Theorem unasked_parts_planned direct authority check mods opts treefile cliwrap handles osname sd_unit write dflags fds :
  let mods' : vardict := <["treefile" := VString treefile]>
    (<["install-fileoverride-local-packages" := VHandles handles]> mods) in
  let opts' : vardict := <["ex-cliwrap" := VBool cliwrap]> opts in
  os_authorize_method direct authority check "UpdateDeployment" mods' opts' =
  os_authorize_method direct authority check "UpdateDeployment" mods opts ∧
  ∀ p, deploy_transaction_prepare sd_unit write
      (rpmostreed_transaction_new_deploy osname dflags opts' mods' fds) = Ok (Prepared p) →
    dp_treefile p = Some treefile ∧ dp_cliwrap p = Some cliwrap ∧
    n_children (dp_install_fileoverride_local_pkgs p) = length handles.
Proof.
  cbv zeta. split.
  - unfold os_authorize_method. change (os_method_actions "UpdateDeployment" ?m ?o) with (Some (update_deployment_actions m o)).
    by rewrite update_actions_insert_option, !update_actions_insert by (apply (bool_decide_unpack _); by vm_compute).
  - intros p Hp%prepare_plan_from. destruct (pf_unasked _ _ _ _ Hp) as [-> ->]. rewrite (pf_fileoverride _ _ _ _ Hp).
    unfold vardict_lookup_boolean, vardict_lookup_string, vardict_lookup_handles.
    rewrite (lookup_insert_ne _ "treefile"%string "install-fileoverride-local-packages"%string), !lookup_insert_eq by done.
    done.
Qed.

Lemma unasked_parts_planned_witness :
  os_authorize_method (Ok false) (Ok tt) ex_auth_check "UpdateDeployment"
    (<["treefile" := VString "packages: [sl]"]>
       (<["install-fileoverride-local-packages" := VHandles [0%Z]]> ex_auth_mods)) (<["ex-cliwrap" := VBool true]> ∅)
  = Ok Authorized ∧
  ∃ p, deploy_transaction_prepare None (Ok tt) (rpmostreed_transaction_new_deploy "fedora" 0 (<["ex-cliwrap" := VBool true]> ∅)
      (<["treefile" := VString "packages: [sl]"]>
         (<["install-fileoverride-local-packages" := VHandles [0%Z]]> ex_auth_mods)) (Some [7%Z])) = Ok (Prepared p) ∧
    dp_treefile p = Some "packages: [sl]"%string.
Proof.
  destruct (unasked_parts_planned (Ok false) (Ok tt) ex_auth_check ex_auth_mods ∅ "packages: [sl]" true [0%Z]
    "fedora" None (Ok tt) 0 (Some [7%Z])) as [-> H].
  split; [by vm_compute|]. eexists. split; [vm_compute; reflexivity|].
  refine (proj1 (H _ _)). vm_compute. reflexivity.
Defined.

(** An automatic update in mode "check" becomes a transaction that only downloads
    metadata, and runs to a plan on the client's default options; with the option
    "download-only" the transaction fails an assertion, which aborts the daemon. *)
Theorem automatic_check_download_only osname policy sd_unit write :
  let run opts :=
    match os_handle_automatic_update_trigger osname (Some osname) policy opts with
    | WantTxn (Ok (MkRequest _ (DeployTxn flags opts mods fds) _)) =>
        deploy_transaction_prepare sd_unit write
          (rpmostreed_transaction_new_deploy osname flags opts mods fds)
    | _ => glnx_throw ""
    end in
  (∃ p, run {["mode" := VString "check"]} = Ok (Prepared p) ∧
     flag_set (dp_flags p) RPMOSTREE_TRANSACTION_DEPLOY_FLAG_DOWNLOAD_METADATA_ONLY = true ∧
     is_upgrade p = true) ∧
  run (<["download-only" := VBool true]> {["mode" := VString "check"]}) = Abort.
Proof.
  cbv zeta. unfold os_handle_automatic_update_trigger. rewrite bool_decide_eq_true_2 by done.
  split; [|by vm_compute]. eexists. split; [vm_compute; reflexivity|done].
Qed.
