(* ===== verification/SysrootCore.v ===== *)
(** Deployments and refs of a sysroot, from [src/daemon/rpmostree-sysroot-core.cxx],
    the rollback and cleanup transactions of
    [src/daemon/rpmostreed-transaction-types.cxx], and the Rust functions they call
    in [rust/src/daemon.rs]. libostree, librpm and the file system are parameters. *)

From S2P Require Import Prelude Vardict Nevra Deploy Os.

(** A deployment object; [d_ptr] is the object's address. *)
Record Deployment := MkDeployment {
  d_ptr : nat;
  d_osname : string;
  d_csum : string;
  d_deployserial : Z;
  d_pinned : bool;
  d_staged : bool;
}.

(** * Choosing deployments *)

Section deployments.
(** [ostree_deployment_equal]. *)
Context (deployment_equal : Deployment → Deployment → bool).

Definition is_booted (booted : option Deployment) (d : Deployment) : bool :=
  match booted with Some b => deployment_equal d b | None => false end.

(** Deployments of other OSes and pinned ones are always retained. *)
Definition retained (osname : string) (d : Deployment) : bool :=
  negb (bool_decide (d_osname d = osname)) || d_pinned d.

Fixpoint filter_loop (booted : option Deployment) (osname : string)
    (cleanup_pending cleanup_rollback found_booted : bool) (deployments : list Deployment) :
    list Deployment :=
  match deployments with
  | [] => []
  | d :: ds =>
      let continue found := filter_loop booted osname cleanup_pending cleanup_rollback found ds in
      if is_booted booted d then d :: continue true
      else if retained osname d then d :: continue found_booted
      else if negb found_booted && cleanup_pending then continue found_booted
      else if found_booted && cleanup_rollback then continue found_booted
      else d :: continue found_booted
  end.

(** [None] is NULL: the deployments are unchanged. *)
Definition rpmostree_syscore_filter_deployments (deployments : list Deployment)
    (booted : option Deployment) (osname : string) (cleanup_pending cleanup_rollback : bool) :
    option (list Deployment) :=
  let new_deployments := filter_loop booted osname cleanup_pending cleanup_rollback false deployments in
  if decide (length new_deployments = length deployments) then None else Some new_deployments.

Definition rpmostree_syscore_get_origin_merge_deployment (deployments : list Deployment)
    (osname : string) : option Deployment :=
  find (λ d, bool_decide (d_osname d = osname)) deployments.

(** ** The rollback transaction *)

(** What a transaction does to the system, in order. *)
Inductive effect :=
  | WriteDeployments (l : list Deployment)
  | SyscoreCleanup
  | RemoveRepomd
  | Reboot.

(** An inhibitor as logind lists it: what, who, why and mode. *)
Record Inhibitor := MkInhibitor { ih_what : string; ih_who : string; ih_why : string; ih_mode : string }.

(** The operations of libostree and systemd; an [Err] is their error. *)
Record SysrootOps := MkSysrootOps {
  so_write : list Deployment → outcome unit;
  so_cleanup : outcome unit;
  so_remove_repomd : outcome unit;
  so_inhibitors : outcome (option (list Inhibitor));
}.

(** The effects completed before the end or the error. *)
Definition trace : Type := list effect * outcome unit.
Definition finished : trace := ([], Ok tt).
Definition fail_with (m : outcome unit) : trace := ([], m).
Definition act (e : effect) (m : outcome unit) (k : trace) : trace :=
  match m with
  | Ok _ => (e :: k.1, k.2)
  | m => ([], m)
  end.

Definition blocks_shutdown (i : Inhibitor) : bool :=
  strstr (ih_what i) "shutdown" && bool_decide (ih_mode i = "block"%string).

(** [reply]: the answer of ListInhibitors, [None] for an empty tuple. The message is
    built for the first blocking inhibitor, the others are counted. *)
Definition check_sd_inhibitor_locks (reply : outcome (option (list Inhibitor))) : outcome unit :=
  inhibitors ← prefix_error "Checking systemd inhibitor locks" reply;
  match inhibitors with
  | None => glnx_throw "ListInhibitors returned empty tuple"
  | Some l =>
      match filter (λ i, blocks_shutdown i) l with
      | [] => Ok tt
      | i :: others =>
          glnx_throw ("Reboot blocked by a systemd inhibitor lock in `block` mode" +:+ nl +:+
            "Held by: " +:+ ih_who i +:+ nl +:+ "Reason: " +:+ ih_why i +:+
            match others with
            | [] => ""
            | _ => nl +:+ "and " +:+ pretty (length others) +:+ " other blocking inhibitor lock(s)"
                   +:+ nl +:+ "Use `systemd-inhibit --list` to see details"
            end)
      end
  end.

(** The deployment to put first. [pending] and [rollback] are those of
    [ostree_sysroot_query_deployments_for]; without a booted deployment the missing
    rollback deployment is dereferenced as NULL. *)
Definition rollback_target (booted pending rollback : option Deployment) : outcome Deployment :=
  match pending, rollback with
  | None, None => glnx_throw "No rollback deployment found"
  | _, _ =>
      if match pending with Some p => d_staged p | None => false end
      then glnx_throw "Staged deployment (remove with cleanup -p)"
      else
        match rollback, booted with
        | Some r, _ => Ok r
        | None, Some b => Ok b
        | None, None => Abort
        end
  end.

Definition rollback_transaction_execute (ops : SysrootOps) (reboot : bool)
    (deployments : list Deployment) (booted pending rollback : option Deployment) : trace :=
  match rollback_target booted pending rollback with
  | Err e => fail_with (Err e)
  | Abort => fail_with Abort
  | Ok r =>
      let new_deployments := r :: filter (λ d, negb (deployment_equal d r)) deployments in
      let finish :=
        if reboot then
          match check_sd_inhibitor_locks (so_inhibitors ops) with
          | Ok _ => ([Reboot], Ok tt)
          | m => fail_with m
          end
        else finished in
      match deployments with
      | [] => fail_with Abort
      | d0 :: _ =>
          if decide (d_ptr d0 = d_ptr r) then finish
          else act (WriteDeployments new_deployments) (so_write ops new_deployments) finish
      end
  end.

(** ** The cleanup transaction *)

Definition cleanup_transaction_execute (ops : SysrootOps) (flags : Z) (osname : string)
    (deployments : list Deployment) (booted : option Deployment) : trace :=
  let cleanup_pending := flag_set flags RPMOSTREE_TRANSACTION_CLEANUP_PENDING_DEPLOY in
  let cleanup_rollback := flag_set flags RPMOSTREE_TRANSACTION_CLEANUP_ROLLBACK_DEPLOY in
  let repomd (flags : Z) :=
    if flag_set flags RPMOSTREE_TRANSACTION_CLEANUP_REPOMD
    then act RemoveRepomd (so_remove_repomd ops) finished else finished in
  let base (flags : Z) :=
    if flag_set flags RPMOSTREE_TRANSACTION_CLEANUP_BASE
    then act SyscoreCleanup (so_cleanup ops) (repomd flags) else repomd flags in
  if cleanup_pending || cleanup_rollback then
    match rpmostree_syscore_filter_deployments deployments booted osname
            cleanup_pending cleanup_rollback with
    | Some new_deployments =>
        act (WriteDeployments new_deployments) (so_write ops new_deployments)
          (base (Z.lor flags RPMOSTREE_TRANSACTION_CLEANUP_BASE))
    | None => base flags
    end
  else base flags.
End deployments.

(** * Layering metadata *)

Record Commit := MkCommit { cm_metadata : vardict; cm_parent : option string }.

Record DeploymentLayeredMeta := MkLayeredMeta {
  is_layered : bool;
  base_commit : string;
  clientlayer_version : N;
}.

(** The refs of a repository and those set in its open transaction; [None] deletes. *)
Abbreviation repo_refs := (gmap string string).
Abbreviation ref_txn := (gmap string (option string)).

Section regenerate.
(** [ostree_repo_load_commit], and glib's message for a value of another type. *)
Context (load_commit : string → outcome Commit) (type_mismatch : string).

(** A layered commit without parent panics. *)
Definition deployment_layeredmeta_from_commit_impl (csum : string) (commit : Commit) :
    outcome DeploymentLayeredMeta :=
  let dict := cm_metadata commit in
  layered ←
    match dict !! "rpmostree.clientlayer"%string with
    | None => Ok (nonnull (dict !! "rpmostree.spec"%string))
    | Some (VBool b) => Ok b
    | Some _ => glnx_throw type_mismatch
    end;
  if layered : bool then
    match cm_parent commit with
    | None => Abort
    | Some parent =>
        Ok (MkLayeredMeta true parent
          (match dict !! "rpmostree.clientlayer_version"%string with Some (VUint32 n) => n | _ => 0%N end))
    end
  else Ok (MkLayeredMeta false csum 0).

Definition deployment_layeredmeta_load_commit (d : Deployment) : outcome DeploymentLayeredMeta :=
  commit ← load_commit (d_csum d);
  deployment_layeredmeta_from_commit_impl (d_csum d) commit.

(** NULL when the deployment is not layered (or the parent is an empty string). *)
Definition rpmostree_deployment_get_base_layer (d : Deployment) : outcome (option string) :=
  prefix_error "Getting layered info" (
    meta ← deployment_layeredmeta_load_commit d;
    Ok (if is_layered meta && negb (bool_decide (base_commit meta = ""%string))
        then Some (base_commit meta) else None)).

(** * Regenerating refs *)

(** [ostree_repo_commit_transaction], on refs. *)
Definition commit_refs (txn : ref_txn) (r : repo_refs) : repo_refs :=
  merge (λ t old, match t with Some v => v | None => old end) txn r.

Definition base_ref (index : nat) : string := "rpmostree/base/" +:+ pretty index.

(** The bases of the layered deployments, in order; the first error ends the iteration. *)
Fixpoint layered_bases (deployments : list Deployment) : outcome (list string) :=
  match deployments with
  | [] => Ok []
  | d :: ds =>
      meta ← deployment_layeredmeta_load_commit d;
      rest ← layered_bases ds;
      Ok (if is_layered meta then base_commit meta :: rest else rest)
  end.

Fixpoint set_base_refs (index : nat) (bases : list string) (txn : ref_txn) : ref_txn :=
  match bases with
  | [] => txn
  | rev :: bases => set_base_refs (S index) bases (<[base_ref index := Some rev]> txn)
  end.

Definition delete_refs (l : list string) (txn : ref_txn) : ref_txn :=
  foldl (λ txn r, <[r := None]> txn) txn l.

(** [base_refs] lists the refs under "rpmostree/base". *)
Definition generate_baselayer_refs (base_refs : outcome (list string)) (deployments : list Deployment)
    (txn : ref_txn) : outcome ref_txn :=
  prefix_error "Generating baselayer refs" (
    listed ← base_refs;
    bases ← layered_bases deployments;
    Ok (set_base_refs 0 bases (delete_refs listed txn))).

(** ** The package cache *)

(** Name, EVR and architecture of a package in an rpmdb. *)
Record DnfPackage := MkDnfPackage { dp_name : string; dp_evr : string; dp_arch : string }.

Context (char_signed : bool) (hy_split_nevra : string → option split_nevra)
  (validate_checksum : string → outcome unit)
  (** [rpmostree_get_refsack_for_root] and the query of the system repository *)
  (system_packages : Deployment → outcome (list DnfPackage))
  (** the origin of a deployment, reduced to its local replacements *)
  (origin_local_replace : Deployment → outcome (list string)).

Definition rpmostree_get_cache_branch_pkg (pkg : DnfPackage) : string :=
  rpmostree_get_cache_branch_for_n_evr_a char_signed (dp_name pkg) (dp_evr pkg) (dp_arch pkg).

Definition add_package_refs_to_set (pkglist : list DnfPackage) (referenced : gset string) :
    outcome (gset string) :=
  match pkglist with
  | [] => glnx_throw "Failed to find any packages in root"
  | _ => Ok (foldl (λ s pkg, {[rpmostree_get_cache_branch_pkg pkg]} ∪ s) referenced pkglist)
  end.

Fixpoint add_local_replacements (nevras : list string) (referenced : gset string) :
    outcome (gset string) :=
  match nevras with
  | [] => Ok referenced
  | nevra_v :: nevras =>
      '(nevra, _) ← rpmostree_decompose_sha256_nevra validate_checksum nevra_v;
      cachebranch ← nevra_to_cache_branch hy_split_nevra char_signed nevra;
      add_local_replacements nevras ({[cachebranch]} ∪ referenced)
  end.

Fixpoint referenced_pkgs_loop (i : nat) (deployments : list Deployment) (referenced : gset string) :
    outcome (gset string) :=
  match deployments with
  | [] => Ok referenced
  | d :: ds =>
      base_commit ← rpmostree_deployment_get_base_layer d;
      local_replace ← origin_local_replace d;
      referenced ←
        match base_commit with
        | None => Ok referenced
        | Some _ =>
            pkglist ← system_packages d;
            prefix_error ("Deployment index=" +:+ pretty i)
              (add_package_refs_to_set pkglist referenced)
        end;
      referenced ← add_local_replacements local_replace referenced;
      referenced_pkgs_loop (S i) ds referenced
  end.

(** [pkg_refs] lists the refs under "rpmostree/pkg". *)
Definition generate_pkgcache_refs (pkg_refs : outcome (list string)) (deployments : list Deployment)
    (txn : ref_txn) : outcome (nat * ref_txn) :=
  prefix_error "pkgcache cleanup" (
    referenced ← referenced_pkgs_loop 0 deployments ∅;
    listed ← pkg_refs;
    let unreferenced := filter (λ r, r ∉ referenced) listed in
    Ok (length unreferenced, delete_refs unreferenced txn)).

Definition RPMOSTREE_TMP_BASE_REF : string := "rpmostree/base/tmp".

(** The repository's refs change only when the transaction commits. *)
Definition syscore_regenerate_refs (start : outcome unit) (base_refs pkg_refs : outcome (list string))
    (commit : outcome unit) (deployments : list Deployment) (r : repo_refs) : outcome (nat * repo_refs) :=
  prefix_error "regenerating refs" (
    _ ← start;
    txn ← generate_baselayer_refs base_refs deployments ∅;
    '(n_freed, txn) ← generate_pkgcache_refs pkg_refs deployments txn;
    let txn := <[RPMOSTREE_TMP_BASE_REF := None]> txn in
    _ ← commit;
    Ok (n_freed, commit_refs txn r)).
End regenerate.

(** * Cleaning up and writing *)

(** The operations of [rpmostree_syscore_cleanup], in the order of the code. *)
Inductive cleanup_step :=
  | PrepareCleanup
  | RemoveTmpRootfs
  | HistoryPrune
  | RegenerateRefs
  | ApplyliveSyncRef
  | ContainerPrune
  | PruneRepo.

Definition cleanup_steps : list cleanup_step :=
  [PrepareCleanup; RemoveTmpRootfs; HistoryPrune; RegenerateRefs; ApplyliveSyncRef; ContainerPrune;
   PruneRepo].

(** The steps that completed, and the error of the one that failed. *)
Fixpoint run_cleanup (result : cleanup_step → outcome unit) (steps : list cleanup_step) :
    list cleanup_step * outcome unit :=
  match steps with
  | [] => ([], Ok tt)
  | s :: steps =>
      match result s with
      | Ok _ => let k := run_cleanup result steps in (s :: k.1, k.2)
      | m =>
          ([], match s with
               | RemoveTmpRootfs => prefix_error "cleaning tmp rootfs" m
               | PruneRepo => prefix_error "pruning" m
               | _ => m
               end)
      end
  end.

Definition rpmostree_syscore_cleanup (result : cleanup_step → outcome unit) :
    list cleanup_step * outcome unit :=
  let k := run_cleanup result cleanup_steps in (k.1, prefix_error "syscore cleanup" k.2).

(** The flags of [ostree_sysroot_simple_write_deployment]. *)
Inductive SimpleWriteFlag := NO_CLEAN | NOT_DEFAULT | RETAIN_PENDING | RETAIN_ROLLBACK.

(** [has_live_apply_state]: whether the booted deployment has live changes. *)
Definition write_deployment_flags (pushing_rollback : bool) (booted : option Deployment)
    (has_live_apply_state : Deployment → outcome bool) : outcome (list SimpleWriteFlag) :=
  if pushing_rollback then Ok [NO_CLEAN; NOT_DEFAULT; RETAIN_PENDING]
  else
    match booted with
    | None => Ok [NO_CLEAN]
    | Some b =>
        is_live ← has_live_apply_state b;
        Ok (if is_live : bool then [NO_CLEAN; RETAIN_ROLLBACK] else [NO_CLEAN])
    end.

Definition rpmostree_syscore_write_deployment (pushing_rollback : bool) (booted : option Deployment)
    (has_live_apply_state : Deployment → outcome bool)
    (simple_write : list SimpleWriteFlag → outcome unit) (cleanup : outcome unit) : outcome unit :=
  flags ← write_deployment_flags pushing_rollback booted has_live_apply_state;
  _ ← simple_write flags;
  cleanup.

(** The repository is pruned only after the refs were regenerated. *)
Lemma prune_after_regenerate result :
  PruneRepo ∈ (rpmostree_syscore_cleanup result).1 → result RegenerateRefs = Ok tt.
Proof.
  unfold rpmostree_syscore_cleanup, cleanup_steps. simpl.
  destruct (result PrepareCleanup); simpl; [|by intros ?%elem_of_nil..].
  destruct (result RemoveTmpRootfs); simpl; [|set_solver..].
  destruct (result HistoryPrune); simpl; [|set_solver..].
  destruct (result RegenerateRefs) as [[]| |]; simpl; [done|set_solver..].
Qed.

(** * Filtering deployments *)

Section filter_facts.
Context (deployment_equal : Deployment → Deployment → bool).
Context (booted : option Deployment) (osname : string) (cleanup_pending cleanup_rollback : bool).

(** What is kept ahead of the booted deployment, and after it. *)
Definition keep_pending (d : Deployment) : bool := retained osname d || negb cleanup_pending.
Definition keep_rollback (d : Deployment) : bool :=
  is_booted deployment_equal booted d || retained osname d || negb cleanup_rollback.

Local Abbreviation loop :=
  (filter_loop deployment_equal booted osname cleanup_pending cleanup_rollback).

Lemma filter_loop_after ds : loop true ds = filter (λ d, keep_rollback d) ds.
Proof.
  induction ds as [|d ds IH]; [done|].
  assert (loop true (d :: ds) = if keep_rollback d then d :: loop true ds else loop true ds) as ->.
  { unfold keep_rollback. simpl.
    by destruct (is_booted deployment_equal booted d), (retained osname d), cleanup_rollback. }
  rewrite filter_cons, IH. by destruct (keep_rollback d).
Qed.

Lemma filter_loop_before pre rest :
  Forall (λ d, is_booted deployment_equal booted d = false) pre →
  loop false (pre ++ rest) = filter (λ d, keep_pending d) pre ++ loop false rest.
Proof.
  induction 1 as [|d pre Hd _ IH]; [done|].
  assert (loop false ((d :: pre) ++ rest) =
    if keep_pending d then d :: loop false (pre ++ rest) else loop false (pre ++ rest)) as ->.
  { unfold keep_pending. simpl. rewrite Hd. by destruct (retained osname d), cleanup_pending. }
  rewrite filter_cons, IH. by destruct (keep_pending d).
Qed.

Lemma filter_loop_sublist found ds : loop found ds `sublist_of` ds.
Proof.
  revert found. induction ds as [|d ds IH]; intros found; [constructor|]. simpl.
  repeat case_match; constructor; apply IH.
Qed.

Lemma sublist_same_length {A} (l k : list A) : l `sublist_of` k → length l = length k → l = k.
Proof.
  induction 1 as [|x l k _ IH|x l k Hs IH]; simpl; intros Hl; [done|f_equal; auto|].
  apply sublist_length in Hs. lia.
Qed.

(** NULL is returned exactly when nothing is dropped. *)
Lemma filter_deployments_loop ds l :
  loop false ds = l →
  match rpmostree_syscore_filter_deployments deployment_equal ds booted osname cleanup_pending
          cleanup_rollback with
  | None => l = ds
  | Some l' => l' = l ∧ l ≠ ds
  end.
Proof.
  intros <-. unfold rpmostree_syscore_filter_deployments. case_decide as Hl.
  - apply sublist_same_length; [apply filter_loop_sublist|done].
  - split; [done|]. congruence.
Qed.
End filter_facts.

(** Cleaning up deployments keeps, in order, every deployment of another OS, every
    pinned one and the booted one; ahead of the booted deployment it drops the others
    exactly when pending ones are cleaned, after it exactly when rollbacks are. Without
    a booted deployment every deployment counts as pending. NULL means no change. *)
Theorem filter_deployments_spec deployment_equal ds booted osname cleanup_pending cleanup_rollback :
  let result := rpmostree_syscore_filter_deployments deployment_equal ds booted osname
                  cleanup_pending cleanup_rollback in
  let returns l := match result with None => l = ds | Some l' => l' = l ∧ l ≠ ds end in
  let kept := λ d, keep_pending osname cleanup_pending d in
  (∀ pre b post, ds = pre ++ b :: post →
     Forall (λ d, is_booted deployment_equal booted d = false) pre →
     is_booted deployment_equal booted b = true →
     returns (filter kept pre ++
         b :: filter (λ d, keep_rollback deployment_equal booted osname cleanup_rollback d) post)) ∧
  (Forall (λ d, is_booted deployment_equal booted d = false) ds → returns (filter kept ds)).
Proof.
  cbv zeta. split.
  - intros pre b post -> Hpre Hb. apply filter_deployments_loop.
    rewrite filter_loop_before by done. simpl. by rewrite Hb, filter_loop_after.
  - intros Hds. apply filter_deployments_loop.
    rewrite <-(app_nil_r ds) at 1. rewrite filter_loop_before by done. by rewrite app_nil_r.
Qed.

(** libostree compares OS name, checksum and serial. *)
Definition ex_equal (d e : Deployment) : bool :=
  bool_decide (d_osname d = d_osname e ∧ d_csum d = d_csum e ∧ d_deployserial d = d_deployserial e).
Definition ex_pending : Deployment := MkDeployment 0 "fedora" "aa" 0 false false.
Definition ex_booted : Deployment := MkDeployment 1 "fedora" "bb" 0 false false.
Definition ex_pinned : Deployment := MkDeployment 2 "fedora" "cc" 0 true false.
Definition ex_rollback : Deployment := MkDeployment 3 "fedora" "dd" 0 false false.

Lemma filter_deployments_spec_witness :
  rpmostree_syscore_filter_deployments ex_equal [ex_pending; ex_booted; ex_pinned; ex_rollback]
    (Some ex_booted) "fedora" true true = Some [ex_booted; ex_pinned] ∧
  [ex_booted; ex_pinned] ≠ [ex_pending; ex_booted; ex_pinned; ex_rollback].
Proof.
  split; [by vm_compute|].
  apply (proj1 (filter_deployments_spec ex_equal [ex_pending; ex_booted; ex_pinned; ex_rollback]
    (Some ex_booted) "fedora" true true) [ex_pending] ex_booted [ex_pinned; ex_rollback]);
    [done|by repeat constructor|by vm_compute].
Defined.

(** * Rollback *)

Lemma filter_all {A} (P : A → bool) l : Forall (λ x, P x = true) l → filter (λ x, P x) l = l.
Proof. induction 1 as [|x l Hx _ IH]; [done|]. rewrite filter_cons, Hx, IH. done. Qed.

Lemma rollback_reorder (deployment_equal : Deployment → Deployment → bool) l1 r l2 :
  Forall (λ d, deployment_equal d r = false) (l1 ++ l2) → deployment_equal r r = true →
  filter (λ d, negb (deployment_equal d r)) (l1 ++ r :: l2) = l1 ++ l2.
Proof.
  intros [H1 H2]%Forall_app Hr. rewrite filter_app, filter_cons, Hr. simpl.
  rewrite !filter_all; [done|..]; (eapply Forall_impl; [eassumption|]; by intros ? ->).
Qed.

Lemma check_inhibitors_iff l :
  check_sd_inhibitor_locks (Ok (Some l)) = Ok tt ↔ Forall (λ i, blocks_shutdown i = false) l.
Proof.
  unfold check_sd_inhibitor_locks. simpl.
  assert (filter (λ i, blocks_shutdown i) l = [] ↔ Forall (λ i, blocks_shutdown i = false) l) as <-.
  { induction l as [|i l IH]; [done|]. rewrite filter_cons, Forall_cons, <-IH.
    destruct (blocks_shutdown i); simpl; naive_solver. }
  by case_match.
Qed.

(** A rollback moves the target (the rollback deployment, or the booted one when
    there is only a pending one) to the front and keeps the order of all others,
    losing none; nothing is written when the target is first already. With "reboot"
    the new order is written before the inhibitors are looked at, so a blocked reboot
    reports an error after the default deployment has changed. *)
Theorem rollback_moves_target_first deployment_equal ops reboot l1 r l2 booted pending rollback :
  rollback_target booted pending rollback = Ok r →
  Forall (λ d, deployment_equal d r = false ∧ d_ptr d ≠ d_ptr r) (l1 ++ l2) →
  deployment_equal r r = true →
  (∀ l, so_write ops l = Ok tt) →
  rollback_transaction_execute deployment_equal ops reboot (l1 ++ r :: l2) booted pending rollback =
  (let written := match l1 with [] => [] | _ => [WriteDeployments (r :: l1 ++ l2)] end in
   if reboot then
     match check_sd_inhibitor_locks (so_inhibitors ops) with
     | Ok _ => (written ++ [Reboot], Ok tt)
     | m => (written, m)
     end
   else (written, Ok tt)).
Proof.
  intros Ht Hne Hr Hw. unfold rollback_transaction_execute. rewrite Ht.
  rewrite rollback_reorder by (done || (eapply Forall_impl; [exact Hne|]; naive_solver)).
  destruct l1 as [|d l1]; simpl.
  - rewrite decide_True by done. by destruct reboot, (check_sd_inhibitor_locks (so_inhibitors ops)) as [[]| |].
  - inversion Hne as [|?? [_ Hp] _]; subst. rewrite decide_False by done. rewrite Hw. simpl.
    by destruct reboot, (check_sd_inhibitor_locks (so_inhibitors ops)) as [[]| |].
Qed.

Definition ex_ops : SysrootOps :=
  MkSysrootOps (λ _, Ok tt) (Ok tt) (Ok tt)
    (Ok (Some [MkInhibitor "shutdown:sleep" "dnf" "upgrading" "block"])).

Lemma rollback_moves_target_first_witness :
  ∃ e, rollback_transaction_execute ex_equal ex_ops true [ex_booted; ex_pinned; ex_rollback]
      (Some ex_booted) None (Some ex_rollback) =
    ([WriteDeployments [ex_rollback; ex_booted; ex_pinned]], Err e).
Proof.
  eexists.
  etransitivity; [apply (rollback_moves_target_first ex_equal ex_ops true [ex_booted; ex_pinned]
    ex_rollback [] (Some ex_booted) None (Some ex_rollback)); [done|by repeat constructor|done|done]|].
  by vm_compute.
Defined.

(** * Cleanup *)

Lemma flag_set_lor a b n :
  (0 ≤ n)%Z → flag_set (Z.lor a b) (Z.shiftl 1 n) = flag_set a (Z.shiftl 1 n) || Z.testbit b n.
Proof. intros Hn. by rewrite !flag_set_testbit, Z.lor_spec. Qed.

Lemma bool_decide_cons (v a : string) l :
  bool_decide (v ∈ a :: l) = bool_decide (v = a) || bool_decide (v ∈ l).
Proof. repeat case_bool_decide; rewrite ?elem_of_cons in *; naive_solver. Qed.

(** The bit of each cleanup type. *)
Definition cleanup_types : list (Z * string) :=
  [(0%Z, "base"); (1%Z, "pending-deploy"); (2%Z, "rollback-deploy"); (3%Z, "repomd")]%string.

Lemma cleanup_bits_step (types : list (Z * string)) f v flags flags' args :
  Forall (λ nv, Z.testbit f nv.1 = bool_decide (nv.2 = v)) types →
  Forall (λ nv, Z.testbit flags' nv.1 = Z.testbit (Z.lor flags f) nv.1 || bool_decide (nv.2 ∈ args)) types →
  Forall (λ nv, Z.testbit flags' nv.1 = Z.testbit flags nv.1 || bool_decide (nv.2 ∈ v :: args)) types.
Proof.
  intros Hf Hb. eapply Forall_impl; [exact (proj2 (Forall_and _ _) (conj Hf Hb))|].
  intros [n t] [F ->]. cbn [fst snd] in *. by rewrite Z.lor_spec, bool_decide_cons, F, orb_assoc.
Qed.

(** The flag bits after reading the cleanup types. *)
Lemma cleanup_flags_acc args flags flags' :
  cleanup_flags flags args = Ok flags' →
  Forall (λ v, v ∈ cleanup_types.*2) args ∧
  Forall (λ nv, Z.testbit flags' nv.1 = Z.testbit flags nv.1 || bool_decide (nv.2 ∈ args)) cleanup_types.
Proof.
  revert flags. induction args as [|a args IH]; intros flags; cbn [cleanup_flags].
  { intros [= <-]. split; [constructor|]. by repeat constructor; simpl; rewrite orb_false_r. }
  repeat (case_bool_decide as Ha; [intros [Hk Hb]%IH; subst a;
    split; [constructor; [set_solver|done]|];
    eapply cleanup_bits_step; [|exact Hb]; by repeat constructor|clear Ha]).
  by unfold g_set_error.
Qed.

(** A Cleanup request, from its arguments to its effects, when no operation fails:
    deployments are rewritten only if a deployment type was asked for and something is
    dropped; the base cleanup runs if it was asked for or deployments were rewritten;
    the repository metadata is removed if asked for; in that order. *)
Theorem cleanup_request_effects deployment_equal ops osname ds booted args flags :
  cleanup_flags 0 args = Ok flags →
  (∀ l, so_write ops l = Ok tt) → so_cleanup ops = Ok tt → so_remove_repomd ops = Ok tt →
  let asked v := bool_decide (v ∈ args) in
  let new := rpmostree_syscore_filter_deployments deployment_equal ds booted osname
               (asked "pending-deploy"%string) (asked "rollback-deploy"%string) in
  let new := if asked "pending-deploy"%string || asked "rollback-deploy"%string then new else None in
  cleanup_transaction_execute deployment_equal ops flags osname ds booted =
  (match new with Some l => [WriteDeployments l] | None => [] end ++
   (if asked "base"%string || nonnull new then [SyscoreCleanup] else []) ++
   (if asked "repomd"%string then [RemoveRepomd] else []), Ok tt).
Proof.
  intros [_ Hb]%cleanup_flags_acc Hw Hc Hr. cbv zeta.
  unfold cleanup_types in Hb. rewrite !Forall_cons in Hb. destruct Hb as (H0&H1&H2&H3&_).
  cbn [fst snd] in *. rewrite Z.bits_0 in *. cbn [orb] in *.
  unfold cleanup_transaction_execute, RPMOSTREE_TRANSACTION_CLEANUP_BASE,
    RPMOSTREE_TRANSACTION_CLEANUP_PENDING_DEPLOY, RPMOSTREE_TRANSACTION_CLEANUP_ROLLBACK_DEPLOY,
    RPMOSTREE_TRANSACTION_CLEANUP_REPOMD.
  rewrite !flag_set_lor, !flag_set_testbit, H0, H1, H2, H3, Hc, Hr by lia.
  change (Z.testbit (Z.shiftl 1 0) 0) with true. change (Z.testbit (Z.shiftl 1 0) 3) with false.
  rewrite orb_true_r, orb_false_r.
  destruct (_ || bool_decide ("rollback-deploy"%string ∈ args)).
  - case_match; [rewrite Hw|]; simpl; rewrite ?orb_true_r, ?orb_false_r;
      by repeat case_bool_decide.
  - simpl. rewrite orb_false_r. by repeat case_bool_decide.
Qed.

Lemma cleanup_request_effects_witness :
  cleanup_transaction_execute ex_equal ex_ops 10 "fedora" [ex_pending; ex_booted; ex_rollback]
    (Some ex_booted) =
  ([WriteDeployments [ex_booted; ex_rollback]; SyscoreCleanup; RemoveRepomd], Ok tt).
Proof.
  rewrite (cleanup_request_effects ex_equal ex_ops "fedora" [ex_pending; ex_booted; ex_rollback]
    (Some ex_booted) ["repomd"; "pending-deploy"]%string 10); [by vm_compute|by vm_compute|done..].
Defined.

(** * Refs *)

Lemma delete_refs_lookup l txn r :
  delete_refs l txn !! r = if bool_decide (r ∈ l) then Some None else txn !! r.
Proof.
  unfold delete_refs. revert txn. induction l as [|x l IH]; intros txn; simpl; [done|].
  rewrite IH, bool_decide_cons. destruct (decide (r = x)) as [->|Hne].
  - rewrite lookup_insert_eq, (bool_decide_eq_true_2 (x = x)) by done. by case_bool_decide.
  - by rewrite lookup_insert_ne, (bool_decide_eq_false_2 (r = x)) by congruence.
Qed.

Lemma commit_refs_lookup txn r ref :
  commit_refs txn r !! ref = match txn !! ref with Some v => v | None => r !! ref end.
Proof. unfold commit_refs. rewrite lookup_merge. unfold diag_None. by destruct (txn !! ref), (r !! ref). Qed.

#[local] Instance base_ref_inj : Inj (=) (=) base_ref.
Proof. intros i j H%str_app_inj_l. by apply (inj pretty). Qed.

Lemma base_ref_not_tmp i : base_ref i ≠ RPMOSTREE_TMP_BASE_REF.
Proof.
  unfold RPMOSTREE_TMP_BASE_REF. change "rpmostree/base/tmp"%string with ("rpmostree/base/" +:+ "tmp").
  intros H%str_app_inj_l.
  assert (str_all (not_char "t") (pretty i) = true) as Hi.
  { apply (pretty_N_all _ (N.of_nat i)). intros n. unfold pretty_N_char. by repeat case_match. }
  by rewrite H in Hi.
Qed.

Lemma set_base_refs_other bases k txn ref :
  (∀ i, i < length bases → ref ≠ base_ref (k + i)) → set_base_refs k bases txn !! ref = txn !! ref.
Proof.
  revert k txn. induction bases as [|b bases IH]; intros k txn Hne; simpl; [done|].
  rewrite IH; [apply lookup_insert_ne|].
  - intros <-. apply (Hne 0); [simpl; lia|by rewrite Nat.add_0_r].
  - intros i Hi. rewrite Nat.add_succ_comm. apply Hne. simpl. lia.
Qed.

Lemma set_base_refs_base k bases txn i :
  i < length bases → set_base_refs k bases txn !! base_ref (k + i) = Some (bases !! i).
Proof.
  revert k i txn. induction bases as [|b bases IH]; intros k i txn Hi; simpl in *; [lia|].
  destruct i as [|i].
  - rewrite Nat.add_0_r, set_base_refs_other, lookup_insert_eq; [done|].
    intros i _ H%(inj base_ref). lia.
  - rewrite <-Nat.add_succ_comm. apply IH. lia.
Qed.

Section regenerate_facts.
Context (load_commit : string → outcome Commit) (type_mismatch : string) (char_signed : bool)
  (hy_split_nevra : string → option split_nevra) (validate_checksum : string → outcome unit)
  (system_packages : Deployment → outcome (list DnfPackage))
  (origin_local_replace : Deployment → outcome (list string)).

(** A deployment needs a cached package: it is layered and has the package installed,
    or its origin replaces a base package by it. *)
Definition references (d : Deployment) (ref : string) : Prop :=
  (∃ base pkgs pkg,
     rpmostree_deployment_get_base_layer load_commit type_mismatch d = Ok (Some base) ∧
     system_packages d = Ok pkgs ∧ pkg ∈ pkgs ∧ ref = rpmostree_get_cache_branch_pkg char_signed pkg) ∨
  (∃ l nv nevra sha256,
     origin_local_replace d = Ok l ∧ nv ∈ l ∧
     rpmostree_decompose_sha256_nevra validate_checksum nv = Ok (nevra, sha256) ∧
     nevra_to_cache_branch hy_split_nevra char_signed nevra = Ok ref).

Lemma add_package_refs_elem pkgs s s' ref :
  add_package_refs_to_set char_signed pkgs s = Ok s' →
  ref ∈ s' ↔ ref ∈ s ∨ ∃ pkg, pkg ∈ pkgs ∧ ref = rpmostree_get_cache_branch_pkg char_signed pkg.
Proof.
  intros H.
  assert (s' = foldl (λ s pkg, {[rpmostree_get_cache_branch_pkg char_signed pkg]} ∪ s) s pkgs) as ->.
  { destruct pkgs; [done|]. by injection H as <-. }
  clear H. revert s. induction pkgs as [|p pkgs IH]; intros s; simpl; [set_solver|].
  rewrite IH. set_solver.
Qed.

Lemma add_local_replacements_elem l s s' ref :
  add_local_replacements char_signed hy_split_nevra validate_checksum l s = Ok s' →
  ref ∈ s' ↔ ref ∈ s ∨ ∃ nv nevra sha256, nv ∈ l ∧
    rpmostree_decompose_sha256_nevra validate_checksum nv = Ok (nevra, sha256) ∧
    nevra_to_cache_branch hy_split_nevra char_signed nevra = Ok ref.
Proof.
  revert s. induction l as [|nv l IH]; intros s; cbn [add_local_replacements].
  { intros [= <-]. set_solver. }
  intros ([nevra sha256]&E1&(branch&E2&H)%bind_ok)%bind_ok. apply IH in H. rewrite H.
  set_unfold. split.
  - intros [[->|?]|(nv'&?&?&?&?&?)]; [|by left|]; right; eauto 10.
  - intros [?|(nv'&?&?&[->|?]&?&?)]; [by left; right| |right; eauto 10].
    left; left. congruence.
Qed.

Lemma referenced_pkgs_elem i ds s s' ref :
  referenced_pkgs_loop load_commit type_mismatch char_signed hy_split_nevra validate_checksum
    system_packages origin_local_replace i ds s = Ok s' →
  ref ∈ s' ↔ ref ∈ s ∨ ∃ d, d ∈ ds ∧ references d ref.
Proof.
  revert i s. induction ds as [|d ds IH]; intros i s; cbn [referenced_pkgs_loop].
  { intros [= <-]. set_solver. }
  intros (base&E1&(l&E2&(s1&E3&(s2&E4&H)%bind_ok)%bind_ok)%bind_ok)%bind_ok.
  apply IH in H. rewrite H. rewrite (add_local_replacements_elem _ _ _ _ E4).
  assert (ref ∈ s1 ↔ ref ∈ s ∨ ∃ base' pkgs pkg, base = Some base' ∧ system_packages d = Ok pkgs ∧
    pkg ∈ pkgs ∧ ref = rpmostree_get_cache_branch_pkg char_signed pkg) as ->.
  { destruct base as [base|]; [|injection E3 as <-; naive_solver].
    apply bind_ok in E3 as (pkgs&Ep&E3%prefix_error_ok). rewrite (add_package_refs_elem _ _ _ _ E3).
    split; intros [?|H']; [by left| |by left|]; right.
    - destruct H' as (pkg&?&?). by exists base, pkgs, pkg.
    - destruct H' as (?&pkgs'&pkg&_&?&?&?). exists pkg. assert (pkgs' = pkgs) as -> by congruence. done. }
  assert (references d ref ↔
    (∃ base' pkgs pkg, base = Some base' ∧ system_packages d = Ok pkgs ∧
       pkg ∈ pkgs ∧ ref = rpmostree_get_cache_branch_pkg char_signed pkg) ∨
    (∃ nv nevra sha256, nv ∈ l ∧
       rpmostree_decompose_sha256_nevra validate_checksum nv = Ok (nevra, sha256) ∧
       nevra_to_cache_branch hy_split_nevra char_signed nevra = Ok ref)) as Hd.
  { unfold references. rewrite E1, E2. split; (intros [H'|H']; [left|right]).
    - destruct H' as (b&pkgs&pkg&?&?&?&?). exists b, pkgs, pkg. by simplify_eq.
    - destruct H' as (l'&nv&nevra&sha&?&?&?&?). exists nv, nevra, sha. by simplify_eq.
    - destruct H' as (b&pkgs&pkg&->&?&?&?). by exists b, pkgs, pkg.
    - destruct H' as (nv&nevra&sha&?&?&?). by exists l, nv, nevra, sha. }
  assert ((∃ d', d' ∈ d :: ds ∧ references d' ref) ↔ references d ref ∨ ∃ d', d' ∈ ds ∧ references d' ref)
    as -> by (set_unfold; naive_solver).
  rewrite Hd. tauto.
Qed.

(** The refs after a regeneration that succeeds. *)
Record regenerated (ds : list Deployment) (base_listed pkg_listed bases : list string)
    (r r' : repo_refs) : Prop := Regenerated {
  rg_kept ref : ref ∈ pkg_listed → (∃ d, d ∈ ds ∧ references d ref) → r' !! ref = r !! ref;
  rg_freed ref : ref ∈ pkg_listed → ¬ (∃ d, d ∈ ds ∧ references d ref) → r' !! ref = None;
  rg_base i : i < length bases → r' !! base_ref i = bases !! i;
  rg_stale ref :
    ref ∈ base_listed → (∀ i, i < length bases → ref ≠ base_ref i) → r' !! ref = None;
  rg_tmp : r' !! RPMOSTREE_TMP_BASE_REF = None;
  rg_other ref :
    ref ∉ base_listed → ref ∉ pkg_listed → ref ≠ RPMOSTREE_TMP_BASE_REF →
    (∀ i, i < length bases → ref ≠ base_ref i) → r' !! ref = r !! ref;
}.

Lemma str_prefix_inv p s : String.prefix p s = true → ∃ t, s = p +:+ t.
Proof.
  revert s. induction p as [|c p IH]; intros s; simpl; [by exists s|].
  destruct s as [|c' s]; [done|]. simpl. destruct (ascii_dec c c') as [->|]; [|done]. intros [t ->]%IH. exists t. by rewrite str_app_cons.
Qed.

Lemma base_not_pkg ref :
  String.prefix "rpmostree/base" ref = true → String.prefix "rpmostree/pkg" ref = true → False.
Proof. intros [t ->]%str_prefix_inv [u H]%str_prefix_inv. discriminate H. Qed.

Lemma base_ref_prefix i : String.prefix "rpmostree/base" (base_ref i) = true.
Proof. done. Qed.

(** The lookups in the transaction that is committed. *)
Lemma regenerated_txn ds base_listed pkg_listed bases (referenced : gset string) r :
  Forall (λ ref, String.prefix "rpmostree/base" ref = true) base_listed →
  Forall (λ ref, String.prefix "rpmostree/pkg" ref = true) pkg_listed →
  (∀ ref, ref ∈ referenced ↔ ∃ d, d ∈ ds ∧ references d ref) →
  regenerated ds base_listed pkg_listed bases r
    (commit_refs (<[RPMOSTREE_TMP_BASE_REF := None]>
      (delete_refs (filter (λ ref, ref ∉ referenced) pkg_listed)
        (set_base_refs 0 bases (delete_refs base_listed ∅)))) r).
Proof.
  rewrite !Forall_forall. intros Hb Hp Href.
  assert (∀ ref, ref ∈ pkg_listed → ref ≠ RPMOSTREE_TMP_BASE_REF ∧
    (∀ i, ref ≠ base_ref i) ∧ ref ∉ base_listed) as Hpkg.
  { intros ref H%Hp. split_and!; [intros ->|intros i ->|intros ?%Hb]; by eapply base_not_pkg. }
  split.
  - intros ref Hin Hd. destruct (Hpkg ref Hin) as (?&?&?).
    rewrite commit_refs_lookup, lookup_insert_ne, delete_refs_lookup, bool_decide_eq_false_2 by
      (done || (rewrite list_elem_of_filter, Href; naive_solver)).
    rewrite set_base_refs_other, delete_refs_lookup, bool_decide_eq_false_2 by done. done.
  - intros ref Hin Hd. destruct (Hpkg ref Hin) as (?&?&?).
    rewrite commit_refs_lookup, lookup_insert_ne, delete_refs_lookup, bool_decide_eq_true_2; try done.
    rewrite list_elem_of_filter, Href. done.
  - intros i Hi. rewrite commit_refs_lookup, lookup_insert_ne, delete_refs_lookup, bool_decide_eq_false_2.
    + generalize (set_base_refs_base 0 bases (delete_refs base_listed ∅) i Hi). cbn [Nat.add]. by intros ->.
    + rewrite list_elem_of_filter. intros [_ H]. destruct (Hpkg _ H) as (_&Hne&_). by apply (Hne i).
    + apply not_eq_sym, base_ref_not_tmp.
  - intros ref Hin Hi. rewrite commit_refs_lookup.
    destruct (decide (ref = RPMOSTREE_TMP_BASE_REF)) as [->|?]; [by rewrite lookup_insert_eq|].
    rewrite lookup_insert_ne, delete_refs_lookup by done. case_bool_decide; [done|].
    by rewrite set_base_refs_other, delete_refs_lookup, bool_decide_eq_true_2.
  - by rewrite commit_refs_lookup, lookup_insert_eq.
  - intros ref Hnb Hnp Ht Hi. rewrite commit_refs_lookup, lookup_insert_ne, delete_refs_lookup by done.
    rewrite bool_decide_eq_false_2 by (rewrite list_elem_of_filter; naive_solver).
    by rewrite set_base_refs_other, delete_refs_lookup, bool_decide_eq_false_2.
Qed.

(** C34: when the regeneration of refs succeeds, every ref is as follows. Of the branches of
    the package cache exactly those some deployment needs (an installed package of a layered
    deployment, a local replacement of an origin) are as they were, and the others are gone
    and counted; "rpmostree/base/<i>" is the base of the i-th layered deployment; the other
    refs below "rpmostree/base" that were listed, and "rpmostree/base/tmp", are gone; the refs
    that are none of these are as they were. (The refs that libostree lists for a prefix have
    that prefix.) *)
Theorem regenerate_refs_spec start base_listed pkg_listed commit ds r n r' :
  Forall (λ ref, String.prefix "rpmostree/base" ref = true) base_listed →
  Forall (λ ref, String.prefix "rpmostree/pkg" ref = true) pkg_listed →
  syscore_regenerate_refs load_commit type_mismatch char_signed hy_split_nevra validate_checksum
    system_packages origin_local_replace start (Ok base_listed) (Ok pkg_listed) commit ds r = Ok (n, r') →
  ∃ bases freed,
    layered_bases load_commit type_mismatch ds = Ok bases ∧
    regenerated ds base_listed pkg_listed bases r r' ∧
    n = length freed ∧ freed `sublist_of` pkg_listed ∧
    ∀ ref, ref ∈ freed ↔ ref ∈ pkg_listed ∧ ¬ ∃ d, d ∈ ds ∧ references d ref.
Proof.
  intros Hb Hp H%prefix_error_ok. apply bind_ok in H as (?&_&H).
  apply bind_ok in H as (txn&E1&H). apply bind_ok in H as ([n' txn']&E2&H).
  apply bind_ok in H as (?&_&H). injection H as <- <-.
  apply prefix_error_ok in E1. cbn in E1. apply bind_ok in E1 as (bases&Hbases&E1).
  injection E1 as <-. apply prefix_error_ok, bind_ok in E2 as (referenced&Er&E2).
  cbn in E2. injection E2 as <- <-.
  assert (∀ ref, ref ∈ referenced ↔ ∃ d, d ∈ ds ∧ references d ref) as Href.
  { intros ref. rewrite (referenced_pkgs_elem _ _ _ _ ref Er). set_solver. }
  eexists bases, _. split; [done|]. split; [by apply regenerated_txn|]. split; [done|].
  split; [apply sublist_filter|]. intros ref. rewrite list_elem_of_filter, Href. tauto.
Qed.
End regenerate_facts.

Definition ex_layered : Commit := MkCommit {["rpmostree.clientlayer" := VBool true]} (Some "b0"%string).
Definition ex_plain : Commit := MkCommit ∅ None.
Definition ex_load (csum : string) : outcome Commit :=
  Ok (if bool_decide (csum = "aa"%string) then ex_layered else ex_plain).
Definition ex_pkgs (d : Deployment) : outcome (list DnfPackage) :=
  Ok [MkDnfPackage "vim" "1-1" "x86_64"].

Definition ex_base_listed : list string := ["rpmostree/base/0"; "rpmostree/base/1"]%string.
Definition ex_pkg_listed : list string :=
  ["rpmostree/pkg/vim/1-1.x86__64"; "rpmostree/pkg/emacs/2-1.noarch"]%string.
Definition ex_refs : repo_refs :=
  <["rpmostree/pkg/vim/1-1.x86__64" := "c0"]> {["rpmostree/base/1" := "b1"]}%string.
Definition ex_regenerate : outcome (nat * repo_refs) :=
  syscore_regenerate_refs ex_load "" false ex_split (λ _, Ok tt) ex_pkgs (λ _, Ok []) (Ok tt)
    (Ok ex_base_listed) (Ok ex_pkg_listed) (Ok tt) [ex_pending; ex_booted] ex_refs.
Definition ex_freed : nat := match ex_regenerate with Ok x => x.1 | _ => 0 end.
Definition ex_refs' : repo_refs := match ex_regenerate with Ok x => x.2 | _ => ∅ end.

Lemma ex_regenerate_ok : ex_regenerate = Ok (ex_freed, ex_refs').
Proof.
  assert (is_ok ex_regenerate = true) as H by (vm_compute; reflexivity).
  unfold ex_freed, ex_refs'. by destruct ex_regenerate as [[]| |].
Qed.

Lemma regenerate_refs_spec_witness :
  bool_decide (ex_freed = 1) = true ∧
  ∃ bases, regenerated ex_load "" false ex_split (λ _, Ok tt) ex_pkgs (λ _, Ok [])
    [ex_pending; ex_booted] ex_base_listed ex_pkg_listed bases ex_refs ex_refs'.
Proof.
  split; [vm_compute; reflexivity|].
  destruct (regenerate_refs_spec ex_load "" false ex_split (λ _, Ok tt) ex_pkgs (λ _, Ok []) (Ok tt)
    ex_base_listed ex_pkg_listed (Ok tt) [ex_pending; ex_booted] ex_refs ex_freed ex_refs')
    as (bases&_&_&Hr&_); [by repeat constructor|by repeat constructor|exact ex_regenerate_ok|].
  exists bases. exact Hr.
Defined.
