(* ===== verification/Refspec.v ===== *)
(** Refspecs, revisions and the walk through a branch's history, from
    [src/daemon/rpmostreed-utils.cxx], the functions of
    [src/daemon/rpmostreed-transaction-types.cxx] that change an origin, and
    [rust/src/core.rs] and [rust/src/daemon.rs]. libostree and the container image
    parser are parameters. *)

From S2P Require Import Prelude Vardict Nevra RpmHeaders SysrootCore.

Definition g_str_has_suffix_colon (s : string) : bool :=
  bool_decide (String.get (String.length s - 1) s = Some ":"%char).

Inductive RefspecType := Container | Ostree | Checksum.
#[global] Instance RefspecType_eq_dec : EqDecision RefspecType.
Proof. solve_decision. Defined.

Record Refspec := MkRefspec { rs_kind : RefspecType; rs_refspec : string }.

(** What is done to the origin. *)
Inductive origin_update :=
  | SetRebase (refspec : string)
  | SetRebaseCustom (refspec : string) (custom : option (string * string))
  | SetOverrideCommit (checksum : string).

Section refspec.
(** The remote, if any, and the ref; [ostree_validate_checksum_string];
    [OstreeImageReference::try_from], and whether it has a digest. *)
Context (ostree_parse_refspec : string → outcome (option string * string))
  (validate_checksum : string → outcome unit)
  (is_image_reference is_digest_reference : string → bool).

(** A parse error gets the code RPM_OSTREED_ERROR_INVALID_REFSPEC. *)
Definition parse_refspec (s : string) : outcome (option string * string) :=
  match ostree_parse_refspec s with
  | Err e => g_set_error RPM_OSTREED_ERROR_INVALID_REFSPEC (err_msg e)
  | m => m
  end.

Definition rpmostreed_refspec_parse_partial (new_provided_refspec : string)
    (base_refspec : option string) : outcome string :=
  '(remote, ref, infer_remote) ←
    (if g_str_has_suffix_colon new_provided_refspec then
       Ok (Some (str_take (String.length new_provided_refspec - 1) new_provided_refspec), None, true)
     else if String.prefix ":" new_provided_refspec then
       Ok (None, Some (str_drop 1 new_provided_refspec), false)
     else
       '(remote, ref) ← parse_refspec new_provided_refspec;
       Ok (remote, Some ref, true));
  '(origin_remote, origin_ref) ←
    match base_refspec with
    | None => Ok (None, None)
    | Some b => '(r, f) ← parse_refspec b; Ok (r, Some f)
    end;
  '(remote, ref) ←
    match ref with
    | None =>
        match origin_ref with
        | Some f => Ok (remote, f)
        | None => g_set_error RPM_OSTREED_ERROR_INVALID_REFSPEC "Could not determine default ref to pull."
        end
    | Some f => Ok (if infer_remote && negb (nonnull remote) then origin_remote else remote, f)
    end;
  Ok (match remote with None => ref | Some r => r +:+ ":" +:+ ref end).

Definition refspec_classify (refspec : string) : RefspecType :=
  if is_image_reference refspec then Container
  else if is_ok (validate_checksum refspec) then Checksum
  else Ostree.

(** The old and the new refspec, and the update of the origin. [custom_origin] is the
    pair under the option "custom-origin". *)
Definition change_origin_refspec (custom_origin : option (string * string))
    (current_refspec : Refspec) (refspec : string) : outcome (option string * string * origin_update) :=
  let refspec := if String.prefix "ostree://" refspec then str_drop 9 refspec else refspec in
  _ ← match custom_origin with
      | Some (url, description) =>
          if negb (bool_decide (url = ""%string)) && bool_decide (description = ""%string)
          then glnx_throw "Invalid custom-origin" else Ok tt
      | None => Ok tt
      end;
  match refspec_classify refspec with
  | Container =>
      let custom := if is_digest_reference refspec then custom_origin else None in
      if bool_decide (rs_kind current_refspec = Container) &&
         bool_decide (rs_refspec current_refspec = refspec)
      then glnx_throw ("Old and new refs are equal: " +:+ refspec)
      else Ok (Some (rs_refspec current_refspec), refspec, SetRebaseCustom refspec custom)
  | _ =>
      let prev :=
        match rs_kind current_refspec with Container => None | _ => Some (rs_refspec current_refspec) end in
      new_refspec ← rpmostreed_refspec_parse_partial refspec prev;
      update ←
        match refspec_classify new_refspec with
        | Checksum => Ok (SetRebaseCustom new_refspec custom_origin)
        | _ =>
            if bool_decide (rs_refspec current_refspec = new_refspec)
            then glnx_throw ("Old and new refs are equal: " +:+ new_refspec)
            else Ok (SetRebase new_refspec)
        end;
      _ ← match prev with Some p => g_assert (is_ok (ostree_parse_refspec p)) | None => Ok tt end;
      _ ← g_assert (is_ok (ostree_parse_refspec new_refspec));
      Ok (prev, new_refspec, update)
  end.

(** * Revisions *)

Inductive ParsedRevisionKind := RevVersion | RevChecksum.
Record ParsedRevision := MkParsedRevision { pr_kind : ParsedRevisionKind; pr_value : string }.

(** [str::split_once]. *)
Fixpoint split_once (d : ascii) (s : string) : option (string * string) :=
  match s with
  | EmptyString => None
  | String c s =>
      if Ascii.eqb c d then Some (""%string, s)
      else match split_once d s with Some (k, v) => Some (String c k, v) | None => None end
  end.

Fixpoint to_ascii_lowercase (s : string) : string :=
  match s with EmptyString => "" | String c s => String (g_ascii_tolower c) (to_ascii_lowercase s) end.

Definition parse_revision (revision : string) : outcome ParsedRevision :=
  let unprefixed :=
    if is_ok (validate_checksum revision) then Ok (MkParsedRevision RevChecksum revision)
    else Ok (MkParsedRevision RevVersion revision) in
  prefix_error ("Parsing revision '" +:+ revision +:+ "'")
  match split_once "=" revision with
  | Some (key, value) =>
      let prefix := to_ascii_lowercase key in
      if bool_decide (prefix = "revision"%string) then
        _ ← validate_checksum value;
        Ok (MkParsedRevision RevChecksum value)
      else if bool_decide (prefix = "version"%string) then Ok (MkParsedRevision RevVersion value)
      else unprefixed
  | None => unprefixed
  end.
End refspec.

(** * Walking the history of a branch *)

Section ancestry.
(** [R] is the repository with what was pulled so far; [pull] takes the remote, the ref
    or checksum and the "depth" option, which is left out on the first pass. *)
Context {R : Type} (pull : string → string → option Z → R → outcome R)
  (resolve_rev : R → string → outcome string) (load_commit : R → string → outcome Commit)
  (ostree_parse_refspec : string → outcome (option string * string)).

Section visitor.
(** A visitor updates its closure and says whether to stop. *)
Context {A : Type} (visitor : string → Commit → A → outcome (bool * A)).

(** The inner loop; [None] is NULL. *)
Fixpoint visit_batch (n : nat) (repo : R) (checksum : option string) (a : A) :
    outcome (option string * A) :=
  match n, checksum with
  | S n, Some c =>
      commit ← load_commit repo c;
      '(stop, a) ← visitor c commit a;
      visit_batch n repo (if stop : bool then None else cm_parent commit) a
  | _, _ => Ok (checksum, a)
  end.

Definition pull_batch (remote : option string) (first_pass : bool) (depth : Z) (ref : string) (repo : R) :
    outcome R :=
  match remote with
  | None => Ok repo
  | Some remote => pull remote ref (if first_pass then None else Some depth) repo
  end.

(** The passes after the first: [checksum] is the next commit to visit. [None] when the
    fuel runs out. *)
Fixpoint ancestry_passes (fuel : nat) (remote : option string) (depth : Z) (checksum : string)
    (repo : R) (a : A) : option (outcome A) :=
  match fuel with
  | 0 => None
  | S fuel =>
      match (repo ← pull_batch remote false depth checksum repo;
             r ← visit_batch (Z.to_nat depth) repo (Some checksum) a;
             Ok (repo, r)) with
      | Ok (repo, (Some checksum, a)) => ancestry_passes fuel remote (depth * 2) checksum repo a
      | Ok (_, (None, a)) => Some (Ok a)
      | Err e => Some (Err e)
      | Abort => Some Abort
      end
  end.
End visitor.

(** Without a visitor the loop ends after the first pass, which has no depth. *)
Definition rpmostreed_repo_pull_ancestry {A} (fuel : nat) (refspec : string)
    (visitor : option (string → Commit → A → outcome (bool * A))) (repo : R) (a : A) :
    option (outcome A) :=
  let depth := match visitor with Some _ => 10%Z | None => (-1)%Z end in
  match ('(remote, ref) ← ostree_parse_refspec refspec;
         repo ← pull_batch remote true depth ref repo;
         checksum ← resolve_rev repo refspec;
         r ← match visitor with
             | Some visitor => visit_batch visitor 1 repo (Some checksum) a
             | None => Ok (None, a)
             end;
         Ok (remote, repo, r)) with
  | Ok (remote, repo, (Some checksum, a)) =>
      match visitor with
      | Some visitor => ancestry_passes visitor fuel remote depth checksum repo a
      | None => Some (Ok a)
      end
  | Ok (_, _, (None, a)) => Some (Ok a)
  | Err e => Some (Err e)
  | Abort => Some Abort
  end.

(** ** The visitors *)

(** The closure is the checksum found. *)
Definition version_visitor (version : string) (checksum : string) (commit : Commit)
    (closure : option string) : outcome (bool * option string) :=
  match vardict_lookup_string (cm_metadata commit) "version" with
  | Some v => if bool_decide (v = version) then Ok (true, Some checksum) else Ok (false, closure)
  | None => Ok (false, closure)
  end.

(** The closure tells whether the checksum was found. *)
Definition checksum_visitor (wanted_checksum : string) (checksum : string) (commit : Commit)
    (closure : bool) : outcome (bool * bool) :=
  let found := bool_decide (checksum = wanted_checksum) in Ok (found, found).

Definition rpmostreed_repo_lookup_version (fuel : nat) (refspec version : string) (repo : R) :
    option (outcome string) :=
  match rpmostreed_repo_pull_ancestry fuel refspec (Some (version_visitor version)) repo None with
  | None => None
  | Some r => Some (
      closure ← r;
      match closure with
      | Some checksum => Ok checksum
      | None => g_set_error G_IO_ERROR_NOT_FOUND ("Version " +:+ version +:+ " not found in " +:+ refspec)
      end)
  end.

Definition rpmostreed_repo_lookup_checksum (fuel : nat) (refspec checksum : string) (repo : R) :
    option (outcome unit) :=
  match rpmostreed_repo_pull_ancestry fuel refspec (Some (checksum_visitor checksum)) repo false with
  | None => None
  | Some r => Some (
      found ← r;
      if found : bool then Ok tt
      else g_set_error G_IO_ERROR_NOT_FOUND ("Checksum " +:+ checksum +:+ " not found in " +:+ refspec))
  end.

(** The walk over what is local. *)
Fixpoint cached_walk (fuel : nat) (repo : R) (version : string) (checksum : option string)
    (closure : option string) : option (outcome (option string)) :=
  match fuel with
  | 0 => None
  | S fuel =>
      match checksum with
      | None => Some (Ok closure)
      | Some c =>
          match (commit ← load_commit repo c;
                 r ← version_visitor version c commit closure;
                 Ok (commit, r)) with
          | Ok (commit, (stop, closure)) =>
              cached_walk fuel repo version (if stop : bool then None else cm_parent commit) closure
          | Err e => Some (Err e)
          | Abort => Some Abort
          end
      end
  end.

Definition rpmostreed_repo_lookup_cached_version (fuel : nat) (refspec version : string) (repo : R) :
    option (outcome string) :=
  match resolve_rev repo refspec with
  | Err e => Some (Err e)
  | Abort => Some Abort
  | Ok checksum =>
      match cached_walk fuel repo version (Some checksum) None with
      | None => None
      | Some r => Some (
          closure ← r;
          match closure with
          | Some checksum => Ok checksum
          | None => glnx_throw ("Version " +:+ version +:+ " not cached in " +:+ refspec)
          end)
      end
  end.

(** ** Pinning the origin to a revision *)

Definition apply_revision_override (validate_checksum : string → outcome unit) (fuel : nat)
    (r : Refspec) (skip_branch_check : bool) (revision : option string) (repo : R) :
    option (outcome origin_update) :=
  match revision, rs_kind r with
  | None, _ => Some (glnx_throw "Missing revision")
  | _, Checksum => Some (glnx_throw "Cannot look up version while pinned to commit")
  | Some revision, Container => Some (Ok (SetOverrideCommit revision))
  | Some revision, Ostree =>
      match parse_revision validate_checksum revision with
      | Err e => Some (Err e)
      | Abort => Some Abort
      | Ok (MkParsedRevision RevVersion version) =>
          match rpmostreed_repo_lookup_version fuel (rs_refspec r) version repo with
          | None => None
          | Some m => Some (checksum ← m; Ok (SetOverrideCommit checksum))
          end
      | Ok (MkParsedRevision RevChecksum checksum) =>
          if skip_branch_check then Some (Ok (SetOverrideCommit checksum))
          else
            match rpmostreed_repo_lookup_checksum fuel (rs_refspec r) checksum repo with
            | None => None
            | Some m => Some (_ ← m; Ok (SetOverrideCommit checksum))
            end
      end
  end.
End ancestry.

(** * Completing a refspec *)

Lemma get_last_app s c : String.get (String.length (s +:+ String c "") - 1) (s +:+ String c "") = Some c.
Proof.
  rewrite str_app_length. simpl. rewrite Nat.add_sub.
  induction s as [|c' s IH]; [done|]. rewrite str_app_cons. simpl. apply IH.
Qed.

Lemma take_last_app s c : str_take (String.length (s +:+ String c "") - 1) (s +:+ String c "") = s.
Proof.
  rewrite str_app_length. simpl. rewrite Nat.add_sub.
  by destruct (str_take_drop_app (String.length s) s (String c "")) as [-> _].
Qed.

Lemma has_suffix_colon_app s : g_str_has_suffix_colon (s +:+ ":") = true.
Proof. apply bool_decide_eq_true_2, get_last_app. Qed.

Section partial.
Context (parse : string → outcome (option string * string)).

Definition in_remote (remote : option string) (ref : string) : string :=
  match remote with Some r => r +:+ ":" +:+ ref | None => ref end.

Lemma parse_partial_remote r base :
  rpmostreed_refspec_parse_partial parse (r +:+ ":") base =
  match base with
  | None => g_set_error RPM_OSTREED_ERROR_INVALID_REFSPEC "Could not determine default ref to pull."
  | Some b => '(_, f) ← parse_refspec parse b; Ok (r +:+ ":" +:+ f)
  end.
Proof.
  unfold rpmostreed_refspec_parse_partial. rewrite has_suffix_colon_app, take_last_app. simpl.
  destruct base as [b|]; [|done]. by destruct (parse_refspec parse b) as [[]| |].
Qed.

(** A partial refspec is completed from the refspec of the origin: "remote:" takes
    the origin's branch (and is an error without an origin), ":branch" is a local
    branch, "branch" stays on the origin's remote, and "remote:branch" is taken as it
    is. *)
Theorem refspec_parse_partial_forms base origin_remote origin_ref r f new :
  parse base = Ok (origin_remote, origin_ref) →
  g_str_has_suffix_colon new = false → String.prefix ":" new = false →
  g_str_has_suffix_colon (":" +:+ f) = false →
  rpmostreed_refspec_parse_partial parse (r +:+ ":") (Some base) = Ok (r +:+ ":" +:+ origin_ref) ∧
  rpmostreed_refspec_parse_partial parse (r +:+ ":") None =
    g_set_error RPM_OSTREED_ERROR_INVALID_REFSPEC "Could not determine default ref to pull." ∧
  rpmostreed_refspec_parse_partial parse (":" +:+ f) (Some base) = Ok f ∧
  rpmostreed_refspec_parse_partial parse new (Some base) =
    match parse new with
    | Ok (None, ref) => Ok (in_remote origin_remote ref)
    | Ok (Some remote, ref) => Ok (in_remote (Some remote) ref)
    | Err e => g_set_error RPM_OSTREED_ERROR_INVALID_REFSPEC (err_msg e)
    | Abort => Abort
    end.
Proof.
  intros Hb Hs Hp Hf.
  assert (parse_refspec parse base = Ok (origin_remote, origin_ref)) as Hb'
    by (unfold parse_refspec; by rewrite Hb).
  rewrite !parse_partial_remote, Hb'. split; [done|]. split; [done|].
  unfold rpmostreed_refspec_parse_partial. rewrite Hf, Hs, Hp, Hb'. split.
  - change (":" +:+ f) with (String ":" f). simpl. by destruct f.
  - unfold parse_refspec. by destruct (parse new) as [[[] ?]| |].
Qed.

(** The remote of a refspec "remote:" is not validated before the assertion that
    the completed refspec parses, so a rebase to one that libostree rejects aborts
    the daemon instead of returning an error. *)
Theorem rebase_invalid_remote_aborts validate_checksum is_image is_digest current r
    origin_remote origin_ref e :
  String.prefix "ostree://" (r +:+ ":") = false →
  refspec_classify validate_checksum is_image (r +:+ ":") = Ostree →
  refspec_classify validate_checksum is_image (r +:+ ":" +:+ origin_ref) = Ostree →
  rs_kind current = Ostree →
  parse (rs_refspec current) = Ok (origin_remote, origin_ref) →
  parse (r +:+ ":" +:+ origin_ref) = Err e →
  change_origin_refspec parse validate_checksum is_image is_digest None current (r +:+ ":") = Abort.
Proof.
  intros Hpre Hc1 Hc2 Hk Hb He. unfold change_origin_refspec. rewrite Hpre. cbn [mbind outcome_bind].
  rewrite Hc1, Hk, parse_partial_remote. unfold parse_refspec. rewrite Hb. cbn [mbind outcome_bind].
  rewrite Hc2. rewrite bool_decide_eq_false_2 by (intros Heq; rewrite Heq in Hb; congruence).
  cbn [mbind outcome_bind]. by rewrite He.
Qed.
End partial.

(** A parser that rejects spaces. *)
Definition ex_parse (s : string) : outcome (option string * string) :=
  if str_all (not_char " ") s then
    Ok (match split_once ":" s with Some (r, f) => (Some r, f) | None => (None, s) end)
  else glnx_throw ("Invalid refspec " +:+ s).
Definition ex_no_checksum (_ : string) : outcome unit := glnx_throw "".

Lemma refspec_parse_partial_forms_witness :
  rpmostreed_refspec_parse_partial ex_parse "testing:" (Some "fedora:main"%string) =
    Ok "testing:main"%string ∧
  rpmostreed_refspec_parse_partial ex_parse "rawhide" (Some "fedora:main"%string) =
    Ok "fedora:rawhide"%string.
Proof.
  destruct (refspec_parse_partial_forms ex_parse "fedora:main" (Some "fedora"%string) "main" "testing"
    "local" "rawhide") as (H1&_&_&H2); [done|done|done|done|].
  split; [exact H1|exact H2].
Defined.

Lemma rebase_invalid_remote_aborts_witness :
  change_origin_refspec ex_parse ex_no_checksum (λ _, false) (λ _, false) None
    (MkRefspec Ostree "fedora:main") "a b:" = Abort.
Proof.
  apply (rebase_invalid_remote_aborts ex_parse ex_no_checksum (λ _, false) (λ _, false)
    (MkRefspec Ostree "fedora:main") "a b" (Some "fedora"%string) "main"
    (GError G_IO_ERROR_FAILED "Invalid refspec a b:main")); done.
Defined.

(** * The walk visits the history *)

(** The reference: every commit of the history in turn, until the visitor stops. *)
Fixpoint visit_all {A} (visitor : string → Commit → A → outcome (bool * A))
    (hist : list (string * Commit)) (a : A) : outcome A :=
  match hist with
  | [] => Ok a
  | (c, commit) :: hist =>
      '(stop, a) ← visitor c commit a;
      if stop : bool then Ok a else visit_all visitor hist a
  end.

(** A history from newest to oldest: the parent of each commit is the next one. *)
Definition linked (hist : list (string * Commit)) : Prop :=
  ∀ i c commit, hist !! i = Some (c, commit) → cm_parent commit = fst <$> hist !! S i.

(** What libostree promises of a pull of a branch with history [hist]: the first pass
    makes the newest commit available and the ref resolves to it; a later pass makes
    [depth] commits available from the one asked for. *)
Record pulls_history {R} (pull : string → string → option Z → R → outcome R)
    (resolve_rev : R → string → outcome string) (load_commit : R → string → outcome Commit)
    (remote ref refspec : string) (hist : list (string * Commit)) : Prop := PullsHistory {
  ph_first repo c commit :
    hist !! 0 = Some (c, commit) →
    ∃ repo', pull remote ref None repo = Ok repo' ∧ resolve_rev repo' refspec = Ok c ∧
      load_commit repo' c = Ok commit;
  ph_next repo i c commit depth :
    hist !! i = Some (c, commit) →
    ∃ repo', pull remote c (Some depth) repo = Ok repo' ∧
      ∀ j c' commit', i ≤ j < i + Z.to_nat depth → hist !! j = Some (c', commit') →
        load_commit repo' c' = Ok commit';
}.

Section walk.
Context {R : Type} (pull : string → string → option Z → R → outcome R)
  (resolve_rev : R → string → outcome string) (load_commit : R → string → outcome Commit)
  (ostree_parse_refspec : string → outcome (option string * string)).
Context (remote ref refspec : string) (hist : list (string * Commit)).
Context (Hlinked : linked hist)
  (Hpulls : pulls_history pull resolve_rev load_commit remote ref refspec hist)
  (Hparse : ostree_parse_refspec refspec = Ok (Some remote, ref)).

Section batch.
Context {A : Type} (visitor : string → Commit → A → outcome (bool * A)).

Lemma visit_batch_spec n repo i a :
  (∀ j c commit, i ≤ j < i + n → hist !! j = Some (c, commit) → load_commit repo c = Ok commit) →
  match visit_batch load_commit visitor n repo (fst <$> hist !! i) a with
  | Ok (None, a') => visit_all visitor (drop i hist) a = Ok a'
  | Ok (Some c, a') =>
      fst <$> hist !! (i + n) = Some c ∧
      visit_all visitor (drop i hist) a = visit_all visitor (drop (i + n) hist) a'
  | Err e => visit_all visitor (drop i hist) a = Err e
  | Abort => visit_all visitor (drop i hist) a = Abort
  end.
Proof.
  revert i a. induction n as [|n IH]; intros i a Hload.
  { simpl. rewrite Nat.add_0_r. destruct (hist !! i) as [[c commit]|] eqn:Hi; simpl; [done|].
    by rewrite drop_ge by (by apply lookup_ge_None). }
  destruct (hist !! i) as [[c commit]|] eqn:Hi; simpl.
  - rewrite (Hload i c commit) by (done || lia). simpl.
    rewrite (drop_S _ _ _ Hi). cbn [visit_all].
    destruct (visitor c commit a) as [[[] a']| |]; simpl; [by destruct n| |done|done].
    rewrite (Hlinked i c commit Hi), <-Nat.add_succ_comm. apply IH.
    intros j c' commit' Hj. apply Hload. lia.
  - by rewrite drop_ge by (by apply lookup_ge_None).
Qed.

Lemma ancestry_passes_spec fuel depth i c commit repo a :
  hist !! i = Some (c, commit) → (0 < depth)%Z → length hist - i < fuel →
  ancestry_passes pull load_commit visitor fuel (Some remote) depth c repo a =
  Some (visit_all visitor (drop i hist) a).
Proof.
  revert depth i c commit repo a. induction fuel as [|fuel IH]; intros depth i c commit repo a Hi Hd Hf; [lia|].
  cbn [ancestry_passes pull_batch].
  destruct (ph_next _ _ _ _ _ _ _ Hpulls repo i c commit depth Hi) as (repo'&Hp&Hload).
  rewrite Hp. simpl. pose proof (visit_batch_spec (Z.to_nat depth) repo' i a Hload) as Hv.
  rewrite Hi in Hv. simpl in Hv.
  destruct (visit_batch _ _ _ _ _ _) as [[[c'|] a']| |]; simpl in *; [|by rewrite Hv..].
  destruct Hv as [Hc ->]. destruct (hist !! (i + Z.to_nat depth)) as [[? commit']|] eqn:Hi'; [|done].
  simpl in Hc. injection Hc as ->. rewrite (IH _ _ _ _ _ _ Hi'); [done|lia|].
  apply lookup_lt_Some in Hi'. lia.
Qed.

(** Fetching in batches is invisible to the visitor. *)
Lemma pull_ancestry_visits fuel repo a :
  hist ≠ [] → length hist < fuel →
  rpmostreed_repo_pull_ancestry pull resolve_rev load_commit ostree_parse_refspec fuel refspec
    (Some visitor) repo a = Some (visit_all visitor hist a).
Proof.
  intros Hne Hf. unfold rpmostreed_repo_pull_ancestry. rewrite Hparse. cbn [mbind outcome_bind pull_batch].
  destruct (hist !! 0) as [[c commit]|] eqn:Hc; [|by destruct hist].
  destruct (ph_first _ _ _ _ _ _ _ Hpulls repo c commit Hc) as (repo'&->&Hr&Hload).
  cbn [mbind outcome_bind]. rewrite Hr. cbn [mbind outcome_bind].
  pose proof (visit_batch_spec 1 repo' 0 a) as Hv. rewrite Hc in Hv. cbn [fmap option_fmap option_map fst] in Hv.
  assert (∀ j c0 commit0, 0 ≤ j < 0 + 1 → hist !! j = Some (c0, commit0) → load_commit repo' c0 = Ok commit0)
    as Hl.
  { intros j c0 commit0 Hj Hj'. assert (j = 0) as -> by lia. by simplify_eq. }
  specialize (Hv Hl). rewrite drop_0 in Hv.
  destruct (visit_batch _ _ _ _ _ _) as [[[c'|] a']| |]; simpl in *; [|by rewrite Hv..].
  destruct Hv as [Hc' ->]. destruct (hist !! 1) as [[? commit']|] eqn:Hi'; [|done].
  simpl in Hc'. injection Hc' as ->. rewrite (ancestry_passes_spec _ _ 1 _ commit'); [done|done|lia|lia].
Qed.
End batch.
End walk.

Definition has_version (version : string) (x : string * Commit) : bool :=
  bool_decide (vardict_lookup_string (cm_metadata x.2) "version" = Some version).

Lemma version_visitor_eq version c commit closure :
  version_visitor version c commit closure =
  Ok (if has_version version (c, commit) then (true, Some c) else (false, closure)).
Proof.
  unfold version_visitor, has_version. cbn [snd].
  destruct (vardict_lookup_string (cm_metadata commit) "version") as [v|]; [|done].
  rewrite (bool_decide_ext (Some v = Some version) (v = version)) by naive_solver.
  by case_bool_decide.
Qed.

Lemma visit_all_version version hist :
  visit_all (version_visitor version) hist None = Ok (fst <$> find (has_version version) hist).
Proof.
  induction hist as [|[c commit] hist IH]; [done|]. cbn [visit_all find].
  rewrite version_visitor_eq. by destruct (has_version version (c, commit)).
Qed.

Lemma visit_all_checksum wanted hist b :
  visit_all (checksum_visitor wanted) hist b =
  Ok (match hist with [] => b | _ => bool_decide (wanted ∈ hist.*1) end).
Proof.
  revert b. induction hist as [|[c commit] hist IH]; intros b; [done|]. simpl.
  rewrite bool_decide_cons, IH. destruct (decide (c = wanted)) as [->|Hne].
  - by rewrite bool_decide_eq_true_2.
  - rewrite !(bool_decide_eq_false_2 (_ = _)) by congruence. by destruct hist.
Qed.

(** Looking up a version pulls the history of the branch in growing batches and
    finds the newest commit with that version, wherever it is; if no commit has it the
    answer is NOT_FOUND. The search ends: one pass more than there are commits is
    enough. *)
Theorem lookup_version_newest {R} pull resolve_rev load_commit ostree_parse_refspec remote ref
    refspec hist fuel version (repo : R) :
  linked hist → pulls_history pull resolve_rev load_commit remote ref refspec hist →
  ostree_parse_refspec refspec = Ok (Some remote, ref) → hist ≠ [] → length hist < fuel →
  rpmostreed_repo_lookup_version pull resolve_rev load_commit ostree_parse_refspec fuel refspec version repo =
  Some (match find (has_version version) hist with
        | Some (c, _) => Ok c
        | None => g_set_error G_IO_ERROR_NOT_FOUND ("Version " +:+ version +:+ " not found in " +:+ refspec)
        end).
Proof.
  intros Hl Hp Hs Hne Hf. unfold rpmostreed_repo_lookup_version.
  rewrite (pull_ancestry_visits _ _ _ _ _ _ _ hist Hl Hp Hs _ _ _ _ Hne Hf), visit_all_version. simpl.
  by destruct (find (has_version version) hist) as [[]|].
Qed.

(** A checksum is accepted exactly when it is in the history of the branch. *)
Lemma lookup_checksum_spec {R} pull resolve_rev load_commit ostree_parse_refspec remote ref
    refspec hist fuel checksum (repo : R) :
  linked hist → pulls_history pull resolve_rev load_commit remote ref refspec hist →
  ostree_parse_refspec refspec = Ok (Some remote, ref) → hist ≠ [] → length hist < fuel →
  rpmostreed_repo_lookup_checksum pull resolve_rev load_commit ostree_parse_refspec fuel refspec checksum
    repo = Some (Ok tt) ↔ checksum ∈ hist.*1.
Proof.
  intros Hl Hp Hs Hne Hf. unfold rpmostreed_repo_lookup_checksum.
  rewrite (pull_ancestry_visits _ _ _ _ _ _ _ hist Hl Hp Hs _ _ _ _ Hne Hf), visit_all_checksum. simpl.
  destruct hist; [done|]. case_bool_decide; split; done.
Qed.

(** Without a visitor there is one pull, without a depth, although the comment in the
    source says that everything is pulled in one shot. *)
Lemma no_visitor_pulls_head {R A} pull resolve_rev load_commit ostree_parse_refspec fuel refspec
    remote ref (repo : R) (a : A) :
  ostree_parse_refspec refspec = Ok (Some remote, ref) →
  rpmostreed_repo_pull_ancestry pull resolve_rev load_commit ostree_parse_refspec fuel refspec None repo a =
  Some (repo ← pull remote ref None repo; _ ← resolve_rev repo refspec; Ok a).
Proof.
  intros Hs. unfold rpmostreed_repo_pull_ancestry. rewrite Hs. simpl.
  destruct (pull remote ref None repo) as [repo'| |]; simpl; [|done..].
  by destruct (resolve_rev repo' refspec).
Qed.

(** A repository where everything is local already. *)
Definition ex_hist : list (string * Commit) :=
  [("c2"%string, MkCommit {["version" := VString "42.2"]} (Some "c1"%string));
   ("c1"%string, MkCommit {["version" := VString "42.1"]} (Some "c0"%string));
   ("c0"%string, MkCommit ∅ None)].
Definition ex_load_hist (_ : unit) (c : string) : outcome Commit :=
  match find (λ x : string * Commit, bool_decide (x.1 = c)) ex_hist with
  | Some x => Ok x.2
  | None => g_set_error G_IO_ERROR_NOT_FOUND c
  end.

Lemma ex_pulls_history :
  pulls_history (λ _ _ _ r, Ok r) (λ _ _, Ok "c2"%string) ex_load_hist "fedora" "main" "fedora:main" ex_hist.
Proof.
  split.
  - intros [] c commit [= <- <-]. by exists tt.
  - intros [] i c commit depth _. exists tt. split; [done|]. intros j c' commit' _ Hj.
    do 3 (destruct j as [|j]; [by injection Hj as <- <-|]). by destruct j.
Qed.

Lemma lookup_version_newest_witness :
  rpmostreed_repo_lookup_version (λ _ _ _ r, Ok r) (λ _ _, Ok "c2"%string) ex_load_hist
    (λ _, Ok (Some "fedora", "main")%string) 4 "fedora:main" "42.1" tt = Some (Ok "c1"%string).
Proof.
  rewrite (lookup_version_newest _ _ _ _ "fedora" "main" "fedora:main" ex_hist 4 "42.1" tt);
    [by vm_compute| |apply ex_pulls_history|done|done|by simpl; lia].
  intros i c commit Hi. do 3 (destruct i as [|i]; [by injection Hi as <- <-|]). by destruct i.
Defined.
