(* ===== verification/Origin.v ===== *)
(** The origin of a deployment: the treefile fields that describe a client side
    system and the operations on them in [rust/src/treefile.rs]. libdnf's splitting of
    a NEVRA and libostree's validation of checksums are parameters. *)

From S2P Require Import Prelude Vardict Nevra RpmHeaders SysrootCore Refspec.

(** * Ordered sets and maps *)

(** [BTreeSet] and [BTreeMap] as sets and maps; their iterators are in key order. *)
Definition bset_iter (s : gset string) : list string := g_ptr_array_sort strcmp (elements s).

Definition bmap_iter (m : gmap string string) : list (string * string) :=
  (λ k, (k, default ""%string (m !! k))) <$> bset_iter (dom m).

Definition is_empty_set (s : gset string) : bool := bool_decide (s = ∅).
Definition is_empty_map (m : gmap string string) : bool := bool_decide (m = ∅).

(** [Option::map(f).unwrap_or_default()] for a boolean [f]. *)
Definition opt_test {A} (f : A → bool) (o : option A) : bool :=
  match o with Some a => f a | None => false end.

(** * The data *)

Record DeriveCustom := MkDeriveCustom { dc_url : string; dc_description : option string }.

Record DeriveInitramfs := MkDeriveInitramfs {
  di_regenerate : bool;
  di_etc : option (gset string);
  di_args : option (list string);
}.

Inductive RemoteOverrideReplaceFrom := Repo (repo : string).

Record RemoteOverrideReplace := MkRemoteOverrideReplace {
  ror_from : RemoteOverrideReplaceFrom;
  ror_packages : gset string;
}.

(** [DeriveConfigFields], with [packages], [cliwrap] and the base's [initramfs_args] of
    the enclosing configuration. *)
Record Treefile := MkTreefile {
  packages : option (gset string);
  base_refspec : option string;
  container_image_reference : option string;
  packages_local : option (gmap string string);
  packages_local_fileoverride : option (gmap string string);
  override_remove : option (gset string);
  override_replace : option (list RemoteOverrideReplace);
  override_replace_local : option (gmap string string);
  initramfs : option DeriveInitramfs;
  custom : option DeriveCustom;
  override_commit : option string;
  unconfigured_state : option string;
  cliwrap : option bool;
  base_initramfs_args : option (list string);
}.

#[global] Instance DeriveCustom_eq_dec : EqDecision DeriveCustom.
Proof. solve_decision. Defined.
#[global] Instance DeriveInitramfs_eq_dec : EqDecision DeriveInitramfs.
Proof. solve_decision. Defined.
#[global] Instance RemoteOverrideReplaceFrom_eq_dec : EqDecision RemoteOverrideReplaceFrom.
Proof. solve_decision. Defined.
#[global] Instance RemoteOverrideReplace_eq_dec : EqDecision RemoteOverrideReplace.
Proof. solve_decision. Defined.
#[global] Instance Treefile_eq_dec : EqDecision Treefile.
Proof. solve_decision. Defined.

Definition empty_treefile : Treefile :=
  MkTreefile None None None None None None None None None None None None None None.

(** The assignments to a field of [self]. *)
Definition set_packages v t := MkTreefile v (base_refspec t) (container_image_reference t)
  (packages_local t) (packages_local_fileoverride t) (override_remove t) (override_replace t)
  (override_replace_local t) (initramfs t) (custom t) (override_commit t) (unconfigured_state t)
  (cliwrap t) (base_initramfs_args t).
Definition set_refspecs b c t := MkTreefile (packages t) b c
  (packages_local t) (packages_local_fileoverride t) (override_remove t) (override_replace t)
  (override_replace_local t) (initramfs t) (custom t) (override_commit t) (unconfigured_state t)
  (cliwrap t) (base_initramfs_args t).
Definition set_packages_local v t := MkTreefile (packages t) (base_refspec t)
  (container_image_reference t) v (packages_local_fileoverride t) (override_remove t)
  (override_replace t) (override_replace_local t) (initramfs t) (custom t) (override_commit t)
  (unconfigured_state t) (cliwrap t) (base_initramfs_args t).
Definition set_packages_local_fileoverride v t := MkTreefile (packages t) (base_refspec t)
  (container_image_reference t) (packages_local t) v (override_remove t) (override_replace t)
  (override_replace_local t) (initramfs t) (custom t) (override_commit t) (unconfigured_state t)
  (cliwrap t) (base_initramfs_args t).
Definition set_override_remove v t := MkTreefile (packages t) (base_refspec t)
  (container_image_reference t) (packages_local t) (packages_local_fileoverride t) v
  (override_replace t) (override_replace_local t) (initramfs t) (custom t) (override_commit t)
  (unconfigured_state t) (cliwrap t) (base_initramfs_args t).
Definition set_override_replace v t := MkTreefile (packages t) (base_refspec t)
  (container_image_reference t) (packages_local t) (packages_local_fileoverride t)
  (override_remove t) v (override_replace_local t) (initramfs t) (custom t) (override_commit t)
  (unconfigured_state t) (cliwrap t) (base_initramfs_args t).
Definition set_override_replace_local v t := MkTreefile (packages t) (base_refspec t)
  (container_image_reference t) (packages_local t) (packages_local_fileoverride t)
  (override_remove t) (override_replace t) v (initramfs t) (custom t) (override_commit t)
  (unconfigured_state t) (cliwrap t) (base_initramfs_args t).
Definition set_initramfs v t := MkTreefile (packages t) (base_refspec t)
  (container_image_reference t) (packages_local t) (packages_local_fileoverride t)
  (override_remove t) (override_replace t) (override_replace_local t) v (custom t)
  (override_commit t) (unconfigured_state t) (cliwrap t) (base_initramfs_args t).
Definition set_custom v t := MkTreefile (packages t) (base_refspec t)
  (container_image_reference t) (packages_local t) (packages_local_fileoverride t)
  (override_remove t) (override_replace t) (override_replace_local t) (initramfs t) v
  (override_commit t) (unconfigured_state t) (cliwrap t) (base_initramfs_args t).
Definition set_override_commit_field v t := MkTreefile (packages t) (base_refspec t)
  (container_image_reference t) (packages_local t) (packages_local_fileoverride t)
  (override_remove t) (override_replace t) (override_replace_local t) (initramfs t) (custom t)
  v (unconfigured_state t) (cliwrap t) (base_initramfs_args t).
Definition set_cliwrap_field v t := MkTreefile (packages t) (base_refspec t)
  (container_image_reference t) (packages_local t) (packages_local_fileoverride t)
  (override_remove t) (override_replace t) (override_replace_local t) (initramfs t) (custom t)
  (override_commit t) (unconfigured_state t) v (base_initramfs_args t).

(** * Queries *)

Definition get_packages (t : Treefile) : list string :=
  match packages t with Some h => bset_iter h | None => [] end.
Definition has_packages (t : Treefile) : bool := opt_test (λ p, negb (is_empty_set p)) (packages t).
Definition has_package (t : Treefile) (pkg : string) : bool :=
  opt_test (λ p : gset string, bool_decide (pkg ∈ p)) (packages t).

(** [format!("{}:{}", v, k)] over an optional map. *)
Definition sha256_nevras (m : option (gmap string string)) : list string :=
  match m with Some m => (λ '(k, v), v +:+ ":" +:+ k) <$> bmap_iter m | None => [] end.
Definition contains_key (m : option (gmap string string)) (k : string) : bool :=
  opt_test (λ m : gmap string string, nonnull (m !! k)) m.

Definition get_local_packages (t : Treefile) : list string := sha256_nevras (packages_local t).
Definition has_local_package (t : Treefile) (pkg : string) : bool := contains_key (packages_local t) pkg.
Definition get_local_fileoverride_packages (t : Treefile) : list string :=
  sha256_nevras (packages_local_fileoverride t).
Definition has_local_fileoverride_package (t : Treefile) (pkg : string) : bool :=
  contains_key (packages_local_fileoverride t) pkg.

Definition get_packages_override_remove (t : Treefile) : list string :=
  match override_remove t with Some h => bset_iter h | None => [] end.
Definition has_packages_override_remove_name (t : Treefile) (name : string) : bool :=
  opt_test (λ s : gset string, bool_decide (name ∈ s)) (override_remove t).
Definition get_packages_override_replace_local (t : Treefile) : list string :=
  sha256_nevras (override_replace_local t).

Definition ror_is_empty (o : RemoteOverrideReplace) : bool :=
  match ror_from o with Repo _ => is_empty_set (ror_packages o) end.
(** [OverrideReplacement]: the repository and the packages in order. *)
Definition get_packages_override_replace (t : Treefile) : list (string * list string) :=
  match override_replace t with
  | Some v => (λ o, (match ror_from o with Repo r => r end, bset_iter (ror_packages o))) <$> v
  | None => []
  end.
Definition has_packages_override_replace (t : Treefile) : bool :=
  opt_test (existsb (λ o, negb (ror_is_empty o))) (override_replace t).

Definition has_override (t : Treefile) (name_or_nevra : string) : bool :=
  has_packages_override_remove_name t name_or_nevra
  || contains_key (override_replace_local t) name_or_nevra
  || opt_test (existsb (λ o, bool_decide (name_or_nevra ∈ ror_packages o))) (override_replace t).

Definition get_override_commit (t : Treefile) : string := default ""%string (override_commit t).
Definition get_unconfigured_state (t : Treefile) : string := default ""%string (unconfigured_state t).
Definition get_origin_custom_url (t : Treefile) : string :=
  match custom t with Some c => dc_url c | None => ""%string end.
Definition get_origin_custom_description (t : Treefile) : string :=
  match custom t with Some c => default ""%string (dc_description c) | None => ""%string end.
Definition get_cliwrap (t : Treefile) : bool := default false (cliwrap t).

Definition get_initramfs_etc_files (t : Treefile) : list string :=
  match initramfs t with
  | Some i => match di_etc i with Some h => bset_iter h | None => [] end
  | None => []
  end.
Definition has_initramfs_etc_files (t : Treefile) : bool :=
  opt_test (λ i, opt_test (λ v, negb (is_empty_set v)) (di_etc i)) (initramfs t).
Definition get_initramfs_regenerate (t : Treefile) : bool := opt_test di_regenerate (initramfs t).
Definition get_initramfs_args (t : Treefile) : list string :=
  match initramfs t with Some i => default [] (di_args i) | None => [] end
  ++ default [] (base_initramfs_args t).

Definition has_any_packages (t : Treefile) : bool :=
  has_packages t
  || opt_test (λ m, negb (is_empty_map m)) (packages_local t)
  || opt_test (λ m, negb (is_empty_map m)) (packages_local_fileoverride t)
  || opt_test (existsb (λ o, negb (ror_is_empty o))) (override_replace t)
  || opt_test (λ m, negb (is_empty_map m)) (override_replace_local t)
  || opt_test (λ m, negb (is_empty_set m)) (override_remove t).

Definition may_require_local_assembly (t : Treefile) : bool :=
  default false (cliwrap t) || get_initramfs_regenerate t || has_initramfs_etc_files t
  || has_any_packages t.

(** * Updates *)

(** Every update that can fail is given on the value before it: where the code returns
    an error in the middle of a loop, its callers drop the treefile. *)
Section updates.
Context (validate_checksum : string → outcome unit) (hy_split_nevra : string → option split_nevra).

(** The pair of NEVRA and checksum. *)
Definition decompose_sha256_nevra (v : string) : outcome (string * string) :=
  match split_once ":" v with
  | None => glnx_throw ("Missing : in " +:+ v)
  | Some (sha256, nevra) => _ ← validate_checksum sha256; Ok (nevra, sha256)
  end.

Fixpoint filter_package_requests (t : Treefile) (pkgs : list string)
    (sha256_split allow_existing : bool) : outcome (list string) :=
  match pkgs with
  | [] => Ok []
  | pkg :: pkgs =>
      pkgname ← (if sha256_split then '(nevra, _) ← decompose_sha256_nevra pkg; Ok nevra else Ok pkg);
      if has_package t pkgname then
        if allow_existing then filter_package_requests t pkgs sha256_split allow_existing
        else glnx_throw ("Package/capability '" +:+ pkg +:+ "' is already requested")
      else if has_local_package t pkgname || has_local_fileoverride_package t pkgname then
        if allow_existing then filter_package_requests t pkgs sha256_split allow_existing
        else glnx_throw ("Package '" +:+ pkg +:+ "' is already layered")
      else
        rpackages ← filter_package_requests t pkgs sha256_split allow_existing;
        Ok (pkg :: rpackages)
  end.

Definition add_packages (pkgs : list string) (allow_existing : bool) (t : Treefile) :
    outcome (bool * Treefile) :=
  pkgs ← filter_package_requests t pkgs false allow_existing;
  let set := default ∅ (packages t) in
  let set' := set ∪ list_to_set pkgs in
  Ok (negb (bool_decide (size set' = size set)), set_packages (Some set') t).

Fixpoint add_sha256_nevra_to_map (m : gmap string string) (pkgs : list string) :
    outcome (bool * gmap string string) :=
  match pkgs with
  | [] => Ok (false, m)
  | pkg :: pkgs =>
      '(nevra, sha256) ← decompose_sha256_nevra pkg;
      '(changed, m') ← add_sha256_nevra_to_map (<[nevra := sha256]> m) pkgs;
      Ok (negb (nonnull (m !! nevra)) || changed, m')
  end.

Definition add_local_packages (pkgs : list string) (allow_existing : bool) (t : Treefile) :
    outcome (bool * Treefile) :=
  pkgs ← filter_package_requests t pkgs true allow_existing;
  '(changed, m) ← add_sha256_nevra_to_map (default ∅ (packages_local t)) pkgs;
  Ok (changed, set_packages_local (Some m) t).

Definition add_local_fileoverride_packages (pkgs : list string) (allow_existing : bool)
    (t : Treefile) : outcome (bool * Treefile) :=
  pkgs ← filter_package_requests t pkgs true allow_existing;
  '(changed, m) ← add_sha256_nevra_to_map (default ∅ (packages_local_fileoverride t)) pkgs;
  Ok (changed, set_packages_local_fileoverride (Some m) t).

(** The name of every NEVRA; a later NEVRA of the same name replaces an earlier one. *)
Fixpoint name_to_nevra_loop (nevras : list string) (m : gmap string string) :
    outcome (gmap string string) :=
  match nevras with
  | [] => Ok m
  | nevra :: nevras =>
      match hy_split_nevra nevra with
      | None => glnx_throw ("Failed to decompose NEVRA string: " +:+ nevra)
      | Some s => name_to_nevra_loop nevras (<[sn_name s := nevra]> m)
      end
  end.
Definition build_name_to_nevra_map (nevras : option (gmap string string)) :
    outcome (gmap string string) :=
  name_to_nevra_loop (match nevras with Some m => (bmap_iter m).*1 | None => [] end) ∅.

Definition del_key (k : string) (m : option (gmap string string)) : option (gmap string string) :=
  match m with Some m => Some (delete k m) | None => None end.
Definition del_elem (k : string) (s : option (gset string)) : option (gset string) :=
  match s with Some s => Some (s ∖ {[k]}) | None => None end.

(** [Option::insert] into the lazily built map. *)
Definition get_lazy (lazy : option (gmap string string)) (nevras : option (gmap string string)) :
    outcome (gmap string string) :=
  match lazy with Some m => Ok m | None => build_name_to_nevra_map nevras end.

(** The lazily built maps are not updated by the removals; [assert!(changed)] panics when
    the NEVRA a name stands for is already gone. *)
Fixpoint remove_packages_loop (pkgs : list string) (allow_noent : bool)
    (lazy lazy_fileoverride : option (gmap string string)) (changed : bool) (t : Treefile) :
    outcome (bool * Treefile) :=
  match pkgs with
  | [] => Ok (changed, t)
  | package :: pkgs =>
      if has_package t package then
        remove_packages_loop pkgs allow_noent lazy lazy_fileoverride true
          (set_packages (del_elem package (packages t)) t)
      else if has_local_package t package then
        remove_packages_loop pkgs allow_noent lazy lazy_fileoverride true
          (set_packages_local (del_key package (packages_local t)) t)
      else if has_local_fileoverride_package t package then
        remove_packages_loop pkgs allow_noent lazy lazy_fileoverride true
          (set_packages_local_fileoverride (del_key package (packages_local_fileoverride t)) t)
      else
        name_to_nevra ← get_lazy lazy (packages_local t);
        name_to_nevra_fileoverride ← get_lazy lazy_fileoverride (packages_local_fileoverride t);
        let lazy := Some name_to_nevra in
        let lazy_fileoverride := Some name_to_nevra_fileoverride in
        match name_to_nevra !! package, name_to_nevra_fileoverride !! package with
        | Some nevra, _ =>
            _ ← g_assert (has_local_package t nevra);
            remove_packages_loop pkgs allow_noent lazy lazy_fileoverride true
              (set_packages_local (del_key nevra (packages_local t)) t)
        | None, Some nevra =>
            _ ← g_assert (has_local_fileoverride_package t nevra);
            remove_packages_loop pkgs allow_noent lazy lazy_fileoverride true
              (set_packages_local_fileoverride (del_key nevra (packages_local_fileoverride t)) t)
        | None, None =>
            if allow_noent then remove_packages_loop pkgs allow_noent lazy lazy_fileoverride changed t
            else glnx_throw ("Package/capability '" +:+ package +:+ "' is not currently requested")
        end
  end.
Definition remove_packages (pkgs : list string) (allow_noent : bool) (t : Treefile) :
    outcome (bool * Treefile) :=
  remove_packages_loop pkgs allow_noent None None false t.

Fixpoint add_packages_override_replace_local (pkgs : list string) (t : Treefile) : outcome Treefile :=
  match pkgs with
  | [] => Ok t
  | pkg :: pkgs =>
      '(nevra, sha256) ← decompose_sha256_nevra pkg;
      if has_override t nevra then glnx_throw ("Override already exists for package '" +:+ pkg +:+ "'")
      else
        let m := default ∅ (override_replace_local t) in
        _ ← g_assert (negb (nonnull (m !! nevra)));
        add_packages_override_replace_local pkgs
          (set_override_replace_local (Some (<[nevra := sha256]> m)) t)
  end.

Fixpoint add_packages_override_remove (pkgs : list string) (t : Treefile) : outcome Treefile :=
  match pkgs with
  | [] => Ok t
  | pkg :: pkgs =>
      if has_override t pkg then glnx_throw ("Override already exists for package '" +:+ pkg +:+ "'")
      else
        let s := default ∅ (override_remove t) in
        _ ← g_assert (negb (bool_decide (pkg ∈ s)));
        add_packages_override_remove pkgs (set_override_remove (Some ({[pkg]} ∪ s)) t)
  end.

Definition remove_package_override_replace_local (package : string) (t : Treefile) : bool * Treefile :=
  (contains_key (override_replace_local t) package,
   set_override_replace_local (del_key package (override_replace_local t)) t).
Definition remove_package_override_remove (package : string) (t : Treefile) : bool * Treefile :=
  (has_packages_override_remove_name t package,
   set_override_remove (del_elem package (override_remove t)) t).

(** [Iterator::any] stops at the first entry that had the package. *)
Fixpoint remove_from_first (package : string) (v : list RemoteOverrideReplace) :
    bool * list RemoteOverrideReplace :=
  match v with
  | [] => (false, [])
  | o :: v =>
      if bool_decide (package ∈ ror_packages o)
      then (true, MkRemoteOverrideReplace (ror_from o) (ror_packages o ∖ {[package]}) :: v)
      else let '(b, v') := remove_from_first package v in (b, o :: v')
  end.
Definition remove_package_override_replace (package : string) (t : Treefile) : bool * Treefile :=
  match override_replace t with
  | Some v => let '(b, v') := remove_from_first package v in (b, set_override_replace (Some v') t)
  | None => (false, t)
  end.

(** From the last entry to the first: only packages not seen yet are kept, and entries
    left without packages are dropped. *)
Fixpoint retain_unseen (seen : gset string) (rev : list RemoteOverrideReplace) :
    list RemoteOverrideReplace :=
  match rev with
  | [] => []
  | o :: rev =>
      let o' := MkRemoteOverrideReplace (ror_from o) (ror_packages o ∖ seen) in
      let rest := retain_unseen (ror_packages o ∪ seen) rev in
      if ror_is_empty o' then rest else o' :: rest
  end.
Definition handle_repo_packages_override_replacements (v : list RemoteOverrideReplace) :
    list RemoteOverrideReplace := reverse (retain_unseen ∅ (reverse v)).

Definition add_packages_override_replace (repo : string) (pkgs : list string) (t : Treefile) :
    bool * Treefile :=
  let old_map := default [] (override_replace t) in
  let v := handle_repo_packages_override_replacements
             (old_map ++ [MkRemoteOverrideReplace (Repo repo) (list_to_set pkgs)]) in
  (negb (bool_decide (Some old_map = Some v)), set_override_replace (Some v) t).

Definition remove_all_overrides (t : Treefile) : bool * Treefile :=
  (opt_test (λ x, negb (is_empty_map x)) (override_replace_local t)
   || (opt_test (λ x, negb (bool_decide (x = []))) (override_replace t)
       || (opt_test (λ x, negb (is_empty_set x)) (override_remove t) || false)),
   set_override_replace_local None (set_override_replace None (set_override_remove None t))).
Definition remove_all_packages (t : Treefile) : bool * Treefile :=
  (opt_test (λ x, negb (is_empty_map x)) (packages_local_fileoverride t)
   || (opt_test (λ x, negb (is_empty_map x)) (packages_local t)
       || (opt_test (λ x, negb (is_empty_set x)) (packages t) || false)),
   set_packages_local_fileoverride None (set_packages_local None (set_packages None t))).
End updates.

Definition set_override_commit (checksum : string) (t : Treefile) : Treefile :=
  set_override_commit_field (if bool_decide (checksum = ""%string) then None else Some checksum) t.
Definition set_cliwrap (enabled : bool) (t : Treefile) : Treefile :=
  set_cliwrap_field (if enabled then Some true else None) t.

Definition default_initramfs : DeriveInitramfs := MkDeriveInitramfs false None None.
(** [ext_get_or_insert_default] on the initramfs, and an update of its files. *)
Definition with_initramfs_etc (etc : option (gset string)) (t : Treefile) : Treefile :=
  let i := default default_initramfs (initramfs t) in
  set_initramfs (Some (MkDeriveInitramfs (di_regenerate i) etc (di_args i))) t.
Definition initramfs_etc (t : Treefile) : option (gset string) :=
  di_etc (default default_initramfs (initramfs t)).

Definition initramfs_etc_files_track (files : list string) (t : Treefile) : bool * Treefile :=
  let set := default ∅ (initramfs_etc t) in
  let set' := set ∪ list_to_set files in
  (negb (bool_decide (size set' = size set)), with_initramfs_etc (Some set') t).
Fixpoint untrack_loop (files : list string) (changed : bool) (set : gset string) : bool * gset string :=
  match files with
  | [] => (changed, set)
  | f :: files => untrack_loop files (bool_decide (f ∈ set) || changed) (set ∖ {[f]})
  end.
Definition initramfs_etc_files_untrack (files : list string) (t : Treefile) : bool * Treefile :=
  let '(changed, set) := untrack_loop files false (default ∅ (initramfs_etc t)) in
  (changed, with_initramfs_etc (Some set) t).
Definition initramfs_etc_files_untrack_all (t : Treefile) : bool * Treefile :=
  (opt_test (λ s, negb (is_empty_set s)) (initramfs_etc t), with_initramfs_etc None t).
Definition set_initramfs_regenerate (enabled : bool) (args : list string) (t : Treefile) : Treefile :=
  if enabled then
    let i := default default_initramfs (initramfs t) in
    set_initramfs (Some (MkDeriveInitramfs true (di_etc i) (Some args))) t
  else
    match initramfs t with
    | Some i => set_initramfs (Some (MkDeriveInitramfs false (di_etc i) None)) t
    | None => t
    end.

Section refspec.
Context (validate_checksum : string → outcome unit)
  (is_image_reference : string → bool).

(** [unreachable!()] without either reference. *)
Definition get_base_refspec (t : Treefile) : outcome Refspec :=
  match container_image_reference t, base_refspec t with
  | Some s, _ => Ok (MkRefspec Container s)
  | None, Some s =>
      Ok (MkRefspec (if is_ok (validate_checksum s) then Checksum else Ostree) s)
  | None, None => Abort
  end.

Definition rebase (new_refspec custom_origin_url custom_origin_description : string) (t : Treefile) :
    Treefile :=
  let t := set_override_commit_field None t in
  let t :=
    match refspec_classify validate_checksum is_image_reference new_refspec with
    | Checksum | Ostree => set_refspecs (Some new_refspec) None t
    | Container => set_refspecs None (Some new_refspec) t
    end in
  if bool_decide (custom_origin_url = ""%string) then set_custom None t
  else set_custom (Some (MkDeriveCustom custom_origin_url
         (if bool_decide (custom_origin_description = ""%string) then None
          else Some custom_origin_description))) t.
End refspec.

(** * Merging *)

(** The receiver wins. *)
Definition merge_basic_field {A} (dest src : option A) : option A :=
  match dest with Some _ => dest | None => src end.
(** The receiver's elements come last. *)
Definition merge_vec_field {A} (dest src : option (list A)) : option (list A) :=
  match src with Some srcv => Some (srcv ++ default [] dest) | None => dest end.
Definition merge_map_field (dest src : option (gmap string string)) : option (gmap string string) :=
  match src with Some srcv => Some (default ∅ dest ∪ srcv) | None => dest end.
Definition merge_hashset_field (dest src : option (gset string)) : option (gset string) :=
  match src with Some srcv => Some (srcv ∪ default ∅ dest) | None => dest end.

Definition treefile_merge (dest src : Treefile) : Treefile :=
  MkTreefile (merge_hashset_field (packages dest) (packages src))
    (merge_basic_field (base_refspec dest) (base_refspec src))
    (merge_basic_field (container_image_reference dest) (container_image_reference src))
    (merge_map_field (packages_local dest) (packages_local src))
    (merge_map_field (packages_local_fileoverride dest) (packages_local_fileoverride src))
    (merge_hashset_field (override_remove dest) (override_remove src))
    (match merge_vec_field (override_replace dest) (override_replace src) with
     | Some v => Some (handle_repo_packages_override_replacements v)
     | None => None
     end)
    (merge_map_field (override_replace_local dest) (override_replace_local src))
    (merge_basic_field (initramfs dest) (initramfs src))
    (merge_basic_field (custom dest) (custom src))
    (merge_basic_field (override_commit dest) (override_commit src))
    (merge_basic_field (unconfigured_state dest) (unconfigured_state src))
    (merge_basic_field (cliwrap dest) (cliwrap src))
    (merge_vec_field (base_initramfs_args dest) (base_initramfs_args src)).

(** [treefile_parse_stream] on JSON and the checksum of the serialized configuration are
    arguments. *)
Definition merge_treefile (parse_json : string → outcome Treefile)
    (get_checksum : Treefile → outcome string) (treefile : string) (t : Treefile) :
    outcome (bool * Treefile) :=
  src ← parse_json treefile;
  prev_checksum ← get_checksum t;
  let t' := treefile_merge t src in
  new_checksum ← get_checksum t';
  Ok (negb (bool_decide (prev_checksum = new_checksum)), t').

(** * Iteration *)

Lemma elem_of_bset_iter x s : x ∈ bset_iter s ↔ x ∈ s.
Proof. unfold bset_iter. by rewrite g_ptr_array_sort_perm, elem_of_elements. Qed.

Lemma bset_iter_set s : list_to_set (bset_iter s) = s.
Proof. apply set_eq. intros x. by rewrite elem_of_list_to_set, elem_of_bset_iter. Qed.

Lemma bset_iter_nodup s : NoDup (bset_iter s).
Proof. unfold bset_iter. rewrite g_ptr_array_sort_perm. apply NoDup_elements. Qed.

Lemma bset_iter_nil s : bset_iter s = [] ↔ s = ∅.
Proof.
  split; [|by intros ->].
  intros E. rewrite <-(bset_iter_set s), E. done.
Qed.

Lemma bmap_iter_fst m : (bmap_iter m).*1 = bset_iter (dom m).
Proof. unfold bmap_iter. rewrite <-list_fmap_compose. by apply list_fmap_id. Qed.

Lemma bmap_iter_nil m : bmap_iter m = [] ↔ m = ∅.
Proof.
  rewrite <-(dom_empty_iff_L m), <-bset_iter_nil. unfold bmap_iter.
  by destruct (bset_iter (dom m)).
Qed.

Lemma elem_of_bmap_iter k v m : (k, v) ∈ bmap_iter m ↔ m !! k = Some v.
Proof.
  unfold bmap_iter. rewrite list_elem_of_fmap. split.
  - intros (k' & [= -> ->] & Hk). apply elem_of_bset_iter, elem_of_dom in Hk as [w Hw].
    by rewrite Hw.
  - intros E. exists k. rewrite E. split; [done|]. apply elem_of_bset_iter, elem_of_dom. eauto.
Qed.

Lemma bmap_iter_map m : list_to_map (bmap_iter m) = m.
Proof.
  apply map_eq. intros k. apply option_eq. intros v.
  rewrite <-elem_of_list_to_map; [apply elem_of_bmap_iter|].
  rewrite bmap_iter_fst. apply bset_iter_nodup.
Qed.

(** * The requests of an origin *)

(** What an origin asks for, independently of how it is stored. *)
Inductive request :=
  | RPackage (p : string)
  | RLocal (nevra sha256 : string)
  | RFileOverride (nevra sha256 : string)
  | RRemove (p : string)
  | RReplace (repo p : string)
  | RReplaceLocal (nevra sha256 : string).

Definition asks (t : Treefile) (r : request) : Prop :=
  match r with
  | RPackage p => p ∈ default ∅ (packages t)
  | RLocal n s => default ∅ (packages_local t) !! n = Some s
  | RFileOverride n s => default ∅ (packages_local_fileoverride t) !! n = Some s
  | RRemove p => p ∈ default ∅ (override_remove t)
  | RReplace repo p =>
      ∃ o, o ∈ default [] (override_replace t) ∧ ror_from o = Repo repo ∧ p ∈ ror_packages o
  | RReplaceLocal n s => default ∅ (override_replace_local t) !! n = Some s
  end.

(** Requested by that name, or layered under that NEVRA. *)
Definition layered (t : Treefile) (p : string) : bool :=
  has_package t p || has_local_package t p || has_local_fileoverride_package t p.

Lemma has_package_asks t p : has_package t p = true ↔ asks t (RPackage p).
Proof.
  unfold has_package. simpl. destruct (packages t); simpl; [apply bool_decide_eq_true|].
  split; [done|]. intros []%elem_of_empty.
Qed.

Lemma contains_key_dom m k : contains_key m k = true ↔ ∃ v, default ∅ m !! k = Some v.
Proof.
  unfold contains_key. destruct m as [m|]; simpl.
  - destruct (m !! k) eqn:E; simpl; split; [eauto|done|done|]. by intros [v ?].
  - split; [done|]. by intros [v ?%lookup_empty_Some].
Qed.

Lemma contains_key_false m k : contains_key m k = false ↔ default ∅ m !! k = None.
Proof.
  rewrite <-not_true_iff_false, contains_key_dom, eq_None_not_Some. done.
Qed.

Section add_spec.
Context (validate_checksum : string → outcome unit).

Lemma filter_requests_spec t pkgs ae l :
  filter_package_requests validate_checksum t pkgs false ae = Ok l →
  l = filter (λ p, layered t p = false) pkgs ∧ (ae = false → Forall (λ p, layered t p = false) pkgs).
Proof.
  revert l. induction pkgs as [|p pkgs IH]; intros l; [intros [= <-]; by repeat constructor|].
  pose proof (eq_refl (layered t p)) as El. unfold layered in El at 2.
  rewrite filter_cons. cbn [filter_package_requests mbind outcome_bind].
  destruct (has_package t p) eqn:E1;
    [|destruct (has_local_package t p || has_local_fileoverride_package t p) eqn:E2].
  - rewrite decide_False by (intros ?; simpl in El; congruence).
    destruct ae; [|done]. intros [-> _]%IH. done.
  - rewrite decide_False by (intros ?; rewrite orb_false_l, E2 in El; congruence).
    destruct ae; [|done]. intros [-> _]%IH. done.
  - rewrite orb_false_l, E2 in El. rewrite decide_True by done.
    intros (r & Hr & [= <-])%bind_ok. apply IH in Hr as [-> Hf].
    split; [done|]. intros Hae. constructor; auto.
Qed.

Lemma add_packages_asks t pkgs ae changed t' :
  add_packages validate_checksum pkgs ae t = Ok (changed, t') →
  (∀ r, asks t' r ↔ asks t r ∨ ∃ p, r = RPackage p ∧ p ∈ pkgs ∧ layered t p = false) ∧
  (changed = true ↔ ∃ r, asks t' r ∧ ¬ asks t r) ∧
  (ae = false → Forall (λ p, layered t p = false) pkgs).
Proof.
  unfold add_packages. intros (l & Hl & [= <- <-])%bind_ok.
  apply filter_requests_spec in Hl as [-> Hae].
  set (l := filter _ pkgs).
  assert (∀ p, p ∈ l ↔ p ∈ pkgs ∧ layered t p = false) as Hl
    by (intros p; unfold l; rewrite list_elem_of_filter; tauto).
  assert (∀ r, asks (set_packages (Some (default ∅ (packages t) ∪ list_to_set l)) t) r ↔
    asks t r ∨ ∃ p, r = RPackage p ∧ p ∈ pkgs ∧ layered t p = false) as Hr.
  { intros [p| | | | |]; simpl; [|naive_solver..].
    rewrite elem_of_union, elem_of_list_to_set, Hl. naive_solver. }
  split_and!; [done| |done].
  rewrite negb_true_iff, bool_decide_eq_false. split.
  - intros Hsz. destruct l as [|p l'] eqn:E; [by rewrite list_to_set_nil, (right_id_L ∅ (∪)) in Hsz|].
    destruct (proj1 (Hl p) (list_elem_of_here _ _)) as [Hp Hlay].
    exists (RPackage p). split; [rewrite Hr; eauto|]. intros Ha%has_package_asks.
    unfold layered in Hlay. by rewrite Ha in Hlay.
  - intros (r & Hr1 & Hr2) Hsz. apply Hr in Hr1 as [?|(p & -> & Hp & Hlay)]; [done|].
    apply Hr2. simpl. assert (default ∅ (packages t) = default ∅ (packages t) ∪ list_to_set l) as ->.
    { apply set_subseteq_size_eq; [set_solver|lia]. }
    rewrite elem_of_union, elem_of_list_to_set, Hl. auto.
Qed.

(** Installing packages adds exactly those not layered yet as requests and changes
    nothing else; the flag says whether there was one, and without "allow existing" there
    is no duplicate. *)
Theorem add_packages_spec t pkgs ae changed t' :
  add_packages validate_checksum pkgs ae t = Ok (changed, t') →
  (∀ r, asks t' r ↔ asks t r ∨ ∃ p, r = RPackage p ∧ p ∈ pkgs ∧ layered t p = false) ∧
  (changed = true ↔ ∃ r, asks t' r ∧ ¬ asks t r) ∧
  (ae = false → Forall (λ p, layered t p = false) pkgs).
Proof. apply add_packages_asks. Qed.

End add_spec.

Definition is_package (p : string) (r : request) : bool :=
  match r with RPackage q => bool_decide (q = p) | _ => false end.
Definition is_local (n : string) (r : request) : bool :=
  match r with RLocal m _ => bool_decide (m = n) | _ => false end.
Definition is_fileoverride (n : string) (r : request) : bool :=
  match r with RFileOverride m _ => bool_decide (m = n) | _ => false end.

Lemma asks_del_package t p r :
  asks (set_packages (del_elem p (packages t)) t) r ↔ asks t r ∧ is_package p r = false.
Proof.
  destruct r as [q| | | | |]; simpl; [|naive_solver..].
  rewrite bool_decide_eq_false. destruct (packages t); simpl; set_solver.
Qed.

Lemma lookup_del_key n m s (o : option (gmap string string)) :
  default ∅ (del_key n o) !! m = Some s ↔ default ∅ o !! m = Some s ∧ bool_decide (m = n) = false.
Proof.
  rewrite bool_decide_eq_false. destruct o as [o|]; simpl; [|naive_solver].
  rewrite lookup_delete_Some. naive_solver.
Qed.

Lemma asks_del_local t n r :
  asks (set_packages_local (del_key n (packages_local t)) t) r ↔ asks t r ∧ is_local n r = false.
Proof. destruct r; simpl; [naive_solver|apply lookup_del_key|naive_solver..]. Qed.

Lemma asks_del_fileoverride t n r :
  asks (set_packages_local_fileoverride (del_key n (packages_local_fileoverride t)) t) r
  ↔ asks t r ∧ is_fileoverride n r = false.
Proof. destruct r; simpl; [naive_solver..|apply lookup_del_key|naive_solver|naive_solver|naive_solver]. Qed.

Section remove_spec.
Context (hy_split_nevra : string → option split_nevra).

(** The name a request can be removed by: itself, a NEVRA, or the name in a NEVRA. *)
Definition named (r : request) (p : string) : Prop :=
  match r with
  | RPackage q => q = p
  | RLocal n _ | RFileOverride n _ => n = p ∨ ∃ s, hy_split_nevra n = Some s ∧ sn_name s = p
  | _ => False
  end.

Definition removes (noent : bool) (pkgs : list string) (t t' : Treefile) : Prop :=
  (∀ r, asks t' r → asks t r) ∧
  (∀ r, asks t r → ¬ asks t' r → ∃ p, p ∈ pkgs ∧ named r p) ∧
  (∀ p, p ∈ pkgs → ¬ asks t' (RPackage p)) ∧
  (noent = false → ∀ p, p ∈ pkgs → ∃ r, named r p ∧ asks t r ∧ ¬ asks t' r).

(** One removal: [D] holds of the request that goes away. *)
Lemma removes_step noent p pkgs t t1 t' (D : request → bool) r0 :
  (∀ r, asks t1 r ↔ asks t r ∧ D r = false) → (∀ r, D r = true → named r p) →
  D r0 = true → asks t r0 → ¬ asks t1 (RPackage p) →
  removes noent pkgs t1 t' → removes noent (p :: pkgs) t t'.
Proof.
  intros H1 HD HD0 Hr0 Hp (S1 & S2 & S3 & S4). split_and!.
  - intros r Hr. by apply H1, S1.
  - intros r Hr Hn. destruct (D r) eqn:E.
    + exists p. split; [apply list_elem_of_here|auto].
    + destruct (S2 r) as (q & ? & ?); [by apply H1|done|]. exists q. split; [by right|done].
  - intros q [->|Hq]%elem_of_cons; [|auto]. intros ?. by apply Hp, S1.
  - intros Hne q [->|Hq]%elem_of_cons.
    + exists r0. split_and!; [auto|done|]. intros [_ ?]%S1%H1. congruence.
    + destruct (S4 Hne q Hq) as (r & ? & Hr%H1 & ?). exists r. tauto.
Qed.

(** The maps from names to NEVRAs that the loop builds. *)
Definition names_nevras (m : gmap string string) : Prop :=
  ∀ name nevra, m !! name = Some nevra → ∃ s, hy_split_nevra nevra = Some s ∧ sn_name s = name.

Lemma name_to_nevra_loop_spec l m m' : names_nevras m →
  name_to_nevra_loop hy_split_nevra l m = Ok m' →
  names_nevras m' ∧ ∀ name nevra, m' !! name = Some nevra → m !! name = Some nevra ∨ nevra ∈ l.
Proof.
  revert m. induction l as [|n l IH]; intros m Hm; simpl.
  - intros [= <-]. naive_solver.
  - destruct (hy_split_nevra n) as [s|] eqn:E; [|done]. intros [H1 H2]%IH.
    + split; [done|]. intros name nevra Hl. apply H2 in Hl as [[[_ <-]|[? ?]]%lookup_insert_Some|?];
      [right; left|by left|right; by right].
    + intros name nevra [[<- <-]|[? ?]]%lookup_insert_Some; eauto.
Qed.

Lemma get_lazy_spec lazy nevras m : (∀ m, lazy = Some m → names_nevras m) →
  get_lazy hy_split_nevra lazy nevras = Ok m → names_nevras m.
Proof.
  intros Hl. destruct lazy as [m'|]; simpl; [intros [= <-]; auto|].
  unfold build_name_to_nevra_map. intros [? _]%name_to_nevra_loop_spec; [done|].
  intros ?? []%lookup_empty_Some.
Qed.

Lemma removes_noop p pkgs t t' : ¬ asks t (RPackage p) → removes true pkgs t t' →
  removes true (p :: pkgs) t t'.
Proof.
  intros Hp (S1 & S2 & S3 & S4). split_and!; [done| | |done].
  - intros r Hr Hn. destruct (S2 r Hr Hn) as (q & ? & ?). exists q. split; [by right|done].
  - intros q [->|Hq]%elem_of_cons; [|auto]. intros ?. by apply Hp, S1.
Qed.

Lemma removal_case noent p pkgs t t1 t' (D : request → bool) r0 (changed changed' : bool) :
  (∀ r, asks t1 r ↔ asks t r ∧ D r = false) → (∀ r, D r = true → named r p) →
  D r0 = true → asks t r0 → ¬ asks t1 (RPackage p) →
  removes noent pkgs t1 t' ∧ (changed' = true ↔ true = true ∨ ∃ r, asks t1 r ∧ ¬ asks t' r) →
  removes noent (p :: pkgs) t t' ∧ (changed' = true ↔ changed = true ∨ ∃ r, asks t r ∧ ¬ asks t' r).
Proof.
  intros H1 HD HD0 Hr0 Hp [Hr Hc]. split; [by eapply removes_step|].
  split; [|intros _; apply Hc; by left]. intros _. right. exists r0. split; [done|].
  intros Hx. apply Hr, H1 in Hx. destruct Hx. congruence.
Qed.

Lemma remove_packages_loop_spec pkgs noent lazy lazyf changed t changed' t' :
  (∀ m, lazy = Some m → names_nevras m) → (∀ m, lazyf = Some m → names_nevras m) →
  remove_packages_loop hy_split_nevra pkgs noent lazy lazyf changed t = Ok (changed', t') →
  removes noent pkgs t t' ∧ (changed' = true ↔ changed = true ∨ ∃ r, asks t r ∧ ¬ asks t' r).
Proof.
  revert lazy lazyf changed t. induction pkgs as [|p pkgs IH]; intros lazy lazyf changed t Hl Hlf.
  { simpl. intros [= <- <-]. split.
    { split_and!; [done|done|by intros ? []%elem_of_nil|by intros ? ? []%elem_of_nil]. }
    split; [by left|]. by intros [?|(? & ? & ?)]. }
  cbn [remove_packages_loop]. destruct (has_package t p) eqn:Ep.
  { intros Hrec%IH; [|done..]. apply has_package_asks in Ep.
    eapply (removal_case _ _ _ _ _ _ (is_package p) (RPackage p)), Hrec; eauto using asks_del_package.
    - intros [] ?; simpl in *; [by case_bool_decide|done..].
    - by apply bool_decide_eq_true_2.
    - rewrite asks_del_package. simpl. intros [_ Hx]. by rewrite bool_decide_eq_true_2 in Hx. }
  assert (¬ asks t (RPackage p)) as Hnp by (by rewrite <-has_package_asks, Ep).
  assert (∀ n, has_local_package t n = true → (∀ s, named (RLocal n s) p) → ∀ lazy lazyf,
    (∀ m, lazy = Some m → names_nevras m) → (∀ m, lazyf = Some m → names_nevras m) →
    remove_packages_loop hy_split_nevra pkgs noent lazy lazyf true
      (set_packages_local (del_key n (packages_local t)) t) = Ok (changed', t') →
    removes noent (p :: pkgs) t t' ∧ (changed' = true ↔ changed = true ∨ ∃ r, asks t r ∧ ¬ asks t' r))
    as Hlocal.
  { intros n [s Hs]%contains_key_dom Hn lazy' lazyf' Hl' Hlf' Hrec%IH; [|done..].
    eapply (removal_case _ _ _ _ _ _ (is_local n) (RLocal n s)), Hrec; eauto using asks_del_local.
    - intros [] ?; simpl in *; [done| |done..]. case_bool_decide; subst; [apply (Hn sha256)|done].
    - by apply bool_decide_eq_true_2. }
  assert (∀ n, has_local_fileoverride_package t n = true → (∀ s, named (RFileOverride n s) p) → ∀ lazy lazyf,
    (∀ m, lazy = Some m → names_nevras m) → (∀ m, lazyf = Some m → names_nevras m) →
    remove_packages_loop hy_split_nevra pkgs noent lazy lazyf true
      (set_packages_local_fileoverride (del_key n (packages_local_fileoverride t)) t) = Ok (changed', t') →
    removes noent (p :: pkgs) t t' ∧ (changed' = true ↔ changed = true ∨ ∃ r, asks t r ∧ ¬ asks t' r))
    as Hfile.
  { intros n [s Hs]%contains_key_dom Hn lazy' lazyf' Hl' Hlf' Hrec%IH; [|done..].
    eapply (removal_case _ _ _ _ _ _ (is_fileoverride n) (RFileOverride n s)), Hrec;
      eauto using asks_del_fileoverride.
    - intros [] ?; simpl in *; [done..| |done|done|done]. case_bool_decide; subst; [apply (Hn sha256)|done].
    - by apply bool_decide_eq_true_2. }
  destruct (has_local_package t p) eqn:El; [apply Hlocal; [done|by left|done..]|].
  destruct (has_local_fileoverride_package t p) eqn:Ef; [apply Hfile; [done|by left|done..]|].
  intros (m & Em%get_lazy_spec & (mf & Emf%get_lazy_spec & Hrec)%bind_ok)%bind_ok; [|done..].
  assert (∀ m', Some m = Some m' → names_nevras m') as Hm by (by intros ? [= <-]).
  assert (∀ m', Some mf = Some m' → names_nevras m') as Hmf by (by intros ? [= <-]).
  destruct (m !! p) as [n|] eqn:En.
  - apply bind_ok in Hrec as (? & Hn & Hrec). unfold g_assert in Hn.
    destruct (has_local_package t n) eqn:E; [|done]. eapply Hlocal, Hrec; [done| |done..].
    intros s. right. by apply Em.
  - destruct (mf !! p) as [n|] eqn:En'.
    + apply bind_ok in Hrec as (? & Hn & Hrec). unfold g_assert in Hn.
      destruct (has_local_fileoverride_package t n) eqn:E; [|done]. eapply Hfile, Hrec; [done| |done..].
      intros s. right. by apply Emf.
    + destruct noent; [|done]. apply IH in Hrec as [Hr Hc]; [|done..].
      split; [by apply removes_noop|done].
Qed.

(** Uninstalling packages only takes requests away, each named by one of the arguments;
    no argument is requested afterwards; without "allow missing" each argument took one
    away, and the flag says whether anything was. *)
Theorem remove_packages_spec pkgs noent t changed t' :
  remove_packages hy_split_nevra pkgs noent t = Ok (changed, t') →
  removes noent pkgs t t' ∧ (changed = true ↔ ∃ r, asks t r ∧ ¬ asks t' r).
Proof.
  intros [Hr Hc]%remove_packages_loop_spec; [|done..]. split; [done|].
  rewrite Hc. split; [by intros [?|?]|by right].
Qed.

(** Removing requested packages, each once, cannot fail. *)
Lemma remove_packages_loop_requested pkgs noent lazy lazyf changed t s :
  NoDup pkgs → packages t = Some s → (∀ p, p ∈ pkgs → p ∈ s) →
  remove_packages_loop hy_split_nevra pkgs noent lazy lazyf changed t
  = Ok (changed || negb (bool_decide (pkgs = [])), set_packages (Some (s ∖ list_to_set pkgs)) t).
Proof.
  revert changed t s. induction pkgs as [|p pkgs IH]; intros changed t s Hnd Hs Hin.
  - rewrite list_to_set_nil, difference_empty_L. simpl. rewrite orb_false_r. destruct t; simpl in *. by subst.
  - apply NoDup_cons in Hnd as [Hp Hnd]. cbn [remove_packages_loop].
    assert (p ∈ s) as Hps by (apply Hin, list_elem_of_here).
    unfold has_package. rewrite Hs. cbn [opt_test].
    rewrite (bool_decide_eq_true_2 (p ∈ s)) by done. rewrite (IH _ _ (s ∖ {[p]})); [|done|done|].
    + rewrite orb_true_r. destruct t. unfold set_packages. simpl. by rewrite difference_difference_l_L.
    + intros q Hq. assert (q ≠ p) by (intros ->; done).
      apply elem_of_difference. split; [apply Hin; by right|by apply not_elem_of_singleton].
Qed.
End remove_spec.

(** ** Panics *)

Definition split_example (nevra : string) : option split_nevra :=
  match split_once "-" nevra with
  | Some (name, _) => Some (SplitNevra name 0 "1" "1" "x86_64")
  | None => None
  end.
Definition two_local_packages : Treefile :=
  set_packages_local (Some {["bar-1-1.x86_64"%string := "b"%string; "foo-1-1.x86_64"%string := "f"%string]})
    empty_treefile.

(** A local package named twice, or by its NEVRA and then by its name once the map of names
    exists, is a panic. *)
Lemma remove_packages_panics :
  remove_packages split_example ["foo"; "foo"]%string false two_local_packages = Abort ∧
  remove_packages split_example ["bar"; "foo-1-1.x86_64"; "foo"]%string false two_local_packages = Abort ∧
  remove_packages split_example ["foo-1-1.x86_64"; "foo"]%string true two_local_packages
  = Ok (true, set_packages_local (Some {["bar-1-1.x86_64"%string := "b"%string]}) empty_treefile).
Proof. split_and!; vm_compute; reflexivity. Qed.

(** * Replacements from repositories *)

(** The repository a package is replaced from: the last entry that names it. *)
Fixpoint replaced_from (p : string) (rev : list RemoteOverrideReplace) : option RemoteOverrideReplaceFrom :=
  match rev with
  | [] => None
  | o :: rev => if bool_decide (p ∈ ror_packages o) then Some (ror_from o) else replaced_from p rev
  end.

Definition disjoint_replacements (v : list RemoteOverrideReplace) : Prop :=
  ∀ i j a b, v !! i = Some a → v !! j = Some b → i ≠ j → ror_packages a ## ror_packages b.

Lemma retain_unseen_from seen rev p :
  replaced_from p (retain_unseen seen rev) = if bool_decide (p ∈ seen) then None else replaced_from p rev.
Proof.
  revert seen. induction rev as [|o rev IH]; intros seen; [simpl; by case_bool_decide|].
  cbn [retain_unseen]. set (o' := MkRemoteOverrideReplace _ _).
  assert (replaced_from p (if ror_is_empty o' then retain_unseen (ror_packages o ∪ seen) rev
    else o' :: retain_unseen (ror_packages o ∪ seen) rev)
    = if bool_decide (p ∈ ror_packages o ∖ seen) then Some (ror_from o)
      else replaced_from p (retain_unseen (ror_packages o ∪ seen) rev)) as ->.
  { unfold ror_is_empty, is_empty_set, o'. simpl. destruct (ror_from o) eqn:Eo.
    case_bool_decide as He; simpl; [|by rewrite ?Eo].
    rewrite He, bool_decide_eq_false_2; [done|]. apply not_elem_of_empty. }
  rewrite IH. simpl. repeat case_bool_decide; set_solver.
Qed.

Lemma retain_unseen_fresh seen rev o : o ∈ retain_unseen seen rev →
  ror_packages o ≠ ∅ ∧ ror_packages o ## seen.
Proof.
  revert seen. induction rev as [|o' rev IH]; intros seen; [by intros ?%elem_of_nil|].
  cbn [retain_unseen]. unfold ror_is_empty, is_empty_set. simpl. destruct (ror_from o') eqn:Eo.
  case_bool_decide as He.
  - intros [??]%IH. set_solver.
  - intros [->|[??]%IH]%elem_of_cons; simpl; [split; [done|]|]; set_solver.
Qed.

Lemma retain_unseen_disjoint seen rev : disjoint_replacements (retain_unseen seen rev).
Proof.
  revert seen. induction rev as [|o rev IH]; intros seen; [by intros ? ? ? ? ?|].
  cbn [retain_unseen]. case_match; [apply IH|]. set (o' := MkRemoteOverrideReplace _ _).
  assert (∀ b, b ∈ retain_unseen (ror_packages o ∪ seen) rev → ror_packages o' ## ror_packages b) as Ho.
  { intros b [_ Hb]%retain_unseen_fresh. unfold o'. simpl. set_solver. }
  intros [|i] [|j] a b Ha Hb Hij; simplify_eq/=; [..|eapply IH; eauto];
    apply list_elem_of_lookup_2 in Ha || apply list_elem_of_lookup_2 in Hb; [by apply Ho|symmetry; by apply Ho].
Qed.

Lemma disjoint_replacements_perm v w : w ≡ₚ v → disjoint_replacements v → disjoint_replacements w.
Proof.
  intros (Hlen & f & Hf & Hw)%Permutation_inj Hv i j a b Ha Hb Hij. rewrite Hw in Ha, Hb.
  eapply Hv; eauto.
Qed.

(** C40: appended replacements override earlier ones: each package is replaced from the last
    entry that names it, no package is named twice, and no entry is left empty. *)
Theorem override_replacements_last_wins v :
  let v' := handle_repo_packages_override_replacements v in
  (∀ p, replaced_from p (reverse v') = replaced_from p (reverse v)) ∧
  disjoint_replacements v' ∧ Forall (λ o, ror_packages o ≠ ∅) v'.
Proof.
  simpl. unfold handle_repo_packages_override_replacements. split_and!.
  - intros p. rewrite reverse_involutive, retain_unseen_from. by rewrite bool_decide_eq_false_2 by set_solver.
  - eapply disjoint_replacements_perm; [apply reverse_Permutation|apply retain_unseen_disjoint].
  - apply Forall_forall. intros o. rewrite elem_of_reverse. by intros [? _]%retain_unseen_fresh.
Qed.

Lemma replaced_from_app p v w :
  replaced_from p (v ++ w) = match replaced_from p v with Some f => Some f | None => replaced_from p w end.
Proof. induction v as [|o v IH]; [done|]. simpl. by case_bool_decide. Qed.

(** Merging keeps the receiver's replacement of a package: the repository the merged
    treefile gives for it is ignored. *)
Lemma merge_keeps_replacement dest src v p f : override_replace dest = Some v →
  replaced_from p (reverse v) = Some f →
  ∃ w, override_replace (treefile_merge dest src) = Some w ∧ replaced_from p (reverse w) = Some f.
Proof.
  intros Hv Hf. unfold treefile_merge. simpl. rewrite Hv. unfold merge_vec_field.
  destruct (override_replace src) as [s|]; simpl;
    (eexists; split; [reflexivity|]); unfold handle_repo_packages_override_replacements;
    rewrite reverse_involutive, retain_unseen_from, bool_decide_eq_false_2 by set_solver; [|done].
  by rewrite reverse_app, replaced_from_app, Hf.
Qed.

Definition requested_example : Treefile := set_packages (Some {["vim"%string]}) two_local_packages.

Lemma add_packages_spec_witness :
  add_packages (λ _, Ok tt) ["vim"; "htop"]%string true requested_example
  = Ok (true, set_packages (Some ({["vim"%string]} ∪ list_to_set ["htop"%string])) requested_example) ∧
  ∃ r, asks (set_packages (Some ({["vim"%string]} ∪ list_to_set ["htop"%string])) requested_example) r
    ∧ ¬ asks requested_example r.
Proof.
  assert (add_packages (λ _, Ok tt) ["vim"; "htop"]%string true requested_example
    = Ok (true, set_packages (Some ({["vim"%string]} ∪ list_to_set ["htop"%string])) requested_example)) as E
    by (vm_compute; reflexivity).
  split; [exact E|]. by apply (add_packages_spec _ _ _ _ _ _ E).
Defined.

Lemma remove_packages_spec_witness :
  remove_packages split_example ["vim"; "foo"]%string false requested_example
  = Ok (true, set_packages (Some ∅)
        (set_packages_local (Some {["bar-1-1.x86_64"%string := "b"%string]}) empty_treefile)) ∧
  ∃ r, asks requested_example r ∧ ¬ asks (set_packages (Some ∅)
        (set_packages_local (Some {["bar-1-1.x86_64"%string := "b"%string]}) empty_treefile)) r.
Proof.
  assert (remove_packages split_example ["vim"; "foo"]%string false requested_example
  = Ok (true, set_packages (Some ∅)
        (set_packages_local (Some {["bar-1-1.x86_64"%string := "b"%string]}) empty_treefile))) as E
    by (vm_compute; reflexivity).
  split; [exact E|]. by apply (remove_packages_spec _ _ _ _ _ _ E).
Defined.
