(* ===== verification/OriginFile.v ===== *)
(** The keyfile form of an origin, from [rust/src/origin.rs], and its round trip. GLib's
    syntax of the values in a key file is the class [KeyFileSyntax]. *)

From S2P Require Import Prelude Vardict Nevra RpmHeaders SysrootCore Refspec Origin.

(** * The keyfile *)

(** A [GKeyFile] as its groups, keys and raw values. *)
Abbreviation KeyFile := (gmap (string * string) string).

(** GLib's errors: the two codes for a missing group and a missing key, which the code
    treats alike, and the others. *)
Inductive keyfile_error := KfNotFound | KfError (e : gerror).

(** Characters that stand for themselves in a value: printable, neither the list
    separator nor the escape character. *)
Definition plain_char (c : ascii) : bool :=
  let n := N_of_ascii c in
  (32 <? n)%N && (n <? 127)%N && negb (Ascii.eqb c ";") && negb (Ascii.eqb c "\").
Definition plain (s : string) : bool := negb (bool_decide (s = ""%string)) && str_all plain_char s.

(** What [kf_set_string_list_optional] builds. *)
Definition list_value (vals : list string) : string :=
  foldr (λ elt v, elt +:+ ";" +:+ v) ""%string vals.

(** The value syntax of GLib: [g_key_file_set_string] and [g_key_file_get_string],
    [g_key_file_set_boolean] and [g_key_file_get_boolean], [g_key_file_get_string_list],
    and what their documentation says of a value that was set. *)
Class KeyFileSyntax := {
  value_of_string : string → string;
  string_of_value : string → keyfile_error + string;
  value_of_bool : bool → string;
  bool_of_value : string → keyfile_error + bool;
  list_of_value : string → keyfile_error + list string;
  string_of_value_of_string s : string_of_value (value_of_string s) = inr s;
  bool_of_value_of_bool b : bool_of_value (value_of_bool b) = inr b;
  list_of_value_plain vals : vals ≠ [] → forallb plain vals = true →
    list_of_value (list_value vals) = inr vals;
}.

Section keyfile.
Context `{KeyFileSyntax} (validate_checksum : string → outcome unit).

Definition kf_get {A} (parse : string → keyfile_error + A) (kf : KeyFile) (group key : string) :
    keyfile_error + A :=
  match kf !! (group, key) with Some v => parse v | None => inl KfNotFound end.

Definition map_keyfile_optional {A} (res : keyfile_error + A) : outcome (option A) :=
  match res with
  | inr v => Ok (Some v)
  | inl KfNotFound => Ok None
  | inl (KfError e) => Err e
  end.

Definition keyfile_get_optional_string (kf : KeyFile) (group key : string) : outcome (option string) :=
  map_keyfile_optional (kf_get string_of_value kf group key).
Definition parse_stringlist (kf : KeyFile) (group key : string) : outcome (option (list string)) :=
  map_keyfile_optional (kf_get list_of_value kf group key).
(** Collected into a [BTreeSet]. *)
Definition parse_stringset (kf : KeyFile) (group key : string) : outcome (option (gset string)) :=
  r ← parse_stringlist kf group key;
  Ok (match r with Some l => Some (list_to_set l) | None => None end).

Fixpoint localpkglist_loop (v : list string) (r : gmap string string) : outcome (gmap string string) :=
  match v with
  | [] => Ok r
  | s :: v =>
      '(nevra, sha256) ← decompose_sha256_nevra validate_checksum s;
      localpkglist_loop v (<[nevra := sha256]> r)
  end.
Definition parse_localpkglist (kf : KeyFile) (group key : string) :
    outcome (option (gmap string string)) :=
  l ← parse_stringlist kf group key;
  match l with
  | Some v => r ← localpkglist_loop v ∅; Ok (Some r)
  | None => Ok None
  end.

(** [str::split], which gives at least one piece. *)
Fixpoint str_split (d : ascii) (s : string) : string * list string :=
  match s with
  | EmptyString => (""%string, [])
  | String c s =>
      let '(h, t) := str_split d s in
      if Ascii.eqb c d then (""%string, h :: t) else (String c h, t)
  end.

Definition parse_override_source (source : string) : outcome string :=
  prefix_error ("Parsing override source '" +:+ source +:+ "'")
  match split_once "=" source with
  | None => glnx_throw "Not in KIND=NAME format"
  | Some (kind_label, name) =>
      if negb (bool_decide (kind_label = "repo"%string))
      then glnx_throw ("Invalid kind '" +:+ kind_label +:+ "'")
      else if bool_decide (name = ""%string) then glnx_throw "Empty name"
      else Ok name
  end.

Fixpoint override_replace_loop (strv : list string) : outcome (list RemoteOverrideReplace) :=
  match strv with
  | [] => Ok []
  | s :: strv =>
      let '(from, split) := str_split "," s in
      repo ← parse_override_source from;
      rest ← override_replace_loop strv;
      Ok (MkRemoteOverrideReplace (Repo repo) (list_to_set split) :: rest)
  end.

Definition ORIGIN : string := "origin".
Definition RPMOSTREE : string := "rpmostree".
Definition PACKAGES : string := "packages".
Definition OVERRIDES : string := "overrides".
Definition ORIGIN_CONTAINER : string := "container-image-reference".

(** The initramfs is set when any of its three keys says something. *)
Definition parse_initramfs (kf : KeyFile) : outcome (option DeriveInitramfs) :=
  let regenerate_initramfs :=
    match kf_get bool_of_value kf RPMOSTREE "regenerate-initramfs" with inr b => b | inl _ => false end in
  initramfs_etc ← parse_stringset kf RPMOSTREE "initramfs-etc";
  initramfs_args ← parse_stringlist kf RPMOSTREE "initramfs-args";
  Ok (if regenerate_initramfs || nonnull initramfs_etc || nonnull initramfs_args
      then Some (MkDeriveInitramfs regenerate_initramfs initramfs_etc initramfs_args) else None).

Definition parse_custom (kf : KeyFile) : outcome (option DeriveCustom) :=
  url ← keyfile_get_optional_string kf ORIGIN "custom-url";
  match url with
  | None => Ok None
  | Some url =>
      description ← keyfile_get_optional_string kf ORIGIN "custom-description";
      Ok (Some (MkDeriveCustom url description))
  end.

(** The refspec and the container image reference: exactly one is set. *)
Definition parse_base (kf : KeyFile) : outcome (option string * option string) :=
  refspec ← keyfile_get_optional_string kf ORIGIN "refspec";
  base_refspec ←
    match refspec with
    | Some r => Ok (Some r)
    | None => keyfile_get_optional_string kf ORIGIN "baserefspec"
    end;
  container_image_reference ← keyfile_get_optional_string kf ORIGIN ORIGIN_CONTAINER;
  match base_refspec, container_image_reference with
  | Some _, Some _ => glnx_throw ("Found both refspec/baserefspec and " +:+ ORIGIN_CONTAINER)
  | None, None => glnx_throw ("Failed to find refspec/baserefspec/" +:+ ORIGIN_CONTAINER +:+ " in origin")
  | b, c => Ok (b, c)
  end.

Definition origin_to_treefile_inner (kf : KeyFile) : outcome Treefile :=
  prefix_error "Parsing origin" (
    '(base_refspec, container_image_reference) ← parse_base kf;
    packages ← parse_stringset kf PACKAGES "requested";
    packages_local ← parse_localpkglist kf PACKAGES "requested-local";
    packages_local_fileoverride ← parse_localpkglist kf PACKAGES "requested-local-fileoverride";
    override_remove ← parse_stringset kf OVERRIDES "remove";
    override_replace_local ← parse_localpkglist kf OVERRIDES "replace-local";
    unconfigured_state ← keyfile_get_optional_string kf ORIGIN "unconfigured-state";
    strv ← parse_stringlist kf OVERRIDES "replace";
    override_replace ←
      match strv with
      | Some strv => v ← override_replace_loop strv; Ok (Some v)
      | None => Ok None
      end;
    initramfs ← parse_initramfs kf;
    custom ← parse_custom kf;
    ex_cliwrap ← map_keyfile_optional (kf_get bool_of_value kf RPMOSTREE "ex-cliwrap");
    override_commit ← keyfile_get_optional_string kf ORIGIN "override-commit";
    Ok (MkTreefile packages base_refspec container_image_reference packages_local
          packages_local_fileoverride override_remove override_replace override_replace_local
          initramfs custom override_commit unconfigured_state
          (if default false ex_cliwrap then Some true else None) None)).

(** ** Writing *)

Definition kf_set_string (group key v : string) (kf : KeyFile) : KeyFile :=
  <[(group, key) := value_of_string v]> kf.
Definition kf_set_boolean (group key : string) (b : bool) (kf : KeyFile) : KeyFile :=
  <[(group, key) := value_of_bool b]> kf.

Definition kf_set_string_list_optional (group key : string) (vals : list string) (kf : KeyFile) : KeyFile :=
  let v := list_value vals in
  if bool_decide (v = ""%string) then kf else <[(group, key) := v]> kf.
Definition set_sha256_nevra_pkgs (group key : string) (pkgs : gmap string string) (kf : KeyFile) : KeyFile :=
  kf_set_string_list_optional group key ((λ '(nevra, sha256), sha256 +:+ ":" +:+ nevra) <$> bmap_iter pkgs) kf.

(** [if let Some(x) = o { f(x, kf) }]. *)
Definition when_some {A} (o : option A) (f : A → KeyFile → KeyFile) (kf : KeyFile) : KeyFile :=
  match o with Some a => f a kf | None => kf end.

Definition from_to_string (f : RemoteOverrideReplaceFrom) : string :=
  match f with Repo r => "repo=" +:+ r end.
Definition override_to_string (o : RemoteOverrideReplace) : string :=
  String.concat "," (from_to_string (ror_from o) :: bset_iter (ror_packages o)).

Definition write_initramfs (i : DeriveInitramfs) (kf : KeyFile) : KeyFile :=
  let kf := if di_regenerate i then kf_set_boolean RPMOSTREE "regenerate-initramfs" true kf else kf in
  let kf := when_some (di_etc i)
              (λ etc, kf_set_string_list_optional RPMOSTREE "initramfs-etc" (bset_iter etc)) kf in
  when_some (di_args i) (λ args, kf_set_string_list_optional RPMOSTREE "initramfs-args" args) kf.

Definition write_custom (c : DeriveCustom) (kf : KeyFile) : KeyFile :=
  when_some (dc_description c) (λ desc, kf_set_string ORIGIN "custom-description" desc)
    (kf_set_string ORIGIN "custom-url" (dc_url c) kf).

Definition write_base (tf : Treefile) (kf : KeyFile) : outcome KeyFile :=
  match base_refspec tf, container_image_reference tf with
  | Some r, _ =>
      Ok (kf_set_string ORIGIN (if may_require_local_assembly tf then "baserefspec" else "refspec") r kf)
  | None, Some r => Ok (kf_set_string ORIGIN ORIGIN_CONTAINER r kf)
  | None, None => Abort
  end.

Definition treefile_to_origin_inner (tf : Treefile) : outcome KeyFile :=
  prefix_error "Parsing treefile origin" (
    kf ← write_base tf ∅;
    let kf := when_some (packages tf) (λ pkgs,
                kf_set_string_list_optional PACKAGES "requested" (bset_iter pkgs)) kf in
    let kf := when_some (packages_local tf) (set_sha256_nevra_pkgs PACKAGES "requested-local") kf in
    let kf := when_some (packages_local_fileoverride tf)
                (set_sha256_nevra_pkgs PACKAGES "requested-local-fileoverride") kf in
    let kf := when_some (override_remove tf) (λ pkgs,
                kf_set_string_list_optional OVERRIDES "remove" (bset_iter pkgs)) kf in
    let kf := when_some (override_replace_local tf) (set_sha256_nevra_pkgs OVERRIDES "replace-local") kf in
    let kf := when_some (override_replace tf) (λ v,
                kf_set_string_list_optional OVERRIDES "replace" (override_to_string <$> v)) kf in
    let kf := when_some (initramfs tf) write_initramfs kf in
    let kf := when_some (custom tf) write_custom kf in
    let kf := if default false (cliwrap tf) then kf_set_boolean RPMOSTREE "ex-cliwrap" true kf else kf in
    Ok (when_some (override_commit tf) (kf_set_string ORIGIN "override-commit") kf)).
End keyfile.

(** ** Comparing values *)

Definition UNORDERED_LIST_KEYS : list string :=
  ["packages/requested"; "packages/local"; "packages/local-fileoverride";
   "overrides/remove"; "overrides/replace-local"]%string.

Definition kf_diff_value (group key a b : string) : bool :=
  bool_decide (a = b)
  || (bool_decide ((group +:+ "/" +:+ key) ∈ UNORDERED_LIST_KEYS)
      && bool_decide (list_to_set (C := gset string) (let '(h, t) := str_split ";" a in h :: t)
                      = list_to_set (let '(h, t) := str_split ";" b in h :: t))).

(** * The round trip through a keyfile *)

(** What a keyfile does not record: empty lists, an initramfs with nothing to say, the
    unconfigured state, and fields no origin has. *)
Definition keep_set (o : option (gset string)) : option (gset string) :=
  match o with Some s => if is_empty_set s then None else Some s | None => None end.
Definition keep_map (o : option (gmap string string)) : option (gmap string string) :=
  match o with Some m => if is_empty_map m then None else Some m | None => None end.
Definition keep_list {A} (o : option (list A)) : option (list A) :=
  match o with Some [] => None | o => o end.
Definition keep_initramfs (o : option DeriveInitramfs) : option DeriveInitramfs :=
  match o with
  | Some i =>
      if di_regenerate i || nonnull (keep_set (di_etc i)) || nonnull (keep_list (di_args i))
      then Some (MkDeriveInitramfs (di_regenerate i) (keep_set (di_etc i)) (keep_list (di_args i)))
      else None
  | None => None
  end.
Definition recorded (tf : Treefile) : Treefile :=
  MkTreefile (keep_set (packages tf)) (base_refspec tf)
    (match base_refspec tf with Some _ => None | None => container_image_reference tf end)
    (keep_map (packages_local tf)) (keep_map (packages_local_fileoverride tf))
    (keep_set (override_remove tf)) (keep_list (override_replace tf))
    (keep_map (override_replace_local tf)) (keep_initramfs (initramfs tf)) (custom tf)
    (override_commit tf) None (if default false (cliwrap tf) then Some true else None) None.

(** The entries that can be written: plain strings, checksums that are valid, no
    separator inside an item. *)
Definition plain_set (o : option (gset string)) : bool :=
  opt_test (λ s, forallb plain (bset_iter s)) o || negb (nonnull o).
Definition no_char (c : ascii) (s : string) : bool := str_all (λ d, negb (Ascii.eqb d c)) s.
Definition plain_local (validate_checksum : string → outcome unit) '((nevra, sha256) : string * string) : bool :=
  plain nevra && plain sha256 && no_char ":" sha256 && is_ok (validate_checksum sha256).
Definition plain_map validate_checksum (o : option (gmap string string)) : bool :=
  opt_test (λ m, forallb (plain_local validate_checksum) (bmap_iter m)) o || negb (nonnull o).
Definition plain_override (o : RemoteOverrideReplace) : bool :=
  match ror_from o with Repo r => plain r && no_char "," r end
  && forallb (λ p, plain p && no_char "," p) (bset_iter (ror_packages o)).
Definition plain_treefile validate_checksum (tf : Treefile) : bool :=
  (nonnull (base_refspec tf) || nonnull (container_image_reference tf))
  && plain_set (packages tf)
  && plain_map validate_checksum (packages_local tf)
  && plain_map validate_checksum (packages_local_fileoverride tf)
  && plain_set (override_remove tf)
  && plain_map validate_checksum (override_replace_local tf)
  && forallb plain_override (default [] (override_replace tf))
  && plain_set (match initramfs tf with Some i => di_etc i | None => None end)
  && forallb plain (match initramfs tf with Some i => default [] (di_args i) | None => [] end).

Lemma split_once_spec d s t : no_char d s = true → split_once d (s +:+ String d t) = Some (s, t).
Proof.
  induction s as [|c s IH]; intros Hs.
  - change ("" +:+ String d t) with (String d t). simpl. by rewrite Ascii.eqb_refl.
  - rewrite str_app_cons. unfold no_char in *. simpl in *. apply andb_true_iff in Hs as [Hc Hs].
    apply negb_true_iff in Hc. by rewrite Hc, IH.
Qed.

Lemma str_split_none d s : no_char d s = true → str_split d s = (s, []).
Proof.
  unfold no_char. induction s as [|c s IH]; [done|]. simpl. intros [Hc Hs]%andb_true_iff.
  apply negb_true_iff in Hc. by rewrite IH, Hc.
Qed.

Lemma str_split_app d s t h r : no_char d s = true → str_split d t = (h, r) →
  str_split d (s +:+ String d t) = (s, h :: r).
Proof.
  intros Hs Ht. induction s as [|c s IH].
  - change ("" +:+ String d t) with (String d t). simpl. by rewrite Ht, Ascii.eqb_refl.
  - rewrite str_app_cons. unfold no_char in *. simpl in *. apply andb_true_iff in Hs as [Hc Hs].
    apply negb_true_iff in Hc. by rewrite IH, Hc.
Qed.

Lemma str_split_concat d x xs : Forall (λ y, no_char d y = true) (x :: xs) →
  str_split d (String.concat (String d "") (x :: xs)) = (x, xs).
Proof.
  revert x. induction xs as [|y xs IH]; intros x [Hx Hxs]%Forall_cons.
  - by apply str_split_none.
  - change (String.concat (String d "") (x :: y :: xs))
      with (x +:+ String d (String.concat (String d "") (y :: xs))).
    apply str_split_app; [done|]. by apply IH.
Qed.

Section roundtrip.
Context `{KeyFileSyntax} (validate_checksum : string → outcome unit).

Lemma list_value_nil vals : list_value vals = ""%string ↔ vals = [].
Proof.
  split; [|by intros ->]. destruct vals as [|[|c v] vals]; [done|done|].
  simpl. by rewrite str_app_cons.
Qed.

Lemma localpkglist_loop_ok l r : forallb (plain_local validate_checksum) l = true → NoDup l.*1 →
  localpkglist_loop validate_checksum ((λ '(nevra, sha256), sha256 +:+ ":" +:+ nevra) <$> l) r
  = Ok (list_to_map l ∪ r).
Proof.
  revert r. induction l as [|[nevra sha] l IH]; intros r Hl Hnd.
  - simpl. by rewrite (left_id_L ∅ (∪)).
  - simpl in *. apply andb_true_iff in Hl as [Hp Hl]. apply NoDup_cons in Hnd as [Hn Hnd].
    unfold plain_local in Hp. rewrite !andb_true_iff in Hp. destruct Hp as [[[_ _] Hc] Hv].
    unfold decompose_sha256_nevra. change (sha +:+ ":" +:+ nevra) with (sha +:+ String ":" nevra).
    rewrite split_once_spec by done. destruct (validate_checksum sha); [|done..]. simpl.
    rewrite IH by done. f_equal. rewrite <-insert_union_l, insert_union_r; [done|].
    by apply not_elem_of_list_to_map.
Qed.

Lemma override_replace_loop_ok v : forallb plain_override v = true →
  override_replace_loop (override_to_string <$> v) = Ok v.
Proof.
  induction v as [|[[r] ps] v IH]; [done|]. intros [Ho Hv]%andb_true_iff.
  rewrite fmap_cons. cbn [override_replace_loop]. rewrite (IH Hv).
  unfold plain_override in Ho. simpl in Ho. rewrite !andb_true_iff in Ho.
  destruct Ho as [[Hr Hrc] Hps]. unfold override_to_string. simpl ror_from. simpl ror_packages.
  rewrite str_split_concat.
  - unfold parse_override_source, from_to_string.
    change ("repo=" +:+ r) with ("repo" +:+ String "=" r). rewrite split_once_spec by done. simpl.
    unfold plain in Hr. rewrite andb_true_iff in Hr. destruct Hr as [Hr _].
    case_bool_decide; [done|]. simpl. by rewrite bset_iter_set.
  - constructor; [done|]. apply Forall_forall. intros p Hp.
    apply forallb_True in Hps || rewrite forallb_forall in Hps.
    apply list_elem_of_In in Hp. specialize (Hps _ Hp). by apply andb_true_iff in Hps as [_ ?].
Qed.

Lemma when_some_ne {A} (o : option A) (f : A → KeyFile → KeyFile) (kf : KeyFile) (gk : string * string) :
  (∀ a kf, f a kf !! gk = kf !! gk) → when_some o f kf !! gk = kf !! gk.
Proof. by destruct o; simpl. Qed.

Lemma set_list_ne (g k : string) (vals : list string) (kf : KeyFile) (gk : string * string) :
  gk ≠ (g, k) → kf_set_string_list_optional g k vals kf !! gk = kf !! gk.
Proof.
  intros Hne. unfold kf_set_string_list_optional. case_bool_decide; [done|].
  by rewrite lookup_insert_ne.
Qed.

Lemma set_sha256_ne (g k : string) (m : gmap string string) (kf : KeyFile) (gk : string * string) :
  gk ≠ (g, k) → set_sha256_nevra_pkgs g k m kf !! gk = kf !! gk.
Proof. apply set_list_ne. Qed.

Lemma set_string_ne (g k v : string) (kf : KeyFile) (gk : string * string) :
  gk ≠ (g, k) → kf_set_string g k v kf !! gk = kf !! gk.
Proof. intros Hne. by apply lookup_insert_ne. Qed.

Lemma set_boolean_ne (g k : string) (b : bool) (kf : KeyFile) (gk : string * string) :
  gk ≠ (g, k) → kf_set_boolean g k b kf !! gk = kf !! gk.
Proof. intros Hne. by apply lookup_insert_ne. Qed.

Lemma set_boolean_if_ne (c : bool) (g k : string) (b : bool) (kf : KeyFile) (gk : string * string) :
  gk ≠ (g, k) → (if c then kf_set_boolean g k b kf else kf) !! gk = kf !! gk.
Proof. destruct c; [apply set_boolean_ne|done]. Qed.

(** Lookups under other keys go through every write. *)
Ltac kf_other :=
  repeat first
    [ rewrite when_some_ne by (intros; unfold write_initramfs, write_custom; kf_other; reflexivity)
    | rewrite set_list_ne by discriminate
    | rewrite set_sha256_ne by discriminate
    | rewrite set_string_ne by discriminate
    | rewrite set_boolean_if_ne by discriminate
    | rewrite set_boolean_ne by discriminate ].

(** Everything [treefile_to_origin_inner] writes after the refspec. *)
Definition write_rest (tf : Treefile) (kf : KeyFile) : KeyFile :=
  let kf := when_some (packages tf) (λ pkgs,
              kf_set_string_list_optional PACKAGES "requested" (bset_iter pkgs)) kf in
  let kf := when_some (packages_local tf) (set_sha256_nevra_pkgs PACKAGES "requested-local") kf in
  let kf := when_some (packages_local_fileoverride tf)
              (set_sha256_nevra_pkgs PACKAGES "requested-local-fileoverride") kf in
  let kf := when_some (override_remove tf) (λ pkgs,
              kf_set_string_list_optional OVERRIDES "remove" (bset_iter pkgs)) kf in
  let kf := when_some (override_replace_local tf) (set_sha256_nevra_pkgs OVERRIDES "replace-local") kf in
  let kf := when_some (override_replace tf) (λ v,
              kf_set_string_list_optional OVERRIDES "replace" (override_to_string <$> v)) kf in
  let kf := when_some (initramfs tf) write_initramfs kf in
  let kf := when_some (custom tf) write_custom kf in
  let kf := if default false (cliwrap tf) then kf_set_boolean RPMOSTREE "ex-cliwrap" true kf else kf in
  when_some (override_commit tf) (kf_set_string ORIGIN "override-commit") kf.

Lemma get_string_lookup (kf : KeyFile) (g k : string) (o : option string) :
  kf !! (g, k) = value_of_string <$> o → keyfile_get_optional_string kf g k = Ok o.
Proof.
  intros E. unfold keyfile_get_optional_string, kf_get. rewrite E.
  destruct o; simpl; [by rewrite string_of_value_of_string|done].
Qed.

Lemma list_written {A} (o : option A) (f : A → list string) (g k : string) (kf : KeyFile) :
  kf !! (g, k) = None →
  when_some o (λ a, kf_set_string_list_optional g k (f a)) kf !! (g, k)
  = list_value <$> keep_list (f <$> o).
Proof.
  intros Hk. destruct o as [a|]; [|done]. simpl. unfold kf_set_string_list_optional.
  destruct (f a) as [|x l] eqn:E; [done|]. rewrite bool_decide_eq_false_2; [by rewrite lookup_insert_eq|].
  by rewrite list_value_nil.
Qed.

Lemma stringlist_lookup (kf : KeyFile) (g k : string) (o : option (list string)) :
  kf !! (g, k) = list_value <$> keep_list o → forallb plain (default [] o) = true →
  parse_stringlist kf g k = Ok (keep_list o).
Proof.
  intros E Hp. unfold parse_stringlist, kf_get. rewrite E.
  destruct o as [[|x l]|]; [done| |done]. simpl keep_list. cbn [fmap option_fmap option_map].
  by rewrite list_of_value_plain.
Qed.
(** ** What is written under each key *)

Definition base_keys : list (string * string) :=
  [(ORIGIN, "refspec"); (ORIGIN, "baserefspec"); (ORIGIN, ORIGIN_CONTAINER)]%string.

Section written.
Context (tf : Treefile) (kf : KeyFile) (Hkf : ∀ gk, gk ∉ base_keys → kf !! gk = None).

Ltac fresh_key := apply Hkf; unfold base_keys; set_solver.
Ltac written := unfold write_rest; kf_other; first [apply list_written | idtac]; kf_other; try fresh_key.

Lemma write_rest_base gk : gk ∈ base_keys → write_rest tf kf !! gk = kf !! gk.
Proof.
  unfold base_keys. intros Hk. unfold write_rest.
  repeat (apply elem_of_cons in Hk as [->|Hk]; [by kf_other|]). by apply elem_of_nil in Hk.
Qed.

Lemma written_packages :
  write_rest tf kf !! (PACKAGES, "requested"%string) = list_value <$> keep_list (bset_iter <$> packages tf).
Proof. written. Qed.

Definition sha256_nevra_items (m : gmap string string) : list string :=
  (λ '(nevra, sha256), sha256 +:+ ":" +:+ nevra) <$> bmap_iter m.

Lemma written_local :
  write_rest tf kf !! (PACKAGES, "requested-local"%string)
  = list_value <$> keep_list (sha256_nevra_items <$> packages_local tf).
Proof. unfold write_rest; kf_other. apply (list_written _ sha256_nevra_items). kf_other. fresh_key. Qed.

Lemma written_fileoverride :
  write_rest tf kf !! (PACKAGES, "requested-local-fileoverride"%string)
  = list_value <$> keep_list (sha256_nevra_items <$> packages_local_fileoverride tf).
Proof. unfold write_rest; kf_other. apply (list_written _ sha256_nevra_items). kf_other. fresh_key. Qed.

Lemma written_remove :
  write_rest tf kf !! (OVERRIDES, "remove"%string) = list_value <$> keep_list (bset_iter <$> override_remove tf).
Proof. written. Qed.

Lemma written_replace_local :
  write_rest tf kf !! (OVERRIDES, "replace-local"%string)
  = list_value <$> keep_list (sha256_nevra_items <$> override_replace_local tf).
Proof. unfold write_rest; kf_other. apply (list_written _ sha256_nevra_items). kf_other. fresh_key. Qed.

Lemma written_replace :
  write_rest tf kf !! (OVERRIDES, "replace"%string)
  = list_value <$> keep_list (fmap (M := list) override_to_string <$> override_replace tf).
Proof. written. Qed.

Lemma written_unconfigured : write_rest tf kf !! (ORIGIN, "unconfigured-state"%string) = None.
Proof. written. Qed.

Lemma written_commit :
  write_rest tf kf !! (ORIGIN, "override-commit"%string) = value_of_string <$> override_commit tf.
Proof.
  unfold write_rest. destruct (override_commit tf); simpl; [by apply lookup_insert_eq|].
  kf_other. fresh_key.
Qed.

Lemma written_cliwrap :
  write_rest tf kf !! (RPMOSTREE, "ex-cliwrap"%string)
  = (if default false (cliwrap tf) then Some (value_of_bool true) else None).
Proof.
  unfold write_rest. kf_other. destruct (default false (cliwrap tf)); [by apply lookup_insert_eq|].
  kf_other. fresh_key.
Qed.

Lemma written_initramfs_etc :
  write_rest tf kf !! (RPMOSTREE, "initramfs-etc"%string)
  = list_value <$> keep_list (bset_iter <$> (initramfs tf ≫= di_etc)).
Proof.
  unfold write_rest. kf_other. destruct (initramfs tf) as [i|]; simpl; [|kf_other; fresh_key].
  unfold write_initramfs. kf_other. apply list_written. kf_other. fresh_key.
Qed.

Lemma written_initramfs_args :
  write_rest tf kf !! (RPMOSTREE, "initramfs-args"%string)
  = list_value <$> keep_list (initramfs tf ≫= di_args).
Proof.
  unfold write_rest. kf_other. destruct (initramfs tf) as [i|]; simpl; [|kf_other; fresh_key].
  unfold write_initramfs. rewrite <-(option_fmap_id (di_args i)) at 2.
  apply (list_written _ id). kf_other. fresh_key.
Qed.

Lemma written_regenerate :
  write_rest tf kf !! (RPMOSTREE, "regenerate-initramfs"%string)
  = (if get_initramfs_regenerate tf then Some (value_of_bool true) else None).
Proof.
  unfold write_rest, get_initramfs_regenerate. kf_other.
  destruct (initramfs tf) as [i|]; simpl; [|kf_other; fresh_key].
  unfold write_initramfs. kf_other. destruct (di_regenerate i); [by apply lookup_insert_eq|].
  kf_other. fresh_key.
Qed.

Lemma written_custom_url :
  write_rest tf kf !! (ORIGIN, "custom-url"%string) = value_of_string <$> (dc_url <$> custom tf).
Proof.
  unfold write_rest. kf_other. destruct (custom tf) as [c|]; simpl; [|kf_other; fresh_key].
  unfold write_custom. kf_other. by apply lookup_insert_eq.
Qed.

Lemma written_custom_description :
  write_rest tf kf !! (ORIGIN, "custom-description"%string)
  = value_of_string <$> (custom tf ≫= dc_description).
Proof.
  unfold write_rest. kf_other. destruct (custom tf) as [c|]; simpl; [|kf_other; fresh_key].
  unfold write_custom. destruct (dc_description c); simpl; [by apply lookup_insert_eq|].
  kf_other. fresh_key.
Qed.
End written.

(** ** Reading back what was written *)

Lemma read_set (kf : KeyFile) (g k : string) (o : option (gset string)) :
  kf !! (g, k) = list_value <$> keep_list (bset_iter <$> o) → plain_set o = true →
  parse_stringset kf g k = Ok (keep_set o).
Proof.
  intros E Hp. unfold parse_stringset. rewrite (stringlist_lookup _ _ _ _ E).
  - destruct o as [x|]; [|done]. simpl. unfold is_empty_set. destruct (bset_iter x) eqn:Ex.
    + apply bset_iter_nil in Ex as ->. done.
    + rewrite bool_decide_eq_false_2; [by rewrite <-Ex, bset_iter_set|].
      by rewrite <-bset_iter_nil, Ex.
  - destruct o; [|done]. by apply orb_true_iff in Hp as [Hp|?].
Qed.

Lemma plain_app s t : plain s = true → str_all plain_char t = true → plain (s +:+ t) = true.
Proof.
  unfold plain. rewrite !andb_true_iff, str_all_app. intros [Hs Hp] Ht.
  rewrite Hp, Ht. split; [|done]. by destruct s.
Qed.

Lemma plain_local_item nevra sha256 : plain_local validate_checksum (nevra, sha256) = true →
  plain (sha256 +:+ ":" +:+ nevra) = true.
Proof.
  unfold plain_local. rewrite !andb_true_iff. intros [[[Hn Hs] _] _]. apply plain_app; [done|].
  unfold plain in Hn. apply andb_true_iff in Hn as [_ Hn]. by rewrite str_all_app, Hn.
Qed.

Lemma read_map (kf : KeyFile) (g k : string) (o : option (gmap string string)) :
  kf !! (g, k) = list_value <$> keep_list (sha256_nevra_items <$> o) →
  plain_map validate_checksum o = true →
  parse_localpkglist validate_checksum kf g k = Ok (keep_map o).
Proof.
  intros E Hp. unfold parse_localpkglist. rewrite (stringlist_lookup _ _ _ _ E).
  - destruct o as [m|]; [|done]. apply orb_true_iff in Hp as [Hp|?]; [|done]. simpl in *.
    pose proof (localpkglist_loop_ok (bmap_iter m) ∅ Hp) as Hl.
    rewrite bmap_iter_map, (right_id_L ∅ (∪)), bmap_iter_fst in Hl.
    specialize (Hl (bset_iter_nodup _)). unfold is_empty_map. destruct (bmap_iter m) eqn:Em.
    + apply bmap_iter_nil in Em as ->. unfold sha256_nevra_items. done.
    + rewrite bool_decide_eq_false_2 by (by rewrite <-bmap_iter_nil, Em).
      unfold sha256_nevra_items. rewrite Em. simpl. simpl in Hl. by rewrite Hl.
  - destruct o as [m|]; [|done]. apply orb_true_iff in Hp as [Hp|?]; [|done]. simpl in *.
    unfold sha256_nevra_items. rewrite forallb_forall in Hp |- *. intros x Hx.
    apply list_elem_of_In, list_elem_of_fmap in Hx as ([n v] & -> & Hin).
    apply plain_local_item, Hp. by apply list_elem_of_In.
Qed.

Lemma plain_concat x xs : plain x = true → forallb plain xs = true →
  plain (String.concat "," (x :: xs)) = true.
Proof.
  intros Hx. rewrite str_concat_cons. intros Hxs. apply plain_app; [done|]. clear x Hx.
  induction xs as [|y xs IH]; [done|]. simpl in *. apply andb_true_iff in Hxs as [Hy Hxs].
  unfold plain in Hy. apply andb_true_iff in Hy as [_ Hy]. by rewrite !str_all_app, Hy, IH.
Qed.

Lemma plain_override_string o : plain_override o = true → plain (override_to_string o) = true.
Proof.
  destruct o as [[r] ps]. unfold plain_override, override_to_string. simpl ror_from. simpl ror_packages.
  rewrite !andb_true_iff. intros [[Hr _] Hps]. apply plain_concat.
  - apply (plain_app "repo="); [done|]. unfold plain in Hr. by apply andb_true_iff in Hr as [_ ?].
  - rewrite forallb_forall in Hps |- *. intros p Hp. specialize (Hps p Hp).
    by apply andb_true_iff in Hps as [? _].
Qed.

Lemma read_replace (kf : KeyFile) (o : option (list RemoteOverrideReplace)) :
  kf !! (OVERRIDES, "replace"%string) = list_value <$> keep_list (fmap (M := list) override_to_string <$> o) →
  forallb plain_override (default [] o) = true →
  (strv ← parse_stringlist kf OVERRIDES "replace";
   match strv with Some strv => v ← override_replace_loop strv; Ok (Some v) | None => Ok None end)
  = Ok (keep_list o).
Proof.
  intros E Hp. rewrite (stringlist_lookup _ _ _ _ E).
  - destruct o as [v|]; [|done]. simpl in Hp. apply override_replace_loop_ok in Hp.
    destruct v as [|x v]; [done|]. simpl in Hp |- *. by rewrite Hp.
  - destruct o as [v|]; [|done]. simpl in *. rewrite forallb_forall in Hp |- *. intros x Hx.
    apply list_elem_of_In, list_elem_of_fmap in Hx as (y & -> & Hy).
    apply plain_override_string, Hp. by apply list_elem_of_In.
Qed.

Lemma read_bool (kf : KeyFile) (g k : string) (b : bool) :
  kf !! (g, k) = (if b then Some (value_of_bool true) else None) →
  kf_get bool_of_value kf g k = if b then inr true else inl KfNotFound.
Proof. intros E. unfold kf_get. rewrite E. destruct b; [by rewrite bool_of_value_of_bool|done]. Qed.

Lemma read_initramfs tf kf : (∀ gk, gk ∉ base_keys → kf !! gk = None) →
  plain_set (match initramfs tf with Some i => di_etc i | None => None end) = true →
  forallb plain (match initramfs tf with Some i => default [] (di_args i) | None => [] end) = true →
  parse_initramfs (write_rest tf kf) = Ok (keep_initramfs (initramfs tf)).
Proof.
  intros Hkf He Ha. unfold parse_initramfs.
  rewrite (read_bool _ _ _ _ (written_regenerate tf kf Hkf)).
  rewrite (read_set _ _ _ _ (written_initramfs_etc tf kf Hkf)).
  - rewrite (stringlist_lookup _ _ _ _ (written_initramfs_args tf kf Hkf)).
    + unfold get_initramfs_regenerate. simpl. destruct (initramfs tf) as [i|]; [|done]. simpl.
      by destruct (di_regenerate i).
    + by destruct (initramfs tf).
  - by destruct (initramfs tf).
Qed.

Lemma read_custom tf kf : (∀ gk, gk ∉ base_keys → kf !! gk = None) →
  parse_custom (write_rest tf kf) = Ok (custom tf).
Proof.
  intros Hkf. unfold parse_custom. rewrite (get_string_lookup _ _ _ _ (written_custom_url tf kf Hkf)).
  destruct (custom tf) as [c|] eqn:E; simpl; [|done].
  rewrite (get_string_lookup _ _ _ _ (written_custom_description tf kf Hkf)), E. by destruct c.
Qed.

Lemma write_base_fresh tf kf : write_base tf ∅ = Ok kf → ∀ gk, gk ∉ base_keys → kf !! gk = None.
Proof.
  unfold write_base, base_keys. intros E gk Hgk.
  assert (∀ k v, k ∈ base_keys → (<[k := v]> ∅ : KeyFile) !! gk = None) as Hne.
  { intros k v Hk. rewrite lookup_insert_ne; [done|]. intros ->. by apply Hgk. }
  unfold kf_set_string in E.
  repeat case_match; simplify_eq/=; apply Hne; unfold base_keys; set_solver.
Qed.

Lemma read_base tf kf : write_base tf ∅ = Ok kf →
  parse_base (write_rest tf kf) =
    Ok (base_refspec tf, match base_refspec tf with Some _ => None | None => container_image_reference tf end).
Proof.
  intros E. unfold parse_base, keyfile_get_optional_string, kf_get.
  rewrite !write_rest_base by (unfold base_keys; set_solver).
  unfold write_base, kf_set_string in E.
  destruct (base_refspec tf), (container_image_reference tf), (may_require_local_assembly tf);
    simplify_eq/=; rewrite ?lookup_insert_eq, ?lookup_insert_ne, ?lookup_empty by discriminate; simpl;
    rewrite string_of_value_of_string; done.
Qed.

Lemma roundtrip_ok tf : plain_treefile validate_checksum tf = true →
  (kf ← treefile_to_origin_inner tf; origin_to_treefile_inner validate_checksum kf) = Ok (recorded tf).
Proof.
  unfold plain_treefile. rewrite !andb_true_iff.
  intros [[[[[[[[Hb Hp] Hl] Hf] Hr] Hrl] Ho] He] Ha].
  destruct (write_base tf ∅) as [kf| |] eqn:E;
    [|by unfold write_base in E; repeat case_match..].
  pose proof (write_base_fresh tf kf E) as Hkf.
  unfold treefile_to_origin_inner. rewrite E.
  change (origin_to_treefile_inner validate_checksum (write_rest tf kf) = Ok (recorded tf)).
  pose proof (read_replace _ _ (written_replace tf kf Hkf) Ho) as Hrep.
  apply bind_ok in Hrep as (strv & Es & Hrep).
  unfold origin_to_treefile_inner. rewrite (read_base tf kf E). simpl.
  rewrite (read_set _ _ _ _ (written_packages tf kf Hkf) Hp). simpl.
  rewrite (read_map _ _ _ _ (written_local tf kf Hkf) Hl). simpl.
  rewrite (read_map _ _ _ _ (written_fileoverride tf kf Hkf) Hf). simpl.
  rewrite (read_set _ _ _ _ (written_remove tf kf Hkf) Hr). simpl.
  rewrite (read_map _ _ _ _ (written_replace_local tf kf Hkf) Hrl). simpl.
  rewrite (get_string_lookup _ _ _ None (written_unconfigured tf kf Hkf)). simpl.
  rewrite Es. simpl. rewrite Hrep. simpl.
  rewrite (read_initramfs tf kf Hkf He Ha). simpl. rewrite (read_custom tf kf Hkf). simpl.
  rewrite (read_bool _ _ _ _ (written_cliwrap tf kf Hkf)).
  rewrite (get_string_lookup _ _ _ _ (written_commit tf kf Hkf)).
  unfold recorded. by destruct (default false (cliwrap tf)).
Qed.

(** C6: an origin written as a keyfile reads back as itself, up to what a keyfile does not
    record (empty lists, an initramfs with nothing to say, the unconfigured state). *)
Theorem origin_roundtrip tf : plain_treefile validate_checksum tf = true →
  (kf ← treefile_to_origin_inner tf; origin_to_treefile_inner validate_checksum kf) = Ok (recorded tf).
Proof. apply roundtrip_ok. Qed.
End roundtrip.

(** A syntax without escapes, for the witness. *)
Definition plain_pieces (v : string) : list string :=
  let '(h, t) := str_split ";" v in removelast (h :: t).

Lemma plain_no_sep s : plain s = true → no_char ";" s = true.
Proof.
  unfold plain, no_char. rewrite andb_true_iff. intros [_ Hs]. induction s as [|c s IH]; [done|].
  simpl in *. apply andb_true_iff in Hs as [Hc Hs]. rewrite IH by done.
  unfold plain_char in Hc. rewrite !andb_true_iff in Hc. destruct Hc as [[_ Hc] _]. by rewrite Hc.
Qed.

Lemma plain_pieces_value vals : forallb plain vals = true → vals ≠ [] →
  str_split ";" (list_value vals) = (hd ""%string vals, tl vals ++ [""%string]).
Proof.
  induction vals as [|x vals IH]; [done|]. simpl. intros [Hx Hv]%andb_true_iff _.
  change (x +:+ ";" +:+ list_value vals) with (x +:+ String ";" (list_value vals)).
  destruct vals as [|y vals].
  - by apply str_split_app; [apply plain_no_sep|].
  - rewrite (str_split_app _ _ _ _ _ (plain_no_sep _ Hx) (IH Hv ltac:(done))). done.
Qed.

#[local] Program Instance plain_syntax : KeyFileSyntax := {|
  value_of_string := id;
  string_of_value := inr;
  value_of_bool b := if b then "true"%string else "false"%string;
  bool_of_value v := inr (bool_decide (v = "true"%string));
  list_of_value v := inr (plain_pieces v);
|}.
Next Obligation. done. Qed.
Next Obligation. by destruct b. Qed.
Next Obligation.
  intros vals Hne Hp. f_equal. unfold plain_pieces. rewrite plain_pieces_value by done.
  destruct vals as [|x vals]; [done|]. simpl hd. simpl tl. rewrite app_comm_cons, removelast_last. done.
Qed.

Definition example_origin : Treefile :=
  MkTreefile (Some {["vim"%string; "htop"%string]}) (Some "fedora:fedora/40/x86_64/silverblue"%string) None
    (Some {["foo-1.2-3.x86_64"%string := "4ed7"%string]}) (Some ∅) (Some {["docker"%string]})
    (Some [MkRemoteOverrideReplace (Repo "bazboo") {["kernel"%string; "kernel-core"%string]}]) None
    (Some (MkDeriveInitramfs true None (Some ["-I"%string; "/etc/foobar.conf"%string]))) None
    (Some "41af"%string) (Some "run the installer"%string) (Some true) None.

Lemma origin_roundtrip_witness :
  plain_treefile (λ _, Ok tt) example_origin = true ∧
  (kf ← treefile_to_origin_inner example_origin; origin_to_treefile_inner (λ _, Ok tt) kf)
  = Ok (recorded example_origin).
Proof. split; [vm_compute; reflexivity|]. apply origin_roundtrip. vm_compute. reflexivity. Defined.

(** The comparison names keys that are not the keyfile's: the order of local packages
    counts as a difference. *)
Lemma local_order_is_a_difference :
  kf_diff_value PACKAGES "requested-local" "a:x;b:y;" "b:y;a:x;" = false ∧
  kf_diff_value PACKAGES "requested" "x;y;" "y;x;" = true.
Proof. by vm_compute. Qed.
