(* ===== verification/OriginApi.v ===== *)
(** The C API of origins, [src/libpriv/rpmostree-origin.cxx], over the treefile of
    [Origin] and the keyfile of [OriginFile]. An origin object is its treefile; each
    setter gives the new one. *)

From S2P Require Import Prelude Vardict Nevra RpmHeaders SysrootCore Refspec Origin OriginFile.

Abbreviation RpmOstreeOrigin := Treefile.

Section api.
Context `{KeyFileSyntax} (validate_checksum : string → outcome unit)
  (hy_split_nevra : string → option split_nevra) (is_image_reference : string → bool).

(** * Parsing and copying *)

Definition rpmostree_origin_parse_keyfile (origin : KeyFile) : outcome RpmOstreeOrigin :=
  origin_to_treefile_inner validate_checksum origin.

(** [ostree_deployment_get_origin] is an argument. *)
Definition rpmostree_origin_parse_deployment (get_origin : Deployment → option KeyFile)
    (deployment : Deployment) : outcome RpmOstreeOrigin :=
  match get_origin deployment with
  | None => glnx_throw ("No origin known for deployment " +:+ d_csum deployment +:+ "."
              +:+ pretty (d_deployserial deployment))
  | Some origin => rpmostree_origin_parse_keyfile origin
  end.

Definition rpmostree_origin_dup_keyfile (origin : RpmOstreeOrigin) : outcome KeyFile :=
  treefile_to_origin_inner origin.

(** [g_assert_no_error]; a Rust error from the conversion has no handler. *)
Definition rpmostree_origin_dup (origin : RpmOstreeOrigin) : outcome RpmOstreeOrigin :=
  match treefile_to_origin_inner origin with
  | Ok kf =>
      match rpmostree_origin_parse_keyfile kf with
      | Ok ret => Ok ret
      | _ => Abort
      end
  | _ => Abort
  end.

(** * Getters *)

Definition rpmostree_origin_get_refspec (o : RpmOstreeOrigin) : outcome Refspec :=
  get_base_refspec validate_checksum o.
Definition rpmostree_origin_get_custom_url (o : RpmOstreeOrigin) : string := get_origin_custom_url o.
Definition rpmostree_origin_get_custom_description (o : RpmOstreeOrigin) : string :=
  get_origin_custom_description o.
Definition rpmostree_origin_get_packages (o : RpmOstreeOrigin) : list string := get_packages o.
Definition rpmostree_origin_has_packages (o : RpmOstreeOrigin) : bool := has_packages o.
Definition rpmostree_origin_get_local_packages (o : RpmOstreeOrigin) : list string := get_local_packages o.
Definition rpmostree_origin_get_local_fileoverride_packages (o : RpmOstreeOrigin) : list string :=
  get_local_fileoverride_packages o.
Definition rpmostree_origin_get_overrides_remove (o : RpmOstreeOrigin) : list string :=
  get_packages_override_remove o.
Definition rpmostree_origin_has_overrides_remove_name (o : RpmOstreeOrigin) (name : string) : bool :=
  has_packages_override_remove_name o name.
Definition rpmostree_origin_get_overrides_replace (o : RpmOstreeOrigin) : list (string * list string) :=
  get_packages_override_replace o.
Definition rpmostree_origin_get_overrides_local_replace (o : RpmOstreeOrigin) : list string :=
  get_packages_override_replace_local o.
Definition rpmostree_origin_get_override_commit (o : RpmOstreeOrigin) : string := get_override_commit o.
Definition rpmostree_origin_get_initramfs_etc_files (o : RpmOstreeOrigin) : list string :=
  get_initramfs_etc_files o.
Definition rpmostree_origin_has_initramfs_etc_files (o : RpmOstreeOrigin) : bool := has_initramfs_etc_files o.
Definition rpmostree_origin_get_regenerate_initramfs (o : RpmOstreeOrigin) : bool := get_initramfs_regenerate o.
Definition rpmostree_origin_get_initramfs_args (o : RpmOstreeOrigin) : list string := get_initramfs_args o.
Definition rpmostree_origin_get_unconfigured_state (o : RpmOstreeOrigin) : string := get_unconfigured_state o.
Definition rpmostree_origin_may_require_local_assembly (o : RpmOstreeOrigin) : bool :=
  may_require_local_assembly o.
Definition rpmostree_origin_has_any_packages (o : RpmOstreeOrigin) : bool := has_any_packages o.
Definition rpmostree_origin_get_cliwrap (o : RpmOstreeOrigin) : bool := get_cliwrap o.

(** * Setters *)

Definition rpmostree_origin_initramfs_etc_files_track (paths : list string) (o : RpmOstreeOrigin) :
    bool * RpmOstreeOrigin := initramfs_etc_files_track paths o.
Definition rpmostree_origin_initramfs_etc_files_untrack (paths : list string) (o : RpmOstreeOrigin) :
    bool * RpmOstreeOrigin := initramfs_etc_files_untrack paths o.
Definition rpmostree_origin_initramfs_etc_files_untrack_all (o : RpmOstreeOrigin) :
    bool * RpmOstreeOrigin := initramfs_etc_files_untrack_all o.
Definition rpmostree_origin_set_regenerate_initramfs (regenerate : bool) (args : list string)
    (o : RpmOstreeOrigin) : RpmOstreeOrigin := set_initramfs_regenerate regenerate args o.
Definition rpmostree_origin_set_override_commit (checksum : option string) (o : RpmOstreeOrigin) :
    RpmOstreeOrigin := set_override_commit (default ""%string checksum) o.
Definition rpmostree_origin_set_cliwrap (b : bool) (o : RpmOstreeOrigin) : RpmOstreeOrigin := set_cliwrap b o.
Definition rpmostree_origin_set_rebase_custom (new_refspec : string) (url description : option string)
    (o : RpmOstreeOrigin) : RpmOstreeOrigin :=
  rebase validate_checksum is_image_reference new_refspec (default ""%string url)
    (default ""%string description) o.
Definition rpmostree_origin_set_rebase (new_refspec : string) (o : RpmOstreeOrigin) : RpmOstreeOrigin :=
  rpmostree_origin_set_rebase_custom new_refspec None None o.

(** [*out = *out || c]; [None] is NULL. *)
Definition set_changed (out : option bool) (c : bool) : option bool :=
  match out with None => None | Some b => Some (b || c) end.
Definition accumulate (out : option bool) (m : outcome (bool * RpmOstreeOrigin)) :
    outcome (option bool * RpmOstreeOrigin) :=
  '(changed, o) ← m; Ok (set_changed out changed, o).

Definition rpmostree_origin_add_packages (pkgs : list string) (allow_existing : bool) (out : option bool)
    (o : RpmOstreeOrigin) := accumulate out (add_packages validate_checksum pkgs allow_existing o).
Definition rpmostree_origin_add_local_packages (pkgs : list string) (allow_existing : bool)
    (out : option bool) (o : RpmOstreeOrigin) :=
  accumulate out (add_local_packages validate_checksum pkgs allow_existing o).
Definition rpmostree_origin_add_local_fileoverride_packages (pkgs : list string) (allow_existing : bool)
    (out : option bool) (o : RpmOstreeOrigin) :=
  accumulate out (add_local_fileoverride_packages validate_checksum pkgs allow_existing o).
Definition rpmostree_origin_remove_packages (pkgs : list string) (allow_noent : bool)
    (out : option bool) (o : RpmOstreeOrigin) :=
  accumulate out (remove_packages hy_split_nevra pkgs allow_noent o).
Definition rpmostree_origin_remove_all_packages (o : RpmOstreeOrigin) : bool * RpmOstreeOrigin :=
  remove_all_packages o.
Definition rpmostree_origin_add_override_remove (pkgs : list string) (o : RpmOstreeOrigin) :
    outcome RpmOstreeOrigin := add_packages_override_remove pkgs o.
Definition rpmostree_origin_add_override_replace_local (pkgs : list string) (o : RpmOstreeOrigin) :
    outcome RpmOstreeOrigin := add_packages_override_replace_local validate_checksum pkgs o.
Definition rpmostree_origin_remove_override_remove (package : string) (o : RpmOstreeOrigin) :
    bool * RpmOstreeOrigin := remove_package_override_remove package o.
Definition rpmostree_origin_remove_override_replace_local (package : string) (o : RpmOstreeOrigin) :
    bool * RpmOstreeOrigin := remove_package_override_replace_local package o.
Definition rpmostree_origin_remove_override_replace (package : string) (o : RpmOstreeOrigin) :
    bool * RpmOstreeOrigin := remove_package_override_replace package o.
Definition rpmostree_origin_remove_all_overrides (o : RpmOstreeOrigin) : bool * RpmOstreeOrigin :=
  remove_all_overrides o.
Definition rpmostree_origin_merge_treefile (parse_json : string → outcome Treefile)
    (get_checksum : Treefile → outcome string) (treefile : string) (out : option bool)
    (o : RpmOstreeOrigin) := accumulate out (merge_treefile parse_json get_checksum treefile o).
End api.

(** * Copies *)

Lemma default_keep_set o : default ∅ (keep_set o) = default ∅ o.
Proof. destruct o as [s|]; [|done]. simpl. unfold is_empty_set. by case_bool_decide; subst. Qed.

Lemma default_keep_map o : default ∅ (keep_map o) = default ∅ o.
Proof. destruct o as [s|]; [|done]. simpl. unfold is_empty_map. by case_bool_decide; subst. Qed.

Lemma default_keep_list {A} (o : option (list A)) : default [] (keep_list o) = default [] o.
Proof. by destruct o as [[|]|]. Qed.

Lemma asks_recorded t r : asks (recorded t) r ↔ asks t r.
Proof.
  destruct r; simpl; by rewrite ?default_keep_set, ?default_keep_map, ?default_keep_list.
Qed.

Lemma opt_test_keep_set o : opt_test (λ p, negb (is_empty_set p)) (keep_set o) = opt_test (λ p, negb (is_empty_set p)) o.
Proof. destruct o as [s|]; [|done]. simpl. destruct (is_empty_set s) eqn:E; simpl; by rewrite ?E. Qed.

Lemma opt_test_keep_map o : opt_test (λ p, negb (is_empty_map p)) (keep_map o) = opt_test (λ p, negb (is_empty_map p)) o.
Proof. destruct o as [s|]; [|done]. simpl. destruct (is_empty_map s) eqn:E; simpl; by rewrite ?E. Qed.

Lemma opt_test_keep_list {A} (f : A → bool) o : opt_test (existsb f) (keep_list o) = opt_test (existsb f) o.
Proof. by destruct o as [[|]|]. Qed.

Lemma recorded_any_packages t : has_any_packages (recorded t) = has_any_packages t.
Proof.
  unfold has_any_packages, has_packages, recorded. simpl.
  by rewrite !opt_test_keep_set, !opt_test_keep_map, opt_test_keep_list.
Qed.

Lemma recorded_regenerate t : get_initramfs_regenerate (recorded t) = get_initramfs_regenerate t.
Proof.
  unfold get_initramfs_regenerate, recorded. simpl. destruct (initramfs t) as [i|]; [|done]. simpl.
  destruct (di_regenerate i); simpl; [done|]. by case_match.
Qed.

Lemma recorded_etc_files t : has_initramfs_etc_files (recorded t) = has_initramfs_etc_files t.
Proof.
  unfold has_initramfs_etc_files, recorded. simpl. destruct (initramfs t) as [i|]; [|done]. simpl.
  rewrite <-(opt_test_keep_set (di_etc i)). destruct (keep_set (di_etc i)) eqn:E; simpl.
  - by rewrite orb_true_r.
  - by case_match.
Qed.

Lemma recorded_local_assembly t : may_require_local_assembly (recorded t) = may_require_local_assembly t.
Proof.
  unfold may_require_local_assembly. rewrite recorded_any_packages, recorded_regenerate, recorded_etc_files.
  f_equal. f_equal. f_equal. simpl. by destruct (default false (cliwrap t)).
Qed.

Lemma plain_keep_set o : plain_set o = true → plain_set (keep_set o) = true.
Proof. destruct o as [s|]; [|done]. unfold keep_set. by case_match. Qed.

Lemma plain_keep_map v o : plain_map v o = true → plain_map v (keep_map o) = true.
Proof. destruct o as [s|]; [|done]. unfold keep_map. by case_match. Qed.

Lemma plain_recorded v t : plain_treefile v t = true → plain_treefile v (recorded t) = true.
Proof.
  unfold plain_treefile. rewrite !andb_true_iff.
  intros [[[[[[[[Hb Hp] Hl] Hf] Hr] Hrl] Ho] He] Ha]. simpl.
  split_and!; auto using plain_keep_set, plain_keep_map.
  - by destruct (base_refspec t).
  - by rewrite default_keep_list.
  - destruct (initramfs t) as [i|]; [|done]. simpl. destruct (di_regenerate i || _ || _); [by apply plain_keep_set|done].
  - destruct (initramfs t) as [i|]; [|done]. simpl. destruct (di_regenerate i || _ || _); [|done]. simpl. by rewrite default_keep_list.
Qed.

Section copies.
Context `{KeyFileSyntax} (validate_checksum : string → outcome unit).

Lemma origin_dup_recorded t : plain_treefile validate_checksum t = true →
  rpmostree_origin_dup validate_checksum t = Ok (recorded t).
Proof.
  intros Hp. pose proof (roundtrip_ok validate_checksum t Hp) as (kf & E1 & E2)%bind_ok.
  unfold rpmostree_origin_dup, rpmostree_origin_parse_keyfile. by rewrite E1, E2.
Qed.

(** A copy of an origin, which goes through the keyfile, asks for the same packages and
    overrides, has the same base, and needs local assembly exactly when the original does;
    it no longer has the unconfigured state. *)
Theorem origin_dup_faithful t : plain_treefile validate_checksum t = true →
  ∃ t', rpmostree_origin_dup validate_checksum t = Ok t' ∧
    (∀ r, asks t' r ↔ asks t r) ∧
    base_refspec t' = base_refspec t ∧ override_commit t' = override_commit t ∧
    may_require_local_assembly t' = may_require_local_assembly t ∧ unconfigured_state t' = None.
Proof.
  intros Hp. exists (recorded t).
  split_and!; [by apply origin_dup_recorded|apply asks_recorded|done|done|apply recorded_local_assembly|done].
Qed.

(** A request with the list separator in it is not distinguished from two requests. *)
Lemma separator_splits_request t :
  treefile_to_origin_inner (set_packages (Some {["a;b"%string]}) t)
  = treefile_to_origin_inner (set_packages (Some {["a"%string; "b"%string]}) t).
Proof.
  set (ab := {["a;b"%string]} : gset string). set (a_b := {["a"%string; "b"%string]} : gset string).
  assert (write_base (set_packages (Some ab) t) ∅ = write_base (set_packages (Some a_b) t) ∅) as E1.
  { unfold write_base, may_require_local_assembly, has_any_packages, has_packages. simpl.
    assert (is_empty_set ab = false ∧ is_empty_set a_b = false) as [-> ->] by (split; vm_compute; reflexivity).
    done. }
  assert (∀ g k kf, kf_set_string_list_optional g k (bset_iter ab) kf
    = kf_set_string_list_optional g k (bset_iter a_b) kf) as E2.
  { intros g k kf. unfold kf_set_string_list_optional.
    assert (list_value (bset_iter ab) = list_value (bset_iter a_b)) as -> by (vm_compute; reflexivity). done. }
  unfold treefile_to_origin_inner. rewrite E1. destruct (write_base _ _); [|done..].
  cbn -[ab a_b bset_iter]. by rewrite E2.
Qed.
End copies.

Lemma origin_dup_faithful_witness :
  plain_treefile (λ _, Ok tt) example_origin = true ∧
  ∃ t', @rpmostree_origin_dup plain_syntax (λ _, Ok tt) example_origin = Ok t' ∧
    (∀ r, asks t' r ↔ asks example_origin r) ∧
    base_refspec t' = base_refspec example_origin ∧ override_commit t' = override_commit example_origin ∧
    may_require_local_assembly t' = may_require_local_assembly example_origin ∧ unconfigured_state t' = None.
Proof.
  split; [vm_compute; reflexivity|]. apply (@origin_dup_faithful plain_syntax). vm_compute. reflexivity.
Defined.
