(* ===== verification/Upgrader.v ===== *)
(** The sysroot upgrader, [src/daemon/rpmostree-sysroot-upgrader.cxx]: pulling a base,
    deciding what to layer on it, and deploying the result. The state [Upgrader] is the
    object; libostree, libdnf and the package assembly of
    [src/libpriv/rpmostree-core.cxx] are the record [UpgraderOps], whose fields are the
    results of the calls. *)

From S2P Require Import Prelude Vardict Nevra RpmHeaders Deploy SysrootCore Refspec Origin OriginFile OriginApi.

Inductive LayeringType := LAYERING_NONE | LAYERING_LOCAL | LAYERING_RPMMD_REPOS.
#[global] Instance LayeringType_eq_dec : EqDecision LayeringType.
Proof. solve_decision. Defined.

(** * Querying a sack *)

Record SackPackage := MkSackPackage { sp_name : string; sp_nevra : string; sp_reponame : string }.

Definition HY_CMDLINE_REPO_NAME : string := "@commandline".

(** What libdnf's queries answer: packages by name, packages that match a subject, and the
    sack after adding an RPM file. *)
Record SackOps {Sack : Type} := MkSackOps {
  hy_query_name : Sack → string → list SackPackage;
  hy_selector_matches : Sack → string → list SackPackage;
  dnf_sack_add_cmdline_package : Sack → string → Sack;
}.
Arguments SackOps : clear implicits.
Arguments MkSackOps {_}.

Section sack.
Context {Sack : Type} (sops : SackOps Sack).

Definition rpmostree_get_matching_packages (sack : Sack) (pattern : string) : list SackPackage :=
  hy_selector_matches sops sack pattern.
Definition rpmostree_sack_has_subject (sack : Sack) (pattern : string) : bool :=
  negb (bool_decide (length (rpmostree_get_matching_packages sack pattern) = 0)).

Definition rpmostree_sack_get_by_pkgname (sack : Sack) (pkgname : string) :
    outcome (option SackPackage) :=
  match hy_query_name sops sack pkgname with
  | [] => Ok None
  | [pkg] => Ok (Some pkg)
  | _ => glnx_throw ("Multiple packages match " +:+ dquote +:+ pkgname +:+ dquote)
  end.
Definition rpmostree_sack_has_pkgname (sack : Sack) (pkgname : string) : bool :=
  match rpmostree_sack_get_by_pkgname sack pkgname with Ok (Some _) => true | _ => false end.
End sack.

(** * The upgrader *)

Record Upgrader {Sack : Type} := MkUpgrader {
  u_osname : string;
  u_flags : Z;
  u_command_line : option string;
  u_agent : option string;
  u_sd_unit : option string;
  u_cfg_merge_deployment : Deployment;
  u_origin_merge_deployment : Deployment;
  u_original_origin : RpmOstreeOrigin;
  u_computed_origin : RpmOstreeOrigin;
  u_tmprootfs : bool;
  u_rsack : option Sack;
  u_metatmpdir : option string;
  u_ctx : bool;
  u_rpmmd_sack : bool;
  u_layering_initialized : bool;
  u_layering_type : LayeringType;
  u_layering_changed : bool;
  u_allow_empty_transaction : bool;
  u_pkgs_imported : bool;
  u_base_revision : string;
  u_final_revision : option string;
  u_kargs_strv : option (list string);
}.
Arguments Upgrader : clear implicits.
Arguments MkUpgrader {_}.

(** The assignments to a field of [self]. *)
Section setters.
Context {Sack : Type}.
Implicit Types (u : Upgrader Sack).
Definition set_u_origins (v0 : RpmOstreeOrigin) (v1 : RpmOstreeOrigin) u := MkUpgrader (u_osname u)
  (u_flags u) (u_command_line u) (u_agent u) (u_sd_unit u) (u_cfg_merge_deployment u)
  (u_origin_merge_deployment u) v0 v1 (u_tmprootfs u) (u_rsack u) (u_metatmpdir u) (u_ctx u)
  (u_rpmmd_sack u) (u_layering_initialized u) (u_layering_type u) (u_layering_changed u)
  (u_allow_empty_transaction u) (u_pkgs_imported u) (u_base_revision u) (u_final_revision u)
  (u_kargs_strv u).
Definition set_u_computed (v0 : RpmOstreeOrigin) u := MkUpgrader (u_osname u) (u_flags u)
  (u_command_line u) (u_agent u) (u_sd_unit u) (u_cfg_merge_deployment u) (u_origin_merge_deployment
  u) (u_original_origin u) v0 (u_tmprootfs u) (u_rsack u) (u_metatmpdir u) (u_ctx u) (u_rpmmd_sack
  u) (u_layering_initialized u) (u_layering_type u) (u_layering_changed u)
  (u_allow_empty_transaction u) (u_pkgs_imported u) (u_base_revision u) (u_final_revision u)
  (u_kargs_strv u).
Definition set_u_tmprootfs (v0 : bool) u := MkUpgrader (u_osname u) (u_flags u) (u_command_line u)
  (u_agent u) (u_sd_unit u) (u_cfg_merge_deployment u) (u_origin_merge_deployment u)
  (u_original_origin u) (u_computed_origin u) v0 (u_rsack u) (u_metatmpdir u) (u_ctx u)
  (u_rpmmd_sack u) (u_layering_initialized u) (u_layering_type u) (u_layering_changed u)
  (u_allow_empty_transaction u) (u_pkgs_imported u) (u_base_revision u) (u_final_revision u)
  (u_kargs_strv u).
Definition set_u_rsack (v0 : option Sack) u := MkUpgrader (u_osname u) (u_flags u) (u_command_line
  u) (u_agent u) (u_sd_unit u) (u_cfg_merge_deployment u) (u_origin_merge_deployment u)
  (u_original_origin u) (u_computed_origin u) (u_tmprootfs u) v0 (u_metatmpdir u) (u_ctx u)
  (u_rpmmd_sack u) (u_layering_initialized u) (u_layering_type u) (u_layering_changed u)
  (u_allow_empty_transaction u) (u_pkgs_imported u) (u_base_revision u) (u_final_revision u)
  (u_kargs_strv u).
Definition set_u_metatmpdir (v0 : option string) u := MkUpgrader (u_osname u) (u_flags u)
  (u_command_line u) (u_agent u) (u_sd_unit u) (u_cfg_merge_deployment u) (u_origin_merge_deployment
  u) (u_original_origin u) (u_computed_origin u) (u_tmprootfs u) (u_rsack u) v0 (u_ctx u)
  (u_rpmmd_sack u) (u_layering_initialized u) (u_layering_type u) (u_layering_changed u)
  (u_allow_empty_transaction u) (u_pkgs_imported u) (u_base_revision u) (u_final_revision u)
  (u_kargs_strv u).
Definition set_u_ctx (v0 : bool) u := MkUpgrader (u_osname u) (u_flags u) (u_command_line u)
  (u_agent u) (u_sd_unit u) (u_cfg_merge_deployment u) (u_origin_merge_deployment u)
  (u_original_origin u) (u_computed_origin u) (u_tmprootfs u) (u_rsack u) (u_metatmpdir u) v0
  (u_rpmmd_sack u) (u_layering_initialized u) (u_layering_type u) (u_layering_changed u)
  (u_allow_empty_transaction u) (u_pkgs_imported u) (u_base_revision u) (u_final_revision u)
  (u_kargs_strv u).
Definition set_u_rpmmd_sack (v0 : bool) u := MkUpgrader (u_osname u) (u_flags u) (u_command_line u)
  (u_agent u) (u_sd_unit u) (u_cfg_merge_deployment u) (u_origin_merge_deployment u)
  (u_original_origin u) (u_computed_origin u) (u_tmprootfs u) (u_rsack u) (u_metatmpdir u) (u_ctx u)
  v0 (u_layering_initialized u) (u_layering_type u) (u_layering_changed u)
  (u_allow_empty_transaction u) (u_pkgs_imported u) (u_base_revision u) (u_final_revision u)
  (u_kargs_strv u).
Definition set_u_initialized (v0 : bool) u := MkUpgrader (u_osname u) (u_flags u) (u_command_line u)
  (u_agent u) (u_sd_unit u) (u_cfg_merge_deployment u) (u_origin_merge_deployment u)
  (u_original_origin u) (u_computed_origin u) (u_tmprootfs u) (u_rsack u) (u_metatmpdir u) (u_ctx u)
  (u_rpmmd_sack u) v0 (u_layering_type u) (u_layering_changed u) (u_allow_empty_transaction u)
  (u_pkgs_imported u) (u_base_revision u) (u_final_revision u) (u_kargs_strv u).
Definition set_u_type (v0 : LayeringType) u := MkUpgrader (u_osname u) (u_flags u) (u_command_line
  u) (u_agent u) (u_sd_unit u) (u_cfg_merge_deployment u) (u_origin_merge_deployment u)
  (u_original_origin u) (u_computed_origin u) (u_tmprootfs u) (u_rsack u) (u_metatmpdir u) (u_ctx u)
  (u_rpmmd_sack u) (u_layering_initialized u) v0 (u_layering_changed u) (u_allow_empty_transaction
  u) (u_pkgs_imported u) (u_base_revision u) (u_final_revision u) (u_kargs_strv u).
Definition set_u_changed (v0 : bool) u := MkUpgrader (u_osname u) (u_flags u) (u_command_line u)
  (u_agent u) (u_sd_unit u) (u_cfg_merge_deployment u) (u_origin_merge_deployment u)
  (u_original_origin u) (u_computed_origin u) (u_tmprootfs u) (u_rsack u) (u_metatmpdir u) (u_ctx u)
  (u_rpmmd_sack u) (u_layering_initialized u) (u_layering_type u) v0 (u_allow_empty_transaction u)
  (u_pkgs_imported u) (u_base_revision u) (u_final_revision u) (u_kargs_strv u).
Definition set_u_allow_empty (v0 : bool) u := MkUpgrader (u_osname u) (u_flags u) (u_command_line u)
  (u_agent u) (u_sd_unit u) (u_cfg_merge_deployment u) (u_origin_merge_deployment u)
  (u_original_origin u) (u_computed_origin u) (u_tmprootfs u) (u_rsack u) (u_metatmpdir u) (u_ctx u)
  (u_rpmmd_sack u) (u_layering_initialized u) (u_layering_type u) (u_layering_changed u) v0
  (u_pkgs_imported u) (u_base_revision u) (u_final_revision u) (u_kargs_strv u).
Definition set_u_imported (v0 : bool) u := MkUpgrader (u_osname u) (u_flags u) (u_command_line u)
  (u_agent u) (u_sd_unit u) (u_cfg_merge_deployment u) (u_origin_merge_deployment u)
  (u_original_origin u) (u_computed_origin u) (u_tmprootfs u) (u_rsack u) (u_metatmpdir u) (u_ctx u)
  (u_rpmmd_sack u) (u_layering_initialized u) (u_layering_type u) (u_layering_changed u)
  (u_allow_empty_transaction u) v0 (u_base_revision u) (u_final_revision u) (u_kargs_strv u).
Definition set_u_base (v0 : string) u := MkUpgrader (u_osname u) (u_flags u) (u_command_line u)
  (u_agent u) (u_sd_unit u) (u_cfg_merge_deployment u) (u_origin_merge_deployment u)
  (u_original_origin u) (u_computed_origin u) (u_tmprootfs u) (u_rsack u) (u_metatmpdir u) (u_ctx u)
  (u_rpmmd_sack u) (u_layering_initialized u) (u_layering_type u) (u_layering_changed u)
  (u_allow_empty_transaction u) (u_pkgs_imported u) v0 (u_final_revision u) (u_kargs_strv u).
Definition set_u_final (v0 : option string) u := MkUpgrader (u_osname u) (u_flags u) (u_command_line
  u) (u_agent u) (u_sd_unit u) (u_cfg_merge_deployment u) (u_origin_merge_deployment u)
  (u_original_origin u) (u_computed_origin u) (u_tmprootfs u) (u_rsack u) (u_metatmpdir u) (u_ctx u)
  (u_rpmmd_sack u) (u_layering_initialized u) (u_layering_type u) (u_layering_changed u)
  (u_allow_empty_transaction u) (u_pkgs_imported u) (u_base_revision u) v0 (u_kargs_strv u).
Definition set_u_kargs (v0 : option (list string)) u := MkUpgrader (u_osname u) (u_flags u)
  (u_command_line u) (u_agent u) (u_sd_unit u) (u_cfg_merge_deployment u) (u_origin_merge_deployment
  u) (u_original_origin u) (u_computed_origin u) (u_tmprootfs u) (u_rsack u) (u_metatmpdir u) (u_ctx
  u) (u_rpmmd_sack u) (u_layering_initialized u) (u_layering_type u) (u_layering_changed u)
  (u_allow_empty_transaction u) (u_pkgs_imported u) (u_base_revision u) (u_final_revision u) v0.
Definition set_u_caller (v0 : option string) (v1 : option string) (v2 : option string) u :=
  MkUpgrader (u_osname u) (u_flags u) v0 v1 v2 (u_cfg_merge_deployment u) (u_origin_merge_deployment
  u) (u_original_origin u) (u_computed_origin u) (u_tmprootfs u) (u_rsack u) (u_metatmpdir u) (u_ctx
  u) (u_rpmmd_sack u) (u_layering_initialized u) (u_layering_type u) (u_layering_changed u)
  (u_allow_empty_transaction u) (u_pkgs_imported u) (u_base_revision u) (u_final_revision u)
  (u_kargs_strv u).
End setters.


(** * The calls *)

(** The options of [ostree_repo_pull_with_options]. *)
Record PullOptions := MkPullOptions {
  po_subdir : option string;
  po_flags : Z;
  po_timestamp_check : bool;
  po_refs : string;
  po_override_commit_ids : option string;
}.

(** [OstreeSysrootDeployTreeOpts]. *)
Record DeployTreeOpts := MkDeployTreeOpts {
  dto_locked : bool;
  dto_override_kernel_argv : list string;
  dto_overlay_initrds : option string;
}.

(** The result of [rpmostree_find_kernel]. *)
Record KernelState := MkKernelState {
  ks_kver : string; ks_bootdir : string; ks_kernel_path : string; ks_initramfs_path : option string;
}.

Record UpgraderOps {Sack : Type} := MkUpgraderOps {
  (** the daemon's configuration *)
  op_lock_layering : bool;
  op_disable_recommends : bool;
  (** the sysroot *)
  op_booted : option Deployment;
  op_get_repo : result unit;
  op_get_merge_deployment : string → option Deployment;
  op_deployments : list Deployment;
  op_get_origin : Deployment → option KeyFile;
  op_load_commit : string → result Commit;
  (** pulling *)
  op_check_container_update : string → result bool;
  op_pull_container : string → string → result string;
  op_set_ref_immediate : option string → string → string → result unit;
  op_pull_with_options : string → PullOptions → result unit;
  op_resolve_rev : string → result string;
  op_check_timestamps : string → string → result unit;
  (** the base's packages *)
  op_tmprootfs_dirs : result unit;
  op_checkout_at : string → result unit;
  op_open_tmprootfs : result unit;
  op_has_live_apply_state : Deployment → result bool;
  op_base_refsack_for_root : Deployment → result (option Sack);
  op_refsack_for_tmprootfs : result Sack;
  op_mkdtemp : result string;
  op_pkgcache_find_pkg_header : string → string → result unit;
  op_write_header : string → result unit;
  (** the assembly context *)
  op_get_sepolicy : result unit;
  op_context_setup : Treefile → result unit;
  op_context_prepare : result unit;
  op_has_empty_transaction : bool;
  op_state_digest : result string;
  op_context_download : result unit;
  op_context_import : result unit;
  op_context_assemble : result unit;
  op_context_assemble_end : result unit;
  op_postprocess : result unit;
  op_kernel_changed : bool;
  op_find_kernel : result KernelState;
  op_run_depmod : string → result unit;
  op_run_dracut : list string → string → option string → bool → result unit;
  op_finalize_kernel : KernelState → result unit;
  op_context_commit : string → result string;
  (** deploying *)
  op_bootconfig_kargs : Deployment → list string;
  op_initramfs_overlay_generate : list string → result unit;
  op_stage_overlay_initrd : result string;
  op_stage_tree : string → string → KeyFile → Deployment → DeployTreeOpts → result Deployment;
  op_deploy_tree : string → string → KeyFile → Deployment → DeployTreeOpts → result Deployment;
  op_generate_variant : Deployment → result unit;
  op_deployment_ctime : Deployment → result Z;
  op_mkdir_history : result unit;
  op_write_history_file : string → result unit;
  op_open_deployment : Deployment → result unit;
  op_sanitycheck : result unit;
  op_syscore_cleanup : result unit;
  op_syscore_write_deployment : Deployment → Deployment → result unit;
}.
Arguments UpgraderOps : clear implicits.
Arguments MkUpgraderOps {_}.

(** The calls with lasting effects. *)
Inductive uevent :=
  | SetRef (remote : option string) (ref rev : string)
  | Pulled (remote : string) (opts : PullOptions)
  | ContainerPulled (refspec override_commit : string)
  | CheckedOut (rev : string)
  | ContextSetup (pkgcache_only recommends : bool) (treefile : Treefile)
  | ContextPrepared
  | Downloaded
  | Imported
  | Assembled (allow_empty : bool)
  | AssembledEnd
  | Postprocessed
  | RanDepmod (kver : string)
  | RanDracut (args : list string) (kver : string) (rebuild_from : option string) (use_root_etc : bool)
  | KernelFinalized
  | Committed (base rev : string)
  | StagedOverlay (files : list string) (checksum : string)
  | StagedTree (osname rev : string) (origin : KeyFile) (merge : Deployment) (opts : DeployTreeOpts)
  | DeployedTree (osname rev : string) (origin : KeyFile) (merge : Deployment) (opts : DeployTreeOpts)
  | HistoryWritten (fn : string)
  | JournalSent (checksum refspec version command_line agent sd_unit : string)
  | SanityChecked
  | SyscoreCleaned
  | DeploymentWritten (d merge : Deployment).

Section upgrader.
Context `{KeyFileSyntax} {Sack : Type} (sops : SackOps Sack) (ops : UpgraderOps Sack)
  (validate_checksum : string → outcome unit) (hy_split_nevra : string → option split_nevra)
  (ostree_parse_refspec : string → outcome (option string * string)) (type_mismatch : string).

Local Abbreviation M := (prog uevent (Upgrader Sack)).
Local Abbreviation load_commit := (λ csum, returned (op_load_commit ops csum)).
Local Abbreviation dup := (rpmostree_origin_dup validate_checksum).

(** ** Creation *)

(** The original and the computed origin. *)
Definition parse_origin_deployment (flags : Z) (deployment : Deployment) :
    outcome (RpmOstreeOrigin * RpmOstreeOrigin) :=
  origin ← rpmostree_origin_parse_deployment validate_checksum (op_get_origin ops) deployment;
  let original_origin := rpmostree_origin_set_override_commit None origin in
  let unconfigured := rpmostree_origin_get_unconfigured_state original_origin in
  if negb (bool_decide (unconfigured = ""%string)) &&
     negb (flag_set flags RPMOSTREE_SYSROOT_UPGRADER_FLAGS_IGNORE_UNCONFIGURED)
  then g_set_error G_IO_ERROR_FAILED ("origin unconfigured-state: " +:+ unconfigured)
  else
    computed_origin ← dup original_origin;
    Ok (original_origin, computed_origin).

(** [rpmostree_sysroot_upgrader_new], that is [rpmostree_sysroot_upgrader_initable_init] on
    the zero-initialised object. *)
Definition rpmostree_sysroot_upgrader_initable_init (osname : option string) (flags : Z) :
    outcome (Upgrader Sack) :=
  osname ←
    match osname, op_booted ops with
    | None, None => glnx_throw "Not currently booted into an OSTree system and no OS specified"
    | None, Some b => Ok (d_osname b)
    | Some n, _ => if bool_decide (n = ""%string) then glnx_throw "Invalid empty osname" else Ok n
    end;
  _ ← returned (op_get_repo ops);
  match op_get_merge_deployment ops osname,
        rpmostree_syscore_get_origin_merge_deployment (op_deployments ops) osname with
  | Some cfg_merge_deployment, Some origin_merge_deployment =>
      '(original_origin, computed_origin) ← parse_origin_deployment flags origin_merge_deployment;
      let merge_deployment_csum := d_csum origin_merge_deployment in
      base ← rpmostree_deployment_get_base_layer load_commit type_mismatch origin_merge_deployment;
      let '(base_revision, final_revision) :=
        match base with
        | Some b => (b, Some merge_deployment_csum)
        | None => (merge_deployment_csum, None)
        end in
      Ok (MkUpgrader osname flags None None None cfg_merge_deployment origin_merge_deployment
            original_origin computed_origin false None None false false false LAYERING_NONE false false
            false base_revision final_revision None)
  | _, _ => glnx_throw ("No previous deployment for OS '" +:+ osname +:+ "'")
  end.

Definition rpmostree_sysroot_upgrader_set_caller_info (command_line agent sd_unit : option string) : M unit :=
  modify (set_u_caller command_line agent sd_unit).
Definition rpmostree_sysroot_upgrader_dup_origin : M RpmOstreeOrigin :=
  self ← get_self; lift (dup (u_original_origin self)).
Definition rpmostree_sysroot_upgrader_set_origin (new_origin : RpmOstreeOrigin) : M unit :=
  original_origin ← lift (dup new_origin);
  computed_origin ← lift (dup original_origin);
  modify (set_u_origins original_origin computed_origin).
Definition rpmostree_sysroot_upgrader_set_allow_empty_transaction (allow : bool) : M unit :=
  modify (set_u_allow_empty allow).
Definition rpmostree_sysroot_upgrader_set_kargs (kernel_args : option (list string)) : M unit :=
  modify (set_u_kargs kernel_args).

(** ** Pulling the base *)

Definition OSTREE_REPO_PULL_FLAGS_COMMIT_ONLY : Z := Z.shiftl 1 1.

(** The new base for a refspec of an ostree repository; [self] is read at the start. *)
Definition pull_ostree_base (self : Upgrader Sack) (dir_to_pull : option string) (flags : Z)
    (override_commit : option string) (refspec : string) : M string :=
  let allow_older := flag_set (u_flags self) RPMOSTREE_SYSROOT_UPGRADER_FLAGS_ALLOW_OLDER in
  let synthetic := flag_set (u_flags self) RPMOSTREE_SYSROOT_UPGRADER_FLAGS_SYNTHETIC_PULL in
  '(origin_remote, origin_ref) ← lift (ostree_parse_refspec refspec);
  let is_commit := is_ok (validate_checksum origin_ref) in
  _ ← match origin_remote with
      | Some remote =>
          when (negb synthetic && negb is_commit) (
            _ ← when (negb allow_older && nonnull override_commit)
                  (performs (SetRef (Some remote) origin_ref (u_base_revision self))
                     (op_set_ref_immediate ops (Some remote) origin_ref (u_base_revision self)));
            let opts := MkPullOptions
              (match dir_to_pull with Some d => if bool_decide (d = ""%string) then None else Some d | None => None end)
              flags (negb allow_older) origin_ref override_commit in
            on_error ("While pulling " +:+ default origin_ref override_commit)
              (performs (Pulled remote opts) (op_pull_with_options ops remote opts)))
      | None => mret tt
      end;
  match override_commit with
  | Some c => mret c
  | None => call (op_resolve_rev ops refspec)
  end.

(** Whether the base changed. *)
Definition rpmostree_sysroot_upgrader_pull_base (dir_to_pull : option string) (flags : Z) : M bool :=
  self ← get_self;
  let check := flag_set flags OSTREE_REPO_PULL_FLAGS_COMMIT_ONLY in
  let allow_older := flag_set (u_flags self) RPMOSTREE_SYSROOT_UPGRADER_FLAGS_ALLOW_OLDER in
  let override_commit_s := rpmostree_origin_get_override_commit (u_computed_origin self) in
  let override_commit :=
    if bool_decide (override_commit_s = ""%string) then None else Some override_commit_s in
  r ← lift (rpmostree_origin_get_refspec validate_checksum (u_computed_origin self));
  if bool_decide (rs_kind r = Container) && check then
    call (op_check_container_update ops (rs_refspec r))
  else
    new_base_rev ←
      match rs_kind r with
      | Container =>
          performs (ContainerPulled (rs_refspec r) override_commit_s)
            (op_pull_container ops (rs_refspec r) override_commit_s)
      | _ => pull_ostree_base self dir_to_pull flags override_commit (rs_refspec r)
      end;
    let changed := negb (bool_decide (new_base_rev = u_base_revision self)) in
    _ ← when changed (
          _ ← when (negb allow_older)
                (on_error "While checking against deployment timestamp"
                   (call (op_check_timestamps ops (u_base_revision self) new_base_rev)));
          modify (set_u_base new_base_rev));
    mret changed.

(** ** The packages of the base *)

Definition checkout_base_tree : M unit :=
  self ← get_self;
  if u_tmprootfs self then mret tt
  else
    _ ← call (op_tmprootfs_dirs ops);
    _ ← performs (CheckedOut (u_base_revision self)) (op_checkout_at ops (u_base_revision self));
    _ ← call (op_open_tmprootfs ops);
    modify (set_u_tmprootfs true).

Definition try_load_base_rsack_from_pending : M unit :=
  self ← get_self;
  let d := u_origin_merge_deployment self in
  is_live ← call (op_has_live_apply_state ops d);
  if is_live : bool then mret tt
  else
    layeredmeta ← lift (deployment_layeredmeta_load_commit load_commit type_mismatch d);
    if is_layered layeredmeta && (clientlayer_version layeredmeta <? 4)%N then mret tt
    else if negb (bool_decide (u_base_revision self = base_commit layeredmeta)) then mret tt
    else
      rsack ← call (op_base_refsack_for_root ops d);
      match rsack with Some s => modify (set_u_rsack (Some s)) | None => mret tt end.

Definition load_base_rsack : M unit :=
  _ ← try_load_base_rsack_from_pending;
  self ← get_self;
  _ ← when (negb (nonnull (u_rsack self))) (
        _ ← checkout_base_tree;
        rsack ← call (op_refsack_for_tmprootfs ops);
        modify (set_u_rsack (Some rsack)));
  self ← get_self;
  lift (g_assert (nonnull (u_rsack self))).

(** [g_assert (self->rsack)]. *)
Definition get_rsack : M Sack :=
  self ← get_self;
  match u_rsack self with Some s => mret s | None => lift Abort end.

(** ** Inactive overrides *)

Fixpoint inactive_removals (sack : Sack) (removals : list string) : outcome (list string) :=
  match removals with
  | [] => Ok []
  | pkgname :: removals =>
      pkg ← rpmostree_sack_get_by_pkgname sops sack pkgname;
      rest ← inactive_removals sack removals;
      Ok (if nonnull pkg then rest else pkgname :: rest)
  end.

Definition finalize_removal_overrides : M unit :=
  rsack ← get_rsack;
  self ← get_self;
  inactive ← lift (inactive_removals rsack (rpmostree_origin_get_overrides_remove (u_computed_origin self)));
  modify (set_u_computed
    (foldl (λ o item, (rpmostree_origin_remove_override_remove item o).2) (u_computed_origin self) inactive)).

Fixpoint inactive_local_replacements (sack : Sack) (replacements : list string) : outcome (list string) :=
  match replacements with
  | [] => Ok []
  | nevra_v :: replacements =>
      '(nevra, _) ← rpmostree_decompose_sha256_nevra validate_checksum nevra_v;
      '(pkgname, _, _, _, _) ← rpmostree_decompose_nevra hy_split_nevra nevra;
      pkg ← rpmostree_sack_get_by_pkgname sops sack pkgname;
      rest ← inactive_local_replacements sack replacements;
      Ok (if negb (nonnull pkg) || rpmostree_sack_has_subject sops sack nevra then nevra :: rest else rest)
  end.

Definition inactive_remote_replacements (sack : Sack) (replacements : list (string * list string)) : list string :=
  filter (λ pkgname, rpmostree_sack_has_pkgname sops sack pkgname = false) (concat replacements.*2).

Definition remove_replacement (o : RpmOstreeOrigin) (item : string) : RpmOstreeOrigin :=
  (rpmostree_origin_remove_override_replace item
     (rpmostree_origin_remove_override_replace_local item o).2).2.

Definition finalize_replacement_overrides : M unit :=
  rsack ← get_rsack;
  self ← get_self;
  let o := u_computed_origin self in
  inactive_local ← lift (inactive_local_replacements rsack (rpmostree_origin_get_overrides_local_replace o));
  let inactive := inactive_local ++ inactive_remote_replacements rsack (rpmostree_origin_get_overrides_replace o) in
  modify (set_u_computed (foldl remove_replacement o inactive)).

Definition finalize_overrides : M unit :=
  _ ← finalize_removal_overrides; finalize_replacement_overrides.

(** ** Inactive requests *)

Definition initialize_metatmpdir : M string :=
  self ← get_self;
  match u_metatmpdir self with
  | Some path => mret path
  | None =>
      path ← call (op_mkdtemp ops);
      _ ← modify (set_u_metatmpdir (Some path));
      mret path
  end.

Fixpoint add_local_pkgs_loop (metatmpdir : string) (pkgset : list string) (sack : Sack) : outcome Sack :=
  match pkgset with
  | [] => Ok sack
  | nevra_v :: pkgset =>
      '(nevra, sha256) ← rpmostree_decompose_sha256_nevra validate_checksum nevra_v;
      let path := metatmpdir +:+ "/" +:+ nevra +:+ ".rpm" in
      _ ← returned (op_pkgcache_find_pkg_header ops nevra sha256);
      _ ← returned (op_write_header ops path);
      if rpmostree_sack_has_subject sops sack nevra
      then glnx_throw ("Package '" +:+ nevra +:+ "' is already in the base")
      else add_local_pkgs_loop metatmpdir pkgset (dnf_sack_add_cmdline_package sops sack path)
  end.

Definition add_local_pkgset_to_sack (pkgset : list string) : M unit :=
  match pkgset with
  | [] => mret tt
  | _ =>
      metatmpdir ← initialize_metatmpdir;
      rsack ← get_rsack;
      rsack ← lift (add_local_pkgs_loop metatmpdir pkgset rsack);
      modify (set_u_rsack (Some rsack))
  end.

(** The first match that is a base package requested to be removed. *)
Definition removed_match (o : RpmOstreeOrigin) (matches : list SackPackage) : option SackPackage :=
  find (λ pkg, negb (bool_decide (sp_reponame pkg = HY_CMDLINE_REPO_NAME))
               && rpmostree_origin_has_overrides_remove_name o (sp_name pkg)) matches.

(** The inactive requests, with the NEVRA that provides each. *)
Fixpoint inactive_requests (o : RpmOstreeOrigin) (sack : Sack) (patterns : list string) :
    outcome (list (string * string)) :=
  match patterns with
  | [] => Ok []
  | pattern :: patterns =>
      match rpmostree_get_matching_packages sops sack pattern with
      | [] => inactive_requests o sack patterns
      | first :: others =>
          match removed_match o (first :: others) with
          | Some pkg =>
              glnx_throw ("Cannot request '" +:+ pattern +:+ "' provided by removed package '"
                +:+ sp_nevra pkg +:+ "'")
          | None =>
              rest ← inactive_requests o sack patterns;
              Ok ((pattern, sp_nevra first) :: rest)
          end
      end
  end.

(** Each request is removed on its own; [g_error] and [g_assert (changed)] abort. *)
Fixpoint remove_inactive (requests : list string) (o : RpmOstreeOrigin) : outcome RpmOstreeOrigin :=
  match requests with
  | [] => Ok o
  | req :: requests =>
      match rpmostree_origin_remove_packages hy_split_nevra [req] false (Some false) o with
      | Ok (Some true, o') => remove_inactive requests o'
      | _ => Abort
      end
  end.

(** The order in which the hash table gives the requests. *)
Context (hash_order : list string → list string).

Definition finalize_overlays : M unit :=
  self ← get_self;
  _ ← lift (g_assert (nonnull (u_rsack self)));
  let o := u_computed_origin self in
  _ ← add_local_pkgset_to_sack (rpmostree_origin_get_local_packages o);
  _ ← add_local_pkgset_to_sack (rpmostree_origin_get_local_fileoverride_packages o);
  rsack ← get_rsack;
  inactive ← lift (inactive_requests o rsack (rpmostree_origin_get_packages o));
  computed_origin ← lift (remove_inactive (hash_order inactive.*1) o);
  modify (set_u_computed computed_origin).

(** ** Local assembly *)

Definition prep_local_assembly : M unit :=
  self ← get_self;
  _ ← lift (g_assert (negb (u_ctx self)));
  let o := u_computed_origin self in
  if rpmostree_origin_get_regenerate_initramfs o && rpmostree_origin_has_initramfs_etc_files o then
    lift (glnx_throw "initramfs regeneration and /etc overlay not compatible; use dracut arg -I instead")
  else
    _ ← checkout_base_tree;
    _ ← modify (set_u_ctx true);
    _ ← call (op_get_sepolicy ops);
    let pkgcache_only := flag_set (u_flags self) RPMOSTREE_SYSROOT_UPGRADER_FLAGS_PKGCACHE_ONLY in
    kf ← lift (match rpmostree_origin_dup_keyfile o with Ok kf => Ok kf | _ => Abort end);
    tf ← lift (origin_to_treefile_inner validate_checksum kf);
    _ ← performs (ContextSetup pkgcache_only (negb (op_disable_recommends ops)) tf) (op_context_setup ops tf);
    _ ← (if rpmostree_origin_has_any_packages o then
           _ ← performs ContextPrepared (op_context_prepare ops);
           _ ← modify (set_u_type LAYERING_RPMMD_REPOS);
           modify (set_u_rpmmd_sack true)
         else modify (set_u_type LAYERING_LOCAL));
    match u_final_revision self with
    | Some final_revision =>
        prev_commit ← call (op_load_commit ops final_revision);
        previous_state_sha512 ←
          match vardict_lookup_string (cm_metadata prev_commit) "rpmostree.state-sha512" with
          | Some s => mret s
          | None => lift (g_set_error G_IO_ERROR_NOT_FOUND
                      "Failed to find metadata key rpmostree.state-sha512 (signature s)")
          end;
        new_state_sha512 ← call (op_state_digest ops);
        modify (set_u_changed (negb (bool_decide (previous_state_sha512 = new_state_sha512))))
    | None =>
        if rpmostree_origin_has_any_packages o then
          refspec ← lift (rpmostree_origin_get_refspec validate_checksum o);
          modify (set_u_changed
            (negb (bool_decide (rs_kind refspec = Container) && op_has_empty_transaction ops)))
        else modify (set_u_changed true)
    end.

(** The layering type and whether the layers changed. *)
Definition rpmostree_sysroot_upgrader_prep_layering : M (LayeringType * bool) :=
  _ ← modify (set_u_initialized true);
  _ ← modify (set_u_type LAYERING_NONE);
  self ← get_self;
  if negb (rpmostree_origin_may_require_local_assembly (u_computed_origin self)) then
    _ ← modify (set_u_final None);
    mret (LAYERING_NONE, false)
  else if op_lock_layering ops then
    lift (glnx_throw "Cannot operate; `LockLayering=true` in configuration.")
  else
    _ ← load_base_rsack;
    _ ← finalize_overrides;
    _ ← finalize_overlays;
    self ← get_self;
    if negb (rpmostree_origin_may_require_local_assembly (u_computed_origin self)) then
      _ ← modify (set_u_final None);
      mret (LAYERING_NONE, false)
    else
      _ ← prep_local_assembly;
      self ← get_self;
      mret (u_layering_type self, u_layering_changed self).

Definition rpmostree_sysroot_upgrader_import_pkgs : M unit :=
  self ← get_self;
  _ ← lift (g_assert (u_layering_initialized self));
  _ ← lift (g_assert (negb (u_pkgs_imported self)));
  _ ← modify (set_u_imported true);
  match u_layering_type self with
  | LAYERING_RPMMD_REPOS =>
      _ ← performs Downloaded (op_context_download ops);
      performs Imported (op_context_import ops)
  | _ => mret tt
  end.

(** The kernel state and the initramfs arguments; with canonical arguments in the base
    commit the old initramfs is not used. *)
Definition load_kernel_state (self : Upgrader Sack) : outcome (KernelState * option string * list string) :=
  kernel_state ← returned (op_find_kernel ops);
  base_commit ← returned (op_load_commit ops (u_base_revision self));
  Ok (match vardict_lookup_strv (cm_metadata base_commit) "rpmostree.initramfs-args" with
      | Some args => (kernel_state, None, args)
      | None => (kernel_state, ks_initramfs_path kernel_state, ["--no-hostonly"%string])
      end).

Definition perform_local_assembly : M unit :=
  self ← get_self;
  _ ← lift (g_assert (u_layering_initialized self));
  _ ← lift (g_assert (u_pkgs_imported self));
  if bool_decide (u_layering_type self = LAYERING_NONE) then mret tt
  else
    _ ← lift (g_assert (negb (op_lock_layering ops)));
    _ ← (if bool_decide (u_layering_type self = LAYERING_RPMMD_REPOS) then
           _ ← modify (set_u_final None);
           performs (Assembled (u_allow_empty_transaction self)) (op_context_assemble ops)
         else performs AssembledEnd (op_context_assemble_end ops));
    _ ← performs Postprocessed (op_postprocess ops);
    let o := u_computed_origin self in
    let regenerate := rpmostree_origin_get_regenerate_initramfs o in
    _ ← when (op_kernel_changed ops || regenerate) (
          '(kernel_state, initramfs_path, initramfs_args) ← lift (load_kernel_state self);
          _ ← when (op_kernel_changed ops)
                (performs (RanDepmod (ks_kver kernel_state)) (op_run_depmod ops (ks_kver kernel_state)));
          let args := initramfs_args ++ (if regenerate then rpmostree_origin_get_initramfs_args o else []) in
          _ ← performs (RanDracut args (ks_kver kernel_state) initramfs_path regenerate)
                (op_run_dracut ops args (ks_kver kernel_state) initramfs_path regenerate);
          on_error "Finalizing kernel" (performs KernelFinalized (op_finalize_kernel ops kernel_state)));
    rev ← on_error "Committing" (
            rev ← call (op_context_commit ops (u_base_revision self));
            _ ← perform (Committed (u_base_revision self) rev) (Ok tt);
            mret rev);
    _ ← modify (set_u_final (Some rev));
    _ ← modify (set_u_ctx false);
    modify (set_u_tmprootfs false).

(** ** Deploying *)

Definition RPMOSTREE_HISTORY_DIR : string := "/var/lib/rpm-ostree/history".

Definition rpmostree_checksum_version (commit : Commit) : option string :=
  vardict_lookup_string (cm_metadata commit) "version".

Definition write_history (new_deployment : Deployment) : M unit :=
  self ← get_self;
  _ ← call (op_generate_variant ops new_deployment);
  ctime ← call (op_deployment_ctime ops new_deployment);
  let fn := RPMOSTREE_HISTORY_DIR +:+ "/" +:+ pretty ctime in
  _ ← call (op_mkdir_history ops);
  _ ← performs (HistoryWritten fn) (op_write_history_file ops fn);
  commit ← call (op_load_commit ops (d_csum new_deployment));
  r ← lift (rpmostree_origin_get_refspec validate_checksum (u_computed_origin self));
  perform (JournalSent (d_csum new_deployment) (rs_refspec r)
             (default ""%string (rpmostree_checksum_version commit))
             (default ""%string (u_command_line self)) (default ""%string (u_agent self))
             (default ""%string (u_sd_unit self))) (Ok tt).

(** The overlay initrd for the tracked files of /etc. *)
Definition stage_overlay (o : RpmOstreeOrigin) : M (option string) :=
  if rpmostree_origin_has_initramfs_etc_files o then
    _ ← lift (g_assert (negb (op_lock_layering ops)));
    let etc_files := rpmostree_origin_get_initramfs_etc_files o in
    _ ← call (op_initramfs_overlay_generate ops etc_files);
    checksum ← on_error "Staging initramfs overlay" (
                 checksum ← call (op_stage_overlay_initrd ops);
                 _ ← perform (StagedOverlay etc_files checksum) (Ok tt);
                 mret checksum);
    mret (Some checksum)
  else mret None.

(** The new deployment, or nothing for a dry run. *)
Definition rpmostree_sysroot_upgrader_deploy : M (option Deployment) :=
  self ← get_self;
  if flag_set (u_flags self) RPMOSTREE_SYSROOT_UPGRADER_FLAGS_DRY_RUN then mret None
  else
    _ ← (if u_layering_initialized self then mret tt
         else _ ← rpmostree_sysroot_upgrader_prep_layering; mret tt);
    self ← get_self;
    _ ← when (negb (u_pkgs_imported self)) rpmostree_sysroot_upgrader_import_pkgs;
    _ ← perform_local_assembly;
    self ← get_self;
    let target_revision := default (u_base_revision self) (u_final_revision self) in
    let use_staging := nonnull (op_booted ops) in
    let kargs := default (op_bootconfig_kargs ops (u_origin_merge_deployment self)) (u_kargs_strv self) in
    _ ← modify (set_u_kargs (Some kargs));
    origin ← lift (match rpmostree_origin_dup_keyfile (u_original_origin self) with Ok kf => Ok kf | _ => Abort end);
    overlay ← stage_overlay (u_computed_origin self);
    let opts := MkDeployTreeOpts
      (flag_set (u_flags self) RPMOSTREE_SYSROOT_UPGRADER_FLAGS_LOCK_FINALIZATION) kargs overlay in
    let merge := u_cfg_merge_deployment self in
    new_deployment ←
      (if use_staging then
         performs (StagedTree (u_osname self) target_revision origin merge opts)
           (op_stage_tree ops (u_osname self) target_revision origin merge opts)
       else
         performs (DeployedTree (u_osname self) target_revision origin merge opts)
           (op_deploy_tree ops (u_osname self) target_revision origin merge opts));
    _ ← write_history new_deployment;
    _ ← (match u_final_revision self with
         | None =>
             _ ← call (op_open_deployment ops new_deployment);
             performs SanityChecked (op_sanitycheck ops)
         | Some _ =>
             performs (SetRef None RPMOSTREE_TMP_BASE_REF (u_base_revision self))
               (op_set_ref_immediate ops None RPMOSTREE_TMP_BASE_REF (u_base_revision self))
         end);
    _ ← (if use_staging then performs SyscoreCleaned (op_syscore_cleanup ops)
         else performs (DeploymentWritten new_deployment merge) (op_syscore_write_deployment ops new_deployment merge));
    mret (Some new_deployment).
End upgrader.
