(* ===== verification/UpgraderSpec.v ===== *)
(** What the upgrader of [Upgrader] guarantees: when the base may move, what is layered,
    that its assertions hold, and what a deployment consists of. *)

From S2P Require Import Prelude Vardict Nevra RpmHeaders Deploy SysrootCore Refspec Origin OriginFile OriginApi Upgrader.

(** One step of a program; the effects are concatenated. *)
Ltac wp_step :=
  lazymatch goal with
  | |- wp (_ ≫= _) _ _ => apply wp_bind
  | |- wp get_self _ _ => apply wp_get
  | |- wp (modify _) _ _ => apply wp_modify
  | |- wp (mret _) _ _ => apply wp_ret
  | |- wp (call _) _ _ => apply wp_call; intros ? ?
  | |- wp (performs _ _) _ _ => apply wp_performs; intros ? ?
  | |- wp (on_error _ _) _ _ => apply wp_on_error
  | |- wp (when _ _) _ _ => apply wp_when; intros ?
  | |- wp (if _ then _ else _) _ _ => apply wp_if; intros ?
  end; cbv beta iota zeta.
Ltac wp_steps := repeat wp_step.

Section spec.
Context `{KeyFileSyntax} {Sack : Type} (sops : SackOps Sack) (ops : UpgraderOps Sack)
  (validate_checksum : string → outcome unit) (hy_split_nevra : string → option split_nevra)
  (ostree_parse_refspec : string → outcome (option string * string)) (type_mismatch : string).

(** libostree's checks set an error and return. *)
Context (validate_returns : ∀ s, validate_checksum s ≠ Abort)
  (parse_returns : ∀ s, ostree_parse_refspec s ≠ Abort).

Local Abbreviation M := (prog uevent (Upgrader Sack)).

Definition has_base (o : RpmOstreeOrigin) : Prop :=
  nonnull (base_refspec o) || nonnull (container_image_reference o) = true.

Lemma get_refspec_returns o : has_base o → rpmostree_origin_get_refspec validate_checksum o ≠ Abort.
Proof.
  unfold has_base, rpmostree_origin_get_refspec, get_base_refspec.
  by destruct (container_image_reference o), (base_refspec o).
Qed.

(** ** Pulling *)

Definition is_pull (e : uevent) : Prop :=
  match e with Pulled _ _ | ContainerPulled _ _ => True | _ => False end.

Lemma pull_ostree_base_wp self dir flags override refspec u :
  wp (pull_ostree_base ops validate_checksum ostree_parse_refspec self dir flags override refspec)
    (λ tr rev u', u' = u ∧
       (∀ c, override = Some c → rev = c) ∧
       (override = None → op_resolve_rev ops refspec = Done rev) ∧
       (flag_set (u_flags self) RPMOSTREE_SYSROOT_UPGRADER_FLAGS_SYNTHETIC_PULL = true → tr = []) ∧
       Forall (λ e, match e with
                    | Pulled _ opts => po_timestamp_check opts
                        = negb (flag_set (u_flags self) RPMOSTREE_SYSROOT_UPGRADER_FLAGS_ALLOW_OLDER)
                    | SetRef _ _ rev => rev = u_base_revision self
                    | _ => True
                    end) tr) u.
Proof using parse_returns.
  clear hy_split_nevra. unfold pull_ostree_base. wp_step. apply wp_lift; [apply parse_returns|].
  intros [remote ref] _. cbv beta iota zeta. wp_step.
  assert (∀ (Q : list uevent → string → Upgrader Sack → Prop) u,
    (∀ rev, (∀ c, override = Some c → rev = c) → (override = None → op_resolve_rev ops refspec = Done rev) →
     Q [] rev u) →
    wp (match override with Some c => mret c | None => call (op_resolve_rev ops refspec) end) Q u) as Hlast.
  { intros Q u0 HQ. destruct override as [c|]; wp_step; apply HQ; naive_solver. }
  destruct remote as [remote|]; [|wp_step; apply Hlast; naive_solver].
  wp_step; [|apply Hlast; naive_solver].
  destruct (flag_set (u_flags self) RPMOSTREE_SYSROOT_UPGRADER_FLAGS_SYNTHETIC_PULL); [done|].
  wp_steps; apply Hlast; intros rev Hrev1 Hrev2; split_and!; try done; repeat constructor; done.
Qed.

Lemma pull_base_wp dir flags u : has_base (u_computed_origin u) →
  wp (rpmostree_sysroot_upgrader_pull_base ops validate_checksum ostree_parse_refspec dir flags)
    (λ tr changed u',
       u' = set_u_base (u_base_revision u') u ∧
       (u_base_revision u' ≠ u_base_revision u →
          changed = true ∧
          (flag_set (u_flags u) RPMOSTREE_SYSROOT_UPGRADER_FLAGS_ALLOW_OLDER = false →
           op_check_timestamps ops (u_base_revision u) (u_base_revision u') = Done tt)) ∧
       (flag_set flags OSTREE_REPO_PULL_FLAGS_COMMIT_ONLY = false →
          changed = negb (bool_decide (u_base_revision u' = u_base_revision u))) ∧
       (flag_set (u_flags u) RPMOSTREE_SYSROOT_UPGRADER_FLAGS_SYNTHETIC_PULL = true →
          container_image_reference (u_computed_origin u) = None → tr = []) ∧
       (∀ c, override_commit (u_computed_origin u) = Some c → c ≠ ""%string →
          container_image_reference (u_computed_origin u) = None → u_base_revision u' = c)) u.
Proof using parse_returns.
  clear hy_split_nevra. intros Hb. unfold rpmostree_sysroot_upgrader_pull_base. do 2 wp_step. wp_step.
  apply wp_lift; [by apply get_refspec_returns|]. intros [kind refspec] Hr. cbv beta iota zeta. simpl rs_kind. simpl rs_refspec.
  assert (kind = Container ↔ container_image_reference (u_computed_origin u) ≠ None) as Hkind.
  { unfold rpmostree_origin_get_refspec, get_base_refspec in Hr.
    destruct (container_image_reference (u_computed_origin u)), (base_refspec (u_computed_origin u)); simplify_eq;
      split; try done. by case_match. }
  assert (∀ (Q : list uevent → bool → Upgrader Sack → Prop) rev,
    (rev = u_base_revision u → Q [] false u) →
    (rev ≠ u_base_revision u →
     (flag_set (u_flags u) RPMOSTREE_SYSROOT_UPGRADER_FLAGS_ALLOW_OLDER = false →
      op_check_timestamps ops (u_base_revision u) rev = Done tt) → Q [] true (set_u_base rev u)) →
    wp (_ ← when (negb (bool_decide (rev = u_base_revision u))) (
          _ ← when (negb (flag_set (u_flags u) RPMOSTREE_SYSROOT_UPGRADER_FLAGS_ALLOW_OLDER))
                (on_error "While checking against deployment timestamp"
                   (call (op_check_timestamps ops (u_base_revision u) rev)));
          modify (set_u_base rev));
        mret (negb (bool_decide (rev = u_base_revision u)))) Q u) as Hmove.
  { intros Q rev Hsame Hnew. wp_steps; case_bool_decide; simpl in *; try done.
    - destruct a. by apply Hnew.
    - apply Hnew; [done|]. by destruct (flag_set (u_flags u) _).
    - by apply Hsame. }
  assert (set_u_base (u_base_revision u) u = u) as Hid by (by destruct u).
  set (override := if bool_decide (rpmostree_origin_get_override_commit (u_computed_origin u) = ""%string)
                   then None else Some (rpmostree_origin_get_override_commit (u_computed_origin u))).
  assert (∀ c, override_commit (u_computed_origin u) = Some c → c ≠ ""%string → override = Some c) as Hov.
  { intros c Hc Hne. unfold override, rpmostree_origin_get_override_commit, get_override_commit.
    rewrite Hc. simpl. by rewrite bool_decide_eq_false_2. }
  apply wp_if; intros Hcheck.
  { wp_step. rewrite Hid. apply andb_true_iff in Hcheck as [Hk%bool_decide_eq_true Hflag].
    split_and!; [done|done|congruence|..]; intros; exfalso; by apply Hkind. }
  clear Hcheck. wp_step. destruct kind; [wp_step|eapply wp_mono; [apply pull_ostree_base_wp|]..].
  - apply Hmove; simpl; intros Hrev; intros; rewrite ?Hid, ?bool_decide_eq_true_2, ?bool_decide_eq_false_2 by done;
      (split_and!; [done|naive_solver|done|..]; intros; exfalso; by apply Hkind).
  - intros tr rev u' (-> & H1 & H2 & H3 & _).
    apply Hmove; simpl; intros Hrev; intros; rewrite ?Hid, ?bool_decide_eq_true_2, ?bool_decide_eq_false_2 by done;
      (split_and!; [done|naive_solver|done|..]; intros; rewrite ?H3 by done; [done|]; try rewrite <-Hrev; eauto).
  - intros tr rev u' (-> & H1 & H2 & H3 & _).
    apply Hmove; simpl; intros Hrev; intros; rewrite ?Hid, ?bool_decide_eq_true_2, ?bool_decide_eq_false_2 by done;
      (split_and!; [done|naive_solver|done|..]; intros; rewrite ?H3 by done; [done|]; try rewrite <-Hrev; eauto).
Qed.

(** ** Inactive overrides and requests *)

(** [o'] is [o] with some requests taken away. *)
Definition reduces (o o' : RpmOstreeOrigin) : Prop :=
  base_refspec o' = base_refspec o ∧ container_image_reference o' = container_image_reference o ∧
  initramfs o' = initramfs o ∧ cliwrap o' = cliwrap o ∧ ∀ r, asks o' r → asks o r.

#[local] Instance reduces_preorder : PreOrder reduces.
Proof.
  split; [by intros o|]. intros o1 o2 o3 (?&?&?&?&?) (?&?&?&?&?). unfold reduces.
  split_and!; try congruence. auto.
Qed.

Lemma reduces_has_base o o' : reduces o o' → has_base o → has_base o'.
Proof. unfold has_base. by intros (-> & -> & _). Qed.

Lemma get_by_pkgname_returns s p : rpmostree_sack_get_by_pkgname sops s p ≠ Abort.
Proof. unfold rpmostree_sack_get_by_pkgname. by destruct (hy_query_name sops s p) as [|? [|]]. Qed.

Lemma inactive_removals_returns s l : inactive_removals sops s l ≠ Abort.
Proof.
  induction l as [|p l IH]; [done|]. simpl. pose proof (get_by_pkgname_returns s p).
  destruct (rpmostree_sack_get_by_pkgname sops s p); [|done..]. simpl.
  by destruct (inactive_removals sops s l).
Qed.

Lemma inactive_removals_spec s l inactive : inactive_removals sops s l = Ok inactive →
  ∀ p, p ∈ l → (p ∈ inactive ∧ rpmostree_sack_get_by_pkgname sops s p = Ok None)
            ∨ (p ∉ inactive ∧ ∃ pkg, rpmostree_sack_get_by_pkgname sops s p = Ok (Some pkg)).
Proof.
  revert inactive. induction l as [|q l IH]; intros inactive; [by intros _ p ?%elem_of_nil|].
  simpl. intros (pkg & Hpkg & (rest & Hrest & [= <-])%bind_ok)%bind_ok p Hp.
  assert (p ∈ rest → rpmostree_sack_get_by_pkgname sops s p = Ok None) as Hin.
  { clear IH Hp. revert rest Hrest. induction l as [|q' l IHl]; intros rest; simpl.
    - intros [= <-] ?%elem_of_nil. done.
    - intros (pkg' & Hq' & (rest' & Hrest' & [= <-])%bind_ok)%bind_ok.
      destruct pkg'; simpl; [by apply IHl|]. intros [->|?]%elem_of_cons; [done|by eapply IHl]. }
  destruct (decide (p = q)) as [->|Hne].
  - destruct pkg as [pkg|]; simpl; [|left; split; [by left|done]].
    right. split; [|eauto]. intros Hr%Hin. congruence.
  - apply elem_of_cons in Hp as [?|Hp]; [done|]. destruct (IH _ Hrest p Hp) as [[? ?]|[Hn ?]].
    + left. split; [|done]. destruct pkg; simpl; [done|by right].
    + right. split; [|done]. destruct pkg; simpl; [done|]. by intros [?|?]%elem_of_cons.
Qed.

Lemma remove_removals_asks l o r :
  asks (foldl (λ o item, (rpmostree_origin_remove_override_remove item o).2) o l) r
  ↔ asks o r ∧ (∀ p, r = RRemove p → p ∉ l).
Proof.
  revert o. induction l as [|q l IH]; intros o; simpl.
  - split; [|tauto]. intros ?. split; [done|]. by intros ? ? ?%elem_of_nil.
  - rewrite IH. unfold rpmostree_origin_remove_override_remove, remove_package_override_remove. simpl.
    destruct r as [| | |p| |]; simpl; [..|]; try (split; intros [? _]; (split; [done|by intros ? ?]); fail).
    destruct (override_remove o) as [s|]; simpl; [|by split; intros [?%elem_of_empty _]].
    rewrite elem_of_difference, not_elem_of_singleton. split.
    + intros [[? ?] Hn]. split; [done|]. intros ? [= <-] [?|?]%elem_of_cons; [done|by eapply Hn].
    + intros [? Hn]. specialize (Hn p eq_refl). split; [split; [done|]|]; [set_solver|].
      intros ? [= <-]. set_solver.
Qed.

Lemma remove_removals_reduces l o :
  reduces o (foldl (λ o item, (rpmostree_origin_remove_override_remove item o).2) o l).
Proof.
  unfold reduces. split_and!; [..|by intros r [? _]%remove_removals_asks];
    revert o; induction l as [|q l IH]; intros o; simpl; rewrite ?IH; done.
Qed.

Lemma finalize_removal_overrides_wp u s : u_rsack u = Some s →
  wp (finalize_removal_overrides sops)
    (λ tr _ u', tr = [] ∧ ∃ o', u' = set_u_computed o' u ∧ reduces (u_computed_origin u) o' ∧
       ∀ r, asks o' r ↔ asks (u_computed_origin u) r ∧
         ∀ p, r = RRemove p → ∃ pkg, rpmostree_sack_get_by_pkgname sops s p = Ok (Some pkg)) u.
Proof.
  intros Hs. unfold finalize_removal_overrides, get_rsack. do 3 wp_step. rewrite Hs. wp_steps.
  apply wp_lift; [apply inactive_removals_returns|]. intros inactive Hi. cbv beta. wp_step.
  split; [done|]. eexists. split_and!; [done|apply remove_removals_reduces|].
  intros r. rewrite remove_removals_asks. apply and_iff_r. intros Hr.
  assert (∀ p, r = RRemove p → p ∈ rpmostree_origin_get_overrides_remove (u_computed_origin u)) as Hl.
  { intros p ->. simpl in Hr. unfold rpmostree_origin_get_overrides_remove, get_packages_override_remove.
    destruct (override_remove (u_computed_origin u)); [by apply elem_of_bset_iter|].
    by apply elem_of_empty in Hr. }
  split; intros Hp p E; destruct (inactive_removals_spec _ _ _ Hi p (Hl p E)) as [[Hn E']|[Hn E']]; try done.
  - by apply Hp in E.
  - destruct (Hp p E). congruence.
Qed.

Definition is_replacement (r : request) : bool :=
  match r with RReplace _ _ | RReplaceLocal _ _ => true | _ => false end.

Lemma remove_from_first_subset item v o' : o' ∈ (remove_from_first item v).2 →
  ∃ o, o ∈ v ∧ ror_from o' = ror_from o ∧ ror_packages o' ⊆ ror_packages o.
Proof.
  induction v as [|o v IH]; simpl; [by intros ?%elem_of_nil|]. case_bool_decide.
  - intros [->|Ho]%elem_of_cons; [exists o|exists o']; simpl; set_solver.
  - destruct (remove_from_first item v) as [b v']. simpl in *.
    intros [->|Ho]%elem_of_cons; [exists o; set_solver|]. destruct (IH Ho) as (o1 & ? & ?). exists o1. set_solver.
Qed.

Lemma remove_replacement_asks o item r :
  (asks (remove_replacement o item) r → asks o r) ∧
  (is_replacement r = false → asks (remove_replacement o item) r ↔ asks o r).
Proof.
  unfold remove_replacement, rpmostree_origin_remove_override_replace, remove_package_override_replace,
    rpmostree_origin_remove_override_replace_local, remove_package_override_replace_local. simpl.
  destruct (override_replace o) as [v|] eqn:Ev.
  - pose proof (remove_from_first_subset item v) as Hsub.
    destruct (remove_from_first item v) as [b v']. simpl in Hsub.
    destruct r; simpl; try done; split; try done.
    + intros (o1 & Ho1 & Hf & Hp). destruct (Hsub o1 Ho1) as (o2 & ? & ? & ?). exists o2.
      rewrite Ev. simpl. split_and!; [done|congruence|set_solver].
    + rewrite lookup_del_key. by intros [? _].
  - destruct r; simpl; try done; split; try done.
    rewrite lookup_del_key. by intros [? _].
Qed.

Lemma remove_replacement_reduces o item : reduces o (remove_replacement o item).
Proof.
  unfold reduces, remove_replacement, rpmostree_origin_remove_override_replace, remove_package_override_replace.
  pose proof (λ r, proj1 (remove_replacement_asks o item r)) as Ha.
  unfold remove_replacement, rpmostree_origin_remove_override_replace, remove_package_override_replace in Ha.
  simpl in *. destruct (override_replace o) as [v|]; [|done]. by destruct (remove_from_first item v).
Qed.

Lemma remove_replacements_spec l o :
  reduces o (foldl remove_replacement o l) ∧
  ∀ r, is_replacement r = false → asks (foldl remove_replacement o l) r ↔ asks o r.
Proof.
  revert o. induction l as [|item l IH]; intros o; simpl; [done|].
  destruct (IH (remove_replacement o item)) as [H1 H2]. split.
  - etrans; [apply remove_replacement_reduces|done].
  - intros r Hr. rewrite H2 by done. by apply remove_replacement_asks.
Qed.

Lemma decompose_sha256_returns v : rpmostree_decompose_sha256_nevra validate_checksum v ≠ Abort.
Proof.
  unfold rpmostree_decompose_sha256_nevra. repeat case_decide; [done..|].
  pose proof (validate_returns (str_take 64 v)). by destruct (validate_checksum (str_take 64 v)).
Qed.

Lemma inactive_local_returns s l :
  inactive_local_replacements sops validate_checksum hy_split_nevra s l ≠ Abort.
Proof.
  induction l as [|v l IH]; [done|]. simpl. pose proof (decompose_sha256_returns v).
  destruct (rpmostree_decompose_sha256_nevra validate_checksum v) as [[nevra ?]| |]; [|done..]. simpl.
  unfold rpmostree_decompose_nevra. destruct (hy_split_nevra nevra) as [sn|]; [|done]. simpl.
  pose proof (get_by_pkgname_returns s (sn_name sn)).
  destruct (rpmostree_sack_get_by_pkgname sops s (sn_name sn)); [|done..]. simpl.
  by destruct (inactive_local_replacements _ _ _ s l).
Qed.

Lemma finalize_replacement_overrides_wp u s : u_rsack u = Some s →
  wp (finalize_replacement_overrides sops validate_checksum hy_split_nevra)
    (λ tr _ u', tr = [] ∧ ∃ o', u' = set_u_computed o' u ∧ reduces (u_computed_origin u) o' ∧
       ∀ r, is_replacement r = false → asks o' r ↔ asks (u_computed_origin u) r) u.
Proof.
  intros Hs. unfold finalize_replacement_overrides, get_rsack. do 3 wp_step. rewrite Hs. wp_steps.
  apply wp_lift; [apply inactive_local_returns|]. intros inactive Hi. cbv beta. wp_step.
  split; [done|]. eexists. split; [done|]. apply remove_replacements_spec.
Qed.

Lemma remove_inactive_requested l o s : NoDup l → packages o = Some s → (∀ p, p ∈ l → p ∈ s) →
  remove_inactive hy_split_nevra l o = Ok (set_packages (Some (s ∖ list_to_set l)) o).
Proof.
  revert o s. induction l as [|p l IH]; intros o s Hnd Hs Hin.
  - rewrite list_to_set_nil, difference_empty_L. destruct o; simpl in *. by subst.
  - apply NoDup_cons in Hnd as [Hp Hnd]. cbn [remove_inactive].
    unfold rpmostree_origin_remove_packages, remove_packages.
    rewrite (remove_packages_loop_requested hy_split_nevra [p] false None None false o s);
      [|apply NoDup_singleton|done|by intros q ->%list_elem_of_singleton; apply Hin, list_elem_of_here].
    simpl. rewrite (IH _ (s ∖ ({[p]} ∪ ∅))); [|done|done|].
    + destruct o. unfold set_packages. simpl. by rewrite difference_difference_l_L, (right_id_L ∅ (∪)).
    + intros q Hq. assert (q ≠ p) by (intros ->; done). rewrite (right_id_L ∅ (∪)).
      apply elem_of_difference. split; [apply Hin; by right|by apply not_elem_of_singleton].
Qed.

Lemma inactive_requests_returns o s l : inactive_requests sops o s l ≠ Abort.
Proof.
  induction l as [|p l IH]; [done|]. simpl.
  destruct (rpmostree_get_matching_packages sops s p); [done|]. case_match; [done|].
  by destruct (inactive_requests sops o s l).
Qed.

Lemma inactive_requests_spec o s l inactive : inactive_requests sops o s l = Ok inactive →
  inactive.*1 = filter (λ p, rpmostree_get_matching_packages sops s p ≠ []) l ∧
  ∀ p pkg, p ∈ l → pkg ∈ rpmostree_get_matching_packages sops s p →
    sp_reponame pkg ≠ HY_CMDLINE_REPO_NAME → has_packages_override_remove_name o (sp_name pkg) = false.
Proof.
  revert inactive. induction l as [|p l IH]; intros inactive; cbn [inactive_requests].
  { intros [= <-]. split; [done|]. by intros ?? ?%elem_of_nil. }
  rewrite filter_cons. destruct (rpmostree_get_matching_packages sops s p) as [|first others] eqn:Em.
  - intros [-> H2]%IH. rewrite decide_False by tauto. split; [done|].
    intros q pkg [->|?]%elem_of_cons; [by rewrite Em; intros ?%elem_of_nil|eauto].
  - destruct (removed_match o (first :: others)) eqn:Er; [done|].
    intros (rest & [H1 H2]%IH & [= <-])%bind_ok. rewrite decide_True by done.
    split; [by rewrite fmap_cons, H1|]. intros q pkg [->|?]%elem_of_cons; [|eauto]. rewrite Em. intros Hin Hrepo.
    pose proof (find_none _ _ Er pkg (proj1 (list_elem_of_In _ _) Hin)) as Hn.
    cbv beta in Hn. by rewrite bool_decide_eq_false_2 in Hn by done.
Qed.

Lemma add_local_pkgs_returns dir l s : add_local_pkgs_loop sops ops validate_checksum dir l s ≠ Abort.
Proof.
  revert s. induction l as [|v l IH]; intros s; [done|]. simpl. pose proof (decompose_sha256_returns v).
  destruct (rpmostree_decompose_sha256_nevra validate_checksum v) as [[nevra sha]| |]; [|done..]. simpl.
  destruct (op_pkgcache_find_pkg_header ops nevra sha); [|done]. simpl.
  destruct (op_write_header ops _); [|done]. simpl. case_match; [done|apply IH].
Qed.

(** [sack] is [base] with the headers of the local packages [l], which are in the directory
    [dir]. *)
Definition with_local (dir : option string) (l : list string) (base sack : Sack) : Prop :=
  (l ≠ [] → dir ≠ None) ∧ ∃ nevras,
    Forall2 (λ v nevra, ∃ sha, rpmostree_decompose_sha256_nevra validate_checksum v = Ok (nevra, sha)) l nevras ∧
    sack = foldl (dnf_sack_add_cmdline_package sops) base
             ((λ nevra, default ""%string dir +:+ "/" +:+ nevra +:+ ".rpm") <$> nevras).

Lemma with_local_nil dir base : with_local dir [] base base.
Proof. split; [done|]. by exists []. Qed.

Lemma with_local_app dir1 dir2 l1 l2 s s1 s2 : with_local dir1 l1 s s1 → with_local dir2 l2 s1 s2 →
  (∀ d, dir1 = Some d → dir2 = Some d) → with_local dir2 (l1 ++ l2) s s2.
Proof.
  intros (Hd1 & n1 & F1 & ->) (Hd2 & n2 & F2 & ->) Hdir.
  assert (l1 = [] ∨ dir1 = dir2 ∧ dir2 ≠ None) as Hcase.
  { destruct l1 as [|v l1]; [by left|]. right. destruct dir1 as [d|]; [|by destruct Hd1].
    by rewrite (Hdir d eq_refl). }
  split.
  - destruct Hcase as [->|[_ ?]]; [done|]. done.
  - exists (n1 ++ n2). split; [by apply Forall2_app|]. rewrite fmap_app, foldl_app. f_equal.
    destruct Hcase as [->|[-> _]]; [|done]. by apply Forall2_nil_inv_l in F1 as ->.
Qed.

Lemma add_local_pkgs_spec dir l s s' : add_local_pkgs_loop sops ops validate_checksum dir l s = Ok s' →
  with_local (Some dir) l s s'.
Proof.
  revert s. induction l as [|v l IH]; intros s; cbn [add_local_pkgs_loop].
  { intros [= <-]. apply with_local_nil. }
  intros ([nevra sha] & Hv & (? & _ & (? & _ & Hr)%bind_ok)%bind_ok)%bind_ok.
  destruct (rpmostree_sack_has_subject sops s nevra); [done|]. apply IH in Hr.
  apply (with_local_app (Some dir) _ [v] _ _ (dnf_sack_add_cmdline_package sops s (dir +:+ "/" +:+ nevra +:+ ".rpm"))); [|done|done].
  split; [done|]. exists [nevra]. split; [|done]. constructor; [eauto|constructor].
Qed.

Lemma add_local_pkgset_wp l u s : u_rsack u = Some s →
  wp (add_local_pkgset_to_sack sops ops validate_checksum l)
    (λ tr _ u', tr = [] ∧ ∃ m' s', u' = set_u_rsack (Some s') (set_u_metatmpdir m' u) ∧ with_local m' l s s' ∧
       ∀ d, u_metatmpdir u = Some d → m' = Some d) u.
Proof.
  intros Hs. assert (u = set_u_rsack (Some s) (set_u_metatmpdir (u_metatmpdir u) u)) as Hid
    by (destruct u; simpl in *; by subst).
  destruct l as [|v l]; unfold add_local_pkgset_to_sack; cbv iota.
  { wp_step. split; [done|]. exists (u_metatmpdir u), s. auto using with_local_nil. }
  generalize (v :: l) as vl; intros vl. unfold initialize_metatmpdir, get_rsack. do 3 wp_step. destruct (u_metatmpdir u) as [path|] eqn:Em.
  - wp_step. do 3 wp_step. rewrite Hs. wp_steps. apply wp_lift; [apply add_local_pkgs_returns|].
    intros s' Hs'%add_local_pkgs_spec. cbv beta. wp_step. split; [done|]. exists (Some path), s'.
    split; [by rewrite <-Em; destruct u|done].
  - wp_steps. simpl. rewrite Hs. wp_steps. apply wp_lift; [apply add_local_pkgs_returns|].
    intros s' Hs'%add_local_pkgs_spec. cbv beta. wp_step. split; [done|]. by exists (Some a), s'.
Qed.

Context (hash_order : list string → list string) (hash_order_perm : ∀ l, hash_order l ≡ₚ l).

Local Abbreviation overlays := (finalize_overlays sops ops validate_checksum hy_split_nevra hash_order).
Local Abbreviation overrides := (finalize_overrides sops validate_checksum hy_split_nevra).

Lemma set_packages_reduces o s l : packages o = Some s →
  reduces o (set_packages (Some (s ∖ list_to_set l)) o).
Proof.
  intros Hs. unfold reduces. split_and!; [done..|]. intros [] ?; simpl in *; [|done..].
  rewrite Hs. simpl. set_solver.
Qed.

(** The inactive requests are removed from the computed origin without failing. *)
Lemma remove_inactive_spec o sack inactive :
  inactive_requests sops o sack (get_packages o) = Ok inactive →
  ∃ o', remove_inactive hy_split_nevra (hash_order inactive.*1) o = Ok o' ∧ reduces o o' ∧
    (packages_local o' = packages_local o ∧ packages_local_fileoverride o' = packages_local_fileoverride o) ∧
    ∀ r, asks o' r ↔ asks o r ∧ ∀ p, r = RPackage p → rpmostree_get_matching_packages sops sack p = [].
Proof.
  intros [Hi _]%inactive_requests_spec. unfold get_packages in Hi.
  destruct (packages o) as [s|] eqn:Es.
  - assert (hash_order inactive.*1 ≡ₚ filter (λ p, rpmostree_get_matching_packages sops sack p ≠ []) (bset_iter s)) as Hp
      by (by rewrite hash_order_perm, Hi).
    assert (∀ p, p ∈ hash_order inactive.*1 ↔ rpmostree_get_matching_packages sops sack p ≠ [] ∧ p ∈ s) as Hin.
    { intros p. rewrite Hp, list_elem_of_filter, elem_of_bset_iter. done. }
    rewrite (remove_inactive_requested _ _ s); [|rewrite Hp; apply NoDup_filter, bset_iter_nodup|done|by intros p [??]%Hin].
    eexists. split_and!; [done|by apply set_packages_reduces|done..|].
    intros r. destruct r as [p| | | | |]; simpl; [|by split; [intros ?; split; [done|by intros ? ?]|intros [? _]]..].
    rewrite Es. simpl. rewrite elem_of_difference, elem_of_list_to_set, Hin. split.
    + intros [? Hn]. split; [done|]. intros ? [= <-].
      destruct (rpmostree_get_matching_packages sops sack p); [done|]. exfalso. by apply Hn.
    + intros [? Hm]. split; [done|]. rewrite (Hm p eq_refl). tauto.
  - rewrite filter_nil in Hi. rewrite Hi. pose proof (hash_order_perm []) as Hn.
    apply Permutation_nil_r in Hn. rewrite Hn. exists o. split_and!; [done..|].
    intros r. split; [|tauto]. intros Hr. split; [done|]. intros p ->. simpl in Hr. rewrite Es in Hr.
    by apply elem_of_empty in Hr.
Qed.

(** The local packages of an origin. *)
Definition local_pkgs (o : RpmOstreeOrigin) : list string :=
  rpmostree_origin_get_local_packages o ++ rpmostree_origin_get_local_fileoverride_packages o.

Lemma local_pkgs_eq o o' : packages_local o' = packages_local o →
  packages_local_fileoverride o' = packages_local_fileoverride o → local_pkgs o' = local_pkgs o.
Proof.
  unfold local_pkgs, rpmostree_origin_get_local_packages, rpmostree_origin_get_local_fileoverride_packages,
    get_local_packages, get_local_fileoverride_packages. by intros -> ->.
Qed.

Lemma finalize_overlays_wp u s : u_rsack u = Some s →
  wp overlays
    (λ tr _ u', tr = [] ∧ ∃ m' s' o', u' = set_u_computed o' (set_u_rsack (Some s') (set_u_metatmpdir m' u)) ∧
       reduces (u_computed_origin u) o' ∧ with_local m' (local_pkgs o') s s' ∧
       ∀ r, asks o' r ↔ asks (u_computed_origin u) r ∧
         ∀ p, r = RPackage p → rpmostree_get_matching_packages sops s' p = []) u.
Proof.
  intros Hs. unfold finalize_overlays. do 3 wp_step. rewrite Hs. apply wp_lift; [done|]. intros ? _.
  cbv beta zeta. wp_step.
  eapply wp_mono; [by apply (add_local_pkgset_wp _ _ s)|]. cbv beta. intros tr1 _ u1 (-> & m1 & s1 & -> & W1 & _). wp_step.
  eapply wp_mono; [by apply (add_local_pkgset_wp _ _ s1)|]. cbv beta. intros tr2 _ u2 (-> & m2 & s2 & -> & W2 & Hm).
  wp_step. unfold get_rsack. do 2 wp_step. cbn [u_rsack set_u_rsack]. wp_steps.
  apply wp_lift; [apply inactive_requests_returns|]. intros inactive Hi. cbv beta.
  destruct (remove_inactive_spec _ _ _ Hi) as (o' & Ho' & Hred & [Hl1 Hl2] & Hasks).
  wp_step. rewrite Ho'. apply wp_lift; [done|]. intros ? [= <-]. cbv beta. wp_step.
  split; [done|]. exists m2, s2, o'. split_and!; [done|done| |done].
  rewrite (local_pkgs_eq _ _ Hl1 Hl2). by eapply with_local_app.
Qed.

(** ** Preparing the layers *)

(** The packages a base was searched in: those of the base, and the local ones. *)
Definition still_active (base sack : Sack) (r : request) : Prop :=
  match r with
  | RPackage p => rpmostree_get_matching_packages sops sack p = []
  | RRemove p => ∃ pkg, rpmostree_sack_get_by_pkgname sops base p = Ok (Some pkg)
  | _ => True
  end.

Lemma finalize_wp u s : u_rsack u = Some s →
  wp (_ ← overrides; overlays)
    (λ tr _ u', tr = [] ∧ ∃ m' s' o', u' = set_u_computed o' (set_u_rsack (Some s') (set_u_metatmpdir m' u)) ∧
       reduces (u_computed_origin u) o' ∧ with_local m' (local_pkgs o') s s' ∧
       (∀ r, asks o' r → still_active s s' r) ∧
       (∀ r, asks (u_computed_origin u) r → still_active s s' r → is_replacement r = false → asks o' r)) u.
Proof.
  intros Hs. unfold finalize_overrides. do 2 wp_step.
  eapply wp_mono; [by apply (finalize_removal_overrides_wp _ s)|]. cbv beta. intros tr1 _ u1 (-> & o1 & -> & R1 & A1).
  eapply wp_mono; [by apply (finalize_replacement_overrides_wp _ s)|]. cbv beta.
  intros tr2 _ u2 (-> & o2 & -> & R2 & A2). cbn [u_computed_origin set_u_computed] in *.
  eapply wp_mono; [by apply (finalize_overlays_wp _ s)|]. cbv beta.
  intros tr3 _ u3 (-> & m' & s' & o3 & -> & R3 & W3 & A3). cbn [u_computed_origin set_u_computed] in *.
  split; [done|]. exists m', s', o3. split_and!.
  - by destruct u.
  - by do 2 (etrans; [done|]).
  - done.
  - intros r Hr. pose proof Hr as [Hr2 Hp]%A3. destruct r; simpl; [by apply Hp|done|done| |done|done].
    apply A2 in Hr2; [|done]. apply A1 in Hr2 as [_ Hp2]. by apply Hp2.
  - intros r Hr Hact Hrep. apply A3. split; [apply A2; [done|]; apply A1; split; [done|]|]; intros p ->; done.
Qed.

(** What preparing and assembling leave alone. *)
Definition request_of (u : Upgrader Sack) :=
  (u_osname u, u_flags u, (u_cfg_merge_deployment u, u_origin_merge_deployment u), u_original_origin u,
   u_base_revision u, u_kargs_strv u, (u_command_line u, u_agent u, u_sd_unit u)).

(** Effects that do not touch refs or deployments: only the base [base] is checked out, and
    only [rev] is committed, on top of it. *)
Definition preparatory (base : string) (rev : option string) (e : uevent) : Prop :=
  match e with
  | CheckedOut r => r = base
  | Committed b r => b = base ∧ rev = Some r
  | ContextSetup _ _ _ | ContextPrepared | Downloaded | Imported | Assembled _ | AssembledEnd
  | Postprocessed | RanDepmod _ | RanDracut _ _ _ _ | KernelFinalized | StagedOverlay _ _ => True
  | _ => False
  end.
Lemma preparatory_weaken base rev tr : Forall (preparatory base None) tr → Forall (preparatory base rev) tr.
Proof. intros Htr. eapply Forall_impl; [exact Htr|]. intros []; simpl; naive_solver. Qed.

Definition meta_known (u : Upgrader Sack) : Prop :=
  deployment_layeredmeta_load_commit (λ csum, returned (op_load_commit ops csum)) type_mismatch
    (u_origin_merge_deployment u) ≠ Abort.

Lemma checkout_base_tree_wp u rev :
  wp (checkout_base_tree ops)
    (λ tr _ u', u' = set_u_tmprootfs true u ∧ Forall (preparatory (u_base_revision u) rev) tr ∧
       (u_tmprootfs u = false → CheckedOut (u_base_revision u) ∈ tr)) u.
Proof.
  unfold checkout_base_tree. wp_step. wp_step. apply wp_if; intros Hr; wp_steps.
  - split_and!; [|done|congruence]. destruct u; simpl in *. by subst.
  - split_and!; [done|by repeat constructor|]. intros _. set_solver.
Qed.

(** The packages of the base: those of the pending deployment, if that is not live, has this
    base, and is recent enough to have its rpmdb; or those of a checkout of the base. *)
Variant sack_of_base (u : Upgrader Sack) (tr : list uevent) (base : Sack) : Prop :=
  | sack_from_pending meta :
      op_has_live_apply_state ops (u_origin_merge_deployment u) = Done false →
      deployment_layeredmeta_load_commit (λ csum, returned (op_load_commit ops csum)) type_mismatch
        (u_origin_merge_deployment u) = Ok meta →
      (is_layered meta = true → 4 ≤ clientlayer_version meta)%N →
      base_commit meta = u_base_revision u →
      op_base_refsack_for_root ops (u_origin_merge_deployment u) = Done (Some base) → sack_of_base u tr base
  | sack_from_checkout :
      CheckedOut (u_base_revision u) ∈ tr → op_refsack_for_tmprootfs ops = Done base → sack_of_base u tr base.

Lemma sack_of_base_more u tr tr' base : sack_of_base u tr base → sack_of_base u (tr ++ tr') base.
Proof. intros []; [by eapply sack_from_pending|]. apply sack_from_checkout; set_solver. Qed.

Lemma try_load_base_rsack_wp u : meta_known u → u_rsack u = None →
  wp (try_load_base_rsack_from_pending ops type_mismatch)
    (λ tr _ u', tr = [] ∧ u' = set_u_rsack (u_rsack u') u ∧
       ∀ base, u_rsack u' = Some base → sack_of_base u [] base) u.
Proof.
  intros Hm Hn. assert (u = set_u_rsack (u_rsack u) u) as Hid by (by destruct u).
  unfold try_load_base_rsack_from_pending. do 3 wp_step. wp_step.
  apply wp_if; intros Hlive; [wp_step; naive_solver|]. wp_step. apply wp_lift; [done|]. intros meta Hmeta. cbv beta.
  apply wp_if; intros Hver; [wp_step; naive_solver|]. apply wp_if; intros Hbase; [wp_step; naive_solver|]. wp_steps.
  apply negb_false_iff, bool_decide_eq_true in Hbase.
  case_match; wp_step; [|naive_solver]. split_and!; [done..|]. intros base [= <-].
  eapply sack_from_pending; [|done| |done|]; [by destruct a| |by simplify_eq].
  intros Hl. rewrite Hl in Hver. by apply N.ltb_ge in Hver.
Qed.

Lemma load_base_rsack_wp u : meta_known u → u_rsack u = None → u_tmprootfs u = false →
  wp (load_base_rsack ops type_mismatch)
    (λ tr _ u', Forall (preparatory (u_base_revision u) None) tr ∧
       ∃ s b, u' = set_u_rsack (Some s) (set_u_tmprootfs b u) ∧ sack_of_base u tr s) u.
Proof.
  intros Hm Hn Hroot. unfold load_base_rsack. wp_step. eapply wp_mono; [by apply try_load_base_rsack_wp|].
  cbv beta. intros tr _ u1 (-> & E1 & Hpend). do 3 wp_step.
  assert (u_base_revision u1 = u_base_revision u ∧ u_tmprootfs u1 = u_tmprootfs u) as [Eb Er] by (by rewrite E1).
  apply wp_when; intros Hnull.
  - wp_step. eapply wp_mono; [apply (checkout_base_tree_wp _ None)|]. cbv beta. intros tr _ u2 (-> & Htr & Hco).
    rewrite Eb in *. wp_steps. apply wp_lift; [done|]. intros _ _. rewrite !app_nil_r, app_nil_l. split; [done|].
    exists a, true. split; [rewrite E1; by destruct u|]. apply sack_from_checkout; [|done]. apply Hco. congruence.
  - wp_steps. apply negb_false_iff, nonnull_true in Hnull as [s Hs]. rewrite Hs. apply wp_lift; [done|].
    intros _ _. split; [constructor|]. exists s, (u_tmprootfs u).
    split; [rewrite E1, Hs; by destruct u|]. by apply Hpend.
Qed.

Lemma dup_keyfile_returns o : has_base o → ∃ kf, rpmostree_origin_dup_keyfile o = Ok kf.
Proof.
  unfold has_base, rpmostree_origin_dup_keyfile, treefile_to_origin_inner, write_base. intros Hb.
  destruct (base_refspec o), (container_image_reference o); simpl in *; [eauto..|done].
Qed.

Lemma decompose_returns v : decompose_sha256_nevra validate_checksum v ≠ Abort.
Proof.
  unfold decompose_sha256_nevra. destruct (split_once ":" v) as [[sha nevra]|]; [|done].
  pose proof (validate_returns sha). by destruct (validate_checksum sha).
Qed.

Lemma keyfile_optional_returns {A} (r : keyfile_error + A) : map_keyfile_optional r ≠ Abort.
Proof. by destruct r as [[]|]. Qed.

Lemma parse_localpkglist_returns kf g k : parse_localpkglist validate_checksum kf g k ≠ Abort.
Proof.
  unfold parse_localpkglist. apply bind_returns; [apply keyfile_optional_returns|]. intros [v|] _; [|done].
  apply bind_returns; [|done]. generalize (∅ : gmap string string).
  induction v as [|x v IH]; intros m; simpl; [done|].
  apply bind_returns; [apply decompose_returns|]. intros [nevra sha] _. apply IH.
Qed.

Lemma parse_override_source_returns v : parse_override_source v ≠ Abort.
Proof.
  unfold parse_override_source. apply prefix_error_returns.
  destruct (split_once "=" v) as [[]|]; [|done]. by repeat case_match.
Qed.

Lemma override_replace_loop_returns l : override_replace_loop l ≠ Abort.
Proof.
  induction l as [|x l IH]; simpl; [done|]. destruct (str_split "," x).
  apply bind_returns; [apply parse_override_source_returns|]. intros repo _. by apply bind_returns.
Qed.

Lemma origin_to_treefile_returns kf : origin_to_treefile_inner validate_checksum kf ≠ Abort.
Proof.
  assert (∀ g k, keyfile_get_optional_string kf g k ≠ Abort) as Hs by (intros; apply keyfile_optional_returns).
  assert (∀ g k, parse_stringlist kf g k ≠ Abort) as Hl by (intros; apply keyfile_optional_returns).
  assert (∀ g k, parse_stringset kf g k ≠ Abort) as Hset by (intros; by apply bind_returns).
  assert (parse_base kf ≠ Abort).
  { unfold parse_base. apply bind_returns; [done|]. intros [r|] _; simpl.
    - apply bind_returns; [done|]. by intros [] _.
    - apply bind_returns; [done|]. intros b _. apply bind_returns; [done|]. by intros [] _; destruct b. }
  assert (parse_initramfs kf ≠ Abort).
  { unfold parse_initramfs. apply bind_returns; [done|]. intros ? _. by apply bind_returns. }
  assert (parse_custom kf ≠ Abort).
  { unfold parse_custom. apply bind_returns; [done|]. intros [] _; [|done]. by apply bind_returns. }
  unfold origin_to_treefile_inner. apply prefix_error_returns.
  apply bind_returns; [done|]. intros [b c] _.
  do 5 (apply bind_returns; [done || apply parse_localpkglist_returns|]; intros ? _).
  apply bind_returns; [done|]; intros ? _. apply bind_returns; [done|]; intros strv _.
  apply bind_returns; [destruct strv; [apply bind_returns; [apply override_replace_loop_returns|]|]; done|].
  intros ? _. do 2 (apply bind_returns; [done|]; intros ? _).
  apply bind_returns; [apply keyfile_optional_returns|]; intros ? _. by apply bind_returns.
Qed.

Lemma prep_local_assembly_wp u : u_ctx u = false → has_base (u_computed_origin u) →
  wp (prep_local_assembly ops validate_checksum)
    (λ tr _ u', Forall (preparatory (u_base_revision u) None) tr ∧ request_of u' = request_of u ∧
       u_computed_origin u' = u_computed_origin u ∧ u_layering_initialized u' = u_layering_initialized u ∧
       u_pkgs_imported u' = u_pkgs_imported u ∧ u_ctx u' = true ∧
       u_layering_type u' = (if has_any_packages (u_computed_origin u) then LAYERING_RPMMD_REPOS
                             else LAYERING_LOCAL)) u.
Proof.
  intros Hctx Hb. unfold prep_local_assembly. do 2 wp_step. wp_step. rewrite Hctx. apply wp_lift; [done|].
  intros _ _. cbv beta. apply wp_if; intros Hetc; [by apply wp_lift|]. wp_step.
  eapply wp_mono; [apply (checkout_base_tree_wp _ None)|]. cbv beta. intros tr0 _ u1 (-> & Htr0 & _).
  do 4 wp_step. destruct (dup_keyfile_returns _ Hb) as [kf ->]. wp_step. apply wp_lift; [done|].
  intros ? [= <-]. cbv beta. wp_step. apply wp_lift; [apply origin_to_treefile_returns|].
  intros tf _. cbv beta. do 3 wp_step. unfold rpmostree_origin_has_any_packages.
  destruct (has_any_packages (u_computed_origin u)); wp_steps.
  - destruct (u_final_revision u) as [final|]; wp_steps.
    + destruct (vardict_lookup_string _ _); wp_steps; [|by apply wp_lift].
      split; [|done]. rewrite !app_nil_l. repeat (apply Forall_app; split; [done|]). by repeat constructor.
    + apply wp_lift; [by apply get_refspec_returns|]. intros r _. cbv beta. wp_step.
      split; [|done]. rewrite !app_nil_l. repeat (apply Forall_app; split; [done|]). by repeat constructor.
  - destruct (u_final_revision u) as [final|]; wp_steps.
    + destruct (vardict_lookup_string _ _); wp_steps; [|by apply wp_lift].
      split; [|done]. rewrite !app_nil_l. repeat (apply Forall_app; split; [done|]). by repeat constructor.
    + split; [|done]. rewrite !app_nil_l. repeat (apply Forall_app; split; [done|]). by repeat constructor.
Qed.

(** The state between the calls of a transaction. *)
Record upgrader_inv (u : Upgrader Sack) : Prop := UpgraderInv {
  inv_original : has_base (u_original_origin u);
  inv_computed : has_base (u_computed_origin u);
  inv_meta : meta_known u;
  inv_fresh : u_layering_initialized u = false →
    u_pkgs_imported u = false ∧ u_ctx u = false ∧ u_tmprootfs u = false ∧ u_rsack u = None;
  inv_locked : u_layering_initialized u = true → op_lock_layering ops = true →
    u_layering_type u = LAYERING_NONE ∧ has_initramfs_etc_files (u_computed_origin u) = false;
  inv_none : u_layering_initialized u = true → u_layering_type u = LAYERING_NONE → u_final_revision u = None;
}.

Local Abbreviation prep :=
  (rpmostree_sysroot_upgrader_prep_layering sops ops validate_checksum hy_split_nevra type_mismatch hash_order).

Lemma no_assembly_no_etc o : may_require_local_assembly o = false → has_initramfs_etc_files o = false.
Proof. unfold may_require_local_assembly. by destruct (has_initramfs_etc_files o); rewrite ?orb_true_r. Qed.

(** The kind of layering an origin needs. *)
Definition layering_kind (o : RpmOstreeOrigin) : LayeringType :=
  if negb (may_require_local_assembly o) then LAYERING_NONE
  else if has_any_packages o then LAYERING_RPMMD_REPOS else LAYERING_LOCAL.

Lemma prep_layering_wp u : upgrader_inv u → u_layering_initialized u = false →
  wp prep
    (λ tr '(ty, changed) u', Forall (preparatory (u_base_revision u) None) tr ∧ upgrader_inv u' ∧
       request_of u' = request_of u ∧
       u_layering_initialized u' = true ∧ u_pkgs_imported u' = false ∧
       ty = u_layering_type u' ∧ (ty = LAYERING_NONE → changed = false) ∧
       ty = layering_kind (u_computed_origin u') ∧
       (if may_require_local_assembly (u_computed_origin u)
        then op_lock_layering ops = false ∧ reduces (u_computed_origin u) (u_computed_origin u') ∧
          ∃ base dir sack, sack_of_base u tr base ∧ with_local dir (local_pkgs (u_computed_origin u')) base sack ∧
            (∀ r, asks (u_computed_origin u') r → still_active base sack r) ∧
            (∀ r, asks (u_computed_origin u) r → still_active base sack r → is_replacement r = false →
               asks (u_computed_origin u') r)
        else tr = [] ∧ u_computed_origin u' = u_computed_origin u)) u.
Proof.
  intros Hinv Hinit. unfold rpmostree_sysroot_upgrader_prep_layering, rpmostree_origin_may_require_local_assembly, layering_kind.
  do 6 wp_step. destruct (inv_fresh u Hinv Hinit) as (Himp & Hctx & Hroot & Hsack). cbn [u_computed_origin set_u_type set_u_initialized].
  apply wp_if; intros Hm.
  { apply negb_true_iff in Hm. wp_steps. cbn. rewrite Hm. split_and!; try done.
    constructor; simpl; try done; try apply Hinv. intros _ _. split; [done|]. by apply no_assembly_no_etc. }
  apply negb_false_iff in Hm. rewrite Hm.
  apply wp_if; intros Hlock; [by apply wp_lift|]. wp_step.
  set (u0 := set_u_type LAYERING_NONE (set_u_initialized true u)).
  eapply wp_mono; [apply (load_base_rsack_wp u0 (inv_meta u Hinv) Hsack Hroot)|]. cbv beta.
  intros tr1 _ u1 (Htr1 & base & b & -> & Hbase). assert (sack_of_base u tr1 base) as Hbase' by (destruct Hbase; [by eapply sack_from_pending|by apply sack_from_checkout]).
  set (u1 := set_u_rsack _ _). pose proof (wp_bind_inv _ _ _ _ (finalize_wp u1 base eq_refl)) as Hf. subst u1.
  wp_step. eapply wp_mono; [exact Hf|]. clear Hf. cbv beta.
  intros tr2 _ u2 Hw. wp_step. eapply wp_mono; [exact Hw|]. cbv beta. clear Hw.
  intros tr3 _ u3 (Htr & m' & sack & o' & -> & Hred & Hwith & Hact & Hkeep). wp_step. wp_step.
  apply app_eq_nil in Htr as [-> ->]. subst u0. cbn [u_computed_origin u_base_revision set_u_computed set_u_rsack set_u_tmprootfs
    set_u_metatmpdir set_u_type set_u_initialized] in *.
  assert (has_base o') as Hb by (eapply reduces_has_base; [done|apply Hinv]).
  apply wp_if; intros Hm'.
  - apply negb_true_iff in Hm'. wp_steps. cbn. rewrite Hm'. rewrite !app_nil_r.
    split_and!; try done; [|by exists base, m', sack].
    constructor; simpl; try done; try apply Hinv. intros _ _. split; [done|]. by apply no_assembly_no_etc.
  - apply negb_false_iff in Hm'. wp_step. eapply wp_mono; [by apply prep_local_assembly_wp|]. cbv beta.
    cbn [u_computed_origin set_u_computed]. intros tr4 _ u4 (Htr4 & Hreq & Hc & Hi & Hp & Hctx' & Hty). wp_steps.
    rewrite Hc, Hm', Hty. split_and!; try done.
    + rewrite !app_nil_l, app_nil_r. by apply Forall_app.
    + unfold request_of in Hreq. simpl in Hreq. simplify_eq Hreq. intros.
      constructor; rewrite ?Hc; try done; try congruence.
      * replace (u_original_origin u4) with (u_original_origin u). apply Hinv.
      * unfold meta_known. replace (u_origin_merge_deployment u4) with (u_origin_merge_deployment u). apply Hinv.
      * rewrite Hi. done.
      * rewrite Hty. by case_match.
    + by rewrite Hp.
    + by destruct (has_any_packages o').
    + exists base, m', sack. split_and!; [|done..]. rewrite !app_nil_l, app_nil_r. by apply sack_of_base_more.
Qed.

Lemma upgrader_inv_imported u : upgrader_inv u → u_layering_initialized u = true →
  upgrader_inv (set_u_imported true u).
Proof. intros [] Hi. constructor; simpl; try done. congruence. Qed.

Lemma import_pkgs_wp u : u_layering_initialized u = true → u_pkgs_imported u = false →
  wp (rpmostree_sysroot_upgrader_import_pkgs ops)
    (λ tr _ u', Forall (preparatory (u_base_revision u) None) tr ∧ u' = set_u_imported true u) u.
Proof.
  intros Hi Hp. unfold rpmostree_sysroot_upgrader_import_pkgs. do 3 wp_step. rewrite Hi, Hp.
  apply wp_lift; [done|]. intros _ _. cbv beta. wp_step. apply wp_lift; [done|]. intros _ _. cbv beta.
  wp_steps. destruct (u_layering_type u); wp_steps; split; try done; by repeat constructor.
Qed.

(** ** Assembling *)

Lemma load_kernel_state_returns u : load_kernel_state ops u ≠ Abort.
Proof.
  unfold load_kernel_state. destruct (op_find_kernel ops); [|done]. simpl.
  by destruct (op_load_commit ops (u_base_revision u)).
Qed.

Lemma perform_local_assembly_wp u : upgrader_inv u → u_layering_initialized u = true →
  u_pkgs_imported u = true →
  wp (perform_local_assembly ops)
    (λ tr _ u', Forall (preparatory (u_base_revision u) (u_final_revision u')) tr ∧ request_of u' = request_of u ∧
       u_computed_origin u' = u_computed_origin u ∧ u_layering_type u' = u_layering_type u ∧
       if bool_decide (u_layering_type u = LAYERING_NONE) then tr = [] ∧ u' = u
       else ∃ rev, u_final_revision u' = Some rev ∧ Committed (u_base_revision u) rev ∈ tr) u.
Proof.
  intros Hinv Hi Hp. unfold perform_local_assembly. do 3 wp_step. rewrite Hi, Hp.
  apply wp_lift; [done|]. intros _ _. cbv beta. wp_step. apply wp_lift; [done|]. intros _ _. cbv beta.
  apply wp_if; intros Hty; rewrite Hty; [by wp_step|].
  apply bool_decide_eq_false in Hty. wp_step.
  assert (op_lock_layering ops = false) as ->.
  { destruct (op_lock_layering ops) eqn:El; [|done]. by destruct (inv_locked u Hinv Hi El). }
  apply wp_lift; [done|]. intros _ _. cbv beta. wp_step.
  set (u1 := if bool_decide (u_layering_type u = LAYERING_RPMMD_REPOS) then set_u_final None u else u).
  assert (request_of u1 = request_of u ∧ u_computed_origin u1 = u_computed_origin u ∧
    u_layering_type u1 = u_layering_type u) as Hu1 by (unfold u1; by case_bool_decide).
  eapply (wp_mono _ (λ tr _ u', Forall (preparatory (u_base_revision u) None) tr ∧ u' = u1)).
  { unfold u1. case_bool_decide; wp_steps; split; try done; by repeat constructor. }
  clearbody u1. intros tr1 _ ? [Htr1 ->]. do 3 wp_step.
  eapply (wp_mono _ (λ tr _ u', Forall (preparatory (u_base_revision u) None) tr ∧ u' = u1)).
  { apply wp_when; intros _; [|done]. wp_step. apply wp_lift; [apply load_kernel_state_returns|].
    intros [[ks path] args] _. cbv beta iota zeta. wp_steps; split; try done; by repeat constructor. }
  intros tr2 _ ? [Htr2 ->]. wp_steps. apply wp_perform; [done|]. intros _ _. cbv beta. wp_steps.
  split_and!; [|apply Hu1..|].
  - rewrite !app_nil_l, !app_nil_r. repeat (apply Forall_app; split; try by apply preparatory_weaken).
    all: by repeat constructor.
  - exists a0. split; [done|]. rewrite !app_nil_l, !app_nil_r. set_solver.
Qed.

(** ** Deploying *)

Local Abbreviation deploy :=
  (rpmostree_sysroot_upgrader_deploy sops ops validate_checksum hy_split_nevra type_mismatch hash_order).

(** What a successful deployment did, in order: preparation, with a commit on the base exactly
    when something is layered; the tree, from that commit or else the base; the history. *)
Definition deployed (u u' : Upgrader Sack) (tr : list uevent) (d : Deployment) : Prop :=
  ∃ pre origin opts ctime refspec version,
    Forall (preparatory (u_base_revision u) (u_final_revision u')) pre ∧
    (∀ rev, u_final_revision u' = Some rev → Committed (u_base_revision u) rev ∈ pre) ∧
    (u_final_revision u' = None ↔ u_layering_type u' = LAYERING_NONE) ∧
    (if u_layering_initialized u
     then u_layering_type u' = u_layering_type u ∧ u_computed_origin u' = u_computed_origin u
     else u_layering_type u' = layering_kind (u_computed_origin u') ∧
          reduces (u_computed_origin u) (u_computed_origin u')) ∧
    rpmostree_origin_dup_keyfile (u_original_origin u) = Ok origin ∧
    dto_locked opts = flag_set (u_flags u) RPMOSTREE_SYSROOT_UPGRADER_FLAGS_LOCK_FINALIZATION ∧
    dto_override_kernel_argv opts
      = default (op_bootconfig_kargs ops (u_origin_merge_deployment u)) (u_kargs_strv u) ∧
    match dto_overlay_initrds opts with
    | Some checksum => StagedOverlay (rpmostree_origin_get_initramfs_etc_files (u_computed_origin u')) checksum ∈ pre
    | None => has_initramfs_etc_files (u_computed_origin u') = false
    end ∧
    op_deployment_ctime ops d = Done ctime ∧
    let target := default (u_base_revision u) (u_final_revision u') in
    let merge := u_cfg_merge_deployment u in
    tr = pre ++
      [if nonnull (op_booted ops) then StagedTree (u_osname u) target origin merge opts
       else DeployedTree (u_osname u) target origin merge opts;
       HistoryWritten (RPMOSTREE_HISTORY_DIR +:+ "/" +:+ pretty ctime);
       JournalSent (d_csum d) refspec version (default ""%string (u_command_line u))
         (default ""%string (u_agent u)) (default ""%string (u_sd_unit u));
       if nonnull (u_final_revision u') then SetRef None RPMOSTREE_TMP_BASE_REF (u_base_revision u)
       else SanityChecked;
       if nonnull (op_booted ops) then SyscoreCleaned else DeploymentWritten d merge].

Lemma stage_overlay_wp u o base rev : (op_lock_layering ops = true → has_initramfs_etc_files o = false) →
  wp (stage_overlay ops o)
    (λ tr overlay u', Forall (preparatory base rev) tr ∧ u' = u ∧
       match overlay with
       | Some checksum => StagedOverlay (rpmostree_origin_get_initramfs_etc_files o) checksum ∈ tr
       | None => has_initramfs_etc_files o = false
       end) u.
Proof.
  intros Hl. unfold stage_overlay, rpmostree_origin_has_initramfs_etc_files.
  apply wp_if; intros He; [|by wp_step]. wp_step.
  assert (op_lock_layering ops = false) as ->.
  { destruct (op_lock_layering ops); [|done]. by rewrite Hl in He. }
  apply wp_lift; [done|]. intros _ _. cbv beta. wp_steps. apply wp_perform; [done|]. intros _ _. cbv beta.
  wp_steps. split_and!; [by repeat constructor|done|]. rewrite !app_nil_l, ?app_nil_r. set_solver.
Qed.

Lemma write_history_wp u d : has_base (u_computed_origin u) →
  wp (write_history ops validate_checksum d)
    (λ tr _ u', u' = u ∧ ∃ ctime refspec version, op_deployment_ctime ops d = Done ctime ∧
       tr = [HistoryWritten (RPMOSTREE_HISTORY_DIR +:+ "/" +:+ pretty ctime);
             JournalSent (d_csum d) refspec version (default ""%string (u_command_line u))
               (default ""%string (u_agent u)) (default ""%string (u_sd_unit u))]) u.
Proof.
  intros Hb. unfold write_history. wp_steps. apply wp_lift; [by apply get_refspec_returns|].
  intros r _. cbv beta. apply wp_perform; [done|]. intros _ _. cbv beta. split; [done|].
  repeat eexists. done.
Qed.

Lemma prepared_wp u : upgrader_inv u →
  wp (_ ← (if u_layering_initialized u then mret tt else _ ← prep; mret tt);
      self ← get_self;
      _ ← when (negb (u_pkgs_imported self)) (rpmostree_sysroot_upgrader_import_pkgs ops);
      perform_local_assembly ops)
    (λ tr _ u', Forall (preparatory (u_base_revision u) (u_final_revision u')) tr ∧ request_of u' = request_of u ∧
       has_base (u_computed_origin u') ∧
       (op_lock_layering ops = true → has_initramfs_etc_files (u_computed_origin u') = false) ∧
       (∀ rev, u_final_revision u' = Some rev → Committed (u_base_revision u) rev ∈ tr) ∧
       (u_final_revision u' = None ↔ u_layering_type u' = LAYERING_NONE) ∧
       (if u_layering_initialized u
        then u_layering_type u' = u_layering_type u ∧ u_computed_origin u' = u_computed_origin u
        else u_layering_type u' = layering_kind (u_computed_origin u') ∧
             reduces (u_computed_origin u) (u_computed_origin u'))) u.
Proof.
  intros Hinv. wp_step.
  set (kept (v : Upgrader Sack) := if u_layering_initialized u
        then u_layering_type v = u_layering_type u ∧ u_computed_origin v = u_computed_origin u
        else u_layering_type v = layering_kind (u_computed_origin v) ∧
             reduces (u_computed_origin u) (u_computed_origin v)).
  eapply (wp_mono _ (λ tr _ u', Forall (preparatory (u_base_revision u) None) tr ∧ upgrader_inv u' ∧
    request_of u' = request_of u ∧ u_layering_initialized u' = true ∧ kept u')).
  { subst kept. apply wp_if; intros Hi; rewrite Hi; wp_step; [done|]. eapply wp_mono; [by apply prep_layering_wp|]. cbv beta.
    intros tr [ty ch] u' (? & ? & ? & ? & _ & Hty & _ & Hk & Hr). wp_step. rewrite app_nil_r. split_and!; [done..|congruence|].
    destruct (may_require_local_assembly _); [apply Hr|]. by destruct Hr as [_ ->]. }
  cbv beta. intros tr1 _ u1 (Htr1 & Hinv1 & Hreq1 & Hi1 & Hk1). do 3 wp_step.
  assert (u_base_revision u1 = u_base_revision u) as Eb1 by (unfold request_of in Hreq1; congruence).
  eapply (wp_mono _ (λ tr _ u', Forall (preparatory (u_base_revision u) None) tr ∧ upgrader_inv u' ∧
    request_of u' = request_of u ∧ u_layering_initialized u' = true ∧ u_pkgs_imported u' = true ∧ kept u')).
  { apply wp_when; intros Hp; [|by apply negb_false_iff in Hp].
    apply negb_true_iff in Hp. eapply wp_mono; [by apply import_pkgs_wp|]. cbv beta. rewrite Eb1.
    intros tr _ u' (? & ->). split_and!; try done. by apply upgrader_inv_imported. }
  cbv beta. intros tr2 _ u2 (Htr2 & Hinv2 & Hreq2 & Hi2 & Hp2 & Hk2).
  assert (u_base_revision u2 = u_base_revision u) as Eb2 by (unfold request_of in Hreq2; congruence).
  eapply wp_mono; [by apply perform_local_assembly_wp|]. cbv beta. rewrite Eb2.
  intros tr3 _ u3 (Htr3 & Hreq3 & Hc3 & Hty3 & Hfin). rewrite app_nil_l. split_and!.
  - repeat (apply Forall_app; split); auto using preparatory_weaken.
  - congruence.
  - rewrite Hc3. apply Hinv2.
  - rewrite Hc3. intros Hl. by destruct (inv_locked u2 Hinv2 Hi2 Hl).
  - intros rev Hrev. case_bool_decide as Hty.
    + destruct Hfin as [-> ->]. by rewrite (inv_none u2 Hinv2 Hi2 Hty) in Hrev.
    + destruct Hfin as (rev' & E & Hin). simplify_eq. set_solver.
  - rewrite Hty3. case_bool_decide as Hty.
    + destruct Hfin as [_ ->]. split; [done|]. intros _. by apply (inv_none u2 Hinv2 Hi2 Hty).
    + destruct Hfin as (rev' & -> & _). done.
  - subst kept. cbv beta in Hk2. by rewrite Hty3, Hc3.
Qed.

Lemma deploy_wp u : upgrader_inv u →
  wp deploy
    (λ tr d u',
       if flag_set (u_flags u) RPMOSTREE_SYSROOT_UPGRADER_FLAGS_DRY_RUN then d = None ∧ tr = [] ∧ u' = u
       else ∃ d', d = Some d' ∧ deployed u u' tr d') u.
Proof.
  intros Hinv. unfold rpmostree_sysroot_upgrader_deploy. wp_step. wp_step.
  apply wp_if; intros Hdry; rewrite Hdry; [by wp_step|].
  pose proof (prepared_wp u Hinv) as Hw. wp_step. apply wp_bind_inv in Hw.
  eapply wp_mono; [exact Hw|]. cbv beta. clear Hw. intros tr1 _ u1 Hw. wp_step. apply wp_bind_inv in Hw.
  eapply wp_mono; [exact Hw|]. cbv beta. clear Hw. intros tr2 self ? Hw. wp_step. apply wp_bind_inv in Hw.
  eapply wp_mono; [exact Hw|]. cbv beta. clear Hw. intros tr3 _ ? Hw. wp_step.
  eapply wp_mono; [exact Hw|]. cbv beta. clear Hw. intros tr4 _ u4 (Htr & Hreq & Hb & Hlock & Hfin & Hnone & Hkept).
  do 4 wp_step. unfold request_of in Hreq. injection Hreq as Hos Hflags Hcfg Hmerge Horig Hbase Hkargs Hcmd Hagent Hunit.
  rewrite Horig. destruct (dup_keyfile_returns _ (inv_original u Hinv)) as [origin Ho]. rewrite Ho.
  wp_step. apply wp_lift; [done|]. intros ? [= <-]. cbv beta. wp_step.
  eapply wp_mono; [by apply (stage_overlay_wp _ _ (u_base_revision u) (u_final_revision u4))|]. cbv beta.
  intros tr5 overlay ? (Htr5 & -> & Hover). cbv zeta. wp_step.
  cbn [u_cfg_merge_deployment set_u_kargs].
  rewrite Hos, Hflags, Hbase, Hmerge, Hkargs, Hcfg. set (opts := MkDeployTreeOpts _ _ _).
  set (target := default (u_base_revision u) (u_final_revision u4)).
  eapply (wp_mono _ (λ tr d u', u' = set_u_kargs (Some (dto_override_kernel_argv opts)) u4 ∧
    tr = [if nonnull (op_booted ops) then StagedTree (u_osname u) target origin (u_cfg_merge_deployment u) opts
          else DeployedTree (u_osname u) target origin (u_cfg_merge_deployment u) opts])).
  { destruct (nonnull (op_booted ops)); wp_step; done. }
  cbv beta. intros tr6 d ? [-> ->]. wp_step. eapply wp_mono; [by apply write_history_wp|]. cbv beta.
  intros tr7 _ ? (-> & ctime & refspec & version & Hctime & ->). wp_step.
  set (u5 := set_u_kargs _ _).
  eapply (wp_mono _ (λ tr _ u', u' = u5 ∧
    tr = [if nonnull (u_final_revision u4) then SetRef None RPMOSTREE_TMP_BASE_REF (u_base_revision u)
          else SanityChecked])).
  { destruct (u_final_revision u4); wp_steps; done. }
  cbv beta. intros tr8 _ ? [-> ->]. wp_step.
  eapply (wp_mono _ (λ tr _ u', u' = u5 ∧
    tr = [if nonnull (op_booted ops) then SyscoreCleaned else DeploymentWritten d (u_cfg_merge_deployment u)])).
  { destruct (nonnull (op_booted ops)); wp_step; done. }
  cbv beta. intros tr9 _ ? [-> ->]. wp_step. exists d. split; [done|].
  exists (tr1 ++ tr2 ++ tr3 ++ tr4 ++ tr5), origin, opts, ctime, refspec, version.
  subst u5. cbn [u_final_revision u_layering_type u_computed_origin set_u_kargs u_command_line u_agent u_sd_unit].
  split_and!; try done.
  - rewrite !Forall_app in *. tauto.
  - intros rev Hrev%Hfin. rewrite !elem_of_app in *. tauto.
  - subst opts. simpl. destruct overlay; [rewrite !elem_of_app; tauto|done].
  - simpl. rewrite Hcmd, Hagent, Hunit, <-!app_assoc. done.
Qed.

(** ** The calls of a transaction *)

Lemma parsed_has_base kf o : origin_to_treefile_inner validate_checksum kf = Ok o → has_base o.
Proof.
  unfold origin_to_treefile_inner. destruct (parse_base kf) as [[b c]| |] eqn:E; [|done..]. simpl.
  assert (nonnull b || nonnull c = true) as Hb.
  { unfold parse_base in E. apply bind_ok in E as (? & _ & (b' & _ & (c' & _ & E)%bind_ok)%bind_ok).
    destruct b', c'; by simplify_eq. }
  intros Ho. unfold has_base.
  match type of Ho with prefix_error _ ?m = _ => destruct m eqn:E2; [|done..] end. simplify_eq/=.
  repeat (let x := fresh in apply bind_ok in E2 as (x & _ & E2)). by simplify_eq/=.
Qed.

Lemma dup_has_base o o' : rpmostree_origin_dup validate_checksum o = Ok o' → has_base o'.
Proof.
  unfold rpmostree_origin_dup, rpmostree_origin_parse_keyfile. destruct (treefile_to_origin_inner o); [|done..].
  destruct (origin_to_treefile_inner validate_checksum _) eqn:E; [|done..]. intros [= <-].
  by eapply parsed_has_base.
Qed.

Local Abbreviation init :=
  (rpmostree_sysroot_upgrader_initable_init ops validate_checksum type_mismatch).

Lemma upgrader_init_inv osname flags u : init osname flags = Ok u →
  upgrader_inv u ∧ u_layering_initialized u = false.
Proof.
  unfold rpmostree_sysroot_upgrader_initable_init. intros (os & _ & (? & _ & Hu)%bind_ok)%bind_ok.
  destruct (op_get_merge_deployment ops os) as [cfg|]; [|done].
  destruct (rpmostree_syscore_get_origin_merge_deployment _ os) as [om|]; [|done].
  apply bind_ok in Hu as ([orig comp] & Horig & (base & Hbase & Hu)%bind_ok).
  unfold parse_origin_deployment in Horig. apply bind_ok in Horig as (o & Ho & Horig).
  match type of Horig with (if ?b then _ else _) = _ => destruct b; [done|] end.
  apply bind_ok in Horig as (comp' & Hcomp & [= <- <-]).
  assert (has_base o) as Hb.
  { unfold rpmostree_origin_parse_deployment in Ho.
    destruct (op_get_origin ops om); [by eapply parsed_has_base|done]. }
  assert (meta_known u) as Hm.
  { unfold meta_known. unfold rpmostree_deployment_get_base_layer in Hbase.
    destruct base; simplify_eq/=; intros E; by rewrite E in Hbase. }
  destruct base; simplify_eq; (split; [|done]); constructor; simpl; try done; by eapply dup_has_base.
Qed.

Inductive ucall :=
  | CSetOrigin (o : RpmOstreeOrigin)
  | CPullBase (dir : option string) (flags : Z)
  | CSetAllowEmpty (b : bool)
  | CSetKargs (kargs : option (list string))
  | CSetCallerInfo (command_line agent sd_unit : option string)
  | CPrepLayering
  | CImportPkgs
  | CDeploy.

Definition run_call (c : ucall) : M unit :=
  match c with
  | CSetOrigin o => rpmostree_sysroot_upgrader_set_origin validate_checksum o
  | CPullBase dir flags =>
      _ ← rpmostree_sysroot_upgrader_pull_base ops validate_checksum ostree_parse_refspec dir flags; mret tt
  | CSetAllowEmpty b => rpmostree_sysroot_upgrader_set_allow_empty_transaction b
  | CSetKargs kargs => rpmostree_sysroot_upgrader_set_kargs kargs
  | CSetCallerInfo c a s => rpmostree_sysroot_upgrader_set_caller_info c a s
  | CPrepLayering => _ ← prep; mret tt
  | CImportPkgs => rpmostree_sysroot_upgrader_import_pkgs ops
  | CDeploy => _ ← deploy; mret tt
  end.

(** The order the transactions keep to: the origin and the base are settled before the
    layers are prepared, packages are imported once after that. *)
Definition call_in_order (u : Upgrader Sack) (c : ucall) : Prop :=
  match c with
  | CSetOrigin _ | CPullBase _ _ | CPrepLayering => u_layering_initialized u = false
  | CImportPkgs => u_layering_initialized u = true ∧ u_pkgs_imported u = false
  | _ => True
  end.

(** The origins that are set have plain entries, without the separators of the origin file. *)
Definition plain_call (c : ucall) : Prop :=
  match c with CSetOrigin o => plain_treefile validate_checksum o = true | _ => True end.

Inductive upgrader_reachable : Upgrader Sack → Prop :=
  | reach_init osname flags u : init osname flags = Ok u → upgrader_reachable u
  | reach_call u c tr u' : upgrader_reachable u → call_in_order u c → plain_call c → c ≠ CDeploy →
      run_call c u = (tr, Ok (tt, u')) → upgrader_reachable u'.

Lemma inv_same_layering u u' : upgrader_inv u → u_layering_initialized u = false →
  has_base (u_original_origin u') → has_base (u_computed_origin u') →
  u_origin_merge_deployment u' = u_origin_merge_deployment u →
  u_layering_initialized u' = false → u_pkgs_imported u' = u_pkgs_imported u → u_ctx u' = u_ctx u →
  u_tmprootfs u' = u_tmprootfs u → u_rsack u' = u_rsack u → upgrader_inv u'.
Proof.
  intros Hinv Hi H1 H2 H3 H4 H5 H6 H7 H8. destruct (inv_fresh u Hinv Hi) as (Hp & Hc & Hr & Hs).
  constructor; [done|done|unfold meta_known; rewrite H3; apply Hinv|by rewrite H5, H6, H7, H8|congruence|congruence].
Qed.

Lemma recorded_has_base o : has_base o → has_base (recorded o).
Proof. unfold has_base, recorded. simpl. by destruct (base_refspec o). Qed.

Lemma plain_has_base o : plain_treefile validate_checksum o = true → has_base o.
Proof. unfold plain_treefile. rewrite !andb_true_iff. tauto. Qed.

Lemma run_call_wp u c : upgrader_inv u → call_in_order u c → plain_call c → c ≠ CDeploy →
  wp (run_call c) (λ _ _ u', upgrader_inv u') u.
Proof.
  intros Hinv Hc Hp Hd. destruct c; simpl in *; try done.
  - pose proof (plain_recorded _ _ Hp). unfold rpmostree_sysroot_upgrader_set_origin. wp_step.
    rewrite origin_dup_recorded by done. apply wp_lift; [done|]. intros ? [= <-]. cbv beta. wp_step.
    rewrite origin_dup_recorded by done. apply wp_lift; [done|]. intros ? [= <-]. cbv beta. wp_step.
    by eapply (inv_same_layering u); try done; repeat apply recorded_has_base; apply plain_has_base.
  - wp_step. eapply wp_mono; [apply pull_base_wp, Hinv|]. cbv beta. intros tr ch u' (-> & _). wp_step.
    by apply (inv_same_layering u); try done; apply Hinv.
  - unfold rpmostree_sysroot_upgrader_set_allow_empty_transaction. wp_step.
    destruct Hinv; by constructor.
  - unfold rpmostree_sysroot_upgrader_set_kargs. wp_step. destruct Hinv; by constructor.
  - unfold rpmostree_sysroot_upgrader_set_caller_info. wp_step. destruct Hinv; by constructor.
  - wp_step. eapply wp_mono; [by apply prep_layering_wp|]. cbv beta. intros tr [ty ch] u' (_ & ? & _). by wp_step.
  - destruct Hc as [Hi Himp]. eapply wp_mono; [by apply import_pkgs_wp|]. cbv beta. intros tr _ u' (_ & ->).
    by apply upgrader_inv_imported.
Qed.

Lemma reachable_inv u : upgrader_reachable u → upgrader_inv u.
Proof.
  induction 1 as [osname flags u Hu|u c tr u' _ IH Hc Hp Hd Hrun].
  - by apply upgrader_init_inv in Hu as [? _].
  - by eapply (wp_run _ _ _ _ _ _ (run_call_wp u c IH Hc Hp Hd)).
Qed.

(** C4: an upgrader that is driven in the order the transactions keep to, and whose origins
    have plain entries (no separators of the origin file in names), fails no assertion,
    whatever libostree, libdnf and the assembly report. *)
Theorem upgrader_calls_safe u c tr : upgrader_reachable u → call_in_order u c → plain_call c →
  run_call c u ≠ (tr, Abort).
Proof.
  intros Hu%reachable_inv Hc Hp. assert (c = CDeploy ∨ c ≠ CDeploy) as [->|Hd] by (destruct c; by (left + right)).
  - eapply (wp_no_abort _ (λ _ _ _, True)). simpl. wp_step. eapply wp_mono; [by apply deploy_wp|]. done.
  - eapply wp_no_abort, run_call_wp; done.
Qed.

(** C5: pulling changes only the base, and, unless older commits are allowed, moves it only to
    a commit whose timestamp was checked against the present base. Without COMMIT_ONLY the
    flag says exactly whether the base moved (a metadata-only check of a container image
    reports an update without moving). For a base that is not a container image a synthetic
    pull has no effect on any ref or remote, and an override commit is where the base ends
    up. *)
Theorem pull_base_checks_age u dir flags tr changed u' : has_base (u_computed_origin u) →
  rpmostree_sysroot_upgrader_pull_base ops validate_checksum ostree_parse_refspec dir flags u
    = (tr, Ok (changed, u')) →
  u' = set_u_base (u_base_revision u') u ∧
  (u_base_revision u' ≠ u_base_revision u →
     changed = true ∧
     (flag_set (u_flags u) RPMOSTREE_SYSROOT_UPGRADER_FLAGS_ALLOW_OLDER = false →
      op_check_timestamps ops (u_base_revision u) (u_base_revision u') = Done tt)) ∧
  (flag_set flags OSTREE_REPO_PULL_FLAGS_COMMIT_ONLY = false →
     changed = negb (bool_decide (u_base_revision u' = u_base_revision u))) ∧
  (flag_set (u_flags u) RPMOSTREE_SYSROOT_UPGRADER_FLAGS_SYNTHETIC_PULL = true →
     container_image_reference (u_computed_origin u) = None → tr = []) ∧
  (∀ c, override_commit (u_computed_origin u) = Some c → c ≠ ""%string →
     container_image_reference (u_computed_origin u) = None → u_base_revision u' = c).
Proof using parse_returns. intros Hb. exact (wp_run _ _ _ _ _ _ (pull_base_wp dir flags u Hb)). Qed.

(** C32: preparing the layers leaves the original origin and the base alone and touches no
    ref or deployment. It takes from the computed origin exactly the requests that the
    packages of the base, with the local packages, already provide, and the removals of
    packages that are not in the base, and nothing else but replacements. These are the
    packages of the present base revision: of a checkout of it, or of the pending deployment
    if that has the same base, is not live and has the base's rpmdb. The kind of layering
    follows from what is left, and with layering locked it succeeds only if no assembly is
    asked for. *)
Theorem prep_layering_spec u tr ty changed u' : upgrader_reachable u →
  u_layering_initialized u = false → prep u = (tr, Ok ((ty, changed), u')) →
  Forall (preparatory (u_base_revision u) None) tr ∧ request_of u' = request_of u ∧
  ty = layering_kind (u_computed_origin u') ∧
  (ty = LAYERING_NONE → changed = false ∧ u_final_revision u' = None) ∧
  (if may_require_local_assembly (u_computed_origin u)
   then op_lock_layering ops = false ∧ reduces (u_computed_origin u) (u_computed_origin u') ∧
     ∃ base dir sack, sack_of_base u tr base ∧ with_local dir (local_pkgs (u_computed_origin u')) base sack ∧
       (∀ r, asks (u_computed_origin u') r → still_active base sack r) ∧
       (∀ r, asks (u_computed_origin u) r → still_active base sack r → is_replacement r = false →
          asks (u_computed_origin u') r)
   else tr = [] ∧ u_computed_origin u' = u_computed_origin u).
Proof.
  intros Hu%reachable_inv Hi Hrun.
  destruct (wp_run _ _ _ _ _ _ (prep_layering_wp u Hu Hi) Hrun) as (? & Hinv & ? & Hi' & _ & Hty & Hch & ? & ?).
  split_and!; try done. intros Hn. split; [by apply Hch|]. apply (inv_none u' Hinv Hi'). by rewrite <-Hty.
Qed.

(** C31: a deployment commits exactly when something is layered, on the base, and
    creates the tree from that commit, or else from the base, with the complete original
    origin, the lock that was asked for, the kernel arguments of the caller or of the merge
    deployment, and an overlay of the tracked files of /etc if there are any; it is staged
    exactly when the system is booted. Its history is written, then the base is protected by
    a ref (or the tree checked), then refs are regenerated or the deployment is written. A
    dry run does nothing. *)
Theorem upgrader_deploy_spec u tr d u' : upgrader_reachable u → deploy u = (tr, Ok (d, u')) →
  if flag_set (u_flags u) RPMOSTREE_SYSROOT_UPGRADER_FLAGS_DRY_RUN then d = None ∧ tr = [] ∧ u' = u
  else ∃ d', d = Some d' ∧ deployed u u' tr d'.
Proof. intros Hu%reachable_inv. exact (wp_run _ _ _ _ _ _ (deploy_wp u Hu)). Qed.
End spec.

(** * An example system *)

(** A booted system on a branch, with two requests, one of which the base provides. *)
Definition ex_sack_ops : SackOps (list SackPackage) :=
  MkSackOps (λ s n, filter (λ p, sp_name p = n) s)
    (λ s n, filter (λ p, sp_name p = n ∨ sp_nevra p = n) s)
    (λ s path, s ++ [MkSackPackage path path HY_CMDLINE_REPO_NAME]).

Definition ex_booted : Deployment := MkDeployment 0 "fedora" "c1" 0 false false.
Definition ex_new : Deployment := MkDeployment 1 "fedora" "c3" 0 false true.
Definition ex_keyfile : KeyFile :=
  {[("origin"%string, "baserefspec"%string) := "fedora:stable"%string;
    ("packages"%string, "requested"%string) := "vim;htop;"%string]}.
Definition ex_ops : UpgraderOps (list SackPackage) :=
  MkUpgraderOps false false (Some ex_booted) (Done tt) (λ _, Some ex_booted) [ex_booted]
    (λ _, Some ex_keyfile) (λ _, Done (MkCommit ∅ None))
    (λ _, Done false) (λ _ _, Done "c2"%string) (λ _ _ _, Done tt) (λ _ _, Done tt)
    (λ _, Done "c2"%string) (λ _ _, Done tt)
    (Done tt) (λ _, Done tt) (Done tt) (λ _, Done false) (λ _, Done None)
    (Done [MkSackPackage "vim" "vim-9-1.x86_64" "@System"]) (Done "/tmp/meta"%string)
    (λ _ _, Done tt) (λ _, Done tt)
    (Done tt) (λ _, Done tt) (Done tt) false (Done "digest"%string) (Done tt) (Done tt) (Done tt) (Done tt)
    (Done tt) false (Done (MkKernelState "6" "/boot" "vmlinuz" None)) (λ _, Done tt) (λ _ _ _ _, Done tt)
    (λ _, Done tt) (λ _, Done "c3"%string)
    (λ _, ["quiet"%string]) (λ _, Done tt) (Done "sum"%string) (λ _ _ _ _ _, Done ex_new)
    (λ _ _ _ _ _, Done ex_new) (λ _, Done tt) (λ _, Done 7%Z) (Done tt) (λ _, Done tt) (λ _, Done tt)
    (Done tt) (Done tt) (λ _ _, Done tt).

Definition ex_parse_refspec (s : string) : outcome (option string * string) :=
  match split_once ":" s with Some (r, f) => Ok (Some r, f) | None => Ok (None, s) end.

Definition ex_validate (s : string) : outcome unit :=
  if bool_decide (s = "c2"%string) then Ok tt else glnx_throw "not a checksum".

#[local] Existing Instance plain_syntax.

Definition ex_init : outcome (Upgrader (list SackPackage)) :=
  rpmostree_sysroot_upgrader_initable_init ex_ops ex_validate "" None 0.
Definition ex_dummy : Upgrader (list SackPackage) :=
  MkUpgrader "" 0 None None None ex_booted ex_booted empty_treefile empty_treefile false None None false false
    false LAYERING_NONE false false false "" None None.
Definition ex_upgrader : Upgrader (list SackPackage) := from_ok ex_dummy ex_init.

Lemma ex_reachable :
  upgrader_reachable ex_sack_ops ex_ops ex_validate split_example ex_parse_refspec "" id ex_upgrader.
Proof. eapply (reach_init _ _ _ _ _ _ _ None 0). apply from_ok_eq. vm_compute. reflexivity. Qed.

Lemma ex_validate_returns s : ex_validate s ≠ Abort.
Proof. unfold ex_validate. by case_bool_decide. Qed.

Lemma ex_parse_returns s : ex_parse_refspec s ≠ Abort.
Proof. unfold ex_parse_refspec. by destruct (split_once ":" s) as [[]|]. Qed.

Lemma upgrader_calls_safe_witness :
  upgrader_reachable ex_sack_ops ex_ops ex_validate split_example ex_parse_refspec "" id ex_upgrader ∧
  run_call ex_sack_ops ex_ops ex_validate split_example ex_parse_refspec "" id CPrepLayering ex_upgrader
    ≠ ([], Abort).
Proof.
  split; [apply ex_reachable|].
  apply upgrader_calls_safe; [apply ex_validate_returns|apply ex_parse_returns|done|apply ex_reachable| |exact I].
  vm_compute. reflexivity.
Defined.

Definition ex_pull := rpmostree_sysroot_upgrader_pull_base ex_ops ex_validate ex_parse_refspec None 0 ex_upgrader.
Definition ex_pulled : bool * Upgrader (list SackPackage) := from_ok (false, ex_dummy) ex_pull.2.

Lemma ex_pull_ok : ex_pull = (ex_pull.1, Ok (ex_pulled.1, ex_pulled.2)).
Proof. apply (prog_result (false, ex_dummy)); [reflexivity|vm_compute; reflexivity]. Qed.

Lemma pull_base_checks_age_witness :
  u_base_revision ex_pulled.2 = "c2"%string ∧
  op_check_timestamps ex_ops (u_base_revision ex_upgrader) (u_base_revision ex_pulled.2) = Done tt.
Proof.
  split; [vm_compute; reflexivity|].
  apply (pull_base_checks_age ex_ops ex_validate ex_parse_refspec ex_parse_returns ex_upgrader None 0 _ _ _
    ltac:(vm_compute; reflexivity) ex_pull_ok); [vm_compute; discriminate|vm_compute; reflexivity].
Defined.

Definition ex_prep :=
  rpmostree_sysroot_upgrader_prep_layering ex_sack_ops ex_ops ex_validate split_example "" id ex_upgrader.
Definition ex_prepared : LayeringType * bool * Upgrader (list SackPackage) :=
  from_ok (LAYERING_NONE, false, ex_dummy) ex_prep.2.

Lemma ex_prep_ok : ex_prep = (ex_prep.1, Ok ((ex_prepared.1.1, ex_prepared.1.2), ex_prepared.2)).
Proof.
  transitivity (ex_prep.1, Ok (ex_prepared.1, ex_prepared.2)).
  - apply (prog_result (LAYERING_NONE, false, ex_dummy)); [reflexivity|vm_compute; reflexivity].
  - generalize ex_prepared. by intros [[]].
Qed.

Lemma prep_layering_spec_witness :
  get_packages (u_computed_origin ex_prepared.2) = ["htop"%string] ∧
  request_of ex_prepared.2 = request_of ex_upgrader.
Proof.
  split; [vm_compute; reflexivity|].
  pose proof (prep_layering_spec ex_sack_ops ex_ops ex_validate split_example ex_parse_refspec ""
    ex_validate_returns ex_parse_returns id (λ l, reflexivity l) ex_upgrader _ _ _ _ ex_reachable eq_refl ex_prep_ok)
    as (_ & Hreq & _).
  exact Hreq.
Defined.

Definition ex_deploy :=
  rpmostree_sysroot_upgrader_deploy ex_sack_ops ex_ops ex_validate split_example "" id ex_upgrader.
Definition ex_deployed : option Deployment * Upgrader (list SackPackage) :=
  from_ok (None, ex_dummy) ex_deploy.2.

Lemma ex_deploy_ok : ex_deploy = (ex_deploy.1, Ok (ex_deployed.1, ex_deployed.2)).
Proof. apply (prog_result (None, ex_dummy)); [reflexivity|vm_compute; reflexivity]. Qed.

Lemma upgrader_deploy_spec_witness :
  ∃ d', ex_deployed.1 = Some d' ∧ deployed ex_ops ex_upgrader ex_deployed.2 ex_deploy.1 d'.
Proof.
  exact (upgrader_deploy_spec ex_sack_ops ex_ops ex_validate split_example ex_parse_refspec "" ex_validate_returns
    ex_parse_returns id (λ l, reflexivity l) ex_upgrader _ _ _ ex_reachable ex_deploy_ok).
Defined.
