(* ===== verification/DeployRun.v ===== *)
(** The second half of the deploy transaction, [deploy_transaction_execute] of
    [src/daemon/rpmostreed-transaction-types.cxx] from the creation of the upgrader on: how
    a plan of [Deploy] changes the origin and what is then pulled, layered and deployed by
    [Upgrader]. *)

From S2P Require Import Prelude Vardict Nevra RpmHeaders Deploy SysrootCore Refspec Origin OriginFile OriginApi Upgrader.

(** [DnfContextSetupSackFlags], as the list of the bits that are set. *)
Inductive SackFlag := SKIP_RPMDB | SKIP_FILELISTS | LOAD_UPDATEINFO.

(** The calls a transaction makes itself, on libostree, the importer, the assembly context
    and systemd. [to_import] gives the SHA-256 of the header and the NEVRA of the package
    read from a descriptor; [to_layered_info] the NEVRA and the name of the removed and of
    the locally replaced packages. Metadata is downloaded again ([true]) or as the cache
    has it. *)
Record DeployOps {Sack : Type} := MkDeployOps {
  to_migrate_pkgcache : result unit;
  to_open_local_repo : result unit;
  to_local_resolve_rev : string → result string;
  to_pull_local : string → result unit;
  to_is_ostree_host : result bool;
  to_refsack_for_commit : string → result Sack;
  to_prepare_transaction : result unit;
  to_current_sepolicy : result unit;
  to_import : Z → result (string * string);
  to_commit_transaction : result unit;
  to_layered_info : Deployment → result (list (string * string) * list (string * string));
  to_client_context : result unit;
  to_download_metadata : bool → list SackFlag → result unit;
  to_cache_dir : result unit;
  to_remove_cache_file : result unit;
  to_update_variant : option Deployment → option Deployment → bool → result bool;
  to_write_cache_file : result unit;
  to_purge_refspec : string → result unit;
  to_apply_live : result unit;
  to_inhibitors : outcome (option (list Inhibitor));
}.
Arguments DeployOps : clear implicits.
Arguments MkDeployOps {_}.

Inductive tevent :=
  | Up (e : uevent)
  | PkgcacheMigrated
  | PulledLocal (rev : string)
  | ImportedRpm (fd : Z)
  | RepoCommitted
  | MetadataDownloaded (refetch : bool) (flags : list SackFlag)
  | CacheFileRemoved
  | CacheFileWritten
  | Purged (refspec : string)
  | AppliedLive
  | RepoParameterSet (repo_id parameter value : string)
  | RepoFileCommitted (repo_id : string)
  | FinalizationUnlocked (d : Deployment)
  | MtimeBumped
  | Rebooted
  | OutputMessage (msg : string).

(** A call of the upgrader within the transaction. *)
Definition up {S A} (m : prog uevent S A) : prog tevent S A := λ s,
  let '(tr, r) := m s in (Up <$> tr, r).

Definition output_message {S} (msg : string) : prog tevent S unit := perform (OutputMessage msg) (Ok tt).

(** A cleanup function that runs when the rest of the scope fails. *)
Definition or_cleanup {E S A} (m : prog E S A) (cleanup : list E) : prog E S A := λ s,
  match m s with
  | (tr, Err e) => (tr ++ cleanup, Err e)
  | r => r
  end.

(** The callers pass [&changed]. *)
Definition and_changed {O} (m : option bool → outcome (option bool * O)) (changed : bool) :
    outcome (bool * O) :=
  '(c, o) ← m (Some changed); Ok (default false c, o).

Section run.
Context `{KeyFileSyntax} {Sack : Type} (sops : SackOps Sack) (ops : UpgraderOps Sack) (tops : DeployOps Sack)
  (validate_checksum : string → outcome unit) (hy_split_nevra : string → option split_nevra)
  (ostree_parse_refspec : string → outcome (option string * string)) (type_mismatch : string)
  (hash_order : list string → list string)
  (is_image_reference is_digest_reference : string → bool)
  (parse_json : string → outcome Treefile) (get_checksum : Treefile → outcome string)
  (revision_override : Refspec → bool → string → outcome origin_update).

Local Abbreviation T := (prog tevent (Upgrader Sack)).

(** ** Helpers of several transactions *)

Definition generate_update_variant {S} (booted staged : option Deployment) (sack : bool) :
    prog tevent S unit :=
  _ ← call (to_cache_dir tops);
  _ ← performs CacheFileRemoved (to_remove_cache_file tops);
  update ← call (to_update_variant tops booted staged sack);
  when update (performs CacheFileWritten (to_write_cache_file tops)).

Definition reboot {S} : prog tevent S unit :=
  _ ← lift (check_sd_inhibitor_locks (to_inhibitors tops));
  perform Rebooted (Ok tt).

Definition get_sack_for_booted {S} : prog tevent S unit :=
  on_error "Loading sack"
    (_ ← call (to_client_context tops);
     let flags := [SKIP_RPMDB; SKIP_FILELISTS; LOAD_UPDATEINFO] in
     performs (MetadataDownloaded true flags) (to_download_metadata tops true flags)).

Definition import_local_rpm {S} (fd : Z) : prog tevent S string :=
  '(metadata_sha256, nevra) ← performs (ImportedRpm fd) (to_import tops fd);
  mret (metadata_sha256 +:+ ":" +:+ nevra).
Fixpoint import_loop {S} (fds : list Z) : prog tevent S (list string) :=
  match fds with
  | [] => mret []
  | fd :: fds =>
      sha256_nevra ← import_local_rpm fd;
      pkgs ← import_loop fds;
      mret (sha256_nevra :: pkgs)
  end.
(** The repository transaction is committed on failure too; an error of that commit is
    dropped. *)
Definition import_many_local_rpms {S} (fdl : list Z) : prog tevent S (list string) :=
  _ ← call (to_prepare_transaction tops);
  or_cleanup
    (_ ← call (to_current_sepolicy tops);
     pkgs ← import_loop fdl;
     _ ← performs RepoCommitted (to_commit_transaction tops);
     mret pkgs)
    (match to_commit_transaction tops with Done _ => [RepoCommitted] | Failed _ => [] end).

(** ** The base *)

Definition apply_origin_update (u : origin_update) (o : RpmOstreeOrigin) : RpmOstreeOrigin :=
  match u with
  | SetRebase r => rpmostree_origin_set_rebase validate_checksum is_image_reference r o
  | SetRebaseCustom r c =>
      rpmostree_origin_set_rebase_custom validate_checksum is_image_reference r
        (fst <$> c) (snd <$> c) o
  | SetOverrideCommit c => rpmostree_origin_set_override_commit (Some c) o
  end.

(** Rebasing to a commit of a local repository: the refspec becomes ":SHA256". *)
Definition pull_local_repo (p : deploy_plan) : T (option string) :=
  if bool_decide (dp_local_repo_remote_dfd p = -1)%Z then mret (dp_refspec p)
  else
    match dp_refspec p with
    | None => lift Abort
    | Some refspec =>
        _ ← on_error "Failed to open local repo" (call (to_open_local_repo tops));
        rev ← call (to_local_resolve_rev tops refspec);
        _ ← on_error ("Pulling commit " +:+ rev +:+ " from local repo")
              (performs (PulledLocal rev) (to_pull_local tops rev));
        mret (Some (":" +:+ rev))
    end.

(** The previous refspec, and the origin after rebasing. *)
Definition rebase_origin (custom_origin : option (string * string)) (refspec : option string)
    (o : RpmOstreeOrigin) : outcome (option string * RpmOstreeOrigin) :=
  match refspec with
  | None => Ok (None, o)
  | Some refspec =>
      current ← rpmostree_origin_get_refspec validate_checksum o;
      '(old_refspec, _, update) ←
        change_origin_refspec ostree_parse_refspec validate_checksum is_image_reference is_digest_reference
          custom_origin current refspec;
      Ok (old_refspec, apply_origin_update update o)
  end.

Definition override_revision (skip_branch_check : bool) (revision : option string) (o : RpmOstreeOrigin) :
    outcome RpmOstreeOrigin :=
  match revision with
  | Some revision =>
      r ← rpmostree_origin_get_refspec validate_checksum o;
      update ← revision_override r skip_branch_check revision;
      Ok (apply_origin_update update o)
  | None => Ok (rpmostree_origin_set_override_commit None o)
  end.

(** ** The packages *)

(** Each step gives the flag [changed] and the origin. *)
Definition change_initramfs (no_initramfs : bool) (o : RpmOstreeOrigin) : bool * RpmOstreeOrigin :=
  if no_initramfs && (rpmostree_origin_get_regenerate_initramfs o || rpmostree_origin_has_initramfs_etc_files o)
  then (true, (rpmostree_origin_initramfs_etc_files_untrack_all
                 (rpmostree_origin_set_regenerate_initramfs false [] o)).2)
  else (false, o).
Definition change_cliwrap (cliwrap : option bool) (changed : bool) (o : RpmOstreeOrigin) : bool * RpmOstreeOrigin :=
  match cliwrap with
  | Some b => (true, rpmostree_origin_set_cliwrap b o)
  | None => (changed, o)
  end.

(** [remove_changed] and the origin. *)
Definition uninstall_packages (no_layering idempotent : bool) (uninstall_pkgs : option (list string))
    (o : RpmOstreeOrigin) : outcome (bool * RpmOstreeOrigin) :=
  if no_layering then Ok (rpmostree_origin_remove_all_packages o)
  else
    and_changed (λ out, rpmostree_origin_remove_packages hy_split_nevra (default [] uninstall_pkgs)
                          idempotent out o) false.

(** A request that a package of the base already provides is refused. *)
Fixpoint check_not_provided (allow_inactive : bool) (base : Sack) (install_pkgs : list string) : outcome unit :=
  match install_pkgs with
  | [] => Ok tt
  | pkg :: install_pkgs =>
      let pkgs := rpmostree_get_matching_packages sops base pkg in
      _ ← throw_if (bool_decide (0 < length pkgs) && negb allow_inactive)
            (dquote +:+ pkg +:+ dquote +:+ " is already provided by:" +:+
             foldr (λ p acc, " " +:+ sp_nevra p +:+ acc) ""%string pkgs +:+
             ". Use --allow-inactive to explicitly require it.");
      check_not_provided allow_inactive base install_pkgs
  end.

(** The lazily loaded packages of the base. *)
Definition load_base (base_rsack : option Sack) : T Sack :=
  match base_rsack with
  | Some s => mret s
  | None => self ← get_self; call (to_refsack_for_commit tops (u_base_revision self))
  end.

(** [base_rsack], [changed] and the origin. *)
Definition install_packages (skip_base_check allow_inactive idempotent : bool)
    (install_pkgs : option (list string)) (changed : bool) (o : RpmOstreeOrigin) :
    T (option Sack * (bool * RpmOstreeOrigin)) :=
  match install_pkgs with
  | None => mret (None, (changed, o))
  | Some pkgs =>
      base_rsack ←
        (if skip_base_check then mret None
         else base ← load_base None;
              _ ← lift (check_not_provided allow_inactive base pkgs);
              mret (Some base));
      r ← lift (and_changed (λ out, rpmostree_origin_add_packages validate_checksum pkgs idempotent out o) changed);
      mret (base_rsack, r)
  end.

(** Local packages, layered ([add_local_packages]) or replacing files. *)
Definition install_local
    (add : list string → bool → option bool → RpmOstreeOrigin → outcome (option bool * RpmOstreeOrigin))
    (idempotent : bool) (fds : option (list Z)) (changed : bool) (o : RpmOstreeOrigin) :
    T (bool * RpmOstreeOrigin) :=
  match fds with
  | None => mret (changed, o)
  | Some fds =>
      pkgs ← import_many_local_rpms fds;
      match pkgs with
      | [] => mret (changed, o)
      | _ => lift (and_changed (λ out, add pkgs idempotent out o) changed)
      end
  end.

(** ** The overrides *)

(** The hash tables [name_to_nevra] and [nevra_to_name]. *)
Definition NevraMaps : Type := gmap string string * gmap string string.
Definition gv_nevra_add_nevra_name_mappings (m : NevraMaps) (nevra_name : string * string) : NevraMaps :=
  let '(nevra, name) := nevra_name in (<[name := nevra]> m.1, <[nevra := name]> m.2).
Fixpoint add_origin_mappings (overrides : list string) (m : NevraMaps) : outcome NevraMaps :=
  match overrides with
  | [] => Ok m
  | nevra_v :: overrides =>
      '(nevra, _) ← rpmostree_decompose_sha256_nevra validate_checksum nevra_v;
      '(name, _, _, _, _) ← rpmostree_decompose_nevra hy_split_nevra nevra;
      add_origin_mappings overrides (gv_nevra_add_nevra_name_mappings m (nevra, name))
  end.

(** A name that is also the NEVRA of another package fails an assertion. *)
Definition reset_override (m : NevraMaps) (name_or_nevra : string) (o : RpmOstreeOrigin) :
    outcome RpmOstreeOrigin :=
  let '(found, o1) := rpmostree_origin_remove_override_replace name_or_nevra o in
  if found : bool then Ok o1
  else
    '(name, nevra) ←
      match m.2 !! name_or_nevra, m.1 !! name_or_nevra with
      | None, None => Ok (name_or_nevra, name_or_nevra)
      | None, Some nevra => Ok (name_or_nevra, nevra)
      | Some name, None => Ok (name, name_or_nevra)
      | Some _, Some _ => Abort
      end;
    let '(found, o2) := rpmostree_origin_remove_override_remove name o1 in
    if found : bool then Ok o2
    else
      let '(found, o3) := rpmostree_origin_remove_override_replace_local nevra o2 in
      if found : bool then Ok o3
      else glnx_throw ("No overrides for package '" +:+ name_or_nevra +:+ "'").
Fixpoint reset_overrides (m : NevraMaps) (pkgs : list string) (o : RpmOstreeOrigin) :
    outcome RpmOstreeOrigin :=
  match pkgs with
  | [] => Ok o
  | pkg :: pkgs => o ← reset_override m pkg o; reset_overrides m pkgs o
  end.

(** The replacements of the same names are dropped before the new ones are added. *)
Fixpoint drop_replaced (m : NevraMaps) (pkgs : list string) (o : RpmOstreeOrigin) : outcome RpmOstreeOrigin :=
  match pkgs with
  | [] => Ok o
  | pkg :: pkgs =>
      '(nevra, _) ← rpmostree_decompose_sha256_nevra validate_checksum pkg;
      '(name, _, _, _, _) ← rpmostree_decompose_nevra hy_split_nevra nevra;
      drop_replaced m pkgs
        match m.1 !! name with
        | Some nevra => (rpmostree_origin_remove_override_replace_local nevra o).2
        | None => o
        end
  end.
Definition replace_local_overrides (m : NevraMaps) (pkgs : list string) (o : RpmOstreeOrigin) :
    outcome RpmOstreeOrigin :=
  o ← drop_replaced m pkgs o;
  match pkgs with
  | [] => Ok o
  | _ => rpmostree_origin_add_override_replace_local validate_checksum pkgs o
  end.

(** [override_changed] and the origin. *)
Definition change_overrides (p : deploy_plan) (o : RpmOstreeOrigin) : T (bool * RpmOstreeOrigin) :=
  if dp_no_overrides p then mret (rpmostree_origin_remove_all_overrides o)
  else if nonnull (dp_override_reset_pkgs p) || nonnull (dp_override_replace_local_pkgs p) then
    self ← get_self;
    '(removed, replaced_local) ← call (to_layered_info tops (u_origin_merge_deployment self));
    m ← lift (add_origin_mappings (rpmostree_origin_get_overrides_local_replace o)
                (foldl gv_nevra_add_nevra_name_mappings (∅, ∅) (removed ++ replaced_local)));
    o ← lift (reset_overrides m (default [] (dp_override_reset_pkgs p)) o);
    match dp_override_replace_local_pkgs p with
    | None => mret (true, o)
    | Some fds =>
        pkgs ← import_many_local_rpms fds;
        o ← lift (replace_local_overrides m pkgs o);
        mret (true, o)
    end
  else mret (false, o).

(** Removal overrides are canonicalised to the names of the base's packages. *)
Fixpoint canonical_names (base : Sack) (pkgs : list string) : outcome (list string) :=
  match pkgs with
  | [] => Ok []
  | pkg :: pkgs =>
      match rpmostree_get_matching_packages sops base pkg with
      | [] => glnx_throw ("Package " +:+ dquote +:+ pkg +:+ dquote +:+ " not found")
      | [p] => names ← canonical_names base pkgs; Ok (sp_name p :: names)
      | _ => glnx_throw ("Multiple packages match " +:+ dquote +:+ pkg +:+ dquote)
      end
  end.
Definition remove_overridden (base_rsack : option Sack) (override_remove_pkgs : option (list string))
    (changed : bool) (o : RpmOstreeOrigin) : T (bool * RpmOstreeOrigin) :=
  match override_remove_pkgs with
  | None => mret (changed, o)
  | Some pkgs =>
      base ← load_base base_rsack;
      pkgnames ← lift (canonical_names base pkgs);
      o ← lift (rpmostree_origin_add_override_remove pkgnames o);
      _ ← up (rpmostree_sysroot_upgrader_set_origin validate_checksum o);
      mret (true, o)
  end.

(** ** The transaction *)

(** The plan, and what the options and the client give beyond it. *)
Record DeployInput := MkDeployInput {
  di_osname : string;
  di_plan : deploy_plan;
  di_options : vardict;
  di_custom_origin : option (string * string);
  di_agent : option string;
  di_sd_unit : option string;
}.
Definition di_opt (i : DeployInput) (key : string) : bool := vardict_lookup_bool (di_options i) key false.
Definition di_flag (i : DeployInput) (flag : Z) : bool := flag_set (dp_flags (di_plan i)) flag.

(** The local variables once the origin is known. *)
Record DeployState := MkDeployState {
  ds_refspec : option string;
  ds_old_refspec : option string;
  ds_skip_base_check : bool;
  ds_base_rsack : option Sack;
  ds_changed : bool;
  ds_remove_changed : bool;
  ds_override_changed : bool;
  ds_origin : RpmOstreeOrigin;
}.

Definition is_container_on_ostree_host (o : RpmOstreeOrigin) : T bool :=
  ostree_host ← call (to_is_ostree_host tops);
  if ostree_host : bool then
    r ← lift (rpmostree_origin_get_refspec validate_checksum o);
    mret (bool_decide (rs_kind r = Container))
  else mret false.

(** From the copy of the upgrader's origin to [rpmostree_sysroot_upgrader_set_origin]. *)
Definition compute_origin (i : DeployInput) : T DeployState :=
  let p := di_plan i in
  let idempotent := di_opt i "idempotent-layering" in
  o ← up (rpmostree_sysroot_upgrader_dup_origin validate_checksum);
  refspec ← pull_local_repo p;
  '(old_refspec, o) ← lift (rebase_origin (di_custom_origin i) refspec o);
  o ← lift (override_revision (di_opt i "skip-branch-check") (dp_revision p) o);
  let '(changed, o) := change_initramfs (dp_no_initramfs p) o in
  let '(changed, o) := change_cliwrap (dp_cliwrap p) changed o in
  '(remove_changed, o) ← lift (uninstall_packages (dp_no_layering p) idempotent (dp_uninstall_pkgs p) o);
  let changed := changed || remove_changed in
  skip_base_check ← is_container_on_ostree_host o;
  '(base_rsack, (changed, o)) ←
    install_packages skip_base_check (di_opt i "allow-inactive") idempotent (dp_install_pkgs p) changed o;
  '(changed, o) ← install_local (rpmostree_origin_add_local_packages validate_checksum) idempotent
                    (dp_install_local_pkgs p) changed o;
  '(changed, o) ← install_local (rpmostree_origin_add_local_fileoverride_packages validate_checksum)
                    idempotent (dp_install_fileoverride_local_pkgs p) changed o;
  '(override_changed, o) ← change_overrides p o;
  let changed := changed || override_changed in
  '(changed, o) ←
    match dp_treefile p with
    | Some treefile =>
        lift (and_changed (λ out, rpmostree_origin_merge_treefile parse_json get_checksum treefile out o) changed)
    | None => mret (changed, o)
    end;
  _ ← up (rpmostree_sysroot_upgrader_set_origin validate_checksum o);
  mret (MkDeployState refspec old_refspec skip_base_check base_rsack changed remove_changed
          override_changed o).

(** A live deployment may be redeployed from the same base. *)
Definition pull_new_base (i : DeployInput) (changed : bool) : T bool :=
  if no_pull_base (di_plan i) then mret changed
  else
    let flags :=
      if di_flag i RPMOSTREE_TRANSACTION_DEPLOY_FLAG_DOWNLOAD_METADATA_ONLY
      then OSTREE_REPO_PULL_FLAGS_COMMIT_ONLY else 0%Z in
    base_changed ← up (rpmostree_sysroot_upgrader_pull_base ops validate_checksum ostree_parse_refspec
                         None flags);
    if base_changed : bool then mret true
    else
      self ← get_self;
      is_live ← call (op_has_live_apply_state ops (u_origin_merge_deployment self));
      mret (changed || is_live).

(** Only the metadata is wanted: for the booted OS. *)
Definition refresh_metadata (i : DeployInput) (o : RpmOstreeOrigin) : T unit :=
  match op_booted ops with
  | Some booted =>
      if bool_decide (di_osname i = d_osname booted) then
        _ ← when (rpmostree_origin_has_packages o) get_sack_for_booted;
        generate_update_variant (Some booted) None (rpmostree_origin_has_packages o)
      else lift (glnx_throw ("Refusing to download rpm-md for offline OS '" +:+ di_osname i +:+ "'"))
  | None => lift (glnx_throw ("Refusing to download rpm-md for offline OS '" +:+ di_osname i +:+ "'"))
  end.

Definition no_upgrade_message (i : DeployInput) : T unit :=
  output_message (if is_upgrade (di_plan i) then "No upgrade available."%string else "No change."%string).

(** Something changed: stop after the download, or write the deployment. *)
Definition write_new_deployment (i : DeployInput) (ds : DeployState) (changed : bool) : T unit :=
  if di_flag i RPMOSTREE_TRANSACTION_DEPLOY_FLAG_DOWNLOAD_ONLY then
    output_message (if changed then "Update downloaded."%string else "No changes."%string)
  else
    new_deployment ← up (rpmostree_sysroot_upgrader_deploy sops ops validate_checksum hy_split_nevra
                           type_mismatch hash_order);
    _ ← match ds_old_refspec ds with
        | Some old_refspec =>
            when (nonnull (ds_refspec ds) && negb (di_opt i "skip-purge"))
              (performs (Purged old_refspec) (to_purge_refspec tops old_refspec))
        | None => mret tt
        end;
    _ ← when (is_upgrade (di_plan i))
          (self ← get_self; generate_update_variant (op_booted ops) new_deployment (u_rpmmd_sack self));
    if di_opt i "apply-live" then performs AppliedLive (to_apply_live tops)
    else when (di_opt i "reboot") reboot.

Definition report_no_change (i : DeployInput) (final_refspec : Refspec) (layering_type : LayeringType)
    (o : RpmOstreeOrigin) : T unit :=
  if bool_decide (rs_kind final_refspec = Checksum) && negb (bool_decide (layering_type = LAYERING_RPMMD_REPOS)) then
    let description := rpmostree_origin_get_custom_description o in
    output_message
      (if bool_decide (description = ""%string) then "Pinned to commit; no upgrade available"%string
       else "Pinned to commit by custom origin: " +:+ description)
  else no_upgrade_message i.

Definition deploy_transaction_run (i : DeployInput) : T unit :=
  let p := di_plan i in
  _ ← up (rpmostree_sysroot_upgrader_set_allow_empty_transaction (di_opt i "idempotent-layering"));
  ds ← compute_origin i;
  changed ← pull_new_base i (ds_changed ds);
  '(changed, o) ← remove_overridden (ds_base_rsack ds) (dp_override_remove_pkgs p) changed (ds_origin ds);
  final_refspec ← lift (rpmostree_origin_get_refspec validate_checksum o);
  if di_flag i RPMOSTREE_TRANSACTION_DEPLOY_FLAG_DOWNLOAD_METADATA_ONLY then refresh_metadata i o
  else
    '(layering_type, layering_changed) ←
      up (rpmostree_sysroot_upgrader_prep_layering sops ops validate_checksum hy_split_nevra type_mismatch
            hash_order);
    let changed := changed || layering_changed || ds_remove_changed ds || ds_override_changed ds in
    if ds_skip_base_check ds && negb changed && negb (nonnull (ds_refspec ds) || nonnull (dp_revision p))
    then no_upgrade_message i
    else if di_flag i RPMOSTREE_TRANSACTION_DEPLOY_FLAG_DRY_RUN then mret tt
    else
      _ ← when layering_changed (up (rpmostree_sysroot_upgrader_import_pkgs ops));
      _ ← up (rpmostree_sysroot_upgrader_set_caller_info
                (vardict_lookup_string (di_options i) "initiating-command-line") (di_agent i) (di_sd_unit i));
      if changed || nonnull (ds_refspec ds) then write_new_deployment i ds changed
      else report_no_change i final_refspec layering_type o.

(** A transaction that creates an upgrader. *)
Definition with_upgrader (osname : string) (flags : Z) (m : T unit) : list tevent * outcome unit :=
  match rpmostree_sysroot_upgrader_initable_init ops validate_checksum type_mismatch (Some osname) flags with
  | Ok upgrader => let '(tr, r) := m upgrader in (tr, _ ← r; Ok tt)
  | Err e => ([], Err e)
  | Abort => ([], Abort)
  end.

(** The whole of [deploy_transaction_execute] after its first part. *)
Definition deploy_transaction_perform (i : DeployInput) : list tevent * outcome unit :=
  match to_migrate_pkgcache tops with
  | Failed e => ([], Err e)
  | Done _ =>
      let '(tr, r) := with_upgrader (di_osname i) (dp_upgrader_flags (di_plan i)) (deploy_transaction_run i) in
      (PkgcacheMigrated :: tr, r)
  end.
Definition deploy_transaction_execute (self : DeployTransaction) (custom_origin : option (string * string))
    (agent sd_unit : option string) (write_driver : outcome unit) : list tevent * outcome unit :=
  match deploy_transaction_prepare sd_unit write_driver self with
  | Ok DriverRegistered => ([], Ok tt)
  | Ok (Prepared p) =>
      deploy_transaction_perform
        (MkDeployInput (dt_osname self) p (dt_options self) custom_origin agent sd_unit)
  | Err e => ([], Err e)
  | Abort => ([], Abort)
  end.
End run.
