(* ===== verification/DeployRunSpec.v ===== *)
(** What the deploy transaction of [DeployRun] does to the system in every outcome: a dry
    run or a download leaves the deployments alone, nothing is activated before a deployment
    exists, and a request that is deployed is in the origin of the deployment. *)

From S2P Require Import Prelude Vardict Nevra RpmHeaders Deploy SysrootCore Refspec Origin OriginFile OriginApi Upgrader UpgraderSpec DeployRun.

(** * The upgrader *)

(** A deployment is created. *)
Definition creates (e : uevent) : Prop :=
  match e with StagedTree _ _ _ _ _ | DeployedTree _ _ _ _ _ => True | _ => False end.
(** Deployments are not touched, nor is their history. *)
Definition benign (e : uevent) : Prop :=
  match e with
  | StagedTree _ _ _ _ _ | DeployedTree _ _ _ _ _ | HistoryWritten _ | JournalSent _ _ _ _ _ _ | SanityChecked
  | SyscoreCleaned | DeploymentWritten _ _ => False
  | _ => True
  end.

(** Invariants that only look at what was asked of the upgrader. *)
Class RequestInv {Sack : Type} (I : Upgrader Sack → Prop) : Prop :=
  request_inv u u' : I u → u_flags u' = u_flags u → u_original_origin u' = u_original_origin u →
    (∀ kargs, u_kargs_strv u = Some kargs → u_kargs_strv u' = Some kargs) → I u'.
#[export] Hint Extern 0 (RequestInv _) => typeclasses eauto : keeps.

Definition with_flags {Sack} (flags : Z) (u : Upgrader Sack) : Prop := u_flags u = flags.
Definition with_origin {Sack} (t : RpmOstreeOrigin) (u : Upgrader Sack) : Prop := u_original_origin u = t.
#[global] Instance with_flags_request {Sack} flags : RequestInv (with_flags (Sack := Sack) flags).
Proof. unfold with_flags. intros u u' ? ? ? ?. congruence. Qed.
#[global] Instance with_origin_request {Sack} t : RequestInv (with_origin (Sack := Sack) t).
Proof. unfold with_origin. intros u u' ? ? ? ?. congruence. Qed.

Ltac keeps_state ::= by eapply request_inv.

(** A program that cannot succeed without an effect with [P]. *)
Definition emits {E S A} (P : E → Prop) (I : S → Prop) (m : prog E S A) : Prop :=
  ∀ s, I s → ∀ a s', (m s).2 = Ok (a, s') → Exists P (m s).1.

Lemma emits_bind_l {E S A B} P (I : S → Prop) (m : prog E S A) (f : A → prog E S B) :
  emits P I m → emits P I (m ≫= f).
Proof.
  intros Hm s Hs b s'. specialize (Hm s Hs). unfold mbind, prog_bind.
  destruct (m s) as [tr [[a s1]| |]]; [|done..]. simpl in *.
  specialize (Hm a s1 eq_refl). destruct (f a s1) as [tr' r]. simpl. intros _. apply Exists_app. by left.
Qed.

Lemma emits_bind_r {E S A B} P Q (I : S → Prop) (m : prog E S A) (f : A → prog E S B) :
  keeps Q I m → (∀ a, emits P I (f a)) → emits P I (m ≫= f).
Proof.
  intros Hm Hf s Hs b s'. destruct (Hm s Hs) as [_ Hok]. unfold mbind, prog_bind.
  destruct (m s) as [tr [[a s1]| |]]; [|done..]. simpl in *.
  specialize (Hf a s1 (Hok a s1 eq_refl) b s'). destruct (f a s1) as [tr' r]. simpl in *.
  intros Hr. apply Exists_app. right. by apply Hf.
Qed.

Lemma emits_bind_get {E S B} P (I : S → Prop) (f : S → prog E S B) :
  (∀ s, I s → emits P I (f s)) → emits P I (get_self ≫= f).
Proof.
  intros Hf s Hs b s'. specialize (Hf s Hs s Hs b s'). unfold mbind, prog_bind, get_self.
  by destruct (f s s).
Qed.

Lemma emits_performs {E S A} (P : E → Prop) (I : S → Prop) e (r : result A) : P e → emits P I (performs e r).
Proof.
  intros He s Hs a s'. unfold performs, perform. destruct r; simpl; [|done]. intros _. by constructor.
Qed.

Section upgrader.
Context `{KeyFileSyntax} {Sack : Type} (sops : SackOps Sack) (ops : UpgraderOps Sack)
  (validate_checksum : string → outcome unit) (hy_split_nevra : string → option split_nevra)
  (ostree_parse_refspec : string → outcome (option string * string)) (type_mismatch : string)
  (hash_order : list string → list string) (I : Upgrader Sack → Prop) `{!RequestInv I}.

Lemma keeps_set_origin o flags :
  keeps benign (with_flags (Sack := Sack) flags) (rpmostree_sysroot_upgrader_set_origin validate_checksum o).
Proof.
  unfold rpmostree_sysroot_upgrader_set_origin. do 2 (keeps_step; [by apply keeps_lift|]).
  by apply keeps_modify.
Qed.

Lemma keeps_dup_origin : keeps benign I (rpmostree_sysroot_upgrader_dup_origin validate_checksum).
Proof. unfold rpmostree_sysroot_upgrader_dup_origin. keeps_auto. Qed.

Lemma keeps_set_allow_empty b :
  keeps benign I (rpmostree_sysroot_upgrader_set_allow_empty_transaction b).
Proof. unfold rpmostree_sysroot_upgrader_set_allow_empty_transaction. keeps_auto. Qed.

Lemma keeps_set_kargs kargs flags :
  keeps benign (with_flags (Sack := Sack) flags) (rpmostree_sysroot_upgrader_set_kargs kargs).
Proof. by apply keeps_modify. Qed.

Lemma keeps_set_caller_info c a s :
  keeps benign I (rpmostree_sysroot_upgrader_set_caller_info c a s).
Proof. unfold rpmostree_sysroot_upgrader_set_caller_info. keeps_auto. Qed.

Lemma keeps_pull_base dir pull_flags :
  keeps benign I
    (rpmostree_sysroot_upgrader_pull_base ops validate_checksum ostree_parse_refspec dir pull_flags).
Proof.
  unfold rpmostree_sysroot_upgrader_pull_base, pull_ostree_base. keeps_auto.
Qed.

Lemma keeps_checkout_base_tree : keeps benign I (checkout_base_tree ops).
Proof. unfold checkout_base_tree. keeps_auto. Qed.
#[local] Hint Resolve keeps_checkout_base_tree : keeps.

Lemma keeps_load_base_rsack : keeps benign I (load_base_rsack ops type_mismatch).
Proof. unfold load_base_rsack, try_load_base_rsack_from_pending. keeps_auto. Qed.

Lemma keeps_finalize_overrides :
  keeps benign I (finalize_overrides sops validate_checksum hy_split_nevra).
Proof.
  unfold finalize_overrides, finalize_removal_overrides, finalize_replacement_overrides, get_rsack. keeps_auto.
Qed.

Lemma keeps_add_local_pkgset pkgs :
  keeps benign I (add_local_pkgset_to_sack sops ops validate_checksum pkgs).
Proof.
  unfold add_local_pkgset_to_sack, initialize_metatmpdir, get_rsack. keeps_auto.
Qed.
#[local] Hint Resolve keeps_load_base_rsack keeps_finalize_overrides keeps_add_local_pkgset : keeps.

Lemma keeps_finalize_overlays :
  keeps benign I (finalize_overlays sops ops validate_checksum hy_split_nevra hash_order).
Proof. unfold finalize_overlays, get_rsack. keeps_auto. Qed.

Lemma keeps_prep_local_assembly : keeps benign I (prep_local_assembly ops validate_checksum).
Proof. unfold prep_local_assembly. keeps_auto. Qed.
#[local] Hint Resolve keeps_finalize_overlays keeps_prep_local_assembly : keeps.

Lemma keeps_prep_layering :
  keeps benign I
    (rpmostree_sysroot_upgrader_prep_layering sops ops validate_checksum hy_split_nevra type_mismatch hash_order).
Proof. unfold rpmostree_sysroot_upgrader_prep_layering. keeps_auto. Qed.

Lemma keeps_import_pkgs : keeps benign I (rpmostree_sysroot_upgrader_import_pkgs ops).
Proof. unfold rpmostree_sysroot_upgrader_import_pkgs. keeps_auto. Qed.

Lemma keeps_perform_local_assembly : keeps benign I (perform_local_assembly ops).
Proof. unfold perform_local_assembly. keeps_auto. Qed.

Lemma keeps_stage_overlay o : keeps benign I (stage_overlay ops o).
Proof. unfold stage_overlay. keeps_auto. Qed.

End upgrader.

#[export] Hint Resolve keeps_set_origin keeps_dup_origin keeps_set_allow_empty keeps_set_kargs
  keeps_set_caller_info keeps_pull_base keeps_prep_layering keeps_import_pkgs
  keeps_perform_local_assembly keeps_stage_overlay : keeps.

Section deploy.
Context `{KeyFileSyntax} {Sack : Type} (sops : SackOps Sack) (ops : UpgraderOps Sack)
  (validate_checksum : string → outcome unit) (hy_split_nevra : string → option split_nevra)
  (type_mismatch : string) (hash_order : list string → list string).

Lemma emits_deploy flags : flag_set flags RPMOSTREE_SYSROOT_UPGRADER_FLAGS_DRY_RUN = false →
  emits creates (with_flags (Sack := Sack) flags)
    (rpmostree_sysroot_upgrader_deploy sops ops validate_checksum hy_split_nevra type_mismatch hash_order).
Proof.
  intros Hdry. unfold rpmostree_sysroot_upgrader_deploy.
  apply emits_bind_get. intros s Hs. rewrite Hs, Hdry.
  eapply emits_bind_r; [by keeps_auto|]. intros _. apply emits_bind_get. intros s1 _.
  eapply emits_bind_r; [by keeps_auto|]. intros _. eapply emits_bind_r; [by keeps_auto|]. intros _.
  apply emits_bind_get. intros s2 _. cbv zeta.
  eapply emits_bind_r; [by apply (keeps_modify benign)|]. intros _.
  eapply emits_bind_r; [by apply (keeps_lift benign)|]. intros origin.
  eapply emits_bind_r; [by keeps_auto|]. intros overlay. apply emits_bind_l.
  destruct (nonnull (op_booted ops)); by apply emits_performs.
Qed.

(** The origin file of the deployment an event creates, and its options. *)
Definition origin_file (e : uevent) : option KeyFile :=
  match e with StagedTree _ _ kf _ _ | DeployedTree _ _ kf _ _ => Some kf | _ => None end.
Definition tree_options (e : uevent) : option DeployTreeOpts :=
  match e with StagedTree _ _ _ _ opts | DeployedTree _ _ _ _ opts => Some opts | _ => None end.

(** A deployment gets the origin and the kernel arguments the upgrader was given, and the
    lock if it was asked for. *)
Definition created_by (u : Upgrader Sack) (e : uevent) : Prop :=
  (∀ kf, origin_file e = Some kf → rpmostree_origin_dup_keyfile (u_original_origin u) = Ok kf) ∧
  (∀ opts, tree_options e = Some opts →
     dto_locked opts = flag_set (u_flags u) RPMOSTREE_SYSROOT_UPGRADER_FLAGS_LOCK_FINALIZATION ∧
     ∀ kargs, u_kargs_strv u = Some kargs → dto_override_kernel_argv opts = kargs).

Lemma keeps_deploy (I : Upgrader Sack → Prop) `{!RequestInv I} :
  keeps (λ e, creates e → ∃ u, I u ∧ created_by u e) I
    (rpmostree_sysroot_upgrader_deploy sops ops validate_checksum hy_split_nevra type_mismatch hash_order).
Proof.
  assert (∀ {A} (m : prog uevent (Upgrader Sack) A), keeps benign I m →
    keeps (λ e, creates e → ∃ u, I u ∧ created_by u e) I m) as Hk.
  { intros A m Hm. apply (keeps_mono benign); [done|]. by intros []. }
  unfold rpmostree_sysroot_upgrader_deploy, write_history. keeps_step. keeps_step; [apply keeps_ret|].
  keeps_step; [apply Hk; by keeps_auto|]. keeps_step. keeps_step; [apply Hk; by keeps_auto|].
  keeps_step; [apply Hk; by keeps_auto|]. apply keeps_bind_get_state. intros self Hself. cbv zeta.
  eapply (triple_bind _ _ (λ _, I)).
  { apply triple_modify. intros ? ->. eapply request_inv; [done..|]. simpl. by intros ? ->. }
  intros _. apply keeps_bind_lift. intros origin Ho.
  destruct (rpmostree_origin_dup_keyfile (u_original_origin _)) as [kf| |] eqn:Ekf; simplify_eq.
  keeps_step; [apply Hk; by keeps_auto|]. keeps_step; [|by keeps_auto].
  assert (∀ os rev merge a, let opts := MkDeployTreeOpts
      (flag_set (u_flags self) RPMOSTREE_SYSROOT_UPGRADER_FLAGS_LOCK_FINALIZATION)
      (default (op_bootconfig_kargs ops (u_origin_merge_deployment self)) (u_kargs_strv self)) a in
    created_by self (StagedTree os rev origin merge opts) ∧ created_by self (DeployedTree os rev origin merge opts)) as Hc.
  { intros os rev merge overlay. split; (split; [by intros ? [= <-]|]); intros ? [= <-]; (split; [done|]);
      simpl; by intros ? ->. }
  keeps_step; apply keeps_performs; intros _; exists self; (split; [done|apply Hc]).
Qed.
End deploy.

(** * The transaction *)

(** The booted system and its deployments stay as they are. *)
Definition harmless (e : tevent) : Prop :=
  match e with
  | Up e => benign e
  | Purged _ | AppliedLive | FinalizationUnlocked _ | Rebooted => False
  | _ => True
  end.
(** The previous system is given up for the new deployment. *)
Definition activates (e : tevent) : Prop :=
  match e with Purged _ | AppliedLive | Rebooted => True | _ => False end.
Definition created (e : tevent) : Prop := match e with Up e => creates e | _ => False end.

(** Every activation comes after the creation of a deployment. *)
Definition after_creation (tr : list tevent) : Prop :=
  ∀ tr1 e tr2, tr = tr1 ++ e :: tr2 → activates e → Exists created tr1.
Definition ordered {S A} (I : S → Prop) (m : prog tevent S A) : Prop := ∀ s, I s → after_creation (m s).1.

Lemma harmless_quiet e : harmless e → ¬ activates e.
Proof. destruct e; simpl; tauto. Qed.

Lemma keeps_up {S A} P Q (I : S → Prop) (m : prog uevent S A) :
  keeps P I m → (∀ e, P e → Q (Up e)) → keeps Q I (up m).
Proof.
  intros Hm HPQ s Hs. destruct (Hm s Hs) as [Htr Hok]. unfold up. destruct (m s) as [tr r]. simpl in *.
  split; [|done]. apply Forall_fmap. eapply Forall_impl; [done|]. apply HPQ.
Qed.

Lemma emits_up {S A} (I : S → Prop) (m : prog uevent S A) : emits creates I m → emits created I (up m).
Proof.
  intros Hm s Hs a s'. specialize (Hm s Hs a s'). unfold up. destruct (m s) as [tr r]. simpl in *.
  intros Hr. apply Hm in Hr. clear Hm. induction Hr; [by left|by right].
Qed.

Lemma after_creation_quiet tr : Forall (λ e, ¬ activates e) tr → after_creation tr.
Proof. intros Htr tr1 e tr2 -> He. rewrite Forall_app, Forall_cons in Htr. by destruct Htr as (_ & ? & _). Qed.

Lemma after_creation_app tr tr' :
  Forall (λ e, ¬ activates e) tr → Exists created tr ∨ after_creation tr' → after_creation (tr ++ tr').
Proof.
  intros Htr Hor tr1 e tr2 Heq He.
  apply app_eq_inv in Heq as [([|e' k] & Hk & Htr')|(k & Hk & Htr')]; simplify_eq/=.
  - rewrite app_nil_r in *. destruct Hor as [?|Hf]; [done|]. specialize (Hf [] e tr2 eq_refl He). inversion Hf.
  - rewrite !Forall_app, Forall_cons in Htr. by destruct Htr as (_ & ? & _).
  - apply Exists_app. destruct Hor as [?|Hf]; [by left|]. right. by apply (Hf k e tr2).
Qed.

Lemma ordered_quiet {S A} (I : S → Prop) (m : prog tevent S A) :
  keeps (λ e, ¬ activates e) I m → ordered I m.
Proof. intros Hm s Hs. by apply after_creation_quiet, Hm. Qed.

Lemma ordered_bind {S A B} (I : S → Prop) (m : prog tevent S A) (f : A → prog tevent S B) :
  keeps harmless I m → (∀ a, ordered I (f a)) → ordered I (m ≫= f).
Proof.
  intros Hm Hf s Hs. destruct (keeps_mono _ _ _ _ Hm harmless_quiet s Hs) as [Htr Hok]. unfold mbind, prog_bind.
  destruct (m s) as [tr [[a s1]| |]]; [|by apply after_creation_quiet..]. simpl in *.
  specialize (Hf a s1 (Hok a s1 eq_refl)). destruct (f a s1) as [tr' r]. simpl in *.
  apply after_creation_app; auto.
Qed.

Lemma ordered_created {S A B} (I : S → Prop) (m : prog tevent S A) (f : A → prog tevent S B) :
  keeps (λ e, ¬ activates e) I m → emits created I m → ordered I (m ≫= f).
Proof.
  intros Hm He s Hs. destruct (Hm s Hs) as [Htr _]. specialize (He s Hs). unfold mbind, prog_bind.
  destruct (m s) as [tr [[a s1]| |]]; [|by apply after_creation_quiet..]. simpl in *.
  destruct (f a s1) as [tr' r]. apply after_creation_app; [done|]. left. by apply (He a s1).
Qed.

Section helpers.
Context `{KeyFileSyntax} {Sack : Type} (ops : UpgraderOps Sack) (tops : DeployOps Sack)
  (validate_checksum : string → outcome unit)
  (ostree_parse_refspec : string → outcome (option string * string)).

Lemma keeps_up_benign {S A} (J : S → Prop) (m : prog uevent S A) :
  keeps benign J m → keeps harmless J (up m).
Proof. intros Hm. by apply (keeps_up benign). Qed.
#[local] Hint Resolve keeps_up_benign : keeps.

Lemma keeps_generate_update_variant {S} (J : S → Prop) booted staged sack :
  keeps harmless J (generate_update_variant tops booted staged sack).
Proof. unfold generate_update_variant. keeps_auto. Qed.

Lemma keeps_get_sack_for_booted {S} (J : S → Prop) : keeps harmless J (get_sack_for_booted tops).
Proof. unfold get_sack_for_booted. keeps_auto. Qed.

Lemma keeps_output_message {S} (J : S → Prop) msg : keeps harmless J (output_message msg).
Proof. unfold output_message. keeps_auto. Qed.

Lemma keeps_import_loop {S} (J : S → Prop) fds : keeps harmless J (import_loop tops fds).
Proof. induction fds; simpl; unfold import_local_rpm; keeps_auto. Qed.
#[local] Hint Resolve keeps_generate_update_variant keeps_get_sack_for_booted keeps_output_message
  keeps_import_loop : keeps.

Lemma keeps_or_cleanup {E S A} P (J : S → Prop) (m : prog E S A) tr :
  keeps P J m → Forall P tr → keeps P J (or_cleanup m tr).
Proof.
  intros Hm Htr s Hs. specialize (Hm s Hs). unfold or_cleanup. destruct (m s) as [tr' []]; try done.
  simpl in *. split; [|done]. apply Forall_app. by destruct Hm.
Qed.

Lemma keeps_import_many {S} (J : S → Prop) fdl : keeps harmless J (import_many_local_rpms tops fdl).
Proof.
  unfold import_many_local_rpms. keeps_step; [by keeps_auto|]. apply keeps_or_cleanup; [by keeps_auto|].
  destruct (to_commit_transaction tops); by repeat constructor.
Qed.
#[local] Hint Resolve keeps_import_many : keeps.

Lemma keeps_load_base J b : keeps harmless J (load_base tops b).
Proof. unfold load_base. keeps_auto. Qed.

Lemma keeps_pull_new_base (J : Upgrader Sack → Prop) `{!RequestInv J} i changed :
  keeps harmless J (pull_new_base ops validate_checksum ostree_parse_refspec i changed).
Proof. unfold pull_new_base. keeps_auto. Qed.

Lemma keeps_report_no_change (J : Upgrader Sack → Prop) i r ty o :
  keeps harmless J (report_no_change i r ty o).
Proof. unfold report_no_change, no_upgrade_message. keeps_auto. Qed.

Lemma keeps_refresh_metadata (J : Upgrader Sack → Prop) i o :
  keeps harmless J (refresh_metadata ops tops i o).
Proof. unfold refresh_metadata. keeps_auto. Qed.
End helpers.

#[export] Hint Resolve keeps_up_benign keeps_generate_update_variant keeps_get_sack_for_booted
  keeps_output_message keeps_import_many keeps_load_base keeps_pull_new_base keeps_report_no_change
  keeps_refresh_metadata : keeps.


Section transaction.
Context `{KeyFileSyntax} {Sack : Type} (sops : SackOps Sack) (ops : UpgraderOps Sack) (tops : DeployOps Sack)
  (validate_checksum : string → outcome unit) (hy_split_nevra : string → option split_nevra)
  (ostree_parse_refspec : string → outcome (option string * string)) (type_mismatch : string)
  (hash_order : list string → list string)
  (is_image_reference is_digest_reference : string → bool)
  (parse_json : string → outcome Treefile) (get_checksum : Treefile → outcome string)
  (revision_override : Refspec → bool → string → outcome origin_update) (flags : Z).

Local Abbreviation I := (with_flags (Sack := Sack) flags).

Lemma keeps_compute_origin i :
  keeps harmless I (compute_origin sops tops validate_checksum hy_split_nevra ostree_parse_refspec
    is_image_reference is_digest_reference parse_json get_checksum revision_override i).
Proof.
  unfold compute_origin, pull_local_repo, is_container_on_ostree_host, install_packages, install_local,
    change_overrides. cbv zeta. keeps_auto.
Qed.

Lemma keeps_remove_overridden b pkgs changed o :
  keeps harmless I (remove_overridden sops tops validate_checksum b pkgs changed o).
Proof. unfold remove_overridden. keeps_auto. Qed.
#[local] Hint Resolve keeps_compute_origin keeps_remove_overridden : keeps.

Local Abbreviation run := (deploy_transaction_run sops ops tops validate_checksum hy_split_nevra
  ostree_parse_refspec type_mismatch hash_order is_image_reference is_digest_reference parse_json
  get_checksum revision_override).
Local Abbreviation execute := (deploy_transaction_execute sops ops tops validate_checksum hy_split_nevra
  ostree_parse_refspec type_mismatch hash_order is_image_reference is_digest_reference parse_json
  get_checksum revision_override).

(** The transaction stops before it writes the deployment. *)
Definition stops_early (p : deploy_plan) : bool :=
  flag_set (dp_flags p) RPMOSTREE_TRANSACTION_DEPLOY_FLAG_DRY_RUN
  || flag_set (dp_flags p) RPMOSTREE_TRANSACTION_DEPLOY_FLAG_DOWNLOAD_ONLY
  || flag_set (dp_flags p) RPMOSTREE_TRANSACTION_DEPLOY_FLAG_DOWNLOAD_METADATA_ONLY.

Lemma keeps_run i : stops_early (di_plan i) = true → keeps harmless I (run i).
Proof.
  intros Hstop. unfold deploy_transaction_run, no_upgrade_message. cbv zeta.
  keeps_auto. unfold write_new_deployment. unfold stops_early in Hstop. unfold di_flag in *.
  apply orb_prop in Hstop as [[?|Hd]%orb_prop|?]; [congruence| |congruence]. rewrite Hd. keeps_auto.
Qed.

Lemma ordered_write_new_deployment i ds changed :
  flag_set flags RPMOSTREE_SYSROOT_UPGRADER_FLAGS_DRY_RUN = false →
  ordered I (write_new_deployment sops ops tops validate_checksum hy_split_nevra type_mismatch
               hash_order i ds changed).
Proof.
  intros Hdry. unfold write_new_deployment. destruct (di_flag _ _).
  - apply ordered_quiet, (keeps_mono harmless); [by keeps_auto|apply harmless_quiet].
  - apply ordered_created.
    + eapply keeps_up; [apply keeps_deploy; apply _|]. intros ? _ [].
    + by apply emits_up, emits_deploy.
Qed.

Lemma ordered_run i :
  flag_set flags RPMOSTREE_SYSROOT_UPGRADER_FLAGS_DRY_RUN
    = flag_set (dp_flags (di_plan i)) RPMOSTREE_TRANSACTION_DEPLOY_FLAG_DRY_RUN →
  ordered I (run i).
Proof.
  intros Hdry. unfold deploy_transaction_run, no_upgrade_message. cbv zeta.
  do 3 (apply ordered_bind; [by keeps_auto|intros ?]).
  apply ordered_bind; [by keeps_auto|]. intros [changed o]. apply ordered_bind; [by keeps_auto|].
  intros final_refspec. destruct (di_flag _ _).
  { apply ordered_quiet, (keeps_mono harmless); [|apply harmless_quiet]. keeps_auto. }
  apply ordered_bind; [by keeps_auto|]. intros [ty layering_changed]. destruct (_ && _).
  { apply ordered_quiet, (keeps_mono harmless); [|apply harmless_quiet]. keeps_auto. }
  unfold di_flag. rewrite <- Hdry. destruct (flag_set flags _) eqn:Hf.
  { apply ordered_quiet, keeps_ret. }
  do 2 (apply ordered_bind; [by keeps_auto|intros ?]). destruct (_ || nonnull _).
  - by apply ordered_write_new_deployment.
  - apply ordered_quiet, (keeps_mono harmless); [by keeps_auto|apply harmless_quiet].
Qed.
End transaction.

(** ** From the D-Bus call on *)

Section execute.
Context `{KeyFileSyntax} {Sack : Type} (sops : SackOps Sack) (ops : UpgraderOps Sack) (tops : DeployOps Sack)
  (validate_checksum : string → outcome unit) (hy_split_nevra : string → option split_nevra)
  (ostree_parse_refspec : string → outcome (option string * string)) (type_mismatch : string)
  (hash_order : list string → list string)
  (is_image_reference is_digest_reference : string → bool)
  (parse_json : string → outcome Treefile) (get_checksum : Treefile → outcome string)
  (revision_override : Refspec → bool → string → outcome origin_update).

Local Abbreviation run := (deploy_transaction_run sops ops tops validate_checksum hy_split_nevra
  ostree_parse_refspec type_mismatch hash_order is_image_reference is_digest_reference parse_json
  get_checksum revision_override).
Local Abbreviation execute := (deploy_transaction_execute sops ops tops validate_checksum hy_split_nevra
  ostree_parse_refspec type_mismatch hash_order is_image_reference is_digest_reference parse_json
  get_checksum revision_override).

Lemma init_flags osname flags u :
  rpmostree_sysroot_upgrader_initable_init ops validate_checksum type_mismatch osname flags = Ok u →
  u_flags u = flags.
Proof.
  unfold rpmostree_sysroot_upgrader_initable_init. intros (n & _ & H1)%bind_ok. apply bind_ok in H1 as (_ & _ & H1).
  destruct (op_get_merge_deployment ops n); [|done].
  destruct (rpmostree_syscore_get_origin_merge_deployment (op_deployments ops) n); [|done].
  apply bind_ok in H1 as ([o1 o2] & _ & H1). apply bind_ok in H1 as (base & _ & H1).
  destruct base; by injection H1 as <-.
Qed.

(** A trace of the transaction is empty, or migrates the package cache and then is a trace
    of [deploy_transaction_run]. *)
Lemma execute_trace (P : list tevent → Prop) self custom agent unit write :
  P [] → P [PkgcacheMigrated] →
  (∀ p i u, deploy_transaction_prepare unit write self = Ok (Prepared p) → di_plan i = p →
     u_flags u = dp_upgrader_flags p → P (PkgcacheMigrated :: (run i u).1)) →
  P (execute self custom agent unit write).1.
Proof.
  intros Hnil Hone Hrun. unfold deploy_transaction_execute.
  destruct (deploy_transaction_prepare unit write self) as [[|p]| |] eqn:Ep; try done.
  unfold deploy_transaction_perform. destruct (to_migrate_pkgcache tops); [|done].
  unfold with_upgrader. cbn [di_osname di_plan].
  destruct (rpmostree_sysroot_upgrader_initable_init _ _ _ _ _) as [u| |] eqn:Eu; try done.
  set (i := MkDeployInput _ _ _ _ _ _). specialize (Hrun p i u eq_refl eq_refl (init_flags _ _ _ Eu)).
  by destruct (run i u).
Qed.

(** An effect of the upgrader comes from the run of a plan. *)
Lemma execute_in self custom agent unit write e :
  Up e ∈ (execute self custom agent unit write).1 →
  ∃ p i u, deploy_transaction_prepare unit write self = Ok (Prepared p) ∧ di_plan i = p ∧
    Up e ∈ (run i u).1.
Proof.
  unfold deploy_transaction_execute.
  destruct (deploy_transaction_prepare unit write self) as [[|p]| |]; [by intros ?%elem_of_nil| |by intros ?%elem_of_nil..].
  unfold deploy_transaction_perform. destruct (to_migrate_pkgcache tops); [|by intros ?%elem_of_nil].
  unfold with_upgrader. destruct (rpmostree_sysroot_upgrader_initable_init _ _ _ _ _) as [u| |];
    [|by intros [?|?%elem_of_nil]%elem_of_cons..].
  set (i := MkDeployInput _ _ _ _ _ _). intros Hin. exists p, i, u. split_and!; [done..|].
  destruct (run i u). by apply elem_of_cons in Hin as [?|?].
Qed.

(** C3: with the option "dry-run" or "download-only", and with the flag the automatic update
    check sets, the deploy transaction never touches the deployments or their history, does
    not purge the ref of the previous branch, applies nothing live and does not reboot,
    whatever else is asked for and however it ends. (It may pull, which moves the ref of the
    branch.) *)
Theorem dry_run_leaves_deployments osname dflags opts mods fds custom agent unit write :
  vardict_lookup_boolean opts "dry-run" = Some true ∨
  vardict_lookup_boolean opts "download-only" = Some true ∨ Z.testbit dflags 9 = true →
  Forall harmless
    (execute (rpmostreed_transaction_new_deploy osname dflags opts mods fds) custom agent unit write).1.
Proof.
  intros Hopt. apply execute_trace; [constructor|by repeat constructor|]. intros p i u Hp Hi Hu.
  apply prepare_plan_from in Hp. constructor; [done|]. eapply keeps_run; [|exact Hu]. rewrite Hi.
  unfold stops_early. destruct (pf_dry_run _ _ _ _ Hp) as [-> _], (pf_download _ _ _ _ Hp) as [-> ->].
  destruct Hopt as [->|[->| ->]]; [done| |]; by rewrite !orb_true_r.
Qed.

(** C33: the deploy transaction purges the ref of the previous branch, applies live or
    reboots only after it has created the new deployment, however it ends. *)
Theorem activation_after_creation osname dflags opts mods fds custom agent unit write :
  after_creation
    (execute (rpmostreed_transaction_new_deploy osname dflags opts mods fds) custom agent unit write).1.
Proof.
  apply execute_trace.
  - by apply after_creation_quiet.
  - apply after_creation_quiet. constructor; [by intros []|done].
  - intros p i u Hp Hi Hu. apply prepare_plan_from in Hp. apply (after_creation_app [_]).
    + constructor; [by intros []|done].
    + right. eapply ordered_run; [|exact Hu]. rewrite Hi. apply (pf_dry_run _ _ _ _ Hp).
Qed.
End execute.

(** * What a deployment is asked for *)

(** The override steps leave the layered packages alone. *)
Definition same_layers (t t' : Treefile) : Prop :=
  packages t' = packages t ∧ packages_local t' = packages_local t ∧
  packages_local_fileoverride t' = packages_local_fileoverride t.
#[global] Instance same_layers_preorder : PreOrder same_layers.
Proof. split; [done|]. intros ? ? ? (? & ? & ?) (? & ? & ?). repeat split; congruence. Qed.

(** Layered packages stay layered. *)
Definition layers_more (t t' : Treefile) : Prop := ∀ p, layered t p = true → layered t' p = true.
#[global] Instance layers_more_preorder : PreOrder layers_more.
Proof. split; [by intros ? ?|]. intros t1 t2 t3 H1 H2 p ?. by apply H2, H1. Qed.

Lemma same_layers_more t t' : same_layers t t' → layers_more t t'.
Proof.
  intros (H1 & H2 & H3) p. unfold layered, has_package, has_local_package, has_local_fileoverride_package.
  by rewrite H1, H2, H3.
Qed.

Lemma layered_cases t p : layered t p = true ↔
  asks t (RPackage p) ∨ (∃ s, asks t (RLocal p s)) ∨ ∃ s, asks t (RFileOverride p s).
Proof.
  unfold layered. rewrite !orb_true_iff, has_package_asks. simpl.
  unfold has_local_package, has_local_fileoverride_package. rewrite !contains_key_dom. tauto.
Qed.

Lemma add_sha256_nevra_grows validate m pkgs c m' : add_sha256_nevra_to_map validate m pkgs = Ok (c, m') →
  ∀ k, is_Some (m !! k) → is_Some (m' !! k).
Proof.
  revert m c. induction pkgs as [|pkg pkgs IH]; intros m c; simpl; [by intros [= _ <-]|].
  intros ([nevra sha] & _ & ([c' m1] & H1 & [= _ <-])%bind_ok)%bind_ok k Hk. eapply IH; [done|].
  destruct (decide (nevra = k)) as [->|?]; [rewrite lookup_insert_eq; eauto|by rewrite lookup_insert_ne].
Qed.

Lemma add_local_layers validate pkgs ae t c t' :
  add_local_packages validate pkgs ae t = Ok (c, t') → packages t' = packages t ∧ layers_more t t'.
Proof.
  unfold add_local_packages. intros (l & _ & ([c' m] & Hm & [= _ <-])%bind_ok)%bind_ok. split; [done|].
  intros p. rewrite !layered_cases. simpl. intros [?|[[s Hs]|?]]; [auto| |auto].
  right. left. eapply add_sha256_nevra_grows; [done|eauto].
Qed.

Lemma add_fileoverride_layers validate pkgs ae t c t' :
  add_local_fileoverride_packages validate pkgs ae t = Ok (c, t') → packages t' = packages t ∧ layers_more t t'.
Proof.
  unfold add_local_fileoverride_packages. intros (l & _ & ([c' m] & Hm & [= _ <-])%bind_ok)%bind_ok.
  split; [done|]. intros p. rewrite !layered_cases. simpl. intros [?|[?|[s Hs]]]; [auto|auto|].
  right. right. eapply add_sha256_nevra_grows; [done|eauto].
Qed.

Lemma merge_layers dest src : layers_more dest (treefile_merge dest src).
Proof.
  intros p. rewrite !layered_cases. unfold treefile_merge. simpl.
  unfold merge_hashset_field, merge_map_field. intros [Hp|[[s Hs]|[s Hs]]].
  - left. destruct (packages src), (packages dest); simpl in *; set_solver.
  - right. left. destruct (packages_local src), (packages_local dest); simpl in *; eauto;
      [|by apply lookup_empty_Some in Hs]. exists s. apply lookup_union_Some_raw. eauto.
  - right. right. destruct (packages_local_fileoverride src), (packages_local_fileoverride dest); simpl in *; eauto;
      [|by apply lookup_empty_Some in Hs]. exists s. apply lookup_union_Some_raw. eauto.
Qed.

Lemma add_override_remove_layers pkgs t t' : add_packages_override_remove pkgs t = Ok t' →
  same_layers t t' ∧ ∀ p, p ∈ pkgs ∨ asks t (RRemove p) → asks t' (RRemove p).
Proof.
  revert t. induction pkgs as [|pkg pkgs IH]; intros t; cbn [add_packages_override_remove].
  { intros [= <-]. split; [done|]. by intros p [?%elem_of_nil|?]. }
  destruct (has_override t pkg); [done|]. intros (_ & _ & Hr)%bind_ok. apply IH in Hr as [Hl Hp].
  split; [etrans; [|done]; done|]. intros p Hp'. apply Hp. simpl in *. rewrite elem_of_cons in Hp'.
  set_solver.
Qed.

Lemma add_override_replace_layers validate pkgs t t' :
  add_packages_override_replace_local validate pkgs t = Ok t' → same_layers t t'.
Proof.
  revert t. induction pkgs as [|pkg pkgs IH]; intros t; cbn [add_packages_override_replace_local];
    [by intros [= <-]|].
  intros ([nevra sha] & _ & Hr)%bind_ok. destruct (has_override t nevra); [done|].
  apply bind_ok in Hr as (_ & _ & Hr%IH). etrans; [|done]. done.
Qed.

Lemma remove_override_layers p t :
  same_layers t (rpmostree_origin_remove_override_remove p t).2 ∧
  same_layers t (rpmostree_origin_remove_override_replace_local p t).2 ∧
  same_layers t (rpmostree_origin_remove_override_replace p t).2.
Proof.
  split_and!; [done..|]. unfold rpmostree_origin_remove_override_replace, remove_package_override_replace.
  destruct (override_replace t); [|done]. by destruct (remove_from_first _ _).
Qed.

Section honoured.
Context `{KeyFileSyntax} {Sack : Type} (sops : SackOps Sack) (ops : UpgraderOps Sack) (tops : DeployOps Sack)
  (validate_checksum : string → outcome unit) (hy_split_nevra : string → option split_nevra)
  (ostree_parse_refspec : string → outcome (option string * string)) (type_mismatch : string)
  (hash_order : list string → list string)
  (is_image_reference is_digest_reference : string → bool)
  (parse_json : string → outcome Treefile) (get_checksum : Treefile → outcome string)
  (revision_override : Refspec → bool → string → outcome origin_update).

Local Abbreviation nothing := (λ _ : tevent, True).
Local Abbreviation anything := (λ _ : Upgrader Sack, True).

(** The value of a program, whatever its state and effects. *)
Definition yields {A} (m : prog tevent (Upgrader Sack) A) (Q : A → Prop) : Prop :=
  triple anything m nothing (λ a _, Q a).

Lemma yields_any {A} (m : prog tevent (Upgrader Sack) A) : yields m (λ _, True).
Proof. intros s _. split; [|done]. apply Forall_true. done. Qed.

Lemma triple_bind_yields {A B} (m : prog tevent (Upgrader Sack) A) (f : A → prog tevent (Upgrader Sack) B) R Q :
  yields m R → (∀ a, R a → triple anything (f a) nothing Q) → triple anything (m ≫= f) nothing Q.
Proof.
  intros Hm Hf. eapply triple_bind; [exact Hm|]. intros a s Ha. by apply Hf.
Qed.

Lemma yields_bind {A B} (m : prog tevent (Upgrader Sack) A) (f : A → prog tevent (Upgrader Sack) B) R Q :
  yields m R → (∀ a, R a → yields (f a) Q) → yields (m ≫= f) Q.
Proof. apply triple_bind_yields. Qed.

Lemma yields_ret {A} (a : A) Q : Q a → yields (mret a) Q.
Proof. intros Ha. by apply triple_ret. Qed.

Lemma yields_lift {A} (m : outcome A) Q : (∀ a, m = Ok a → Q a) → yields (lift m) Q.
Proof. intros Hm. apply triple_lift. auto. Qed.

Lemma yields_lift_ok {A} (m : outcome A) : yields (lift m) (λ a, m = Ok a).
Proof. by apply yields_lift. Qed.

Lemma and_changed_ok {O} (m : option bool → outcome (option bool * O)) c r :
  and_changed m c = Ok r → ∃ c', m (Some c) = Ok (c', r.2).
Proof. unfold and_changed. intros ([c' o] & Hm & [= <-])%bind_ok. eauto. Qed.

Lemma accumulate_ok out m c o : accumulate out m = Ok (c, o) → ∃ b, m = Ok (b, o).
Proof. unfold accumulate. intros ([b o'] & Hm & [= _ <-])%bind_ok. eauto. Qed.

Lemma uninstall_layers no_layering idempotent pkgs o c o' :
  uninstall_packages hy_split_nevra no_layering idempotent pkgs o = Ok (c, o') →
  ∀ p, no_layering = true ∨ p ∈ default [] pkgs → ¬ asks o' (RPackage p).
Proof.
  unfold uninstall_packages. destruct no_layering.
  - intros [= _ <-] p _. simpl. apply not_elem_of_empty.
  - intros (c' & Hr)%and_changed_ok p [?|Hp]; [done|]. apply accumulate_ok in Hr as (b & Hr).
    apply remove_packages_loop_spec in Hr as [(_ & _ & Hn & _) _]; [by apply Hn|done|done].
Qed.

Lemma install_layers skip allow_inactive idempotent pkgs changed o :
  yields (install_packages sops tops validate_checksum skip allow_inactive idempotent pkgs changed o)
    (λ '(_, (_, o')), (∀ p, p ∈ default [] pkgs → layered o' p = true) ∧
       ∀ p, asks o' (RPackage p) → asks o (RPackage p) ∨ p ∈ default [] pkgs).
Proof.
  unfold install_packages. destruct pkgs as [pkgs|].
  2: { apply yields_ret. split; [by intros ? ?%elem_of_nil|auto]. }
  eapply yields_bind; [apply yields_any|]. intros base _. eapply yields_bind.
  { apply yields_lift. intros r Hr. exact Hr. }
  intros [c o'] (c' & Hr)%and_changed_ok. apply yields_ret. simpl in *.
  apply accumulate_ok in Hr as (b & Hr). apply add_packages_asks in Hr as (Ha & _ & _). split.
  - intros p Hp. destruct (layered o p) eqn:El.
    + apply layered_cases in El. apply layered_cases. destruct El as [?|[[s ?]|[s ?]]].
      * left. apply Ha. by left.
      * right. left. exists s. apply Ha. by left.
      * right. right. exists s. apply Ha. by left.
    + apply layered_cases. left. apply Ha. right. eauto.
  - intros p Hp. apply (Ha (RPackage p)) in Hp as [?|(q & [= <-] & ? & _)]; auto.
Qed.

Lemma install_local_layers add idempotent fds changed o :
  (∀ pkgs ae out t c t', add pkgs ae out t = Ok (c, t') → packages t' = packages t ∧ layers_more t t') →
  yields (install_local tops add idempotent fds changed o)
    (λ '(_, o'), packages o' = packages o ∧ layers_more o o').
Proof.
  intros Hadd. unfold install_local. destruct fds as [fds|]; [|by apply yields_ret].
  eapply yields_bind; [apply yields_any|]. intros [|pkg pkgs] _; [by apply yields_ret|].
  apply yields_lift. intros [c o'] (c' & Hr)%and_changed_ok. eapply Hadd. exact Hr.
Qed.
Lemma reset_overrides_layers m pkgs o o' : reset_overrides m pkgs o = Ok o' → same_layers o o'.
Proof.
  revert o. induction pkgs as [|pkg pkgs IH]; intros o; [by intros [= <-]|]. cbn [reset_overrides].
  intros (o1 & H1 & H2%IH)%bind_ok. etrans; [|done]. clear IH H2. unfold reset_override in H1.
  pose proof (proj2 (proj2 (remove_override_layers pkg o))) as Ha.
  destruct (rpmostree_origin_remove_override_replace pkg o) as [[] oa]; simpl in Ha; [by injection H1 as <-|].
  apply bind_ok in H1 as ([name nevra] & _ & H1).
  pose proof (proj1 (remove_override_layers name oa)) as Hb.
  destruct (rpmostree_origin_remove_override_remove name oa) as [[] ob]; simpl in Hb.
  { injection H1 as <-. by etrans. }
  pose proof (proj1 (proj2 (remove_override_layers nevra ob))) as Hc.
  destruct (rpmostree_origin_remove_override_replace_local nevra ob) as [[] oc]; simpl in Hc; [|done].
  injection H1 as <-. etrans; [done|]. by etrans.
Qed.

Lemma drop_replaced_layers m pkgs o o' :
  drop_replaced validate_checksum hy_split_nevra m pkgs o = Ok o' → same_layers o o'.
Proof.
  revert o. induction pkgs as [|pkg pkgs IH]; intros o; [by intros [= <-]|]. cbn [drop_replaced].
  intros ([nevra sha] & _ & ([[[[name ?] ?] ?] ?] & _ & Hr%IH)%bind_ok)%bind_ok. etrans; [|exact Hr].
  destruct (m.1 !! name); [apply remove_override_layers|done].
Qed.

Lemma change_overrides_layers p o :
  yields (change_overrides tops validate_checksum hy_split_nevra p o) (λ '(_, o'), same_layers o o').
Proof.
  unfold change_overrides. destruct (dp_no_overrides p); [by apply yields_ret|].
  destruct (_ || _); [|by apply yields_ret].
  eapply yields_bind; [apply yields_any|]. intros self _.
  eapply yields_bind; [apply yields_any|]. intros [removed replaced] _.
  eapply yields_bind; [apply yields_any|]. intros m _.
  eapply yields_bind; [apply yields_lift_ok|]. intros o1 Ho1%reset_overrides_layers. destruct (dp_override_replace_local_pkgs p) as [fds|]; [|by apply yields_ret].
  eapply yields_bind; [apply yields_any|]. intros pkgs _. eapply yields_bind.
  { apply yields_lift_ok. }
  intros o2 (o3 & H3%drop_replaced_layers & H2)%bind_ok. apply yields_ret. etrans; [exact Ho1|].
  etrans; [exact H3|]. destruct pkgs; [by injection H2 as <-|]. by eapply add_override_replace_layers.
Qed.

(** The origin has what the plan asks for. Only a treefile of the client may ask for more,
    and for what is to be uninstalled. *)
Record honours (i : DeployInput) (o : RpmOstreeOrigin) : Prop := Honours {
  hn_installed : ∀ p, p ∈ default [] (dp_install_pkgs (di_plan i)) → layered o p = true;
  hn_uninstalled : ∀ p, dp_treefile (di_plan i) = None →
    dp_no_layering (di_plan i) = true ∨ p ∈ default [] (dp_uninstall_pkgs (di_plan i)) →
    p ∉ default [] (dp_install_pkgs (di_plan i)) → ¬ asks o (RPackage p);
}.

Lemma honours_more i o o' : layers_more o o' → packages o' = packages o → honours i o → honours i o'.
Proof.
  intros Hm Hp [H1 H2]. split; [auto|]. intros p ? ? ?. simpl. rewrite Hp. by apply (H2 p).
Qed.

Lemma honours_same i o o' : same_layers o o' → honours i o → honours i o'.
Proof. intros Hs. apply honours_more; [by apply same_layers_more|apply Hs]. Qed.

(** The origin [o] is the one the upgrader works on, as far as it can be copied. *)
Definition given (o : RpmOstreeOrigin) (u : Upgrader Sack) : Prop :=
  rpmostree_origin_dup validate_checksum o = Ok (u_original_origin u).
#[global] Instance given_request o : RequestInv (given o).
Proof. unfold given. intros u u' ? ? ? ?. congruence. Qed.

Lemma set_origin_given o :
  triple anything (up (rpmostree_sysroot_upgrader_set_origin validate_checksum o)) nothing (λ _, given o).
Proof.
  intros s _. unfold up, rpmostree_sysroot_upgrader_set_origin, given, lift, modify, mbind, prog_bind.
  destruct (rpmostree_origin_dup validate_checksum o) as [t| |]; simpl; [|by split..].
  destruct (rpmostree_origin_dup validate_checksum t) as [t'| |]; simpl; [|by split..].
  split; [done|]. by intros ? ? [= <- <-].
Qed.
Local Abbreviation compute := (compute_origin sops tops validate_checksum hy_split_nevra ostree_parse_refspec
  is_image_reference is_digest_reference parse_json get_checksum revision_override).

Lemma compute_origin_honours i :
  triple anything (compute i) nothing (λ ds u, honours i (ds_origin ds) ∧ given (ds_origin ds) u).
Proof.
  unfold compute_origin. cbv zeta. eapply triple_bind_yields; [apply yields_any|]. intros o0 _.
  eapply triple_bind_yields; [apply yields_any|]. intros refspec _.
  eapply triple_bind_yields; [apply yields_any|]. intros [old_refspec o1] _.
  eapply triple_bind_yields; [apply yields_any|]. intros o2 _.
  destruct (change_initramfs _ o2) as [changed o3], (change_cliwrap _ changed o3) as [changed1 o4].
  eapply triple_bind_yields; [apply yields_lift_ok|].
  intros [remove_changed o5] Hun. pose proof (uninstall_layers _ _ _ _ _ _ Hun) as Hgone. clear Hun. eapply triple_bind_yields; [apply yields_any|]. intros skip _.
  eapply triple_bind_yields; [apply install_layers|]. intros [base [changed2 o6]] [Hin1 Hin2].
  assert (honours i o6) as Ho6.
  { split; [done|]. intros p _ Hp Hn Ha%Hin2. destruct Ha; [by eapply Hgone|done]. }
  eapply triple_bind_yields.
  { apply install_local_layers. intros pkgs ae out t c t' (b & Hr)%accumulate_ok. by eapply add_local_layers. }
  intros [changed3 o7] [Hp7 Hl7]. eapply triple_bind_yields.
  { apply install_local_layers. intros pkgs ae out t c t' (b & Hr)%accumulate_ok.
    by eapply add_fileoverride_layers. }
  intros [changed4 o8] [Hp8 Hl8]. eapply triple_bind_yields; [apply change_overrides_layers|].
  intros [override_changed o9] Hs9.
  assert (honours i o9) as Ho9 by eauto using honours_same, honours_more.
  eapply (triple_bind_yields _ _ (λ '(_, o10), honours i o10)).
  { destruct (dp_treefile (di_plan i)) eqn:Et; [|by apply yields_ret].
    apply yields_lift. intros [c o10] (c' & Hr)%and_changed_ok. apply accumulate_ok in Hr as (b & Hr).
    unfold merge_treefile in Hr. apply bind_ok in Hr as (src & _ & Hr).
    apply bind_ok in Hr as (? & _ & Hr). apply bind_ok in Hr as (? & _ & Hr).
    simplify_eq/=. split; [intros p Hp; by apply merge_layers, Ho9|congruence]. }
  intros [changed5 o10] Ho10. eapply triple_bind; [apply set_origin_given|]. intros [].
  apply triple_ret. auto.
Qed.

Lemma remove_overridden_honours i base pkgs changed o : honours i o →
  triple (given o) (remove_overridden sops tops validate_checksum base pkgs changed o) nothing
    (λ '(_, o') u, honours i o' ∧ given o' u).
Proof.
  intros Ho. unfold remove_overridden. destruct pkgs as [pkgs|]; [|by apply triple_ret].
  apply (triple_conseq _ _ anything _ (λ '(_, o') u, honours i o' ∧ given o' u) nothing); [|done..].
  eapply triple_bind_yields; [apply yields_any|]. intros s _.
  eapply triple_bind_yields; [apply yields_any|]. intros names _. eapply triple_bind_yields.
  { apply yields_lift_ok. }
  intros o' [Hs _]%add_override_remove_layers. eapply triple_bind; [apply set_origin_given|]. intros []. apply triple_ret.
  intros u Hu. split; [by eapply honours_same|done].
Qed.

(** A deployment is created with the origin [o]. *)
Definition created_for (o : RpmOstreeOrigin) (e : tevent) : Prop :=
  ∀ e' kf, e = Up e' → origin_file e' = Some kf →
    ∃ t, rpmostree_origin_dup validate_checksum o = Ok t ∧ rpmostree_origin_dup_keyfile t = Ok kf.

Lemma harmless_created_for o e : harmless e → created_for o e.
Proof. intros He e' kf -> Hkf. by destruct e'. Qed.

Lemma keeps_write_new_deployment i ds changed o :
  keeps (created_for o) (given o)
    (write_new_deployment sops ops tops validate_checksum hy_split_nevra type_mismatch hash_order i ds changed).
Proof.
  unfold write_new_deployment, reboot, generate_update_variant, output_message.
  keeps_step; [by keeps_auto|]. keeps_step; [|by keeps_auto].
  eapply keeps_up; [apply (keeps_deploy _ _ _ _ _ _ (given o))|].
  intros e He e' kf [= <-] Hkf. destruct He as (u & Hu & Ho & _); [by destruct e|]. eauto.
Qed.

(** A deployment is created with an origin that has what was asked for. *)
Definition created_honouring (i : DeployInput) (e : tevent) : Prop :=
  harmless e ∨ ∃ o, honours i o ∧ created_for o e.

Lemma triple_harmless {A} i J (m : prog tevent (Upgrader Sack) A) Q :
  (∀ flags, keeps harmless (with_flags flags) m) → triple J m nothing Q → triple J m (created_honouring i) Q.
Proof.
  intros H1 H2 s Hs. destruct (H1 (u_flags s) s eq_refl) as [Htr _], (H2 s Hs) as [_ H2s].
  split; [|auto]. eapply Forall_impl; [exact Htr|]. by left.
Qed.

Lemma keeps_harmless {A} i J (m : prog tevent (Upgrader Sack) A) :
  keeps harmless J m → triple J m (created_honouring i) (λ _, J).
Proof. intros Hm. eapply keeps_mono; [exact Hm|]. by left. Qed.

Lemma triple_done {A} i o (m : prog tevent (Upgrader Sack) A) : honours i o →
  keeps (created_for o) (given o) m → triple (given o) m (created_honouring i) (λ _ _, True).
Proof. intros Ho Hm. eapply triple_conseq; [exact Hm|done| |done]. intros e He. right. by exists o. Qed.

Lemma keeps_created_for {A} o (m : prog tevent (Upgrader Sack) A) :
  keeps harmless (given o) m → keeps (created_for o) (given o) m.
Proof. intros Hm. eapply keeps_mono; [exact Hm|apply harmless_created_for]. Qed.

Lemma run_honours i u : Forall (created_honouring i)
  (deploy_transaction_run sops ops tops validate_checksum hy_split_nevra ostree_parse_refspec type_mismatch
     hash_order is_image_reference is_digest_reference parse_json get_checksum revision_override i u).1.
Proof.
  match goal with |- Forall _ (?run u).1 =>
    enough (triple anything run (created_honouring i) (λ _ _, True)) as Ht by (by apply Ht) end.
  unfold deploy_transaction_run. cbv zeta.
  eapply triple_bind; [apply triple_harmless; [intros; by keeps_auto|apply yields_any]|]. intros [].
  eapply triple_bind; [apply triple_harmless; [intros; apply keeps_compute_origin|]|].
  { eapply triple_conseq; [apply (compute_origin_honours i)|done|done|]. intros ? ? Hx. exact Hx. }
  intros ds. cbv beta. apply triple_and_fact. intros Hds.
  eapply triple_bind; [apply keeps_harmless, keeps_pull_new_base; apply _|]. intros changed.
  eapply triple_bind; [apply triple_harmless; [intros; apply keeps_remove_overridden|]|].
  { by apply remove_overridden_honours. }
  intros [changed' o]. apply triple_and_fact. intros Ho. apply triple_done; [done|].
  keeps_step; [by apply keeps_lift|]. keeps_step; [apply keeps_created_for; by keeps_auto|].
  keeps_step; [apply keeps_created_for; by keeps_auto|]. keeps_step.
  keeps_step; [apply keeps_created_for; unfold no_upgrade_message; by keeps_auto|].
  keeps_step; [apply keeps_ret|].
  keeps_step; [apply keeps_created_for; by keeps_auto|].
  keeps_step; [apply keeps_created_for; by keeps_auto|].
  keeps_step; [apply keeps_write_new_deployment|apply keeps_created_for; by keeps_auto].
Qed.
End honoured.

Section honoured_by.
Context `{KeyFileSyntax} {Sack : Type} (sops : SackOps Sack) (ops : UpgraderOps Sack) (tops : DeployOps Sack)
  (validate_checksum : string → outcome unit) (hy_split_nevra : string → option split_nevra)
  (ostree_parse_refspec : string → outcome (option string * string)) (type_mismatch : string)
  (hash_order : list string → list string)
  (is_image_reference is_digest_reference : string → bool)
  (parse_json : string → outcome Treefile) (get_checksum : Treefile → outcome string)
  (revision_override : Refspec → bool → string → outcome origin_update).

Local Abbreviation execute := (deploy_transaction_execute sops ops tops validate_checksum hy_split_nevra
  ostree_parse_refspec type_mismatch hash_order is_image_reference is_digest_reference parse_json
  get_checksum revision_override).
Local Abbreviation strv mods key := (default [] (vardict_lookup_strv_canonical mods key)).

Lemma copied_asks o t kf : plain_treefile validate_checksum o = true →
  rpmostree_origin_dup validate_checksum o = Ok t → rpmostree_origin_dup_keyfile t = Ok kf →
  ∃ t', origin_to_treefile_inner validate_checksum kf = Ok t' ∧ ∀ r, asks t' r ↔ asks o r.
Proof.
  intros Hp Ht Hkf. rewrite (origin_dup_recorded _ _ Hp) in Ht. injection Ht as <-.
  pose proof (roundtrip_ok validate_checksum _ (plain_recorded _ _ Hp)) as (kf' & E1 & E2)%bind_ok.
  unfold rpmostree_origin_dup_keyfile in Hkf. rewrite E1 in Hkf. injection Hkf as <-.
  eexists. split; [exact E2|]. intros r. by rewrite !asks_recorded.
Qed.

End honoured_by.

(** * Witnesses *)

#[local] Existing Instance plain_syntax.

Definition ex_tops : DeployOps (list SackPackage) :=
  MkDeployOps (Done tt) (Done tt) (λ _, Done "c2"%string) (λ _, Done tt) (Done true)
    (λ _, Done [MkSackPackage "vim" "vim-9-1.x86_64" "@System"]) (Done tt) (Done tt)
    (λ _, Done ("c2"%string, "foo-1-1.x86_64"%string)) (Done tt) (λ _, Done ([], [])) (Done tt) (λ _ _, Done tt)
    (Done tt) (Done tt) (λ _ _ _, Done true) (Done tt) (λ _, Done tt) (Done tt) (Ok (Some [])).
Definition ex_execute (opts mods : vardict) : list tevent * outcome unit :=
  deploy_transaction_execute ex_sack_ops ex_ops ex_tops ex_validate split_example ex_parse_refspec "" id
    (λ _, false) (λ _, false) (λ _, glnx_throw "") (λ _, Ok ""%string)
    (λ _ _ _, glnx_throw "") (rpmostreed_transaction_new_deploy "fedora" 0 opts mods None)
    None None None (Ok tt).
Definition ex_install : vardict :=
  <["install-packages" := VStrv ["nano"%string]]> {["uninstall-packages" := VStrv ["htop"%string]]}.

Lemma dry_run_leaves_deployments_witness :
  is_ok (ex_execute {["dry-run" := VBool true]} ex_install).2 = true ∧
  Forall harmless (ex_execute {["dry-run" := VBool true]} ex_install).1.
Proof.
  split; [vm_compute; reflexivity|].
  apply (dry_run_leaves_deployments ex_sack_ops ex_ops ex_tops ex_validate split_example ex_parse_refspec "" id
    (λ _, false) (λ _, false) (λ _, glnx_throw "") (λ _, Ok ""%string) (λ _ _ _, glnx_throw "") "fedora" 0
    {["dry-run" := VBool true]} ex_install None None None None (Ok tt)).
  left. vm_compute. reflexivity.
Defined.

Definition ex_created : uevent :=
  match filter (λ e, bool_decide (match e with Up (StagedTree _ _ _ _ _) => true | _ => false end = true))
          (ex_execute ∅ ex_install).1 with
  | Up e :: _ => e
  | _ => SanityChecked
  end.
Definition ex_origin_file : KeyFile := default ∅ (origin_file ex_created).


(** * The base of a removal override *)

(** Here the package "old" is in the present base c1 and no longer in the new base c2. *)
Definition ex_tops_moving : DeployOps (list SackPackage) :=
  MkDeployOps (Done tt) (Done tt) (λ _, Done "c2"%string) (λ _, Done tt) (Done true)
    (λ rev, Done (if bool_decide (rev = "c1"%string) then [MkSackPackage "old" "old-1-1.x86_64" "@System"] else []))
    (Done tt) (Done tt) (λ _, Done ("c2"%string, "foo-1-1.x86_64"%string)) (Done tt) (λ _, Done ([], []))
    (Done tt) (λ _ _, Done tt) (Done tt) (Done tt) (λ _ _ _, Done true) (Done tt) (λ _, Done tt) (Done tt)
    (Ok (Some [])).
Definition ex_moving (mods : vardict) : outcome unit :=
  (deploy_transaction_execute ex_sack_ops ex_ops ex_tops_moving ex_validate split_example ex_parse_refspec "" id
    (λ _, false) (λ _, false) (λ _, glnx_throw "") (λ _, Ok ""%string)
    (λ _ _ _, glnx_throw "") (rpmostreed_transaction_new_deploy "fedora" 0 ∅ mods None)
    None None None (Ok tt)).2.

(** A package to remove is looked up in the new base, but in the old one when the same call
    installs something: the package that is gone is refused or accepted accordingly. *)
Lemma override_checked_against_old_base :
  ex_moving {["override-remove-packages" := VStrv ["old"%string]]}
  = glnx_throw ("Package " +:+ dquote +:+ "old" +:+ dquote +:+ " not found") ∧
  ex_moving (<["install-packages" := VStrv ["nano"%string]]>
              {["override-remove-packages" := VStrv ["old"%string]]}) = Ok tt.
Proof. split; vm_compute; reflexivity. Qed.
