(* ===== verification/Transactions.v ===== *)
(** The transactions besides deploy, rollback and cleanup, from
    [src/daemon/rpmostreed-transaction-types.cxx] and
    [src/daemon/rpmostreed-transaction-applylive.cxx]: package diff, initramfs, refresh-md,
    yum repositories, finalize-deployment, kernel arguments and apply-live. *)

From S2P Require Import Prelude Vardict Nevra RpmHeaders Deploy SysrootCore Refspec Origin OriginFile OriginApi Upgrader DeployRun.

(** ** The driver of updates *)

Definition RPMOSTREE_DRIVER_STATE : string := "/run/rpm-ostree/update-driver.gv".
Definition RPMOSTREE_DRIVER_NAME : string := "driver-name".
Definition RPMOSTREE_DRIVER_SD_UNIT : string := "driver-sd-unit".

(** The results of opening the file and of reading it; an absent file is no error. *)
Definition get_driver_g_variant (openat : result unit) (readall : result vardict) : outcome (option vardict) :=
  match openat with
  | Failed e => if bool_decide (err_code e = G_IO_ERROR_NOT_FOUND) then Ok None else Err e
  | Done _ => dict ← returned readall; Ok (Some dict)
  end.
(** The name and the unit, if there is a driver. *)
Definition get_driver_info (openat : result unit) (readall : result vardict) :
    outcome (option (string * string)) :=
  driver_info ← get_driver_g_variant openat readall;
  match driver_info with
  | None => Ok None
  | Some dict =>
      match vardict_lookup_string dict RPMOSTREE_DRIVER_NAME with
      | None => glnx_throw ("could not find update driver name in " +:+ RPMOSTREE_DRIVER_STATE)
      | Some name =>
          match vardict_lookup_string dict RPMOSTREE_DRIVER_SD_UNIT with
          | None => glnx_throw ("could not find update driver systemd unit in " +:+ RPMOSTREE_DRIVER_STATE)
          | Some sd_unit => Ok (Some (name, sd_unit))
          end
      end
  end.
(** What [record_driver_info] writes. *)
Definition driver_info_dict (update_driver sd_unit : string) : vardict :=
  <[RPMOSTREE_DRIVER_SD_UNIT := VString sd_unit]> {[RPMOSTREE_DRIVER_NAME := VString update_driver]}.

Lemma driver_info_roundtrip update_driver sd_unit :
  get_driver_info (Done tt) (Done (driver_info_dict update_driver sd_unit)) = Ok (Some (update_driver, sd_unit)).
Proof.
  unfold get_driver_info, get_driver_g_variant, driver_info_dict, vardict_lookup_string. simpl.
  by rewrite lookup_insert_ne, lookup_singleton_eq, lookup_insert_eq by done.
Qed.

(** ** Kernel arguments *)

(** [OstreeKernelArgs]. *)
Record KernelArgsOps {K : Type} := MkKernelArgsOps {
  kargs_from_string : string → K;
  kargs_to_strv : K → list string;
  kargs_delete : K → string → result K;
  kargs_new_replace : K → string → result K;
  kargs_append_argv : K → list string → K;
  kargs_append : K → string → K;
}.
Arguments KernelArgsOps : clear implicits.
Arguments MkKernelArgsOps {_}.

(** The calls of these transactions. *)
Record OtherOps := MkOtherOps {
  xo_get_repo : result unit;
  xo_context_setup : bool → result unit;
  xo_filelists_exist : bool;
  xo_download_filelists : option string;
  xo_repos : list string;
  xo_repo_set_data : string → string → string → result unit;
  xo_repo_commit : string → result unit;
  xo_layeredmeta : Deployment → result DeploymentLayeredMeta;
  xo_container_image_digest : string → option string;
  xo_is_finalization_locked : Deployment → bool;
  xo_change_finalization : Deployment → result unit;
  xo_bump_mtime : result unit;
}.

Record InitramfsEtcTransaction := MkInitramfsEtc {
  ie_osname : string;
  ie_track : option (list string);
  ie_untrack : option (list string);
  ie_untrack_all : bool;
  ie_force_sync : bool;
  ie_options : vardict;
}.
Record InitramfsStateTransaction := MkInitramfsState {
  is_osname : string;
  is_regenerate : bool;
  is_args : option (list string);
  is_options : vardict;
}.
Record KernelArgTransaction := MkKernelArg {
  ka_osname : string;
  ka_existing : string;
  ka_added : option (list string);
  ka_replaced : option (list string);
  ka_deleted : option (list string);
  ka_options : vardict;
}.
Record PackageDiffTransaction := MkPackageDiff {
  pd_osname : string;
  pd_refspec : option string;
  pd_revision : option string;
}.
Record ModifyYumRepoTransaction := MkModifyYumRepo {
  my_repo_id : string;
  my_settings : list (string * string);
}.
Record FinalizeDeploymentTransaction := MkFinalizeDeployment {
  fd_osname : string;
  fd_options : vardict;
}.

(** An empty array is NULL. *)
Definition strdupv_canonicalize (strv : option (list string)) : option (list string) :=
  match strv with Some (_ :: _) => strv | _ => None end.
Definition rpmostreed_transaction_new_kernel_arg (osname existing : string)
    (added replaced deleted : option (list string)) (options : vardict) : KernelArgTransaction :=
  MkKernelArg osname existing (strdupv_canonicalize added) (strdupv_canonicalize replaced)
    (strdupv_canonicalize deleted) options.

Definition RPMOSTREE_TRANSACTION_REFRESH_MD_FLAG_FORCE : Z := Z.shiftl 1 0.

Section transactions.
Context `{KeyFileSyntax} {Sack K : Type} (sops : SackOps Sack) (ops : UpgraderOps Sack) (tops : DeployOps Sack)
  (xops : OtherOps) (kops : KernelArgsOps K)
  (validate_checksum : string → outcome unit) (hy_split_nevra : string → option split_nevra)
  (ostree_parse_refspec : string → outcome (option string * string)) (type_mismatch : string)
  (hash_order : list string → list string)
  (is_image_reference is_digest_reference : string → bool)
  (revision_override : Refspec → bool → string → outcome origin_update)
  (agent sd_unit : option string).

Local Abbreviation T := (prog tevent (Upgrader Sack)).
Local Abbreviation deploy :=
  (up (rpmostree_sysroot_upgrader_deploy sops ops validate_checksum hy_split_nevra type_mismatch hash_order)).
Local Abbreviation with_upgrader := (with_upgrader ops validate_checksum type_mismatch).

Definition lock_finalization (options : vardict) : Z :=
  if vardict_lookup_bool options "lock-finalization" false
  then RPMOSTREE_SYSROOT_UPGRADER_FLAGS_LOCK_FINALIZATION else 0.
Definition set_caller_info (options : vardict) : T unit :=
  up (rpmostree_sysroot_upgrader_set_caller_info
        (vardict_lookup_string options "initiating-command-line") agent sd_unit).
Definition reboot_if_asked (options : vardict) : T unit :=
  when (vardict_lookup_bool options "reboot" false) (reboot tops).

(** ** Files of /etc in the initramfs *)

(** The flag [changed] and the origin. *)
Definition change_etc_files (self : InitramfsEtcTransaction) (o : RpmOstreeOrigin) : bool * RpmOstreeOrigin :=
  let '(changed, o) :=
    if ie_untrack_all self then rpmostree_origin_initramfs_etc_files_untrack_all o
    else match ie_untrack self with
         | Some files => rpmostree_origin_initramfs_etc_files_untrack files o
         | None => (false, o)
         end in
  match ie_track self with
  | Some files => let '(c, o) := rpmostree_origin_initramfs_etc_files_track files o in (c || changed, o)
  | None => (changed, o)
  end.

Fixpoint check_etc_files (files : list string) : outcome unit :=
  match files with
  | [] => Ok tt
  | file :: files =>
      _ ← throw_if (negb (String.prefix "/etc/" file)) ("Path outside /etc forbidden: " +:+ file);
      check_etc_files files
  end.

Definition initramfs_etc_transaction_run (self : InitramfsEtcTransaction) : T unit :=
  _ ← set_caller_info (ie_options self);
  o ← up (rpmostree_sysroot_upgrader_dup_origin validate_checksum);
  let '(changed, o) := change_etc_files self o in
  if negb changed && negb (ie_force_sync self) then output_message "No changes."
  else
    _ ← lift (check_etc_files (rpmostree_origin_get_initramfs_etc_files o));
    _ ← up (rpmostree_sysroot_upgrader_set_origin validate_checksum o);
    _ ← deploy;
    reboot_if_asked (ie_options self).
Definition initramfs_etc_transaction_execute (self : InitramfsEtcTransaction) : list tevent * outcome unit :=
  with_upgrader (ie_osname self) (lock_finalization (ie_options self)) (initramfs_etc_transaction_run self).

(** ** Regeneration of the initramfs *)

Definition initramfs_state_transaction_run (self : InitramfsStateTransaction) : T unit :=
  o ← up (rpmostree_sysroot_upgrader_dup_origin validate_checksum);
  let current_regenerate := rpmostree_origin_get_regenerate_initramfs o in
  let args := default [] (is_args self) in
  if bool_decide (current_regenerate = is_regenerate self)
     && bool_decide (rpmostree_origin_get_initramfs_args o = []) && bool_decide (args = []) then
    lift (glnx_throw ("initramfs regeneration state is already " +:+
                      (if current_regenerate then "enabled" else "disabled")))
  else
    let o := rpmostree_origin_set_regenerate_initramfs (is_regenerate self) args o in
    _ ← up (rpmostree_sysroot_upgrader_set_origin validate_checksum o);
    _ ← set_caller_info (is_options self);
    _ ← deploy;
    reboot_if_asked (is_options self).
Definition initramfs_state_transaction_execute (self : InitramfsStateTransaction) :
    list tevent * outcome unit :=
  with_upgrader (is_osname self) (lock_finalization (is_options self)) (initramfs_state_transaction_run self).

(** ** Kernel arguments *)

Definition kernel_arg_apply (self : KernelArgTransaction) (kargs : K) (changed : bool) : T unit :=
  if negb changed then output_message "No changes."
  else
    _ ← up (rpmostree_sysroot_upgrader_set_kargs (Some (kargs_to_strv kops kargs)));
    _ ← deploy;
    reboot_if_asked (ka_options self).

Definition kernel_arg_apply_final_str (self : KernelArgTransaction) (final_kernel_args : string) : T unit :=
  let changed := negb (bool_decide (ka_existing self = final_kernel_args)) in
  kernel_arg_apply self (kargs_from_string kops final_kernel_args) changed.

(** A loop that fails at the first argument that fails. *)
Fixpoint each_arg (f : K → string → result K) (args : list string) (kargs : K) : result K :=
  match args with
  | [] => Done kargs
  | arg :: args => match f kargs arg with Done kargs => each_arg f args kargs | Failed e => Failed e end
  end.
(** [changed] and the arguments after the two conditional loops; the second looks at the
    arguments the transaction started from. *)
Definition append_if_missing (s : bool * K) (arg : string) : bool * K :=
  if bool_decide (arg ∈ kargs_to_strv kops s.2) then s else (true, kargs_append kops s.2 arg).
Fixpoint delete_if_present (existing : list string) (args : list string) (s : bool * K) : result (bool * K) :=
  match args with
  | [] => Done s
  | arg :: args =>
      if bool_decide (arg ∈ existing) then
        match kargs_delete kops s.2 arg with
        | Done kargs => delete_if_present existing args (true, kargs)
        | Failed e => Failed e
        end
      else delete_if_present existing args s
  end.

(** [changed] and the patched arguments. *)
Definition patch_kargs (self : KernelArgTransaction) (kargs : K) : outcome (bool * K) :=
  let strv key := default [] (vardict_lookup_strv_canonical (ka_options self) key) in
  let existing := kargs_to_strv kops (kargs_from_string kops (ka_existing self)) in
  kargs ← returned (each_arg (kargs_delete kops) (default [] (ka_deleted self)) kargs);
  kargs ← returned (each_arg (kargs_new_replace kops) (default [] (ka_replaced self)) kargs);
  let changed := negb (bool_decide (default [] (ka_deleted self) = []))
                 || negb (bool_decide (default [] (ka_replaced self) = [])) in
  let s := match ka_added self with
           | Some added => (true, kargs_append_argv kops kargs added)
           | None => (changed, kargs)
           end in
  returned (delete_if_present existing (strv "delete-if-present"%string)
              (foldl append_if_missing s (strv "append-if-missing"%string))).
Definition kernel_arg_apply_patching (self : KernelArgTransaction) (kargs : K) : T unit :=
  '(changed, kargs) ← lift (patch_kargs self kargs);
  kernel_arg_apply self kargs changed.

Definition kernel_arg_transaction_run (self : KernelArgTransaction) : T unit :=
  _ ← set_caller_info (ka_options self);
  match vardict_lookup_string (ka_options self) "final-kernel-args" with
  | Some final_kernel_args => kernel_arg_apply_final_str self final_kernel_args
  | None => kernel_arg_apply_patching self (kargs_from_string kops (ka_existing self))
  end.
Definition kernel_arg_transaction_execute (self : KernelArgTransaction) : list tevent * outcome unit :=
  with_upgrader (ka_osname self)
    (Z.lor RPMOSTREE_SYSROOT_UPGRADER_FLAGS_SYNTHETIC_PULL
       (Z.lor RPMOSTREE_SYSROOT_UPGRADER_FLAGS_PKGCACHE_ONLY (lock_finalization (ka_options self))))
    (kernel_arg_transaction_run self).

(** ** Package diff *)

Definition package_diff_transaction_run (self : PackageDiffTransaction) : T unit :=
  o ← up (rpmostree_sysroot_upgrader_dup_origin validate_checksum);
  _ ← call (xo_get_repo xops);
  let upgrading := negb (nonnull (pd_refspec self)) && negb (nonnull (pd_revision self)) in
  '(_, o) ← lift (rebase_origin validate_checksum ostree_parse_refspec is_image_reference
                    is_digest_reference None (pd_refspec self) o);
  o ← lift (match pd_revision self with
            | Some _ => override_revision validate_checksum is_image_reference revision_override false
                          (pd_revision self) o
            | None => Ok (if upgrading then rpmostree_origin_set_override_commit None o else o)
            end);
  _ ← up (rpmostree_sysroot_upgrader_set_origin validate_checksum o);
  _ ← match pd_refspec self with
      | Some refspec => output_message ("Updating from: " +:+ refspec)
      | None => mret tt
      end;
  changed ← up (rpmostree_sysroot_upgrader_pull_base ops validate_checksum ostree_parse_refspec
                  (Some "/usr/share/rpm"%string) 0);
  _ ← when (negb changed)
        (output_message (if upgrading then "No upgrade available."%string else "No change."%string));
  when upgrading (generate_update_variant tops (op_booted ops) None false).
Definition package_diff_transaction_execute (self : PackageDiffTransaction) : list tevent * outcome unit :=
  with_upgrader (pd_osname self)
    (if nonnull (pd_revision self) || nonnull (pd_refspec self)
     then RPMOSTREE_SYSROOT_UPGRADER_FLAGS_ALLOW_OLDER else 0)
    (package_diff_transaction_run self).

(** ** Metadata and yum repositories *)

(** [tolower] changes the environment variable in place, which no later call can tell. *)
Definition refresh_md_transaction_execute (flags : Z) : prog tevent unit unit :=
  _ ← call (xo_context_setup xops true);
  let refetch := flag_set flags RPMOSTREE_TRANSACTION_REFRESH_MD_FLAG_FORCE in
  let download_filelists :=
    match xo_download_filelists xops with Some v => to_ascii_lowercase v | None => "false"%string end in
  let sack_flags :=
    if xo_filelists_exist xops || bool_decide (download_filelists = "true"%string) then [SKIP_RPMDB]
    else [SKIP_RPMDB; SKIP_FILELISTS] in
  performs (MetadataDownloaded refetch sack_flags) (to_download_metadata tops refetch sack_flags).

Definition get_dnf_repo_by_id (repo_id : string) : option string :=
  find (λ id, bool_decide (id = repo_id)) (xo_repos xops).

Fixpoint set_repo_parameters (repo : string) (settings : list (string * string)) : prog tevent unit unit :=
  match settings with
  | [] => mret tt
  | (parameter, value) :: settings =>
      _ ← lift (throw_if (negb (bool_decide (parameter = "enabled"%string)))
                  ("Changing '" +:+ parameter +:+ "' not allowed in yum .repo files"));
      _ ← lift (throw_if (negb (bool_decide (value = "0"%string)) && negb (bool_decide (value = "1"%string)))
                  ("Only '0' and '1' are allowed for the '" +:+ parameter +:+ "' key"));
      _ ← performs (RepoParameterSet repo parameter value) (xo_repo_set_data xops repo parameter value);
      set_repo_parameters repo settings
  end.
Definition modify_yum_repo_transaction_execute (self : ModifyYumRepoTransaction) : prog tevent unit unit :=
  _ ← call (xo_context_setup xops false);
  match get_dnf_repo_by_id (my_repo_id self) with
  | None => lift (glnx_throw ("Yum repo '" +:+ my_repo_id self +:+ "' not found"))
  | Some repo =>
      _ ← set_repo_parameters repo (my_settings self);
      performs (RepoFileCommitted repo) (xo_repo_commit xops repo)
  end.

(** ** Finalizing a staged deployment *)

Definition check_expected_checksum (options : vardict) (checksum : string) : outcome unit :=
  match vardict_lookup_string options "checksum" with
  | None => throw_if (negb (vardict_lookup_bool options "allow-missing-checksum" false)) "Missing expected checksum"
  | Some expected =>
      throw_if (negb (bool_decide (checksum = expected)))
        ("Expected staged base checksum " +:+ expected +:+ ", but found " +:+ checksum)
  end.

Definition finalize_deployment_transaction_execute (self : FinalizeDeploymentTransaction) :
    prog tevent unit unit :=
  match op_deployments ops with
  | [] => lift (glnx_throw "No deployments found")
  | d :: _ =>
      _ ← lift (throw_if (negb (d_staged d)) "No pending staged deployment found");
      _ ← lift (throw_if (negb (bool_decide (d_osname d = fd_osname self)))
                  ("Staged deployment is not for osname '" +:+ fd_osname self +:+ "'"));
      layeredmeta ← call (xo_layeredmeta xops d);
      let checksum := default (base_commit layeredmeta)
                        (xo_container_image_digest xops (base_commit layeredmeta)) in
      _ ← lift (check_expected_checksum (fd_options self) checksum);
      _ ← lift (check_sd_inhibitor_locks (to_inhibitors tops));
      _ ← (if xo_is_finalization_locked xops d then
             on_error "Failed to unlock finalization of staged deployment"
               (performs (FinalizationUnlocked d) (xo_change_finalization xops d))
           else
             lift (throw_if (negb (vardict_lookup_bool (fd_options self) "allow-unlocked" false))
                     "Staged deployment already unlocked"));
      _ ← match xo_bump_mtime xops with Done _ => perform MtimeBumped (Ok tt) | Failed _ => mret tt end;
      perform Rebooted (Ok tt)
  end.

(** ** Applying live *)

(** The modification time of the sysroot is bumped in any case; after an error its own error
    is dropped. *)
Definition livefs_transaction_execute : prog tevent unit unit :=
  match to_apply_live tops with
  | Failed e =>
      or_cleanup (lift (Err e)) (match xo_bump_mtime xops with Done _ => [MtimeBumped] | Failed _ => [] end)
  | Done _ =>
      _ ← perform AppliedLive (Ok tt);
      performs MtimeBumped (xo_bump_mtime xops)
  end.
End transactions.
