(* ===== verification/TransactionsSpec.v ===== *)
(** What the transactions of [Transactions] do to the system: which of them leave the
    deployments alone, what a new deployment of the others consists of, and when the
    system reboots. *)

From S2P Require Import Prelude Vardict Nevra RpmHeaders Deploy SysrootCore Refspec Origin OriginFile OriginApi Upgrader UpgraderSpec DeployRun DeployRunSpec Transactions.

(** The files of /etc a transaction asks for. *)

Definition etc_files (t : Treefile) : gset string := default ∅ (initramfs_etc t).
Definition requested_etc (self : InitramfsEtcTransaction) (old : gset string) : gset string :=
  (if ie_untrack_all self then ∅ else old ∖ list_to_set (default [] (ie_untrack self)))
  ∪ list_to_set (default [] (ie_track self)).

Lemma untrack_loop_set files c s : (untrack_loop files c s).2 = s ∖ list_to_set files.
Proof. revert c s. induction files as [|f files IH]; intros c s; simpl; [set_solver|]. rewrite IH. set_solver. Qed.

Lemma change_etc_files_set self o : etc_files (change_etc_files self o).2 = requested_etc self (etc_files o).
Proof.
  unfold change_etc_files, requested_etc, etc_files.
  assert (∀ o1, default ∅ (initramfs_etc match ie_track self with
      | Some files => (initramfs_etc_files_track files o1).2 | None => o1 end)
    = default ∅ (initramfs_etc o1) ∪ list_to_set (default [] (ie_track self))) as Ht.
  { intros o1. destruct (ie_track self); simpl; [done|set_solver]. }
  set (r := if ie_untrack_all self then _ else _).
  assert (default ∅ (initramfs_etc r.2) = if ie_untrack_all self then ∅
    else default ∅ (initramfs_etc o) ∖ list_to_set (default [] (ie_untrack self))) as Hr.
  { unfold r. destruct (ie_untrack_all self); [done|]. destruct (ie_untrack self) as [files|]; simpl; [|set_solver].
    unfold rpmostree_origin_initramfs_etc_files_untrack, initramfs_etc_files_untrack.
    pose proof (untrack_loop_set files false (default ∅ (initramfs_etc o))) as Hl.
    destruct (untrack_loop files false _). simpl in *. by rewrite Hl. }
  rewrite <-Hr, <-Ht. destruct r as [c o1]. simpl. by destruct (ie_track self).
Qed.

Section spec.
Context `{KeyFileSyntax} {Sack K : Type} (sops : SackOps Sack) (ops : UpgraderOps Sack) (tops : DeployOps Sack)
  (xops : OtherOps) (kops : KernelArgsOps K)
  (validate_checksum : string → outcome unit) (hy_split_nevra : string → option split_nevra)
  (ostree_parse_refspec : string → outcome (option string * string)) (type_mismatch : string)
  (hash_order : list string → list string)
  (is_image_reference is_digest_reference : string → bool)
  (revision_override : Refspec → bool → string → outcome origin_update)
  (agent sd_unit : option string).

Local Abbreviation init osname flags :=
  (rpmostree_sysroot_upgrader_initable_init ops validate_checksum type_mismatch (Some osname) flags).

Lemma with_upgrader_all (P : tevent → Prop) osname flags m :
  (∀ u, init osname flags = Ok u → Forall P (m u).1) →
  Forall P (with_upgrader ops validate_checksum type_mismatch osname flags m).1.
Proof.
  intros Hm. unfold with_upgrader. destruct (init osname flags) as [u| |] eqn:Eu; [|constructor..].
  specialize (Hm u eq_refl). by destruct (m u).
Qed.

(** ** Transactions that leave the deployments alone *)

Definition allowed_setting (setting : string * string) : Prop :=
  setting.1 = "enabled"%string ∧ (setting.2 = "0"%string ∨ setting.2 = "1"%string).

(** Only the settings are written, and none that is not allowed. *)
Definition repo_edit (repo : string) (settings : list (string * string)) (e : tevent) : Prop :=
  match e with
  | RepoParameterSet r p v => r = repo ∧ (p, v) ∈ settings ∧ allowed_setting (p, v)
  | RepoFileCommitted r => r = repo ∧ r ∈ xo_repos xops ∧ Forall allowed_setting settings
  | _ => False
  end.

Lemma set_repo_parameters_spec repo settings :
  triple (λ _, True) (set_repo_parameters xops repo settings) (repo_edit repo settings)
    (λ _ _, Forall allowed_setting settings).
Proof.
  induction settings as [|[p v] settings IH]; [by apply triple_ret|]. cbn [set_repo_parameters].
  apply triple_bind_lift. intros _ Hp%throw_if_ok. apply triple_bind_lift. intros _ Hv%throw_if_ok.
  assert (allowed_setting (p, v)) as Ha.
  { apply negb_false_iff, bool_decide_eq_true in Hp. split; [done|].
    by rewrite <-negb_orb, negb_false_iff, orb_true_iff, !bool_decide_eq_true in Hv. }
  eapply triple_bind.
  { apply (keeps_performs _ (λ _, True)). split_and!; [done|apply list_elem_of_here|done]. }
  intros []. eapply triple_conseq; [apply IH|done| |].
  - intros []; simpl; try done.
    + intros (? & ? & ?). split_and!; [done|by right|done].
    + intros (? & ? & ?). split_and!; [done|done|by constructor].
  - intros ? ? ?. by constructor.
Qed.

Lemma modify_yum_repo_edits my :
  triple (λ _, True) (modify_yum_repo_transaction_execute xops my)
    (repo_edit (my_repo_id my) (my_settings my)) (λ _ _, True).
Proof.
  unfold modify_yum_repo_transaction_execute. eapply triple_bind; [apply (keeps_call _ (λ _, True))|].
  intros []. unfold get_dnf_repo_by_id. destruct (find _ _) as [repo|] eqn:Ef; [|by apply triple_lift].
  apply find_some in Ef as [Hin ->%bool_decide_eq_true]. rewrite <-list_elem_of_In in Hin.
  eapply triple_bind; [apply set_repo_parameters_spec|]. intros []. apply triple_fact. intros Hall.
  by apply (keeps_performs _ (λ _, True)).
Qed.

(** However a run ends, none of its effects does harm, or it reboots only after a creation. *)
Definition leaves_alone {A} (run : list tevent * A) : Prop := Forall harmless run.1.
Definition creates_before_reboot {A} (run : list tevent * A) : Prop := after_creation run.1.

(** Previewing a package diff, refreshing metadata and editing a yum repository never
    touch deployments, apply anything live or reboot, however they end. *)
Theorem queries_harmless pd flags my :
  leaves_alone (package_diff_transaction_execute ops tops xops validate_checksum ostree_parse_refspec
    type_mismatch is_image_reference is_digest_reference revision_override pd) ∧
  leaves_alone (refresh_md_transaction_execute tops xops flags tt) ∧
  leaves_alone (modify_yum_repo_transaction_execute xops my tt).
Proof.
  unfold leaves_alone. split_and!.
  - apply with_upgrader_all. intros u _. apply (keeps_effects _ (with_flags (u_flags u))); [done|].
    unfold package_diff_transaction_run. keeps_auto.
  - apply (keeps_effects _ (λ _, True)); [done|]. unfold refresh_md_transaction_execute. keeps_auto.
  - eapply Forall_impl; [by apply modify_yum_repo_edits|]. by intros [].
Qed.

(** Editing a yum repository only ever sets "enabled" to 0 or 1, in the repository that
    was named, and its file is rewritten only if every setting of the request is allowed. *)
Theorem yum_repo_edits my :
  Forall (repo_edit (my_repo_id my) (my_settings my)) (modify_yum_repo_transaction_execute xops my tt).1.
Proof. by apply modify_yum_repo_edits. Qed.
(** ** Finalizing *)

(** The staged deployment belongs to the OS and is the expected one, nothing inhibits a reboot,
    and it is or gets unlocked. *)
Definition expected_base (options : vardict) (checksum : string) : Prop :=
  match vardict_lookup_string options "checksum" with
  | Some expected => checksum = expected
  | None => vardict_lookup_bool options "allow-missing-checksum" false = true
  end.
Definition may_reboot : Prop :=
  ∃ l, to_inhibitors tops = Ok (Some l) ∧
    ∀ i, i ∈ l → ih_mode i = "block"%string → strstr (ih_what i) "shutdown" = false.
Definition may_finalize (self : FinalizeDeploymentTransaction) (d : Deployment) : Prop :=
  d_staged d = true ∧ d_osname d = fd_osname self ∧
  (∃ meta, xo_layeredmeta xops d = Done meta ∧
     expected_base (fd_options self)
       (default (base_commit meta) (xo_container_image_digest xops (base_commit meta)))) ∧
  may_reboot ∧
  (if xo_is_finalization_locked xops d then xo_change_finalization xops d = Done tt
   else vardict_lookup_bool (fd_options self) "allow-unlocked" false = true).

Lemma expected_base_checked options checksum :
  check_expected_checksum options checksum = Ok tt ↔ expected_base options checksum.
Proof.
  unfold check_expected_checksum, expected_base, throw_if.
  destruct (vardict_lookup_string options "checksum"); [case_bool_decide; naive_solver|].
  by destruct (vardict_lookup_bool _ _ _).
Qed.
Lemma may_reboot_checked : check_sd_inhibitor_locks (to_inhibitors tops) = Ok tt ↔ may_reboot.
Proof.
  unfold may_reboot. destruct (to_inhibitors tops) as [[l|]| |]; [|naive_solver..].
  rewrite check_inhibitors_iff, Forall_forall. unfold blocks_shutdown. split.
  - intros Hl. exists l. split; [done|]. intros i Hi Hm. specialize (Hl i Hi).
    rewrite Hm in Hl. by rewrite bool_decide_eq_true_2, andb_true_r in Hl.
  - intros (? & [= <-] & Hl) i Hi. case_bool_decide as Hm; [|by rewrite andb_false_r]. by rewrite (Hl i Hi Hm).
Qed.

Lemma finalize_only_expected self d ds : op_deployments ops = d :: ds →
  triple (λ _, True) (finalize_deployment_transaction_execute ops tops xops self)
    (λ e, e = Rebooted → may_finalize self d) (λ _ _, may_finalize self d).
Proof.
  intros Hd. unfold finalize_deployment_transaction_execute. rewrite Hd.
  apply triple_bind_lift. intros _ Hs%throw_if_ok%negb_false_iff.
  apply triple_bind_lift. intros _ Hos%throw_if_ok%negb_false_iff%bool_decide_eq_true.
  apply triple_bind_lift. intros meta Hm. assert (xo_layeredmeta xops d = Done meta) as Hm'
    by (destruct (xo_layeredmeta xops d); naive_solver). clear Hm. cbv zeta.
  apply triple_bind_lift. intros [] Hc%expected_base_checked.
  apply triple_bind_lift. intros [] Hi%may_reboot_checked.
  eapply (triple_bind _ _ (λ _ _, may_finalize self d)).
  - apply triple_if; intros Hl.
    + intros s _. unfold on_error, performs, perform. destruct (xo_change_finalization xops d) as [[]|] eqn:Ec;
        cbn; [|by split]. split; [by repeat constructor|]. intros _ _ _. split_and!; [done..|eauto|done|].
      by rewrite Hl.
    + apply triple_lift. intros _ _ Hu%throw_if_ok%negb_false_iff _. split_and!; [done..|eauto|done|].
      by rewrite Hl.
  - intros []. apply triple_fact. intros Hmay.
    apply (triple_conseq _ _ (λ _, True) _ (λ _ _, True) (λ e, e = Rebooted → may_finalize self d)); [|done..].
    apply (keeps_bind _ (λ _, True)); [destruct (xo_bump_mtime xops)|intros []];
      first [by apply (keeps_perform _ (λ _, True))|by apply (keeps_ret _ (λ _, True))].
Qed.

(** C24: finalizing reboots exactly when the default deployment is staged, belongs to the OS, is
    based on the expected commit or image (or none was given and none need be), no inhibitor
    blocks the shutdown and its lock could be released, or may be missing; and then all it has
    done is to release the lock and to touch the sysroot. Otherwise it fails. *)
Theorem finalize_reboots_expected self :
  match op_deployments ops with
  | d :: _ =>
      (may_finalize self d →
       finalize_deployment_transaction_execute ops tops xops self tt
       = ((if xo_is_finalization_locked xops d then [FinalizationUnlocked d] else []) ++
          (match xo_bump_mtime xops with Done _ => [MtimeBumped] | Failed _ => [] end) ++ [Rebooted],
          Ok (tt, tt))) ∧
      (¬ may_finalize self d →
       Rebooted ∉ (finalize_deployment_transaction_execute ops tops xops self tt).1 ∧
       is_ok (finalize_deployment_transaction_execute ops tops xops self tt).2 = false)
  | [] => finalize_deployment_transaction_execute ops tops xops self tt = ([], glnx_throw "No deployments found")
  end.
Proof.
  destruct (op_deployments ops) as [|d ds] eqn:Hd.
  { unfold finalize_deployment_transaction_execute. by rewrite Hd. }
  split.
  - intros (Hs & Hos & (meta & Hm & Hc%expected_base_checked) & Hi%may_reboot_checked & Hl).
    unfold finalize_deployment_transaction_execute.
    rewrite Hd, Hs, bool_decide_eq_true_2, Hm by done.
    unfold throw_if, call, returned. cbn [negb]. cbv iota zeta. rewrite !lift_ok_bind.
    rewrite Hc, Hi, !lift_ok_bind.
    destruct (xo_is_finalization_locked xops d); cbn; rewrite Hl; by destruct (xo_bump_mtime xops).
  - intros Hno. destruct (finalize_only_expected self d ds Hd tt Logic.I) as [Htr Hok]. split.
    + intros Hin. rewrite Forall_forall in Htr. by apply Hno, (Htr _ Hin).
    + destruct (finalize_deployment_transaction_execute _ _ _ _ _) as [tr [[a s]| |]]; [|done..].
      by destruct Hno, (Hok a s).
Qed.
(** ** New deployments of the same system *)

Definition asked (flags : Z) (o : RpmOstreeOrigin) (kargs : option (list string)) (u : Upgrader Sack) : Prop :=
  u_flags u = flags ∧ u_original_origin u = o ∧ (∀ l, kargs = Some l → u_kargs_strv u = Some l).
#[local] Instance asked_request flags o kargs : RequestInv (asked flags o kargs).
Proof. unfold asked. intros u u' (? & ? & Hk) ? ? Hk'. split_and!; [congruence..|]. auto. Qed.

Lemma asked_mono flags o kargs u : asked flags o kargs u → asked flags o None u.
Proof. by intros (? & ? & _). Qed.

(** Effects of a transaction that deploys for [o] and [kargs]. *)
Definition deploys_for (flags : Z) (o : RpmOstreeOrigin) (kargs : option (list string)) (e : tevent) : Prop :=
  ∀ e', e = Up e' → creates e' → ∃ u, asked flags o kargs u ∧ created_by u e'.

Lemma harmless_deploys_for flags o kargs e : harmless e → deploys_for flags o kargs e.
Proof. intros He e' -> Hc. by destruct e'. Qed.

Lemma keeps_deploys_for {A} flags o kargs (m : prog tevent (Upgrader Sack) A) I :
  keeps harmless I m → keeps (deploys_for flags o kargs) I m.
Proof. intros Hm. eapply keeps_mono; [exact Hm|]. intros e. apply harmless_deploys_for. Qed.

Lemma deploy_and_reboot flags o kargs options :
  keeps (deploys_for flags o kargs) (asked flags o kargs)
    (_ ← up (rpmostree_sysroot_upgrader_deploy sops ops validate_checksum hy_split_nevra type_mismatch hash_order);
     reboot_if_asked tops options).
Proof.
  keeps_step.
  - eapply keeps_up; [apply (keeps_deploy _ _ _ _ _ _ (asked flags o kargs))|].
    intros e He e' [= <-] Hc. by apply He.
  - unfold reboot_if_asked, reboot. keeps_auto; by apply keeps_perform.
Qed.

(** *** Kernel arguments *)

(** What a request may ask for. *)
Inductive karg_wish :=
  | WDelete (arg : string)
  | WReplace (arg : string)
  | WAppend (args : list string)
  | WAppendIfMissing (arg : string)
  | WDeleteIfPresent (arg : string).

(** What the request asks for, in the order in which it is granted. *)
Definition wishes (self : KernelArgTransaction) : list karg_wish :=
  (WDelete <$> default [] (ka_deleted self)) ++ (WReplace <$> default [] (ka_replaced self)) ++
  (WAppend <$> option_list (ka_added self)) ++
  (WAppendIfMissing <$> default [] (vardict_lookup_strv_canonical (ka_options self) "append-if-missing")) ++
  (WDeleteIfPresent <$> default [] (vardict_lookup_strv_canonical (ka_options self) "delete-if-present")).

(** One wish edits the arguments, or its condition does not hold. Whether an argument is
    missing is judged by the arguments so far, whether it is present by those at the start. *)
Definition edits (existing : list string) (w : karg_wish) (k k' : K) : Prop :=
  match w with
  | WDelete arg => kargs_delete kops k arg = Done k'
  | WReplace arg => kargs_new_replace kops k arg = Done k'
  | WAppend args => k' = kargs_append_argv kops k args
  | WAppendIfMissing arg => arg ∉ kargs_to_strv kops k ∧ k' = kargs_append kops k arg
  | WDeleteIfPresent arg => arg ∈ existing ∧ kargs_delete kops k arg = Done k'
  end.
Definition moot (existing : list string) (w : karg_wish) (k : K) : Prop :=
  match w with
  | WAppendIfMissing arg => arg ∈ kargs_to_strv kops k
  | WDeleteIfPresent arg => arg ∉ existing
  | _ => False
  end.

(** All wishes are granted one after the other; the flag says whether one made an edit. *)
Inductive granted (existing : list string) : list karg_wish → bool → K → K → Prop :=
  | granted_nil k : granted existing [] false k k
  | granted_edit w ws c k k1 k' : edits existing w k k1 → granted existing ws c k1 k' →
      granted existing (w :: ws) true k k'
  | granted_moot w ws c k k' : moot existing w k → granted existing ws c k k' →
      granted existing (w :: ws) c k k'.

(** The arguments the request leads to, and whether it asks for an edit. *)
Definition requested_kargs (self : KernelArgTransaction) (changed : bool) (kargs : K) : Prop :=
  let start := kargs_from_string kops (ka_existing self) in
  match vardict_lookup_string (ka_options self) "final-kernel-args" with
  | Some final => kargs = kargs_from_string kops final ∧ (changed = true ↔ ka_existing self ≠ final)
  | None => granted (kargs_to_strv kops start) (wishes self) changed start kargs
  end.

Lemma granted_app existing ws ws' c c' k k1 k' :
  granted existing ws c k k1 → granted existing ws' c' k1 k' → granted existing (ws ++ ws') (c || c') k k'.
Proof.
  induction 1 as [| |]; intros Hw; simpl; [done|..].
  - eapply granted_edit; eauto.
  - eapply granted_moot; eauto.
Qed.

Lemma granted_each existing (f : K → string → result K) W args k k' :
  (∀ arg k k', f k arg = Done k' → edits existing (W arg) k k') → each_arg f args k = Done k' →
  granted existing (W <$> args) (negb (bool_decide (args = []))) k k'.
Proof.
  intros HW. revert k. induction args as [|arg args IH]; intros k; simpl; [intros [= <-]; constructor|].
  destruct (f k arg) as [k1|] eqn:E; [|done]. intros Hr%IH. eapply granted_edit; eauto.
Qed.

Lemma granted_missing existing args c k :
  ∃ c', (foldl (append_if_missing kops) (c, k) args).1 = c || c' ∧
    granted existing (WAppendIfMissing <$> args) c' k (foldl (append_if_missing kops) (c, k) args).2.
Proof.
  revert c k. induction args as [|arg args IH]; intros c k; simpl.
  { exists false. split; [by rewrite orb_false_r|constructor]. }
  unfold append_if_missing at 2 4. simpl. case_bool_decide as Hin.
  - destruct (IH c k) as (c' & Hc & Hg). exists c'. split; [done|]. by eapply granted_moot.
  - destruct (IH true (kargs_append kops k arg)) as (c' & Hc & Hg). exists true. rewrite orb_true_r.
    split; [done|]. by eapply granted_edit.
Qed.

Lemma granted_present existing args c k c' k' : delete_if_present kops existing args (c, k) = Done (c', k') →
  ∃ c'', c' = c || c'' ∧ granted existing (WDeleteIfPresent <$> args) c'' k k'.
Proof.
  revert c k. induction args as [|arg args IH]; intros c k; simpl.
  { intros [= <- <-]. exists false. split; [by rewrite orb_false_r|constructor]. }
  case_bool_decide as Hin.
  - destruct (kargs_delete kops k arg) as [k1|] eqn:E; [|done]. intros (c'' & -> & Hg)%IH. exists true.
    rewrite orb_true_r. split; [done|]. by eapply granted_edit.
  - intros (c'' & -> & Hg)%IH. exists c''. split; [done|]. by eapply granted_moot.
Qed.

Lemma patch_kargs_granted self k changed k' : patch_kargs kops self k = Ok (changed, k') →
  granted (kargs_to_strv kops (kargs_from_string kops (ka_existing self))) (wishes self) changed k k'.
Proof.
  unfold patch_kargs, wishes. set (existing := kargs_to_strv _ _). cbv zeta.
  intros (k1 & H1%returned_ok & (k2 & H2%returned_ok & H3%returned_ok)%bind_ok)%bind_ok.
  apply (granted_each existing _ WDelete) in H1; [|done]. apply (granted_each existing _ WReplace) in H2; [|done].
  pose proof (granted_app _ _ _ _ _ _ _ _ H1 H2) as H12. clear H1 H2.
  set (c0 := negb (bool_decide (default [] (ka_deleted self) = [])) || _) in *.
  set (s := match ka_added self with Some _ => _ | None => _ end) in H3.
  assert (∃ c1, s.1 = c0 || c1 ∧ granted existing (WAppend <$> option_list (ka_added self)) c1 k2 s.2) as (c1 & Hs1 & Hg1).
  { unfold s. destruct (ka_added self) as [added|]; simpl; [exists true|exists false; split; [by rewrite orb_false_r|constructor]].
    rewrite orb_true_r. split; [done|]. eapply granted_edit; [done|constructor]. }
  destruct s as [cs ks]. simpl in *. subst cs.
  set (args := default [] (vardict_lookup_strv_canonical (ka_options self) "append-if-missing")) in *.
  destruct (granted_missing existing args (c0 || c1) ks) as (c2 & Hs2 & Hg2).
  destruct (foldl _ _ _) as [cm km]. simpl in Hs2, Hg2. rewrite Hs2 in H3.
  apply granted_present in H3 as (c3 & -> & Hg3).
  pose proof (granted_app _ _ _ _ _ _ _ _ H12 (granted_app _ _ _ _ _ _ _ _ Hg1 (granted_app _ _ _ _ _ _ _ _ Hg2 Hg3))) as Hg.
  rewrite <-!orb_assoc. by rewrite <-app_assoc in Hg.
Qed.

Lemma edits_unique existing w k k1 k2 : edits existing w k k1 → edits existing w k k2 → k1 = k2.
Proof. destruct w; simpl; try congruence; intros [_ H1] [_ H2]; congruence. Qed.
Lemma edits_not_moot existing w k k1 : edits existing w k k1 → moot existing w k → False.
Proof. destruct w; simpl; try done; by intros [? _]. Qed.

Lemma granted_unique existing ws c k k' : granted existing ws c k k' →
  ∀ c2 k2, granted existing ws c2 k k2 → c2 = c ∧ k2 = k'.
Proof.
  induction 1 as [k|w ws c k k1 k' He _ IH|w ws c k k' Hm _ IH]; intros c2 k2 H2; inversion H2 as [|? ? ? ? k3 ? He2|]; subst.
  - done.
  - rewrite (edits_unique _ _ _ _ _ He2 He) in *. split; [done|]. by eapply IH.
  - by destruct (edits_not_moot _ _ _ _ He).
  - by destruct (edits_not_moot _ _ _ _ He2).
  - by apply IH.
Qed.
Lemma requested_kargs_unique self c k c' k' : requested_kargs self c k → requested_kargs self c' k' → c' = c ∧ k' = k.
Proof.
  unfold requested_kargs. cbv zeta. destruct (vardict_lookup_string _ _) as [final|]; [|by intros H1 H2; eapply granted_unique].
  intros [-> Hc] [-> Hc']. split; [|done]. rewrite <-Hc in Hc'. apply eq_true_iff_eq, Hc'.
Qed.

Lemma kernel_arg_apply_created self kargs changed flags o :
  triple (asked flags o None)
    (kernel_arg_apply sops ops tops kops validate_checksum hy_split_nevra type_mismatch hash_order self kargs changed)
    (λ e, harmless e ∨ changed = true ∧ deploys_for flags o (Some (kargs_to_strv kops kargs)) e) (λ _ _, True).
Proof.
  unfold kernel_arg_apply. destruct changed.
  - eapply (triple_bind _ _ (λ _, asked flags o (Some (kargs_to_strv kops kargs)))).
    + intros u (Hf & Ho & _). split; [constructor|]. cbn. intros a u1 E; injection E as <- <-.
      split_and!; [done..|]. intros l [= <-]. done.
    + intros _. eapply triple_conseq; [apply deploy_and_reboot|done| |done]. by right.
  - eapply triple_conseq; [apply keeps_output_message|done| |done]. by left.
Qed.

Lemma kernel_arg_run_created self flags o :
  triple (asked flags o None)
    (kernel_arg_transaction_run sops ops tops kops validate_checksum hy_split_nevra type_mismatch hash_order
       agent sd_unit self)
    (λ e, harmless e ∨ ∃ kargs, requested_kargs self true kargs ∧
            deploys_for flags o (Some (kargs_to_strv kops kargs)) e) (λ _ _, True).
Proof.
  unfold kernel_arg_transaction_run. eapply (triple_bind _ _ (λ _, asked flags o None)).
  { eapply (keeps_mono harmless); [unfold set_caller_info; by keeps_auto|]. by left. }
  intros _. unfold requested_kargs. destruct (vardict_lookup_string _ _) as [final|].
  - unfold kernel_arg_apply_final_str. cbv zeta.
    eapply triple_conseq; [apply kernel_arg_apply_created|done| |done].
    intros e [?|[Hc ?]]; [by left|]. right. apply negb_true_iff, bool_decide_eq_false in Hc.
    eexists. split; [split; [reflexivity|]|done]. done.
  - unfold kernel_arg_apply_patching. apply triple_bind_lift. intros [changed kargs] Hp%patch_kargs_granted.
    eapply triple_conseq; [apply kernel_arg_apply_created|done| |done].
    intros e [?|[-> ?]]; [by left|]. right. eauto.
Qed.
Local Abbreviation kernel_arg := (kernel_arg_transaction_execute sops ops tops kops validate_checksum
  hy_split_nevra type_mismatch hash_order agent sd_unit).
Local Abbreviation initramfs_etc_tx := (initramfs_etc_transaction_execute sops ops tops validate_checksum
  hy_split_nevra type_mismatch hash_order agent sd_unit).
Local Abbreviation initramfs_state_tx := (initramfs_state_transaction_execute sops ops tops validate_checksum
  hy_split_nevra type_mismatch hash_order agent sd_unit).

Lemma created_event e : creates e → ∃ kf opts, origin_file e = Some kf ∧ tree_options e = Some opts.
Proof. destruct e; try done; simpl; eauto. Qed.

Lemma created_by_asked flags o kargs u e :
  asked flags o kargs u → created_by u e → creates e →
  ∃ kf opts, origin_file e = Some kf ∧ rpmostree_origin_dup_keyfile o = Ok kf ∧
    tree_options e = Some opts ∧
    dto_locked opts = flag_set flags RPMOSTREE_SYSROOT_UPGRADER_FLAGS_LOCK_FINALIZATION ∧
    ∀ l, kargs = Some l → dto_override_kernel_argv opts = l.
Proof.
  intros (<- & <- & Hk) [Ho Hopts] (kf & opts & Hkf & Ht)%created_event. exists kf, opts.
  destruct (Hopts opts Ht) as [Hl Ha]. split_and!; [done|by apply Ho|done|done|]. intros l Hl'. auto.
Qed.

Lemma lock_flag (b : bool) rest :
  flag_set rest RPMOSTREE_SYSROOT_UPGRADER_FLAGS_LOCK_FINALIZATION = false → (0 ≤ rest)%Z →
  flag_set (Z.lor rest (if b then RPMOSTREE_SYSROOT_UPGRADER_FLAGS_LOCK_FINALIZATION else 0))
    RPMOSTREE_SYSROOT_UPGRADER_FLAGS_LOCK_FINALIZATION = b.
Proof.
  unfold RPMOSTREE_SYSROOT_UPGRADER_FLAGS_LOCK_FINALIZATION. rewrite !flag_set_testbit by lia.
  intros Hr _. destruct b; rewrite Z.lor_spec, Hr; [done|]. by rewrite Z.bits_0.
Qed.

Lemma kernel_arg_created self e :
  Up e ∈ (kernel_arg self).1 → creates e →
  ∃ flags u kargs kf opts, init (ka_osname self) flags = Ok u ∧ requested_kargs self true kargs ∧
    origin_file e = Some kf ∧ rpmostree_origin_dup_keyfile (u_original_origin u) = Ok kf ∧
    tree_options e = Some opts ∧ dto_override_kernel_argv opts = kargs_to_strv kops kargs ∧
    dto_locked opts = vardict_lookup_bool (ka_options self) "lock-finalization" false.
Proof.
  intros Hin Hc. unfold kernel_arg_transaction_execute, with_upgrader in Hin. set (flags := Z.lor _ _) in Hin.
  destruct (init (ka_osname self) flags) as [u| |] eqn:Eu; [|by apply elem_of_nil in Hin..].
  destruct (kernel_arg_run_created self flags (u_original_origin u) u) as [Htr _].
  { split_and!; [by eapply init_flags|done|done]. }
  destruct (kernel_arg_transaction_run _ _ _ _ _ _ _ _ _ _ _ u) as [tr r]. simpl in *.
  rewrite Forall_forall in Htr. destruct (Htr _ Hin) as [Hh|(kargs & Hk & Hd)]; [by destruct e|].
  destruct (Hd e eq_refl Hc) as (u1 & Ha & Hby).
  destruct (created_by_asked _ _ _ _ _ Ha Hby Hc) as (kf & opts & ? & ? & ? & Hl & Hargs).
  exists flags, u, kargs, kf, opts. split_and!; [done..|by apply Hargs|]. rewrite Hl. unfold flags, lock_finalization.
  rewrite Z.lor_assoc. by apply lock_flag.
Qed.
(** *** Files of /etc *)

Lemma get_etc_files_set o : list_to_set (get_initramfs_etc_files o) =@{gset string} etc_files o.
Proof.
  unfold get_initramfs_etc_files, etc_files, initramfs_etc. destruct (initramfs o) as [i|]; [|done]. simpl.
  destruct (di_etc i); [|done]. simpl. apply bset_iter_set.
Qed.

Lemma check_etc_files_ok files : check_etc_files files = Ok tt → Forall (λ f, String.prefix "/etc/" f = true) files.
Proof.
  induction files as [|f files IH]; [constructor|]. cbn [check_etc_files].
  intros (_ & Hf%throw_if_ok%negb_false_iff & Hr)%bind_ok. constructor; auto.
Qed.

Lemma etc_files_prefix o : check_etc_files (get_initramfs_etc_files o) = Ok tt →
  ∀ f, f ∈ etc_files o → String.prefix "/etc/" f = true.
Proof.
  intros Hc%check_etc_files_ok f. rewrite <-get_etc_files_set, elem_of_list_to_set.
  rewrite Forall_forall in Hc. apply Hc.
Qed.

(** A new origin for the upgrader. *)
Lemma set_origin_asked flags o :
  triple (with_flags flags) (up (rpmostree_sysroot_upgrader_set_origin validate_checksum o)) harmless
    (λ _ u, ∃ t, rpmostree_origin_dup validate_checksum o = Ok t ∧ asked flags t None u).
Proof.
  intros u Hu. destruct (keeps_up_benign _ _ (keeps_set_origin validate_checksum o flags) u Hu) as [Htr Hf].
  split; [done|]. intros a u' E. specialize (Hf a u' E). revert E.
  unfold up, rpmostree_sysroot_upgrader_set_origin, lift, modify, mbind, prog_bind.
  destruct (rpmostree_origin_dup validate_checksum o) as [t| |]; simpl; [|done..].
  destruct (rpmostree_origin_dup validate_checksum t) as [t'| |]; simpl; [|done..].
  intros E. injection E as <- <-. exists t. by split_and!.
Qed.

Lemma dup_origin_asked flags orig :
  triple (asked flags orig None) (up (rpmostree_sysroot_upgrader_dup_origin validate_checksum)) harmless
    (λ o u, rpmostree_origin_dup validate_checksum orig = Ok o ∧ asked flags orig None u).
Proof.
  intros u Hu. pose proof Hu as (_ & Ho & _).
  unfold up, rpmostree_sysroot_upgrader_dup_origin, lift, get_self, mbind, prog_bind. rewrite Ho.
  destruct (rpmostree_origin_dup validate_checksum orig) as [o| |]; simpl; (split; [constructor|]); [|done..].
  intros a u' E. by injection E as <- <-.
Qed.

(** A new origin [o] is deployed. *)
Definition deploys_origin (flags : Z) (o : RpmOstreeOrigin) (e : tevent) : Prop :=
  ∃ t, rpmostree_origin_dup validate_checksum o = Ok t ∧ deploys_for flags t None e.

Lemma set_origin_and_deploy flags o options (φ : tevent → Prop) :
  (∀ e, harmless e ∨ deploys_origin flags o e → φ e) →
  triple (with_flags flags)
    (_ ← up (rpmostree_sysroot_upgrader_set_origin validate_checksum o);
     _ ← up (rpmostree_sysroot_upgrader_deploy sops ops validate_checksum hy_split_nevra type_mismatch hash_order);
     reboot_if_asked tops options) φ (λ _ _, True).
Proof.
  intros Hφ. eapply triple_bind.
  { eapply triple_conseq; [apply set_origin_asked|done|auto|]. intros a u Hu. exact Hu. }
  intros []. apply triple_exists. intros t. apply triple_and_fact. intros Ht.
  eapply triple_conseq; [apply deploy_and_reboot|done| |done]. intros e He. apply Hφ. right. by exists t.
Qed.

Lemma initramfs_etc_run_created self flags orig :
  triple (asked flags orig None)
    (initramfs_etc_transaction_run sops ops tops validate_checksum hy_split_nevra type_mismatch hash_order
       agent sd_unit self)
    (λ e, harmless e ∨ ∃ o, rpmostree_origin_dup validate_checksum orig = Ok o ∧
       (ie_force_sync self = true ∨ (change_etc_files self o).1 = true) ∧
       check_etc_files (get_initramfs_etc_files (change_etc_files self o).2) = Ok tt ∧
       deploys_origin flags (change_etc_files self o).2 e) (λ _ _, True).
Proof.
  unfold initramfs_etc_transaction_run. eapply (triple_bind _ _ (λ _, asked flags orig None)).
  { eapply (keeps_mono harmless); [unfold set_caller_info; by keeps_auto|]. by left. }
  intros _. eapply triple_bind.
  { eapply triple_conseq; [apply dup_origin_asked|done|by left|]. intros o u Hu. exact Hu. }
  intros o. apply triple_and_fact. intros Ho. destruct (change_etc_files self o) as [changed o'] eqn:Ec.
  apply triple_if; intros Hch.
  { eapply triple_conseq; [apply keeps_output_message|done|by left|done]. }
  apply triple_bind_lift. intros [] Hcheck.
  eapply triple_conseq; [apply (set_origin_and_deploy flags o' (ie_options self))| | |done].
  - intros e He. exact He.
  - by intros u (? & _).
  - intros e [?|He]; [by left|]. right. exists o. rewrite Ec. simpl. split_and!; [done| |done|done].
    destruct (ie_force_sync self); [by left|right]. by destruct changed.
Qed.

(** An initramfs-etc transaction deploys only if it changes the tracked files or is asked
    to sync; the new deployment's origin is the previous one with the files that were asked
    for, all below /etc. *)
Theorem initramfs_etc_deployed self e :
  Up e ∈ (initramfs_etc_tx self).1 → creates e →
  ∃ flags u o t kf, init (ie_osname self) flags = Ok u ∧
    rpmostree_origin_dup validate_checksum (u_original_origin u) = Ok o ∧
    let o' := (change_etc_files self o).2 in
    (ie_force_sync self = true ∨ (change_etc_files self o).1 = true) ∧
    etc_files o' = requested_etc self (etc_files o) ∧
    (∀ f, f ∈ etc_files o' → String.prefix "/etc/" f = true) ∧
    rpmostree_origin_dup validate_checksum o' = Ok t ∧
    origin_file e = Some kf ∧ rpmostree_origin_dup_keyfile t = Ok kf.
Proof.
  intros Hin Hc. unfold initramfs_etc_transaction_execute, with_upgrader in Hin.
  set (flags := lock_finalization _) in Hin.
  destruct (init (ie_osname self) flags) as [u| |] eqn:Eu; [|by apply elem_of_nil in Hin..].
  destruct (initramfs_etc_run_created self flags (u_original_origin u) u) as [Htr _].
  { split_and!; [by eapply init_flags|done|done]. }
  destruct (initramfs_etc_transaction_run _ _ _ _ _ _ _ _ _ _ u) as [tr r]. simpl in Hin, Htr.
  rewrite Forall_forall in Htr. destruct (Htr _ Hin) as [Hh|(o & Ho & Hs & Hf & t & Ht & Hd)]; [by destruct e|].
  destruct (Hd e eq_refl Hc) as (u1 & Ha & Hby).
  destruct (created_by_asked _ _ _ _ _ Ha Hby Hc) as (kf & opts & ? & ? & _).
  exists flags, u, o, t, kf. cbv zeta.
  split_and!; try done; [apply change_etc_files_set|by apply etc_files_prefix].
Qed.
(** ** Rebooting *)

Lemma ordered_deploy_and_reboot flags options :
  flag_set flags RPMOSTREE_SYSROOT_UPGRADER_FLAGS_DRY_RUN = false →
  ordered (with_flags flags)
    (_ ← up (rpmostree_sysroot_upgrader_deploy sops ops validate_checksum hy_split_nevra type_mismatch hash_order);
     reboot_if_asked tops options).
Proof.
  intros Hdry. apply ordered_created; [|by apply emits_up, emits_deploy].
  eapply keeps_up; [apply keeps_deploy; apply _|]. by intros ? _ [].
Qed.

Lemma ordered_harmless {A} (I : Upgrader Sack → Prop) (m : prog tevent (Upgrader Sack) A) :
  keeps harmless I m → ordered I m.
Proof. intros Hm. apply ordered_quiet. eapply keeps_mono; [exact Hm|apply harmless_quiet]. Qed.

Lemma with_upgrader_after_creation osname flags m :
  ordered (with_flags flags) m →
  after_creation (with_upgrader ops validate_checksum type_mismatch osname flags m).1.
Proof.
  intros Hm. unfold with_upgrader.
  destruct (init osname flags) as [u| |] eqn:Eu; [|by apply after_creation_quiet..].
  specialize (Hm u (init_flags _ _ _ _ _ _ Eu)). by destruct (m u).
Qed.

Lemma lock_flag_not_dry (b : bool) :
  flag_set (if b then RPMOSTREE_SYSROOT_UPGRADER_FLAGS_LOCK_FINALIZATION else 0)
    RPMOSTREE_SYSROOT_UPGRADER_FLAGS_DRY_RUN = false.
Proof. by destruct b. Qed.

(** A run that succeeds granted the request, and deployed if that made an edit. *)
Lemma kernel_arg_run_deploys self flags u tr a u' :
  flag_set flags RPMOSTREE_SYSROOT_UPGRADER_FLAGS_DRY_RUN = false → u_flags u = flags →
  kernel_arg_transaction_run sops ops tops kops validate_checksum hy_split_nevra type_mismatch hash_order
    agent sd_unit self u = (tr, Ok (a, u')) →
  ∃ changed kargs, requested_kargs self changed kargs ∧ (changed = true → Exists created tr).
Proof.
  intros Hdry Hflags Hrun. unfold kernel_arg_transaction_run in Hrun.
  assert (∀ kargs changed tr0 u0 tr, u_flags u0 = flags →
    kernel_arg_apply sops ops tops kops validate_checksum hy_split_nevra type_mismatch hash_order self kargs changed u0
      = (tr, Ok (a, u')) → changed = true → Exists created (tr0 ++ tr)) as Happly.
  { intros kargs changed tr0 u0 tr1 Hf Hr ->. apply Exists_app. right.
    assert (emits created (with_flags flags) (kernel_arg_apply sops ops tops kops validate_checksum hy_split_nevra
      type_mismatch hash_order self kargs true)) as He.
    { eapply emits_bind_r; [by keeps_auto|]. intros _. apply emits_bind_l. by apply emits_up, emits_deploy. }
    specialize (He u0 Hf a u'). rewrite Hr in He. by apply He. }
  apply prog_bind_inv in Hrun as (? & u1 & t1 & t2 & E1 & E2 & ->). cbn in E1. simplify_eq.
  unfold requested_kargs. cbv zeta. destruct (vardict_lookup_string _ _) as [final|].
  - eexists (negb (bool_decide (ka_existing self = final))), _. split; [split; [done|]|].
    + by rewrite negb_true_iff, bool_decide_eq_false.
    + by eapply Happly, E2.
  - apply prog_bind_inv in E2 as ([changed kargs] & u2 & t3 & t4 & E3 & E4 & ->).
    unfold lift in E3. destruct (patch_kargs _ _ _) as [[c k]| |] eqn:Ep; simplify_eq.
    exists changed, kargs. split; [by apply patch_kargs_granted|].
    by eapply (Happly _ _ []), E4.
Qed.

(** C36: a kernel argument transaction that succeeds has deployed exactly when its request
    asks for an edit (a different final string; or something to delete, replace or append;
    or an argument to append that is missing or to delete that is present). Whenever it
    deploys, the new deployment has the arguments the request makes of the present ones, by
    deleting, replacing, appending, appending what is missing and deleting what is present,
    in this order; the origin of the merge deployment; and the lock if it was asked for. *)
Theorem kernel_args_deployed self :
  ((kernel_arg self).2 = Ok tt →
   (∃ e, Up e ∈ (kernel_arg self).1 ∧ creates e) ↔ ∃ kargs, requested_kargs self true kargs) ∧
  ∀ e, Up e ∈ (kernel_arg self).1 → creates e →
    ∃ flags u kargs kf opts, init (ka_osname self) flags = Ok u ∧ requested_kargs self true kargs ∧
      origin_file e = Some kf ∧ rpmostree_origin_dup_keyfile (u_original_origin u) = Ok kf ∧
      tree_options e = Some opts ∧ dto_override_kernel_argv opts = kargs_to_strv kops kargs ∧
      dto_locked opts = vardict_lookup_bool (ka_options self) "lock-finalization" false.
Proof.
  split; [|apply kernel_arg_created]. intros Hok. split.
  { intros (e & He & Hc). destruct (kernel_arg_created self e He Hc) as (_ & _ & kargs & _ & _ & _ & Hk & _). eauto. }
  intros (kargs & Hk). unfold kernel_arg_transaction_execute, with_upgrader in *. set (flags := Z.lor _ _) in *.
  destruct (init (ka_osname self) flags) as [u| |] eqn:Eu; [|done..].
  destruct (kernel_arg_transaction_run _ _ _ _ _ _ _ _ _ _ _ u) as [tr [[a u']| |]] eqn:Er; [|done..]. simpl.
  eapply (kernel_arg_run_deploys self flags) in Er as (changed & kargs' & Hk' & Hex);
    [|unfold flags, lock_finalization; by destruct (vardict_lookup_bool _ _ _)|by eapply init_flags].
  destruct (requested_kargs_unique _ _ _ _ _ Hk Hk') as [-> _].
  specialize (Hex eq_refl). apply Exists_exists in Hex as ([] & Hin & Hc); try done. eauto.
Qed.

(** The transactions for kernel arguments and the initramfs reboot only after they have
    created the new deployment, however they end. *)
Theorem local_reboot_after_creation ka ie ist :
  creates_before_reboot (kernel_arg ka) ∧ creates_before_reboot (initramfs_etc_tx ie) ∧
  creates_before_reboot (initramfs_state_tx ist).
Proof.
  unfold creates_before_reboot. split_and!; apply with_upgrader_after_creation.
  - set (flags := Z.lor _ _).
    assert (flag_set flags RPMOSTREE_SYSROOT_UPGRADER_FLAGS_DRY_RUN = false) as Hdry.
    { unfold flags, lock_finalization. by destruct (vardict_lookup_bool _ _ _). }
    unfold kernel_arg_transaction_run, set_caller_info. apply ordered_bind; [by keeps_auto|]. intros _.
    assert (∀ kargs changed, ordered (with_flags flags) (kernel_arg_apply sops ops tops kops validate_checksum
      hy_split_nevra type_mismatch hash_order ka kargs changed)) as Happly.
    { intros kargs []; unfold kernel_arg_apply; simpl.
      - apply ordered_bind; [by keeps_auto|]. intros _. by apply ordered_deploy_and_reboot.
      - apply ordered_harmless. keeps_auto. }
    destruct (vardict_lookup_string _ _); [apply Happly|].
    apply ordered_bind; [by keeps_auto|]. intros [changed kargs]. apply Happly.
  - unfold initramfs_etc_transaction_run, set_caller_info. apply ordered_bind; [by keeps_auto|]. intros _.
    apply ordered_bind; [by keeps_auto|]. intros o. destruct (change_etc_files ie o) as [changed o'].
    destruct (_ && _); [apply ordered_harmless; by keeps_auto|].
    apply ordered_bind; [by keeps_auto|]. intros _. apply ordered_bind; [by keeps_auto|]. intros _.
    apply ordered_deploy_and_reboot, lock_flag_not_dry.
  - unfold initramfs_state_transaction_run, set_caller_info. apply ordered_bind; [by keeps_auto|]. intros o.
    cbv zeta. destruct (_ && _ && _); [apply ordered_harmless; by keeps_auto|].
    do 2 (apply ordered_bind; [by keeps_auto|]; intros _).
    apply ordered_deploy_and_reboot, lock_flag_not_dry.
Qed.
End spec.

(** * Examples *)

#[local] Existing Instance plain_syntax.

(** Arguments as the list of words between spaces. *)
Fixpoint ex_kargs_words (s : string) : list string :=
  match s with
  | EmptyString => [""%string]
  | String c s =>
      match ex_kargs_words s with
      | w :: ws => if bool_decide (c = " "%char) then ""%string :: w :: ws else String c w :: ws
      | [] => []
      end
  end.
Definition ex_kops : KernelArgsOps (list string) :=
  MkKernelArgsOps (λ s, if bool_decide (s = ""%string) then [] else ex_kargs_words s) id
    (λ l a, if bool_decide (a ∈ l) then Done (filter (λ x, x ≠ a) l)
            else Failed (GError G_IO_ERROR_FAILED ("No key '" +:+ a +:+ "' found")))
    (λ l a, Done (l ++ [a])) (λ l a, l ++ a) (λ l a, l ++ [a]).

Definition ex_created_by (tr : list tevent) : uevent :=
  match filter (λ e, bool_decide (match e with Up (StagedTree _ _ _ _ _) => true | _ => false end = true)) tr with
  | Up e :: _ => e
  | _ => SanityChecked
  end.
Lemma ex_created_by_in tr : creates (ex_created_by tr) → Up (ex_created_by tr) ∈ tr.
Proof.
  unfold ex_created_by. destruct (filter _ tr) as [|[e| | | | | | | | | | | | | | |] l] eqn:E; try done. intros _.
  assert (Up e ∈ filter (λ e, bool_decide (match e with Up (StagedTree _ _ _ _ _) => true | _ => false end = true)) tr)
    as Hin by (rewrite E; left). by apply list_elem_of_filter in Hin as [_ ?].
Qed.

Definition ex_kernel_arg : KernelArgTransaction :=
  rpmostreed_transaction_new_kernel_arg "fedora" "quiet ro" (Some ["nosmt"%string]) None (Some ["quiet"%string])
    {["lock-finalization" := VBool true]}.
Definition ex_kernel_arg_trace : list tevent :=
  (kernel_arg_transaction_execute ex_sack_ops ex_ops ex_tops ex_kops ex_validate split_example "" id None None
     ex_kernel_arg).1.

Lemma ex_kernel_arg_requested :
  requested_kargs ex_kops ex_kernel_arg true ["ro"%string; "nosmt"%string].
Proof.
  change (granted ex_kops ["quiet"; "ro"] [WDelete "quiet"; WAppend ["nosmt"]] true ["quiet"; "ro"] ["ro"; "nosmt"])%string.
  do 2 (eapply granted_edit; [vm_compute; reflexivity|]). constructor.
Qed.

Lemma kernel_args_deployed_witness :
  (∃ e, Up e ∈ ex_kernel_arg_trace ∧ creates e) ∧
  ∃ opts, tree_options (ex_created_by ex_kernel_arg_trace) = Some opts ∧
    dto_override_kernel_argv opts = ["ro"%string; "nosmt"%string] ∧ dto_locked opts = true.
Proof.
  assert (creates (ex_created_by ex_kernel_arg_trace)) as Hc by (vm_compute; exact Logic.I).
  destruct (kernel_args_deployed ex_sack_ops ex_ops ex_tops ex_kops ex_validate split_example "" id None None
    ex_kernel_arg) as [Hiff Hdep]. split.
  { apply Hiff; [vm_compute; reflexivity|]. eexists. apply ex_kernel_arg_requested. }
  destruct (Hdep _ (ex_created_by_in _ Hc) Hc) as (flags & u & kargs & kf & opts & _ & Hk & _ & _ & Ht & Ha & Hl).
  destruct (requested_kargs_unique _ _ _ _ _ _ ex_kernel_arg_requested Hk) as [_ ->].
  exists opts. split; [exact Ht|]. split; [exact Ha|]. rewrite Hl. vm_compute. reflexivity.
Defined.

Definition ex_initramfs_etc : InitramfsEtcTransaction :=
  MkInitramfsEtc "fedora" (Some ["/etc/crypttab"%string]) None false false ∅.
Definition ex_initramfs_etc_trace : list tevent :=
  (initramfs_etc_transaction_execute ex_sack_ops ex_ops ex_tops ex_validate split_example "" id None None
     ex_initramfs_etc).1.

Lemma initramfs_etc_deployed_witness :
  ∃ o t kf, rpmostree_origin_dup ex_validate o = Ok t ∧ rpmostree_origin_dup_keyfile t = Ok kf ∧
    origin_file (ex_created_by ex_initramfs_etc_trace) = Some kf ∧ "/etc/crypttab"%string ∈ etc_files o.
Proof.
  assert (creates (ex_created_by ex_initramfs_etc_trace)) as Hc by (vm_compute; exact Logic.I).
  destruct (initramfs_etc_deployed ex_sack_ops ex_ops ex_tops ex_validate split_example "" id None None
    ex_initramfs_etc _ (ex_created_by_in _ Hc) Hc) as (flags & u & o & t & kf & _ & _ & H1 & H2 & H3 & H4 & H5 & H6).
  exists (change_etc_files ex_initramfs_etc o).2, t, kf. split_and!; [exact H4|exact H6|exact H5|].
  rewrite H2. unfold requested_etc. apply elem_of_union_r. simpl. apply elem_of_union_l, elem_of_singleton_2. reflexivity.
Defined.

(** An argument that is present twice over in what is to be deleted: the second conditional
    deletion looks at the arguments the transaction started from and fails. *)
Lemma delete_if_present_already_deleted :
  patch_kargs ex_kops (MkKernelArg "fedora" "quiet ro" None None (Some ["quiet"%string])
    {["delete-if-present" := VStrv ["quiet"%string]]}) ["quiet"%string; "ro"%string]
  = glnx_throw "No key 'quiet' found".
Proof. vm_compute. reflexivity. Qed.
