(* ===== verification/Core.v ===== *)
(** The package core: from a treefile to a solved and sorted set of packages, from
    [src/libpriv/rpmostree-core.cxx]. libdnf's sack, queries and solver and the package cache
    repository are parameters; cancellation and progress output are left out. *)

From S2P Require Import Prelude Vardict FileTree Nevra RpmHeaders Deploy SysrootCore Refspec Origin OriginFile OriginApi Upgrader DeployRun.

(** * Packages and repositories *)

(** A solvable of the sack. The checksums are the type and the digest, if there is one. *)
Record Package := MkPackage {
  pkg_id : nat;
  pkg_base : DnfPackage;
  pkg_nevra : string;
  pkg_epoch : N;
  pkg_version : string;
  pkg_release : string;
  pkg_reponame : string;
  pkg_installed : bool;
  pkg_hdr_chksum : option (string * string);
  pkg_chksum : option (string * string);
}.
#[global] Instance DnfPackage_eq_dec : EqDecision DnfPackage.
Proof. solve_decision. Defined.
#[global] Instance Package_eq_dec : EqDecision Package.
Proof. solve_decision. Defined.

Definition pkg_name (p : Package) : string := dp_name (pkg_base p).
Definition pkg_arch (p : Package) : string := dp_arch (pkg_base p).

Definition DNF_REPO_ENABLED_PACKAGES : Z := Z.shiftl 1 0.

Record DnfRepo := MkDnfRepo {
  repo_id : string;
  repo_enabled : Z;
  repo_local : bool;
  repo_required : bool;
}.
#[global] Instance DnfRepo_eq_dec : EqDecision DnfRepo.
Proof. solve_decision. Defined.

(** "(sstsss)": what the commit metadata holds of a package. *)
Record GvNevra := MkGvNevra {
  gv_nevra : string; gv_name : string; gv_epoch : N; gv_version : string; gv_release : string; gv_arch : string;
}.
#[global] Instance GvNevra_eq_dec : EqDecision GvNevra.
Proof. solve_decision. Defined.
#[global] Program Instance GvNevra_countable : Countable GvNevra :=
  inj_countable' (λ g, (gv_nevra g, gv_name g, gv_epoch g, gv_version g, gv_release g, gv_arch g))
    (λ '(a, b, c, d, e, f), MkGvNevra a b c d e f) _.
Next Obligation. by intros []. Qed.

Definition gv_nevra_from_pkg (pkg : Package) : GvNevra :=
  MkGvNevra (pkg_nevra pkg) (pkg_name pkg) (pkg_epoch pkg) (pkg_version pkg) (pkg_release pkg) (pkg_arch pkg).

(** "TYPE:HASH", of the header for packages of the rpmdb. *)
Definition get_repodata_chksum_repr (pkg : Package) : outcome string :=
  match (if pkg_installed pkg then pkg_hdr_chksum pkg else pkg_chksum pkg) with
  | Some (type, chksum) => Ok (type +:+ ":" +:+ chksum)
  | None => glnx_throw ("Couldn't get chksum for pkg " +:+ pkg_nevra pkg)
  end.

Definition is_locally_cached (pkg : Package) : bool := bool_decide (pkg_reponame pkg = HY_CMDLINE_REPO_NAME).

(** The table from names to repositories: a later repository replaces an earlier one. *)
Definition name_to_repo (sources : list DnfRepo) (name : string) : option DnfRepo :=
  foldl (λ found r, if bool_decide (repo_id r = name) then Some r else found) None sources.
Definition rpmostree_set_repos_on_packages (sources : list DnfRepo) (packages : list Package) : outcome unit :=
  if forallb (λ p, is_locally_cached p || nonnull (name_to_repo sources (pkg_reponame p))) packages
  then Ok tt else Abort.
Definition rpmostree_pkg_is_local (sources : list DnfRepo) (pkg : Package) : bool :=
  is_locally_cached pkg
  || opt_test repo_local (name_to_repo sources (pkg_reponame pkg)).

Definition rpmostree_get_enabled_rpmmd_repos (repos : list DnfRepo) (enablement : Z) : list DnfRepo :=
  filter (λ r, flag_set (repo_enabled r) enablement = true) repos.

Definition rpmostree_str_ptrarray_contains (strs : list string) (str : string) : bool := bool_decide (str ∈ strs).

(** * The treefile of a context *)

(** The fields of [BaseComposeConfigFields] the core asks for, and their getters. *)
Record ComposeConfig := MkComposeConfig {
  cf_derive : Treefile;
  cf_repos : option (list string);
  cf_lockfile_repos : option (list string);
  cf_exclude_packages : option (list string);
  cf_repo_packages : option (list (string * list string));
  cf_releasever : option string;
  cf_documentation : option bool;
  cf_recommends : option bool;
  cf_selinux : option bool;
  cf_readonly_executables : option bool;
  cf_ima : option bool;
}.
Definition get_repos (t : ComposeConfig) : list string := default [] (cf_repos t).
Definition get_lockfile_repos (t : ComposeConfig) : list string := default [] (cf_lockfile_repos t).
Definition get_exclude_packages (t : ComposeConfig) : list string := default [] (cf_exclude_packages t).
Definition get_repo_packages (t : ComposeConfig) : list (string * list string) := default [] (cf_repo_packages t).
Definition get_releasever (t : ComposeConfig) : string := default ""%string (cf_releasever t).
Definition get_documentation (t : ComposeConfig) : bool := default true (cf_documentation t).
Definition get_recommends (t : ComposeConfig) : bool := default true (cf_recommends t).
Definition get_selinux (t : ComposeConfig) : bool := default true (cf_selinux t).
Definition get_readonly_executables (t : ComposeConfig) : bool := default false (cf_readonly_executables t).
Definition get_ima (t : ComposeConfig) : bool := default false (cf_ima t).

(** * Lockfiles *)

Inductive LockedPackage :=
  | Evr (evr : string) (digest : option string)
  | Evra (evra : string) (digest : option string).
Record FfiLockedPackage := MkLocked { lp_name : string; lp_evr : string; lp_arch : string; lp_digest : string }.

(** [rsplitn(2, '.')]: around the last dot. *)
Fixpoint rsplit_dot (s : string) : option (string * string) :=
  match s with
  | EmptyString => None
  | String c s =>
      match rsplit_dot s with
      | Some (a, b) => Some (String c a, b)
      | None => if bool_decide (c = "."%char) then Some (""%string, s) else None
      end
  end.

Definition ffi_locked_package (k : string) (v : LockedPackage) : outcome FfiLockedPackage :=
  match v with
  | Evr evr digest => Ok (MkLocked k evr "" (default ""%string digest))
  | Evra evra digest =>
      match rsplit_dot evra with
      | Some (evr, arch) => Ok (MkLocked k evr arch (default ""%string digest))
      | None => glnx_throw ("package " +:+ k +:+ " has malformed evra: " +:+ evra)
      end
  end.
Fixpoint map_outcome {A B} (f : A → outcome B) (l : list A) : outcome (list B) :=
  match l with
  | [] => Ok []
  | a :: l => b ← f a; bs ← map_outcome f l; Ok (b :: bs)
  end.

(** A lockfile is the table from names to locked packages, in the order of the names. *)
Definition LockfileConfig : Type := option (gmap string LockedPackage).
Definition get_locked_packages (lf : LockfileConfig) : outcome (list FfiLockedPackage) :=
  match lf with
  | None => Ok []
  | Some m =>
      map_outcome (λ k, match m !! k with Some v => ffi_locked_package k v | None => Abort end) (bset_iter (dom m))
  end.
(** Entries of later files win. *)
Definition lockfile_merge (self other : LockfileConfig) : LockfileConfig :=
  match other with
  | Some layer => Some (match self with Some base => layer ∪ base | None => layer end)
  | None => self
  end.

(** * The package cache *)

(** A commit of the cache: its metadata, the RPM header under "rpmostree.metadata" and
    whether it is partial. *)
Record PkgCommit := MkPkgCommit { pc_metadata : vardict; pc_header : option string; pc_partial : bool }.

(** libostree on the cache. A revision is looked up with and without an error for a
    missing one. *)
Record PkgcacheRepo := MkPkgcacheRepo {
  pr_resolve_rev_optional : string → result (option string);
  pr_resolve_rev : string → result string;
  pr_load_commit : string → result PkgCommit;
  pr_list_pkg_refs : result (list string);
}.

(** [OstreeSePolicy], by its checksum and name. *)
Record SePolicy := MkSePolicy { sep_csum : option string; sep_name : option string }.

Definition METADATA_SHA256 : string := "rpmostree.metadata_sha256".
Definition REPODATA_CHECKSUM : string := "rpmostree.repodata_checksum".
Definition SEPOLICY : string := "rpmostree.sepolicy".
Definition NODOCS : string := "rpmostree.nodocs".

Definition get_commit_metadata_string (commit : PkgCommit) (key : string) : outcome string :=
  match vardict_lookup_string (pc_metadata commit) key with
  | Some s => Ok s
  | None => g_set_error G_IO_ERROR_NOT_FOUND ("Failed to find metadata key " +:+ key +:+ " (signature s)")
  end.
Definition get_commit_header_sha256 (commit : PkgCommit) : outcome string :=
  get_commit_metadata_string commit METADATA_SHA256.
Definition get_commit_repodata_chksum_repr (commit : PkgCommit) : outcome string :=
  get_commit_metadata_string commit REPODATA_CHECKSUM.
Definition get_pkgcache_repodata_chksum_repr (commit : PkgCommit) (allow_noent : bool) : outcome (option string) :=
  match get_commit_repodata_chksum_repr commit with
  | Ok chksum_repr => Ok (Some chksum_repr)
  | Err e => if bool_decide (err_code e = G_IO_ERROR_NOT_FOUND) && allow_noent then Ok None else Err e
  | Abort => Abort
  end.
Definition commit_has_matching_repodata_chksum_repr (commit : PkgCommit) (expected : string) : outcome bool :=
  chksum_repr ← get_pkgcache_repodata_chksum_repr commit true;
  Ok (match chksum_repr with Some c => bool_decide (expected = c) | None => false end).

(** A value of another type is an error of glib's, which is reported like a missing key. *)
Definition commit_has_matching_sepolicy (type_mismatch : string) (commit : PkgCommit) (policy : SePolicy) :
    outcome bool :=
  match sep_csum policy with
  | None => glnx_throw "SELinux enabled, but no policy found"
  | Some csum =>
      match pc_metadata commit !! SEPOLICY with
      | Some (VString v) => Ok (bool_decide (csum = v))
      | Some _ => glnx_throw type_mismatch
      | None => glnx_throw ("Missing metadata key " +:+ SEPOLICY)
      end
  end.

Section cache.
Context (char_signed : bool) (hy_split_nevra : string → option split_nevra) (type_mismatch : string).

Local Abbreviation cache_branch_pkg := (λ pkg, rpmostree_get_cache_branch_pkg char_signed (pkg_base pkg)).

Definition get_header_variant (repo : PkgcacheRepo) (cachebranch : string) : outcome string :=
  cached_rev ← returned (pr_resolve_rev repo cachebranch);
  commit ← returned (pr_load_commit repo cached_rev);
  match pc_header commit with
  | Some header => Ok header
  | None =>
      glnx_throw ("In commit " +:+ cached_rev +:+ " for "
                  +:+ default cachebranch (cache_branch_to_nevra cachebranch)
                  +:+ ": Missing metadata key rpmostree.metadata")
  end.

Definition rpmostree_pkgcache_find_pkg_header (pkgcache : PkgcacheRepo) (nevra : string)
    (expected_sha256 : option string) : outcome string :=
  cachebranch ← nevra_to_cache_branch hy_split_nevra char_signed nevra;
  _ ← match expected_sha256 with
      | Some expected =>
          commit_csum ← returned (pr_resolve_rev pkgcache cachebranch);
          commit ← returned (pr_load_commit pkgcache commit_csum);
          actual_sha256 ← get_commit_header_sha256 commit;
          throw_if (negb (bool_decide (expected = actual_sha256)))
            ("Checksum mismatch for package " +:+ nevra +:+ ": expected " +:+ expected
             +:+ ", found " +:+ actual_sha256)
      | None => Ok tt
      end;
  get_header_variant pkgcache cachebranch.

(** Whether the package is in the cache, and whether its labels match the policy. *)
Definition find_pkg_in_ostree (repo : option PkgcacheRepo) (treefile : ComposeConfig)
    (sepolicy : option SePolicy) (pkg : Package) : outcome (bool * bool) :=
  let selinux_enabled := get_selinux treefile in
  let selinux_match := negb (nonnull sepolicy) || negb selinux_enabled in
  match repo with
  | None => Ok (false, selinux_match)
  | Some repo =>
      let cachebranch := cache_branch_pkg pkg in
      cached_rev ← returned (pr_resolve_rev_optional repo cachebranch);
      match cached_rev with
      | None => Ok (false, selinux_match)
      | Some cached_rev =>
          prefix_error ("Loading pkgcache branch " +:+ cachebranch) (
            commit ← returned (pr_load_commit repo cached_rev);
            if pc_partial commit then Ok (false, selinux_match) else
            reimport ←
              (if is_locally_cached pkg then Ok false
               else
                 expected_chksum_repr ← get_repodata_chksum_repr pkg;
                 same_pkg_chksum ← commit_has_matching_repodata_chksum_repr commit expected_chksum_repr;
                 if negb same_pkg_chksum then Ok true
                 else Ok (negb (bool_decide (negb (get_documentation treefile)
                                             = vardict_lookup_bool (pc_metadata commit) NODOCS false))));
            if reimport : bool then Ok (false, selinux_match)
            else match sepolicy with
                 | Some policy =>
                     if selinux_enabled then
                       selinux_match ← commit_has_matching_sepolicy type_mismatch commit policy;
                       Ok (true, selinux_match)
                     else Ok (true, selinux_match)
                 | None => Ok (true, selinux_match)
                 end)
      end
  end.

(** ** Sorting the packages of the solution *)

(** What is to be done with each package. *)
Record Sorted := MkSorted {
  pkgs_to_download : list Package;
  pkgs_to_import : list Package;
  pkgs_to_relabel : list Package;
}.
Definition add_if (b : bool) (p : Package) (l : list Package) : list Package := if b then l ++ [p] else l.

Section sorting.
Context (repo : option PkgcacheRepo) (treefile : ComposeConfig) (sepolicy : option SePolicy)
  (is_container : bool) (sources : list DnfRepo) (file_exists : Package → bool).

Definition pkg_is_cached (pkg : Package) : bool := rpmostree_pkg_is_local sources pkg || file_exists pkg.

Fixpoint sort_loop (packages : list Package) (acc : Sorted) : outcome Sorted :=
  match packages with
  | [] => Ok acc
  | pkg :: packages =>
      let cached := pkg_is_cached pkg in
      '(in_ostree, selinux_match) ← find_pkg_in_ostree repo treefile sepolicy pkg;
      _ ← (if is_locally_cached pkg && negb is_container then g_assert in_ostree else Ok tt);
      sort_loop packages
        (MkSorted (add_if (negb in_ostree && negb cached) pkg (pkgs_to_download acc))
                  (add_if (negb in_ostree) pkg (pkgs_to_import acc))
                  (add_if (in_ostree && negb selinux_match) pkg (pkgs_to_relabel acc)))
  end.
Definition sort_packages (packages : list Package) : outcome Sorted :=
  _ ← rpmostree_set_repos_on_packages sources packages;
  sort_loop packages (MkSorted [] [] []).
End sorting.
End cache.

(** * libdnf *)

(** The order of packages is libdnf's. *)
Definition compare_pkgs (dnf_package_cmp : Package → Package → Z) (a b : Package) : Z := dnf_package_cmp a b.
Definition sort_pkgs (dnf_package_cmp : Package → Package → Z) (pkgs : list Package) : list Package :=
  g_ptr_array_sort (compare_pkgs dnf_package_cmp) pkgs.

Lemma sort_pkgs_perm dnf_package_cmp l : sort_pkgs dnf_package_cmp l ≡ₚ l.
Proof. apply g_ptr_array_sort_perm. Qed.

(** The filters of a query: all of them have to match. *)
Inductive QueryFilter :=
  | HY_PKG_NAME (name : string)
  | HY_PKG_EVR (evr : string)
  | HY_PKG_ARCH (arch : string)
  | HY_PKG_REPONAME (repo : string).
(** Versions match if libdnf compares them as equal, with or without an epoch of zero for
    instance. *)
Definition filter_matches (evr_cmp : string → string → Z) (f : QueryFilter) (p : Package) : bool :=
  match f with
  | HY_PKG_NAME name => bool_decide (pkg_name p = name)
  | HY_PKG_EVR evr => bool_decide (evr_cmp (dp_evr (pkg_base p)) evr = 0%Z)
  | HY_PKG_ARCH arch => bool_decide (pkg_arch p = arch)
  | HY_PKG_REPONAME repo => bool_decide (pkg_reponame p = repo)
  end.

Definition HY_SYSTEM_REPO_NAME : string := "@System".

(** A file that looks like an RPM: a header checked out of the cache, or a staged RPM. *)
Inductive RpmFile :=
  | Metarpm (nevra header : string)
  | StagedRpm (sha256 : string).

(** The jobs of the goal. *)
Inductive GoalJob :=
  | JobErase (pkgname : string)
  | JobInstall (pkg : Package)
  | JobInstallSelector (pkgs : list Package)
  | JobInstallSubject (pkgname : string)
  | JobLock (pkg : Package).

(** The answer of the solver, by [DNF_PACKAGE_INFO_*], and what a package obsoletes. *)
Record Solution := MkSolution {
  sol_install : list Package;
  sol_update : list Package;
  sol_downgrade : list Package;
  sol_reinstall : list Package;
  sol_remove : list Package;
  sol_obsolete : list Package;
  sol_obsoleted_by : Package → list Package;
}.

Inductive install_result := Installed | PackageNotFound | InstallFailed (e : gerror).

(** Queries see the packages that are not excluded. [dnf_best_solution] is [None] for what is
    no selector; the packages of its answer are filtered further. *)
Record DnfOps {Sack : Type} := MkDnfOps {
  dnf_setup_sack : list SackFlag → result Sack;
  dnf_considered : Sack → list Package;
  dnf_evr_cmp : string → string → Z;
  dnf_query_run : Sack → list QueryFilter → list Package;
  dnf_best_solution : Sack → string → option (list Package);
  dnf_all_packages : Sack → list Package;
  dnf_add_excludes : Sack → list Package → Sack;
  dnf_add_cmdline_package : Sack → RpmFile → option (Package * Sack);
  dnf_context_remove : Sack → string → result unit;
  dnf_goal_install_selector : Sack → list Package → result unit;
  dnf_context_install : Sack → string → install_result;
  dnf_goal_lock : Sack → Package → result unit;
  dnf_goal_depsolve : Sack → list GoalJob → bool → result Solution;
}.
Arguments DnfOps : clear implicits.
Arguments MkDnfOps {_}.

(** What libdnf documents of sacks and queries: a query gives the packages that are
    considered and match, excluded packages are not considered, and a package of the
    command line is considered after it was added. *)
Class DnfSack {Sack} (dops : DnfOps Sack) := {
  dnf_query_spec sack fs p :
    p ∈ dnf_query_run dops sack fs ↔ p ∈ dnf_considered dops sack ∧
      Forall (λ f, filter_matches (dnf_evr_cmp dops) f p = true) fs;
  dnf_all_spec sack p : p ∈ dnf_considered dops sack → p ∈ dnf_all_packages dops sack;
  dnf_excludes_spec sack ps p :
    p ∈ dnf_considered dops (dnf_add_excludes dops sack ps) ↔ p ∈ dnf_considered dops sack ∧ p ∉ ps;
  dnf_cmdline_spec sack file pkg sack' p :
    dnf_add_cmdline_package dops sack file = Some (pkg, sack') →
    p ∈ dnf_considered dops sack' ↔ p ∈ dnf_considered dops sack ∨ p = pkg;
}.

(** * Checking the solution *)

Definition throw_package_list {A} (prefix : string) (pkgs : list string) : outcome A :=
  glnx_throw (prefix +:+ ": " +:+ String.concat ", " pkgs).

(** The packages that are removed, by name, and the NEVRAs of those nobody asked for. *)
Fixpoint collect_removals (removed_pkgnames : list string) (packages : list Package)
    (acc : gmap string GvNevra * list string) : gmap string GvNevra * list string :=
  match packages with
  | [] => acc
  | pkg :: packages =>
      collect_removals removed_pkgnames packages
        (if rpmostree_str_ptrarray_contains removed_pkgnames (pkg_name pkg)
         then (<[pkg_name pkg := gv_nevra_from_pkg pkg]> acc.1, acc.2)
         else (acc.1, acc.2 ++ [pkg_nevra pkg]))
  end.

(** The names to replace by their source, and the entries of the table in some order. *)
Abbreviation Replaced := (gmap string (gset string)).
Definition get_pkgname_source (ht_order : Replaced → list (string * gset string))
    (replaced_pkgnames : Replaced) (pkgname : string) : option string :=
  fst <$> find (λ '(_, pkgnames), bool_decide (pkgname ∈ (pkgnames : gset string))) (ht_order replaced_pkgnames).

Abbreviation Replacements := (gmap string (gmap GvNevra GvNevra)).
Definition add_replacement (source : string) (new old : GvNevra) (rs : Replacements) : Replacements :=
  <[source := <[new := old]> (default ∅ (rs !! source))]> rs.

(** The replacements that were asked for, by source, and whether there are others. *)
Fixpoint collect_replacements (source_of : string → option string) (obsoleted_by : Package → list Package)
    (packages : list Package) (acc : Replacements * list (Package * Package)) :
    outcome (Replacements * list (Package * Package)) :=
  match packages with
  | [] => Ok acc
  | pkg :: packages =>
      let old := obsoleted_by pkg in
      _ ← g_assert (negb (bool_decide (old = [])));
      match find (λ old_pkg, bool_decide (pkg_name old_pkg = pkg_name pkg)) old with
      | None =>
          glnx_throw ("Package " +:+ pkg_nevra pkg +:+ " doesn't replace a package of the same name")
      | Some replaced_pkg =>
          collect_replacements source_of obsoleted_by packages
            (match source_of (pkg_name pkg) with
             | Some source =>
                 (add_replacement source (gv_nevra_from_pkg pkg) (gv_nevra_from_pkg replaced_pkg) acc.1, acc.2)
             | None => (acc.1, acc.2 ++ [(replaced_pkg, pkg)])
             end)
      end
  end.

(** [self->pkgs_to_remove] and [self->pkgs_to_replace]. *)
Definition check_goal_solution (source_of : string → option string) (removed_pkgnames : list string)
    (sol : Solution) : outcome (gmap string GvNevra * Replacements) :=
  let '(pkgs_to_remove, forbidden) := collect_removals removed_pkgnames (sol_remove sol ++ sol_obsolete sol) (∅, []) in
  _ ← (if bool_decide (forbidden = []) then Ok tt
       else throw_package_list "Base packages would be removed" forbidden);
  let not_removed := filter (λ n, pkgs_to_remove !! n = None) removed_pkgnames in
  _ ← (if bool_decide (not_removed = []) then Ok tt
       else throw_package_list "Base packages not marked to be removed" not_removed);
  _ ← (if bool_decide (sol_reinstall sol = []) then Ok tt
       else glnx_throw ("Request to reinstall exact base package versions: "
                        +:+ String.concat " " (pkg_name <$> sol_reinstall sol)));
  '(pkgs_to_replace, forbidden_replacements) ←
    collect_replacements source_of (sol_obsoleted_by sol) (sol_update sol ++ sol_downgrade sol) (∅, []);
  if bool_decide (forbidden_replacements = []) then Ok (pkgs_to_remove, pkgs_to_replace)
  else glnx_throw "Some base packages would be replaced".

(** * Preparing *)

(** [RpmOstreeContextDnfCachePolicy] and the age of the cache it stands for, a [guint]. *)
Inductive CachePolicy :=
  | RPMOSTREE_CONTEXT_DNF_CACHE_FOREVER
  | RPMOSTREE_CONTEXT_DNF_CACHE_DEFAULT
  | RPMOSTREE_CONTEXT_DNF_CACHE_NEVER.
Definition G_MAXUINT : Z := 2 ^ 32 - 1.
Definition cache_age (policy : CachePolicy) : Z :=
  match policy with
  | RPMOSTREE_CONTEXT_DNF_CACHE_FOREVER => G_MAXUINT
  | RPMOSTREE_CONTEXT_DNF_CACHE_DEFAULT => G_MAXUINT - 1
  | RPMOSTREE_CONTEXT_DNF_CACHE_NEVER => 0
  end.

(** What does not change during [rpmostree_context_prepare]; the environment variable
    [DOWNLOAD_FILELISTS] is among it, and whether the context was prepared before. *)
Record ContextConf := MkContextConf {
  cx_is_container : bool;
  cx_treefile : ComposeConfig;
  cx_empty : bool;
  cx_pkgcache_only : bool;
  cx_pkgcache : option PkgcacheRepo;
  cx_sources : list DnfRepo;
  cx_sepolicy : option SePolicy;
  cx_lockfile : option LockfileConfig;
  cx_lockfile_strict : bool;
  cx_tmpdir : result unit;
  cx_write_header : string → result unit;
  cx_env_download_filelists : option string;
  cx_file_exists : Package → bool;
  cx_cache_policy : CachePolicy;
  cx_repo_check : string → Z → bool;
  cx_repo_update : string → result unit;
  cx_prepared : bool;
}.

(** The sack and the goal of the [DnfContext] and the headers in the temporary directory. *)
Record PrepareState {Sack : Type} := MkPrepareState {
  st_sack : option Sack;
  st_goal : list GoalJob;
  st_metarpm : gmap string string;
  st_filelists_exist : bool;
}.
Arguments PrepareState : clear implicits.
Arguments MkPrepareState {_}.

Definition set_st_sack {Sack} (sack : Sack) (s : PrepareState Sack) : PrepareState Sack :=
  MkPrepareState (Some sack) (st_goal s) (st_metarpm s) (st_filelists_exist s).
Definition add_st_job {Sack} (job : GoalJob) (s : PrepareState Sack) : PrepareState Sack :=
  MkPrepareState (st_sack s) (st_goal s ++ [job]) (st_metarpm s) (st_filelists_exist s).
Definition set_st_metarpm {Sack} (m : gmap string string) (s : PrepareState Sack) : PrepareState Sack :=
  MkPrepareState (st_sack s) (st_goal s) m (st_filelists_exist s).
Definition set_st_filelists_exist {Sack} (s : PrepareState Sack) : PrepareState Sack :=
  MkPrepareState (st_sack s) (st_goal s) (st_metarpm s) true.

(** What the context holds after preparing. *)
Record Prepared := MkPrepared {
  pp_pkgs : list Package;
  pp_sorted : Sorted;
  pp_pkgs_to_remove : gmap string GvNevra;
  pp_pkgs_to_replace : Replacements;
  pp_fileoverride_pkgs : gset string;
}.

Inductive cevent :=
  | RepoUpdated (id : string)
  | SackSetUp (flags : list SackFlag)
  | HeaderWritten (nevra : string)
  | LockedMissing (name evr arch : string).

Section prepare.
Context (char_signed : bool) (hy_split_nevra : string → option split_nevra) (type_mismatch : string)
  (validate_checksum : string → outcome unit) {Sack : Type} (dops : DnfOps Sack)
  (ht_order : Replaced → list (string * gset string))
  (local_order : gmap string Package → list Package)
  (cx : ContextConf).

Local Abbreviation M := (prog cevent (PrepareState Sack)).

(** [dnf_context_get_sack]; the sack is there after it was set up. *)
Definition get_sack : M Sack :=
  s ← get_self; match st_sack s with Some sack => mret sack | None => lift Abort end.
Definition add_job (job : GoalJob) : M unit := modify (add_st_job job).
Definition add_excludes (ps : list Package) : M unit :=
  sack ← get_sack; modify (set_st_sack (dnf_add_excludes dops sack ps)).

(** ** Metadata *)

Definition update_repo (repo : DnfRepo) : M unit :=
  if cx_repo_check cx (repo_id repo) (cache_age (cx_cache_policy cx)) then mret tt
  else on_error ("Updating rpm-md repo '" +:+ repo_id repo +:+ "'")
         (performs (RepoUpdated (repo_id repo)) (cx_repo_update cx (repo_id repo))).
Definition setup_sack (flags : list SackFlag) : M unit :=
  sack ← performs (SackSetUp flags) (dnf_setup_sack dops flags);
  modify (set_st_sack sack).
Definition rpmostree_context_download_metadata (flags : list SackFlag) : M unit :=
  _ ← lift (g_assert (negb (cx_empty cx)));
  let rpmmd_repos := rpmostree_get_enabled_rpmmd_repos (cx_sources cx) DNF_REPO_ENABLED_PACKAGES in
  if cx_pkgcache_only cx then
    _ ← lift (g_assert (bool_decide (rpmmd_repos = [])));
    setup_sack flags
  else
    _ ← for_each update_repo rpmmd_repos;
    setup_sack flags.

(** ** Packages of the cache *)

Definition checkout_pkg_metadata (nevra header : string) : M unit :=
  _ ← call (cx_tmpdir cx);
  s ← get_self;
  match st_metarpm s !! nevra with
  | Some _ => mret tt
  | None =>
      _ ← performs (HeaderWritten nevra) (cx_write_header cx nevra);
      modify (set_st_metarpm (<[nevra := header]> (st_metarpm s)))
  end.
Definition checkout_pkg_metadata_by_nevra (nevra sha256 : string) : M unit :=
  match cx_pkgcache cx with
  | None => lift Abort
  | Some repo =>
      header ← lift (rpmostree_pkgcache_find_pkg_header char_signed hy_split_nevra repo nevra (Some sha256));
      checkout_pkg_metadata nevra header
  end.
(** The file "metarpm/NEVRA.rpm" as it is now. *)
Definition metarpm_file (nevra : string) : M RpmFile :=
  s ← get_self; mret (Metarpm nevra (default ""%string (st_metarpm s !! nevra))).

Definition add_pkg_from_cache (nevra sha256 : string) : M Package :=
  rpm ← (if cx_is_container cx then mret (StagedRpm sha256)
         else _ ← checkout_pkg_metadata_by_nevra nevra sha256; metarpm_file nevra);
  sack ← get_sack;
  match dnf_add_cmdline_package dops sack rpm with
  | None => lift (glnx_throw ("Failed to add local pkg " +:+ nevra +:+ " to sack; check for warnings"))
  | Some (pkg, sack') =>
      _ ← modify (set_st_sack sack');
      _ ← lift (throw_if (cx_is_container cx && negb (bool_decide (nevra = pkg_nevra pkg)))
                  ("NEVRA mismatch: expected " +:+ nevra +:+ ", found " +:+ pkg_nevra pkg));
      mret pkg
  end.

(** A checksum-prefixed NEVRA, and its package. *)
Definition add_local_pkg (nevra_v : string) : M (string * Package) :=
  '(nevra, sha256) ← lift (rpmostree_decompose_sha256_nevra validate_checksum nevra_v);
  pkg ← add_pkg_from_cache nevra sha256;
  mret (nevra, pkg).
Fixpoint add_local_pkgs (nevras : list string) : M (list (string * Package)) :=
  match nevras with
  | [] => mret []
  | nevra_v :: nevras => np ← add_local_pkg nevra_v; nps ← add_local_pkgs nevras; mret (np :: nps)
  end.

Definition add_remaining_pkg (repo : PkgcacheRepo) (already_added : gmap string Package) (ref : string) : M unit :=
  match cache_branch_to_nevra ref with
  | None => lift Abort
  | Some nevra =>
      if nonnull (already_added !! nevra) then mret tt
      else
        header ← lift (get_header_variant repo ref);
        _ ← checkout_pkg_metadata nevra header;
        rpm ← metarpm_file nevra;
        sack ← get_sack;
        match dnf_add_cmdline_package dops sack rpm with
        | None => lift (glnx_throw ("Failed to add local pkg " +:+ nevra +:+ " to sack"))
        | Some (_, sack') => modify (set_st_sack sack')
        end
  end.
Definition add_remaining_pkgcache_pkgs (already_added : gmap string Package) : M unit :=
  match cx_pkgcache cx with
  | None => lift Abort
  | Some repo =>
      _ ← lift (g_assert (cx_pkgcache_only cx));
      refs ← call (pr_list_pkg_refs repo);
      for_each (add_remaining_pkg repo already_added) refs
  end.

(** ** Lockfiles *)

Definition locked_filters (pkg : FfiLockedPackage) : list QueryFilter :=
  [HY_PKG_NAME (lp_name pkg); HY_PKG_EVR (lp_evr pkg)]
  ++ (if bool_decide (lp_arch pkg = ""%string) then [] else [HY_PKG_ARCH (lp_arch pkg)]).
(** The matches with the right checksum. *)
Fixpoint digest_matches (digest : string) (matches : list Package) : outcome (list Package) :=
  match matches with
  | [] => Ok []
  | p :: matches =>
      if bool_decide (digest = ""%string) then rest ← digest_matches digest matches; Ok (p :: rest)
      else
        repodata_chksum ← get_repodata_chksum_repr p;
        rest ← digest_matches digest matches;
        Ok (if bool_decide (digest = repodata_chksum) then p :: rest else rest)
  end.
Fixpoint find_locked_loop (locked : list FfiLockedPackage) : M (list Package) :=
  match locked with
  | [] => mret []
  | pkg :: locked =>
      sack ← get_sack;
      found ← lift (digest_matches (lp_digest pkg) (dnf_query_run dops sack (locked_filters pkg)));
      _ ← when (bool_decide (found = []))
            (perform (LockedMissing (lp_name pkg) (lp_evr pkg) (lp_arch pkg)) (Ok tt));
      rest ← find_locked_loop locked;
      mret (found ++ rest)
  end.
Definition find_locked_packages (lockfile : LockfileConfig) : M (list Package) :=
  locked_pkgs ← lift (get_locked_packages lockfile);
  find_locked_loop locked_pkgs.

Definition subtract (ps qs : list Package) : list Package := filter (λ p, p ∉ qs) ps.

Definition exclude_repo (locked : list Package) (repo : string) : M unit :=
  sack ← get_sack;
  add_excludes (subtract (dnf_query_run dops sack [HY_PKG_REPONAME repo]) locked).
Fixpoint named_packages (sack : Sack) (locked : list FfiLockedPackage) : list Package :=
  match locked with
  | [] => []
  | pkg :: locked => dnf_query_run dops sack [HY_PKG_NAME (lp_name pkg)] ++ named_packages sack locked
  end.
Definition apply_lockfile (lockfile : LockfileConfig) : M unit :=
  locked ← find_locked_packages lockfile;
  if cx_lockfile_strict cx then
    sack ← get_sack;
    add_excludes (subtract (dnf_all_packages dops sack) locked)
  else
    _ ← for_each (exclude_repo locked) (get_lockfile_repos (cx_treefile cx));
    locked_pkgs ← lift (get_locked_packages lockfile);
    sack ← get_sack;
    add_excludes (subtract (named_packages sack locked_pkgs) locked).

(** ** The whole *)

Definition env_true (v : option string) : bool :=
  match v with Some v => bool_decide (to_ascii_lowercase v = "true"%string) | None => false end.
(** The file lists are needed for requests by path. *)
Definition ensure_sack (enable_filelists : bool) (packages : list string) : M unit :=
  s ← get_self;
  match st_sack s with
  | Some _ => mret tt
  | None =>
      let all := env_true (cx_env_download_filelists cx) || enable_filelists in
      let paths := existsb has_slash packages in
      _ ← when (negb all && paths) (modify set_st_filelists_exist);
      rpmostree_context_download_metadata
        (if all || paths then [LOAD_UPDATEINFO] else [LOAD_UPDATEINFO; SKIP_FILELISTS])
  end.

Definition exclude_name (pkgname : string) : M unit :=
  sack ← get_sack; add_excludes (dnf_query_run dops sack [HY_PKG_NAME pkgname]).
Definition remove_name (pkgname : string) : M unit :=
  sack ← get_sack;
  _ ← call (dnf_context_remove dops sack pkgname);
  add_job (JobErase pkgname).
Definition install_selector (pset : list Package) : M unit :=
  sack ← get_sack;
  _ ← call (dnf_goal_install_selector dops sack pset);
  add_job (JobInstallSelector pset).

(** [repo_packages]. *)
Definition install_from_repo (repo pkg : string) : M unit :=
  sack ← get_sack;
  match dnf_best_solution dops sack pkg with
  | None => lift (glnx_throw ("Failed to parse selector: " +:+ pkg))
  | Some found =>
      let pset := filter (λ p, filter_matches (dnf_evr_cmp dops) (HY_PKG_REPONAME repo) p = true) found in
      _ ← lift (throw_if (bool_decide (pset = []))
                  ("No matches for '" +:+ pkg +:+ "' in repo '" +:+ repo +:+ "'"));
      install_selector pset
  end.
Definition install_repo_packages (rp : string * list string) : M unit :=
  for_each (install_from_repo rp.1) rp.2.

(** A remote replacement, by name. *)
Definition replace_from_repo (repo pkgname : string) : M unit :=
  sack ← get_sack;
  let pset := dnf_query_run dops sack [HY_PKG_REPONAME repo; HY_PKG_NAME pkgname] in
  _ ← lift (throw_if (bool_decide (pset = []))
              ("No matches for '" +:+ pkgname +:+ "' in repo '" +:+ repo +:+ "'"));
  install_selector pset.
Definition replace_packages (rp : string * list string) : M unit := for_each (replace_from_repo rp.1) rp.2.
(** The table of the names to replace. *)
Definition add_replaced (rp : string * list string) (t : Replaced) : Replaced :=
  let from := "repo=" +:+ rp.1 in
  <[from := list_to_set rp.2 ∪ default ∅ (t !! from)]> t.

(** The names no package was found for. *)
Fixpoint install_names (names : list string) : M (list string) :=
  match names with
  | [] => mret []
  | pkgname :: names =>
      sack ← get_sack;
      match dnf_context_install dops sack pkgname with
      | Installed => _ ← add_job (JobInstallSubject pkgname); install_names names
      | PackageNotFound => missing ← install_names names; mret (pkgname :: missing)
      | InstallFailed e => lift (Err e)
      end
  end.

Definition lock_base_pkg (removed_pkgnames : list string) (replaced_pkgnames : Replaced) (pkg : Package) : M unit :=
  if rpmostree_str_ptrarray_contains removed_pkgnames (pkg_name pkg)
     || nonnull (get_pkgname_source ht_order replaced_pkgnames (pkg_name pkg))
  then mret tt
  else
    sack ← get_sack;
    _ ← on_error ("while locking pkg '" +:+ pkg_name pkg +:+ "'") (call (dnf_goal_lock dops sack pkg));
    add_job (JobLock pkg).

(** The jobs: [removed_pkgnames] and the table of replaced names. *)
Definition build_goal (local_pkgs : gmap string Package) (local_replaced : gset string) :
    M (list string * Replaced) :=
  let tf := cf_derive (cx_treefile cx) in
  _ ← match cx_lockfile cx with Some lockfile => apply_lockfile lockfile | None => mret tt end;
  _ ← for_each exclude_name (get_exclude_packages (cx_treefile cx));
  let removed_pkgnames := get_packages_override_remove tf in
  _ ← for_each remove_name removed_pkgnames;
  _ ← for_each (λ pkg, add_job (JobInstall pkg)) (local_order local_pkgs);
  _ ← for_each install_repo_packages (get_repo_packages (cx_treefile cx));
  let overrides := get_packages_override_replace tf in
  _ ← for_each replace_packages overrides;
  let replaced_pkgnames := foldl (λ t rp, add_replaced rp t) {[""%string := local_replaced]} overrides in
  missing ← install_names (get_packages tf);
  _ ← (if bool_decide (missing = []) then mret tt
       else lift (throw_package_list "Packages not found" missing));
  sack ← get_sack;
  _ ← for_each (lock_base_pkg removed_pkgnames replaced_pkgnames)
        (dnf_query_run dops sack [HY_PKG_REPONAME HY_SYSTEM_REPO_NAME]);
  mret (removed_pkgnames, replaced_pkgnames).

(** The assertions on what lockfiles and containers do not support. *)
Definition check_supported : outcome unit :=
  let tf := cf_derive (cx_treefile cx) in
  _ ← (if nonnull (cx_lockfile cx) then
         g_assert (bool_decide (get_local_packages tf = [])
                   && bool_decide (get_local_fileoverride_packages tf = [])
                   && bool_decide (get_packages_override_replace_local tf = [])
                   && bool_decide (get_packages_override_remove tf = []))
       else Ok tt);
  if cx_is_container cx then
    g_assert (bool_decide (get_local_fileoverride_packages tf = [])
              && bool_decide (get_exclude_packages (cx_treefile cx) = []))
  else Ok tt.

Definition rpmostree_context_prepare (enable_filelists : bool) : M Prepared :=
  _ ← lift (g_assert (negb (cx_empty cx)));
  let tf := cf_derive (cx_treefile cx) in
  _ ← lift check_supported;
  _ ← ensure_sack enable_filelists (get_packages tf);
  replace_local ← add_local_pkgs (get_packages_override_replace_local tf);
  local ← add_local_pkgs (get_local_packages tf);
  fileoverride ← add_local_pkgs (get_local_fileoverride_packages tf);
  let local_pkgs := foldl (λ m np, <[np.1 := np.2]> m) ∅ (replace_local ++ local ++ fileoverride) in
  _ ← when (cx_pkgcache_only cx) (add_remaining_pkgcache_pkgs local_pkgs);
  '(removed_pkgnames, replaced_pkgnames) ← build_goal local_pkgs (list_to_set (pkg_name <$> replace_local.*2));
  sack ← get_sack;
  s ← get_self;
  sol ← call (dnf_goal_depsolve dops sack (st_goal s) (get_recommends (cx_treefile cx)));
  _ ← lift (g_assert (negb (cx_prepared cx)));
  '(pkgs_to_remove, pkgs_to_replace) ←
    lift (check_goal_solution (get_pkgname_source ht_order replaced_pkgnames) removed_pkgnames sol);
  let pkgs := sol_install sol ++ sol_update sol ++ sol_downgrade sol in
  sorted ← lift (prefix_error "Sorting packages"
                   (sort_packages char_signed type_mismatch (cx_pkgcache cx) (cx_treefile cx) (cx_sepolicy cx)
                      (cx_is_container cx) (cx_sources cx) (cx_file_exists cx) pkgs));
  mret (MkPrepared pkgs sorted pkgs_to_remove pkgs_to_replace (list_to_set fileoverride.*1)).
End prepare.
