(* ===== verification/CoreSpec.v ===== *)
(** What preparing a package transaction guarantees: the solver's answer changes only the
    base packages that were to change, its job asks for what the treefile asks for, lockfiles
    are kept to, and the packages are sorted by what the cache holds of them. *)

From S2P Require Import Prelude Vardict Nevra RpmHeaders Deploy SysrootCore Refspec Origin OriginFile OriginApi Upgrader DeployRun Core.

(** * Sorting *)

Section sorting.
Context (char_signed : bool) (type_mismatch : string) (repo : option PkgcacheRepo) (treefile : ComposeConfig)
  (sepolicy : option SePolicy) (is_container : bool) (sources : list DnfRepo) (file_exists : Package → bool).

Local Abbreviation find_pkg := (find_pkg_in_ostree char_signed type_mismatch repo treefile sepolicy).
Local Abbreviation sort := (sort_packages char_signed type_mismatch repo treefile sepolicy is_container
  sources file_exists).

(** The cache holds a complete import of the package: from the same RPM and with the same
    documentation, unless it is a local package. *)
Definition cached_copy (pkg : Package) (commit : PkgCommit) : Prop :=
  ∃ r rev, repo = Some r ∧
    pr_resolve_rev_optional r (rpmostree_get_cache_branch_pkg char_signed (pkg_base pkg)) = Done (Some rev) ∧
    pr_load_commit r rev = Done commit ∧ pc_partial commit = false ∧
    (is_locally_cached pkg = false →
     ∃ chksum, get_repodata_chksum_repr pkg = Ok chksum ∧
       vardict_lookup_string (pc_metadata commit) REPODATA_CHECKSUM = Some chksum ∧
       vardict_lookup_bool (pc_metadata commit) NODOCS false = negb (get_documentation treefile)).
Definition labelled (commit : PkgCommit) : Prop :=
  ∀ policy, sepolicy = Some policy → get_selinux treefile = true →
    ∃ csum, sep_csum policy = Some csum ∧ pc_metadata commit !! SEPOLICY = Some (VString csum).

Lemma matching_chksum commit expected :
  commit_has_matching_repodata_chksum_repr commit expected = Ok true →
  vardict_lookup_string (pc_metadata commit) REPODATA_CHECKSUM = Some expected.
Proof.
  unfold commit_has_matching_repodata_chksum_repr, get_pkgcache_repodata_chksum_repr,
    get_commit_repodata_chksum_repr, get_commit_metadata_string.
  destruct (vardict_lookup_string _ _); simpl; [|done]. intros [= ->%bool_decide_eq_true]. done.
Qed.

Lemma matching_sepolicy commit policy :
  commit_has_matching_sepolicy type_mismatch commit policy = Ok true →
  ∃ csum, sep_csum policy = Some csum ∧ pc_metadata commit !! SEPOLICY = Some (VString csum).
Proof.
  unfold commit_has_matching_sepolicy. destruct (sep_csum policy) as [csum|]; [|done].
  destruct (pc_metadata commit !! SEPOLICY) as [[]|]; try done. intros [= ->%bool_decide_eq_true]. eauto.
Qed.

Lemma find_pkg_cached pkg selinux_match : find_pkg pkg = Ok (true, selinux_match) →
  ∃ commit, cached_copy pkg commit ∧ (selinux_match = true → labelled commit).
Proof.
  unfold find_pkg_in_ostree. destruct repo as [r|] eqn:Hr; [|done].
  intros (rev & Hrev%returned_ok & H)%bind_ok. destruct rev as [rev|]; [|done].
  apply prefix_error_ok, bind_ok in H as (commit & Hc%returned_ok & H). destruct (pc_partial commit) eqn:Hp; [done|].
  apply bind_ok in H as (reimport & Hre & H). destruct reimport; [done|].
  exists commit. split.
  - exists r, rev. split_and!; [done..|].
    intros Hl. rewrite Hl in Hre. apply bind_ok in Hre as (chksum & Hchk & Hre).
    apply bind_ok in Hre as (same & Hsame & Hre). destruct same; [|done].
    apply matching_chksum in Hsame. simpl in Hre.
    injection Hre as Hd%negb_false_iff%bool_decide_eq_true. eauto.
  - intros ->. intros policy -> Hs. rewrite Hs in H.
    apply bind_ok in H as (m & Hm & [= ->]). by apply matching_sepolicy.
Qed.

Local Abbreviation sort_loop := (sort_loop char_signed type_mismatch repo treefile sepolicy is_container
  sources file_exists).

(** The answer of [find_pkg_in_ostree] for the packages that were sorted. *)
Definition in_ostree (p : Package) : bool := (from_ok (false, false) (find_pkg p)).1.
Definition selinux_match (p : Package) : bool := (from_ok (false, false) (find_pkg p)).2.

Lemma add_if_filter (f : Package → bool) p l pkgs :
  add_if (f p) p l ++ filter (λ p, f p = true) pkgs = l ++ filter (λ p, f p = true) (p :: pkgs).
Proof.
  rewrite filter_cons. unfold add_if. destruct (f p); simpl; [|done]. by rewrite <-app_assoc.
Qed.

Lemma sort_loop_spec pkgs acc s : sort_loop pkgs acc = Ok s →
  Forall (λ p, is_ok (find_pkg p) = true ∧
    (is_locally_cached p = true → is_container = false → in_ostree p = true)) pkgs ∧
  pkgs_to_download s = pkgs_to_download acc
    ++ filter (λ p, negb (in_ostree p) && negb (pkg_is_cached sources file_exists p) = true) pkgs ∧
  pkgs_to_import s = pkgs_to_import acc ++ filter (λ p, negb (in_ostree p) = true) pkgs ∧
  pkgs_to_relabel s = pkgs_to_relabel acc ++ filter (λ p, in_ostree p && negb (selinux_match p) = true) pkgs.
Proof.
  revert acc. induction pkgs as [|p pkgs IH]; intros acc.
  { intros [= <-]. rewrite !filter_nil, !app_nil_r. by split_and!. }
  cbn [Core.sort_loop]. intros ([i m] & Hf & H)%bind_ok. apply bind_ok in H as ([] & Ha & H).
  destruct (IH _ H) as (HF & -> & -> & ->). cbn [pkgs_to_download pkgs_to_import pkgs_to_relabel].
  assert (in_ostree p = i ∧ selinux_match p = m) as [Ei Em].
  { unfold in_ostree, selinux_match. by rewrite Hf. }
  split_and!.
  - constructor; [|done]. split; [by rewrite Hf|]. intros Hl Hc. rewrite Hl, Hc in Ha. simpl in Ha.
    unfold g_assert in Ha. rewrite Ei. by destruct i.
  - rewrite <-(add_if_filter (λ p, negb (in_ostree p) && negb (pkg_is_cached sources file_exists p))). by rewrite Ei.
  - rewrite <-(add_if_filter (λ p, negb (in_ostree p))). by rewrite Ei.
  - rewrite <-(add_if_filter (λ p, in_ostree p && negb (selinux_match p))). by rewrite Ei, Em.
Qed.

(** Sorting the packages of a solution: one that is not to be imported has a complete
    import of the same RPM and documentation state in the cache, with the labels of the
    policy unless it is to be relabelled; exactly the imports without a file are downloaded,
    nothing is both imported and relabelled, and local packages are never imported outside of
    containers. *)
Theorem sort_packages_spec pkgs s : sort pkgs = Ok s →
  (∀ p, p ∈ pkgs → p ∉ pkgs_to_import s →
     ∃ commit, cached_copy p commit ∧ (p ∉ pkgs_to_relabel s → labelled commit)) ∧
  (∀ p, p ∈ pkgs_to_download s ↔ p ∈ pkgs_to_import s ∧ pkg_is_cached sources file_exists p = false) ∧
  (∀ p, p ∈ pkgs_to_import s → p ∈ pkgs ∧ p ∉ pkgs_to_relabel s) ∧
  (∀ p, p ∈ pkgs_to_import s → is_locally_cached p = true → is_container = true).
Proof.
  intros (_ & _ & (HF & -> & -> & ->)%sort_loop_spec)%bind_ok. rewrite Forall_forall in HF.
  cbn [app pkgs_to_import pkgs_to_download pkgs_to_relabel].
  split_and!.
  - intros p Hp Hi. destruct (HF p Hp) as [Hok _].
    rewrite list_elem_of_filter in Hi. setoid_rewrite list_elem_of_filter.
    destruct (find_pkg p) as [[i m]| |] eqn:Ef; try done.
    assert (in_ostree p = i ∧ selinux_match p = m) as [Ei Em].
    { unfold in_ostree, selinux_match. by rewrite Ef. }
    rewrite Ei, Em in *. destruct i; [|naive_solver]. apply find_pkg_cached in Ef as (commit & Hc & Hm).
    exists commit. split; [done|]. intros Hr. apply Hm. destruct m; [done|]. naive_solver.
  - intros p. rewrite !list_elem_of_filter, andb_true_iff, !negb_true_iff. naive_solver.
  - intros p. rewrite !list_elem_of_filter, negb_true_iff, andb_true_iff. intros [Hi Hp].
    split; [done|]. intros [[Ht _] _]. congruence.
  - intros p. rewrite list_elem_of_filter, negb_true_iff. intros [Hi Hp] Hl.
    destruct (HF p Hp) as [_ Hc]. destruct is_container; [done|]. rewrite Hc in Hi; done.
Qed.
End sorting.

(** * The solution *)

Lemma collect_removals_spec names pkgs acc r : collect_removals names pkgs acc = r → r.2 = [] →
  acc.2 = [] ∧ (∀ p, p ∈ pkgs → pkg_name p ∈ names) ∧
  (∀ p, p ∈ pkgs → is_Some (r.1 !! pkg_name p)) ∧ (∀ n, is_Some (acc.1 !! n) → is_Some (r.1 !! n)) ∧
  (∀ n g, r.1 !! n = Some g → acc.1 !! n = Some g ∨ ∃ p, p ∈ pkgs ∧ pkg_name p = n ∧ g = gv_nevra_from_pkg p).
Proof.
  intros <-. revert acc. induction pkgs as [|p pkgs IH]; intros acc; cbn [collect_removals].
  { intros ?. split_and!; try done; [by intros ? ?%elem_of_nil..|by left]. }
  intros Hr. destruct (IH _ Hr) as (Hacc & Hn & Hin & Hmono & Hval). clear IH.
  unfold rpmostree_str_ptrarray_contains in *. destruct (decide (pkg_name p ∈ names)) as [Hp|Hp].
  2: { rewrite bool_decide_eq_false_2 in Hacc by done. by destruct (acc.2). }
  rewrite bool_decide_eq_true_2 in * by done. cbn [fst snd] in *. split_and!.
  - done.
  - by intros q [->|?]%elem_of_cons; auto.
  - intros q [->|?]%elem_of_cons; [|auto]. apply Hmono. rewrite lookup_insert_eq. eauto.
  - intros n [g Hg]. apply Hmono. destruct (decide (n = pkg_name p)) as [->|].
    + rewrite lookup_insert_eq. eauto.
    + rewrite lookup_insert_ne by done. eauto.
  - intros n g Hg. destruct (Hval n g Hg) as [H|(q & Hq & <- & ->)].
    + apply lookup_insert_Some in H as [[<- <-]|[_ ?]]; [right|by left].
      exists p. split; [left|done].
    + right. exists q. split; [by right|done].
Qed.

(** The package replaces a base package of its name. *)
Definition replaces (obsoleted_by : Package → list Package) (p old : Package) : Prop :=
  old ∈ obsoleted_by p ∧ pkg_name old = pkg_name p.
Definition recorded (rs : Replacements) (source : string) (new old : GvNevra) : Prop :=
  ∃ m, rs !! source = Some m ∧ m !! new = Some old.

Lemma add_replacement_recorded source new old rs source' new' old' :
  recorded (add_replacement source new old rs) source' new' old' ↔
  (source' = source ∧ new' = new ∧ old' = old) ∨
  (¬ (source' = source ∧ new' = new) ∧ recorded rs source' new' old').
Proof.
  unfold recorded, add_replacement. destruct (decide (source' = source)) as [->|Hs].
  - rewrite lookup_insert_eq. destruct (decide (new' = new)) as [->|Hn].
    + split; [intros (m & [= <-] & Hm)|intros [(_ & _ & ->)|[Hno _]]].
      * rewrite lookup_insert_eq in Hm. naive_solver.
      * eexists. by rewrite lookup_insert_eq.
      * by destruct Hno.
    + split; [intros (m & [= <-] & Hm)|intros [(_ & ? & _)|(_ & m & Hm & Hn')]].
      * rewrite lookup_insert_ne in Hm by done. right. split; [naive_solver|].
        destruct (rs !! source) as [m|]; simpl in Hm; [eauto|by rewrite lookup_empty in Hm].
      * done.
      * eexists. split; [done|]. rewrite lookup_insert_ne by done. by rewrite Hm.
  - rewrite lookup_insert_ne by done. naive_solver.
Qed.

Lemma collect_replacements_spec source_of obs pkgs acc r :
  collect_replacements source_of obs pkgs acc = Ok r → r.2 = [] →
  acc.2 = [] ∧
  (∀ p, p ∈ pkgs → ∃ old source, replaces obs p old ∧ source_of (pkg_name p) = Some source ∧
     ∃ old', recorded r.1 source (gv_nevra_from_pkg p) old') ∧
  (∀ source new old, recorded acc.1 source new old → ∃ old', recorded r.1 source new old') ∧
  (∀ source new old, recorded r.1 source new old → recorded acc.1 source new old ∨
     ∃ p q, p ∈ pkgs ∧ replaces obs p q ∧ source_of (pkg_name p) = Some source ∧
       new = gv_nevra_from_pkg p ∧ old = gv_nevra_from_pkg q).
Proof.
  revert acc. induction pkgs as [|p pkgs IH]; intros acc; cbn [collect_replacements].
  { intros [= <-] ?. split_and!; [done|by intros ? ?%elem_of_nil|eauto|by left]. }
  intros (_ & _ & H)%bind_ok Hr. destruct (find _ _) as [q|] eqn:Hf; [|done].
  apply find_some in Hf as [Hq Hname%bool_decide_eq_true]. apply list_elem_of_In in Hq.
  destruct (IH _ H Hr) as (Hacc & Hin & Hmono & Hval). clear IH.
  destruct (source_of (pkg_name p)) as [source|] eqn:Hs; cbn [fst snd] in *; [|by destruct (acc.2)].
  split_and!.
  - done.
  - intros p' [->|?]%elem_of_cons; [|auto]. exists q, source. split_and!; [by split|done|].
    eapply Hmono, add_replacement_recorded. by left.
  - intros s new old Hrec. destruct (decide (s = source ∧ new = gv_nevra_from_pkg p)) as [[-> ->]|Hne].
    + eapply Hmono, add_replacement_recorded. by left.
    + eapply Hmono, add_replacement_recorded. right. by split.
  - intros s new old Hrec. destruct (Hval _ _ _ Hrec) as [H'|(p' & q' & ? & ?)].
    + apply add_replacement_recorded in H' as [(-> & -> & ->)|[_ ?]]; [right|by left].
      exists p, q. split_and!; [left|by split|done..].
    + right. exists p', q'. split; [by right|done].
Qed.

Lemma check_goal_solution_spec source_of names sol rm rp :
  check_goal_solution source_of names sol = Ok (rm, rp) →
  dom rm = list_to_set names ∧ (∀ p, p ∈ sol_remove sol ++ sol_obsolete sol → pkg_name p ∈ names) ∧
  sol_reinstall sol = [] ∧
  (∀ p, p ∈ sol_update sol ++ sol_downgrade sol → ∃ old source, replaces (sol_obsoleted_by sol) p old ∧
     source_of (pkg_name p) = Some source ∧ ∃ old', recorded rp source (gv_nevra_from_pkg p) old') ∧
  (∀ source new old, recorded rp source new old → ∃ p q,
     p ∈ sol_update sol ++ sol_downgrade sol ∧ replaces (sol_obsoleted_by sol) p q ∧
     source_of (pkg_name p) = Some source ∧ new = gv_nevra_from_pkg p ∧ old = gv_nevra_from_pkg q).
Proof.
  unfold check_goal_solution. destruct (collect_removals _ _ _) as [rm' forbidden] eqn:Hc.
  intros ([] & Hf & ([] & Hn & ([] & Hr & ([rp' fr] & Hrp & Hfin)%bind_ok)%bind_ok)%bind_ok)%bind_ok.
  destruct (bool_decide (forbidden = [])) eqn:Hforb; [|done]. apply bool_decide_eq_true in Hforb.
  destruct (bool_decide (filter _ _ = [])) eqn:Hall; [|done]. apply bool_decide_eq_true in Hall.
  destruct (bool_decide (sol_reinstall sol = [])) eqn:Hre; [|done]. apply bool_decide_eq_true in Hre.
  destruct (bool_decide (fr = [])) eqn:Hfr; [|done]. apply bool_decide_eq_true in Hfr. simplify_eq.
  destruct (collect_removals_spec _ _ _ _ Hc) as (_ & Hin & Hsome & _ & Hval); [done|].
  destruct (collect_replacements_spec _ _ _ _ _ Hrp) as (_ & Hup & _ & Hrec); [done|].
  split_and!; try done.
  - apply set_eq. intros n. rewrite elem_of_dom, elem_of_list_to_set. split.
    + intros [g Hg]. destruct (Hval _ _ Hg) as [?|(p & ? & <- & _)]; [by simplify_map_eq|auto].
    + intros Hin'. destruct (rm !! n) eqn:E; [eauto|].
      exfalso. eapply (not_elem_of_nil n). rewrite <-Hall. by apply list_elem_of_filter.
  - intros s new old Hrec'. destruct (Hrec _ _ _ Hrec') as [(m & Hm & _)|?]; [by simplify_map_eq|done].
Qed.

(** * The goal *)

Section prepare.
Context (char_signed : bool) (hy_split_nevra : string → option split_nevra) (type_mismatch : string)
  (validate_checksum : string → outcome unit) {Sack : Type} (dops : DnfOps Sack) `{!DnfSack dops}
  (ht_order : Replaced → list (string * gset string))
  (local_order : gmap string Package → list Package)
  (cx : ContextConf).

Local Abbreviation any := (λ _ : cevent, True).

(** There is a job of each of the kinds [Φ]. *)
Definition asks (Φ : (GoalJob → Prop) → Prop) (s : PrepareState Sack) : Prop := ∀ φ, Φ φ → Exists φ (st_goal s).

Ltac keeps_state ::=
  first [done | unfold asks in *; intros; cbn [st_goal add_st_job set_st_sack set_st_metarpm set_st_filelists_exist];
                rewrite ?Exists_app; auto].

Lemma triple_get_sack {A} (I : PrepareState Sack → Prop) Q (f : Sack → prog cevent (PrepareState Sack) A) :
  (∀ sack, triple (λ s, I s ∧ st_sack s = Some sack) (f sack) any Q) → triple I (get_sack ≫= f) any Q.
Proof.
  intros Hf s Hs. unfold get_sack. destruct (st_sack s) as [sack|] eqn:Es.
  - specialize (Hf sack s (conj Hs Es)). unfold get_self, mbind, prog_bind. simpl. rewrite Es. simpl.
    by destruct (f sack s).
  - unfold get_self, lift, mbind, prog_bind. simpl. rewrite Es. by split.
Qed.

Section frame.
Context (I : PrepareState Sack → Prop) (HI : ∀ job s, I s → I (add_st_job job s)).

Lemma keeps_get_sack : keeps any I get_sack.
Proof. unfold get_sack. keeps_auto. Qed.
Lemma keeps_add_job job : keeps any I (add_job job).
Proof. apply keeps_modify. auto. Qed.
Lemma keeps_remove_name n : keeps any I (remove_name dops n).
Proof. unfold remove_name. keeps_step; [apply keeps_get_sack|]. keeps_step; [keeps_auto|]. apply keeps_add_job. Qed.
Lemma keeps_install_selector ps : keeps any I (install_selector dops ps).
Proof. unfold install_selector. keeps_step; [apply keeps_get_sack|]. keeps_step; [keeps_auto|]. apply keeps_add_job. Qed.
Lemma keeps_lock_base_pkg removed replaced p : keeps any I (lock_base_pkg dops ht_order removed replaced p).
Proof.
  unfold lock_base_pkg. keeps_step; [keeps_auto|]. keeps_step; [apply keeps_get_sack|].
  keeps_step; [keeps_auto|]. apply keeps_add_job.
Qed.
Lemma keeps_install_from_repo repo n : keeps any I (install_from_repo dops repo n).
Proof.
  unfold install_from_repo. keeps_step; [apply keeps_get_sack|]. keeps_step; [|keeps_auto].
  keeps_step; [keeps_auto|]. apply keeps_install_selector.
Qed.
Lemma keeps_replace_from_repo repo n : keeps any I (replace_from_repo dops repo n).
Proof.
  unfold replace_from_repo. keeps_step; [apply keeps_get_sack|]. keeps_step; [keeps_auto|].
  apply keeps_install_selector.
Qed.
Lemma keeps_install_names names : keeps any I (install_names dops names).
Proof.
  induction names as [|n names IH]; simpl; [keeps_auto|]. keeps_step; [apply keeps_get_sack|].
  keeps_step; [|keeps_step; [done|keeps_auto]|keeps_auto]. keeps_step; [apply keeps_add_job|done].
Qed.
End frame.

Lemma add_job_asks Φ job φ : φ job → triple (asks Φ) (add_job job) any (λ _, asks (λ ψ, ψ = φ ∨ Φ ψ)).
Proof.
  intros Hj. apply triple_modify. intros s Hs ψ [->|Hψ]; simpl; rewrite Exists_app.
  - right. by constructor.
  - left. by apply Hs.
Qed.

Lemma add_job_asks_eq Φ job :
  triple (asks Φ) (add_job job) any (λ _, asks (λ ψ, ψ = (λ j, j = job) ∨ Φ ψ)).
Proof. by apply add_job_asks. Qed.

Lemma for_each_asks {A} Φ (f : A → prog cevent (PrepareState Sack) unit) wants l :
  (∀ a Ψ, a ∈ l → triple (asks Ψ) (f a) any (λ _, asks (λ ψ, wants a ψ ∨ Ψ ψ))) →
  triple (asks Φ) (for_each f l) any (λ _, asks (λ ψ, (∃ a, a ∈ l ∧ wants a ψ) ∨ Φ ψ)).
Proof.
  revert Φ. induction l as [|a l IH]; intros Φ Hf; simpl.
  - apply triple_ret. intros s Hs ψ [(a & []%elem_of_nil & _)|?]. auto.
  - eapply triple_bind; [apply Hf; left|]. intros []. eapply triple_conseq; [apply IH|done|done|].
    + intros b Ψ Hb. apply Hf. by right.
    + intros [] s Hs ψ Hψ. apply Hs. destruct Hψ as [(b & [->|Hb]%elem_of_cons & Hw)|?]; eauto.
Qed.

Lemma asks_weaken Φ Ψ s : asks Φ s → (∀ φ, Ψ φ → Φ φ) → asks Ψ s.
Proof. intros Hs H φ ?. auto. Qed.

(** The job of an erasure, of a package and of a request; a job for packages with [P]. *)
Definition selects (P : Package → Prop) (j : GoalJob) : Prop :=
  ∃ ps, j = JobInstallSelector ps ∧ ps ≠ [] ∧ Forall P ps.

Lemma remove_name_asks Φ n :
  triple (asks Φ) (remove_name dops n) any (λ _, asks (λ ψ, ψ = (λ j, j = JobErase n) ∨ Φ ψ)).
Proof.
  apply triple_get_sack. intros sack. eapply (triple_bind _ _ (λ _, asks Φ)).
  - apply triple_call. by intros [] s _ [? _].
  - intros []. apply add_job_asks_eq.
Qed.

Lemma install_selector_asks Φ (P : Package → Prop) ps : ps ≠ [] → Forall P ps →
  triple (asks Φ) (install_selector dops ps) any (λ _, asks (λ ψ, ψ = selects P ∨ Φ ψ)).
Proof.
  intros Hne HP. apply triple_get_sack. intros sack. eapply (triple_bind _ _ (λ _, asks Φ)).
  - apply triple_call. by intros [] s _ [? _].
  - intros []. apply add_job_asks. by exists ps.
Qed.

Lemma install_from_repo_asks Φ repo n :
  triple (asks Φ) (install_from_repo dops repo n) any
    (λ _, asks (λ ψ, ψ = selects (λ p, pkg_reponame p = repo) ∨ Φ ψ)).
Proof.
  apply triple_get_sack. intros sack. destruct (dnf_best_solution dops sack n) as [found|]; [|by apply triple_lift].
  apply triple_bind_lift. intros [] Hne%throw_if_ok%bool_decide_eq_false.
  eapply triple_conseq; [apply (install_selector_asks Φ (λ p, pkg_reponame p = repo)); [done|]|by intros s [? _]|done|done].
  apply Forall_forall. intros p [Hp _]%list_elem_of_filter. simpl in Hp. by apply bool_decide_eq_true in Hp.
Qed.

Lemma replace_from_repo_asks Φ repo n :
  triple (asks Φ) (replace_from_repo dops repo n) any
    (λ _, asks (λ ψ, ψ = selects (λ p, pkg_reponame p = repo ∧ pkg_name p = n) ∨ Φ ψ)).
Proof.
  apply triple_get_sack. intros sack. apply triple_bind_lift.
  intros [] Hne%throw_if_ok%bool_decide_eq_false.
  eapply triple_conseq; [apply (install_selector_asks Φ (λ p, pkg_reponame p = repo ∧ pkg_name p = n)); [done|]
    |by intros s [? _]|done|done].
  apply Forall_forall. intros p Hp. apply dnf_query_spec in Hp as [_ Hf].
  rewrite !Forall_cons in Hf. destruct Hf as (H1 & H2 & _). apply bool_decide_eq_true in H1, H2. by split.
Qed.

Lemma install_names_asks Φ names :
  triple (asks Φ) (install_names dops names) any
    (λ missing, asks (λ ψ, (∃ n, n ∈ names ∧ n ∉ missing ∧ ψ = (λ j, j = JobInstallSubject n)) ∨ Φ ψ)).
Proof.
  revert Φ. induction names as [|n names IH]; intros Φ; simpl.
  { apply triple_ret. intros s Hs ψ [(a & []%elem_of_nil & _)|?]. auto. }
  apply triple_get_sack. intros sack. destruct (dnf_context_install dops sack n); [| |by apply triple_lift].
  - eapply (triple_bind _ _ (λ _, asks (λ ψ, ψ = (λ j, j = JobInstallSubject n) ∨ Φ ψ))).
    { eapply triple_conseq; [apply add_job_asks_eq|by intros s [? _]|done|done]. }
    intros []. eapply triple_conseq; [apply IH|done|done|]. intros missing s Hs. eapply asks_weaken; [exact Hs|].
    intros ψ [(m & [->|?]%elem_of_cons & ? & ->)|?]; eauto 6.
  - eapply triple_bind; [eapply triple_conseq; [apply (IH Φ)|by intros s [? _]|done|intros a s Hs; exact Hs]|].
    intros missing. apply triple_ret. intros s Hs. eapply asks_weaken; [exact Hs|].
    intros ψ [(m & [->|?]%elem_of_cons & Hm & ->)|?]; [|left|by right].
    + destruct Hm. left.
    + exists m. split_and!; [done| |done]. intros Hin. apply Hm. by right.
Qed.

(** The base package may change. *)
Definition unlocked (removed : list string) (replaced : Replaced) (p : Package) : Prop :=
  pkg_name p ∈ removed ∨ is_Some (get_pkgname_source ht_order replaced (pkg_name p)).

Lemma lock_base_pkg_asks Φ removed replaced p :
  triple (asks Φ) (lock_base_pkg dops ht_order removed replaced p) any
    (λ _, asks (λ ψ, (¬ unlocked removed replaced p ∧ ψ = (λ j, j = JobLock p)) ∨ Φ ψ)).
Proof.
  unfold lock_base_pkg, rpmostree_str_ptrarray_contains. apply triple_if; intros Hb.
  - apply triple_ret. intros s Hs. eapply asks_weaken; [exact Hs|]. intros ψ [[Hu _]|?]; [|done].
    destruct Hu. apply orb_true_iff in Hb as [?%bool_decide_eq_true|[? ?]%nonnull_true]; [by left|right; eauto].
  - apply triple_get_sack. intros sack. eapply (triple_bind _ _ (λ _, asks Φ)).
    + apply triple_on_error, triple_call. by intros [] s _ [? _].
    + intros []. eapply triple_conseq; [apply add_job_asks_eq|done|done|].
      intros [] s Hs. eapply asks_weaken; [exact Hs|]. intros ψ [[_ ?]|?]; auto.
Qed.

Lemma triple_any {A} (I : PrepareState Sack → Prop) (m : prog cevent (PrepareState Sack) A) :
  triple I m any (λ _ _, True).
Proof. intros s _. split; [by apply Forall_true|done]. Qed.

Local Abbreviation tf := (cf_derive (cx_treefile cx)).

(** The jobs the treefile asks for, without the locks. *)
Inductive wanted (local_pkgs : gmap string Package) : (GoalJob → Prop) → Prop :=
  | want_erase n : n ∈ get_packages_override_remove tf → wanted local_pkgs (λ j, j = JobErase n)
  | want_local p : p ∈ local_order local_pkgs → wanted local_pkgs (λ j, j = JobInstall p)
  | want_repo repo ns n : (repo, ns) ∈ get_repo_packages (cx_treefile cx) → n ∈ ns →
      wanted local_pkgs (selects (λ p, pkg_reponame p = repo))
  | want_replace repo ns n : (repo, ns) ∈ get_packages_override_replace tf → n ∈ ns →
      wanted local_pkgs (selects (λ p, pkg_reponame p = repo ∧ pkg_name p = n))
  | want_install n : n ∈ get_packages tf → wanted local_pkgs (λ j, j = JobInstallSubject n).
Definition replaced_table (local_replaced : gset string) : Replaced :=
  foldl (λ t rp, add_replaced rp t) {[""%string := local_replaced]} (get_packages_override_replace tf).

Lemma for_each_asks_simple {A} Φ (f : A → prog cevent (PrepareState Sack) unit) (job : A → GoalJob → Prop) l :
  (∀ a Ψ, triple (asks Ψ) (f a) any (λ _, asks (λ ψ, ψ = job a ∨ Ψ ψ))) →
  triple (asks Φ) (for_each f l) any (λ _, asks (λ ψ, (∃ a, a ∈ l ∧ ψ = job a) ∨ Φ ψ)).
Proof. intros Hf. apply (for_each_asks Φ f (λ a ψ, ψ = job a)). auto. Qed.

Lemma build_goal_asks local_pkgs local_replaced :
  triple (λ _, True) (build_goal dops ht_order local_order cx local_pkgs local_replaced) any
    (λ r s, r = (get_packages_override_remove tf, replaced_table local_replaced) ∧
       ∃ sack, st_sack s = Some sack ∧ asks (wanted local_pkgs) s ∧
         ∀ p, p ∈ dnf_query_run dops sack [HY_PKG_REPONAME HY_SYSTEM_REPO_NAME] →
           unlocked r.1 r.2 p ∨ JobLock p ∈ st_goal s).
Proof.
  unfold build_goal. do 2 (eapply triple_bind; [apply triple_any|intros []]).
  eapply (triple_conseq _ _ (asks (λ _, False)) _ _ any); [|by intros s _ φ []|done|intros a s Hs; exact Hs].
  eapply triple_bind; [apply (for_each_asks_simple _ _ (λ n j, j = JobErase n)); intros; apply remove_name_asks|intros []].
  eapply triple_bind; [apply (for_each_asks_simple _ _ (λ p j, j = JobInstall p)); intros; apply add_job_asks_eq|intros []].
  eapply triple_bind; [eapply (for_each_asks _ _ (λ rp ψ, ∃ n, n ∈ rp.2 ∧ ψ = selects (λ p, pkg_reponame p = rp.1)))|intros []].
  { intros rp Ψ _. apply (for_each_asks_simple Ψ _ (λ _, selects (λ p, pkg_reponame p = rp.1))).
    intros. apply install_from_repo_asks. }
  eapply triple_bind; [eapply (for_each_asks _ _
    (λ rp ψ, ∃ n, n ∈ rp.2 ∧ ψ = selects (λ p, pkg_reponame p = rp.1 ∧ pkg_name p = n)))|intros []].
  { intros rp Ψ _. apply (for_each_asks_simple Ψ _ (λ n, selects (λ p, pkg_reponame p = rp.1 ∧ pkg_name p = n))).
    intros. apply replace_from_repo_asks. }
  eapply triple_bind; [apply install_names_asks|]. intros missing.
  destruct (decide (missing = [])) as [->|]; [|rewrite bool_decide_eq_false_2 by done].
  2: { eapply triple_bind; [by apply (triple_lift _ _ (λ _ _, False))|]. by intros [] s []. }
  rewrite bool_decide_eq_true_2 by done. eapply (triple_bind _ _ (λ _, asks _)); [apply triple_ret; intros s Hs; exact Hs|intros []].
  apply triple_get_sack. intros sack. eapply triple_bind.
  { apply (triple_frame _ _ (λ s, st_sack s = Some sack)).
    - apply (for_each_asks _ _ (λ p ψ,
        ¬ unlocked (get_packages_override_remove tf) (replaced_table local_replaced) p ∧ ψ = (λ j, j = JobLock p))). intros. apply lock_base_pkg_asks.
    - apply keeps_for_each. intros. by apply keeps_lock_base_pkg. }
  intros []. apply triple_ret. intros s [Hs Hsack]. split; [done|]. exists sack. split; [done|]. split.
  - eapply asks_weaken; [exact Hs|]. intros φ Hφ. right. destruct Hφ; eauto 12 using not_elem_of_nil.
  - intros p Hp. simpl. destruct (decide (pkg_name p ∈ get_packages_override_remove tf)); [left; by left|].
    destruct (get_pkgname_source ht_order (replaced_table local_replaced) (pkg_name p)) eqn:E; [left; right; eauto|].
    right. assert (Exists (λ j, j = JobLock p) (st_goal s)) as Hex.
    { apply Hs. left. exists p. split; [done|]. split; [|done]. intros [?|[? H]]; [done|]. by rewrite E in H. }
    apply Exists_exists in Hex as (j & Hj & ->). done.
Qed.

(** ** Local packages *)

(** The header of the package in the cache, and its commit. *)
Definition cached_header (nevra header : string) (commit : PkgCommit) : Prop :=
  ∃ repo branch rev, cx_pkgcache cx = Some repo ∧
    nevra_to_cache_branch hy_split_nevra char_signed nevra = Ok branch ∧
    pr_resolve_rev repo branch = Done rev ∧ pr_load_commit repo rev = Done commit ∧
    pc_header commit = Some header.
Definition headers_cached (s : PrepareState Sack) : Prop :=
  ∀ nevra header, st_metarpm s !! nevra = Some header → ∃ commit, cached_header nevra header commit.

Lemma cached_header_fun nevra h1 h2 c1 c2 :
  cached_header nevra h1 c1 → cached_header nevra h2 c2 → h1 = h2 ∧ c1 = c2.
Proof. intros (? & ? & ? & ? & ? & ? & ? & ?) (? & ? & ? & ? & ? & ? & ? & ?). simplify_eq. split; congruence. Qed.

(** The package comes from the header in the cache whose checksum was asked for. *)
Definition loaded (nevra_v : string) (np : string * Package) : Prop :=
  ∃ sha256 sack sack', rpmostree_decompose_sha256_nevra validate_checksum nevra_v = Ok (np.1, sha256) ∧
    if cx_is_container cx then
      dnf_add_cmdline_package dops sack (StagedRpm sha256) = Some (np.2, sack') ∧ pkg_nevra np.2 = np.1
    else ∃ header commit, cached_header np.1 header commit ∧
      vardict_lookup_string (pc_metadata commit) METADATA_SHA256 = Some sha256 ∧
      dnf_add_cmdline_package dops sack (Metarpm np.1 header) = Some (np.2, sack').

Lemma find_header_cached repo nevra sha256 header : cx_pkgcache cx = Some repo →
  rpmostree_pkgcache_find_pkg_header char_signed hy_split_nevra repo nevra (Some sha256) = Ok header →
  ∃ commit, cached_header nevra header commit ∧
    vardict_lookup_string (pc_metadata commit) METADATA_SHA256 = Some sha256.
Proof.
  intros Hr (branch & Hb & H)%bind_ok. apply bind_ok in H as ([] & H1 & H2).
  apply bind_ok in H1 as (rev & Hrev%returned_ok & H1). apply bind_ok in H1 as (commit & Hc%returned_ok & H1).
  apply bind_ok in H1 as (actual & Ha & H1). apply throw_if_ok, negb_false_iff, bool_decide_eq_true in H1 as ->.
  apply bind_ok in H2 as (rev' & Hrev'%returned_ok & H2). apply bind_ok in H2 as (commit' & Hc'%returned_ok & H2).
  rewrite Hrev in Hrev'. injection Hrev' as <-. rewrite Hc in Hc'. injection Hc' as <-.
  exists commit. split.
  - exists repo, branch, rev. destruct (pc_header commit); [|done]. by injection H2 as ->.
  - unfold get_commit_header_sha256, get_commit_metadata_string in Ha.
    destruct (vardict_lookup_string _ _); [|done]. by injection Ha as ->.
Qed.

Lemma checkout_pkg_metadata_cached nevra header commit : cached_header nevra header commit →
  triple headers_cached (checkout_pkg_metadata cx nevra header) any
    (λ _ s, headers_cached s ∧ st_metarpm s !! nevra = Some header).
Proof.
  intros Hh. eapply (triple_bind _ _ (λ _, headers_cached)); [by apply triple_call|]. intros _.
  apply triple_bind_get. intros s Hs. destruct (st_metarpm s !! nevra) as [h|] eqn:E.
  - apply triple_ret. intros ? ->. split; [done|]. rewrite E. f_equal. destruct (Hs _ _ E) as [c Hc].
    by destruct (cached_header_fun _ _ _ _ _ Hc Hh).
  - eapply (triple_bind _ _ (λ _ s', s' = s)); [by apply triple_perform|]. intros _.
    apply triple_modify. intros ? ->. simpl. split; [|by rewrite lookup_insert_eq].
    intros n h. cbn [st_metarpm set_st_metarpm]. intros [[<- <-]|[_ ?]]%lookup_insert_Some; eauto.
Qed.

Lemma add_local_pkg_loaded nevra_v :
  triple headers_cached (add_local_pkg char_signed hy_split_nevra validate_checksum dops cx nevra_v) any
    (λ np s, loaded nevra_v np ∧ headers_cached s).
Proof.
  apply triple_bind_lift. intros [nevra sha256] Hd. unfold add_pkg_from_cache.
  eapply (triple_bind _ _ (λ p s, loaded nevra_v (nevra, p) ∧ headers_cached s)).
  2: { intros p. by apply triple_ret. }
  eapply (triple_bind _ _ (λ rpm s, headers_cached s ∧ if cx_is_container cx then rpm = StagedRpm sha256 else
    ∃ header commit, cached_header nevra header commit ∧
      vardict_lookup_string (pc_metadata commit) METADATA_SHA256 = Some sha256 ∧ rpm = Metarpm nevra header)).
  - apply triple_if; intros Hc; rewrite Hc; [by apply triple_ret|]. unfold checkout_pkg_metadata_by_nevra.
    destruct (cx_pkgcache cx) as [repo|] eqn:Hr.
    2: { eapply triple_bind; [by apply (triple_lift _ _ (λ _ _, False))|]. by intros [] s []. }
    eapply (triple_bind _ _ (λ _ s, ∃ header commit, cached_header nevra header commit ∧
      vardict_lookup_string (pc_metadata commit) METADATA_SHA256 = Some sha256 ∧
      headers_cached s ∧ st_metarpm s !! nevra = Some header)).
    + apply triple_bind_lift. intros header Hh.
      destruct (find_header_cached _ _ _ _ Hr Hh) as (commit & Hcached & Hsha).
      eapply triple_conseq; [by apply (checkout_pkg_metadata_cached nevra header commit)|done|done|].
      intros [] s [? ?]. eauto 10.
    + intros []. apply triple_bind_get. intros s (header & commit & ? & ? & ? & Hm). apply triple_ret.
      intros ? ->. split; [done|]. rewrite Hm. simpl. eauto 10.
  - intros rpm. apply triple_get_sack. intros sack.
    destruct (dnf_add_cmdline_package dops sack rpm) as [[p sack']|] eqn:Ha; [|by apply triple_lift].
    eapply (triple_bind _ _ (λ _ s, headers_cached s ∧ if cx_is_container cx then rpm = StagedRpm sha256 else _)).
    { apply triple_modify. intros s [[Hs Hrpm] _]. split; [done|exact Hrpm]. }
    intros []. apply triple_bind_lift. intros [] Ht%throw_if_ok. apply triple_ret. intros s [Hs Hrpm].
    split; [|done]. exists sha256, sack, sack'. split; [done|]. destruct (cx_is_container cx) eqn:Hc; simpl in *.
    + subst rpm. split; [done|]. by apply negb_false_iff, bool_decide_eq_true in Ht.
    + destruct Hrpm as (header & commit & ? & ? & ->). eauto 10.
Qed.

Lemma add_local_pkgs_loaded nevras :
  triple headers_cached (add_local_pkgs char_signed hy_split_nevra validate_checksum dops cx nevras) any
    (λ nps s, Forall2 loaded nevras nps ∧ headers_cached s).
Proof.
  induction nevras as [|n nevras IH]; simpl; [apply triple_ret; by repeat constructor|].
  eapply triple_bind; [apply add_local_pkg_loaded|]. intros np. apply triple_and_fact. intros Hnp.
  eapply triple_bind; [apply IH|]. intros nps. apply triple_and_fact. intros Hnps.
  apply triple_ret. intros s Hs. split; [by constructor|done].
Qed.

(** ** The whole *)

Definition local_table (nps : list (string * Package)) : gmap string Package :=
  foldl (λ m np, <[np.1 := np.2]> m) ∅ nps.
Definition local_nevras : list string :=
  get_packages_override_replace_local tf ++ get_local_packages tf ++ get_local_fileoverride_packages tf.

(** The run of a preparation that succeeds: the local packages it loaded, the sack and the
    jobs the solver got, and its checked and sorted answer. *)
Record prepared_by (pr : Prepared) (s : PrepareState Sack) (replace_local others : list (string * Package))
    (sack : Sack) (sol : Solution) : Prop := {
  pb_replace_local : Forall2 loaded (get_packages_override_replace_local tf) replace_local;
  pb_others : Forall2 loaded (get_local_packages tf ++ get_local_fileoverride_packages tf) others;
  pb_sack : st_sack s = Some sack;
  pb_jobs : asks (wanted (local_table (replace_local ++ others))) s;
  pb_locks : ∀ p, p ∈ dnf_query_run dops sack [HY_PKG_REPONAME HY_SYSTEM_REPO_NAME] →
    unlocked (get_packages_override_remove tf) (replaced_table (list_to_set (pkg_name <$> replace_local.*2))) p ∨
    JobLock p ∈ st_goal s;
  pb_solved : dnf_goal_depsolve dops sack (st_goal s) (get_recommends (cx_treefile cx)) = Done sol;
  pb_checked : check_goal_solution
    (get_pkgname_source ht_order (replaced_table (list_to_set (pkg_name <$> replace_local.*2))))
    (get_packages_override_remove tf) sol = Ok (pp_pkgs_to_remove pr, pp_pkgs_to_replace pr);
  pb_pkgs : pp_pkgs pr = sol_install sol ++ sol_update sol ++ sol_downgrade sol;
  pb_sorted : sort_packages char_signed type_mismatch (cx_pkgcache cx) (cx_treefile cx) (cx_sepolicy cx)
    (cx_is_container cx) (cx_sources cx) (cx_file_exists cx) (pp_pkgs pr) = Ok (pp_sorted pr);
}.

Local Abbreviation prepare := (rpmostree_context_prepare char_signed hy_split_nevra type_mismatch validate_checksum
  dops ht_order local_order cx).

Ltac keeps_state ::= done.

Lemma ensure_sack_headers enable pkgs : keeps any headers_cached (ensure_sack dops cx enable pkgs).
Proof.
  unfold ensure_sack, rpmostree_context_download_metadata, setup_sack. keeps_auto.
  apply keeps_for_each. intros r _. unfold update_repo. keeps_auto.
Qed.

Lemma prepare_run enable :
  triple (λ s, st_metarpm s = ∅) (prepare enable) any
    (λ pr s, ∃ replace_local others sack sol, prepared_by pr s replace_local others sack sol).
Proof.
  unfold rpmostree_context_prepare. apply triple_bind_lift. intros _ _. apply triple_bind_lift. intros _ _.
  eapply (triple_conseq _ _ headers_cached _ _ any);
    [|intros s Hs n h; by rewrite Hs, lookup_empty|done|intros a s Hs; exact Hs].
  eapply triple_bind; [apply ensure_sack_headers|intros []].
  eapply triple_bind; [apply add_local_pkgs_loaded|]. intros replace_local. apply triple_and_fact. intros Hr.
  eapply triple_bind; [apply add_local_pkgs_loaded|]. intros local. apply triple_and_fact. intros Hl.
  eapply triple_bind; [apply add_local_pkgs_loaded|]. intros fileoverride. apply triple_and_fact. intros Hf.
  eapply triple_bind; [apply triple_any|intros []].
  eapply triple_bind; [apply build_goal_asks|]. intros [removed replaced]. apply triple_and_fact. intros [= -> ->].
  apply triple_exists. intros sack. apply triple_get_sack. intros sack'.
  apply triple_bind_get. intros s ((Hsack & Hasks & Hlocks) & Hsack').
  rewrite Hsack in Hsack'. injection Hsack' as <-.
  eapply (triple_bind _ _ (λ sol s', s' = s ∧ dnf_goal_depsolve dops sack (st_goal s) (get_recommends (cx_treefile cx)) = Done sol)).
  { apply triple_call. by intros sol ? ? ->. }
  intros sol. apply triple_bind_lift. intros _ _. apply triple_bind_lift. intros [rm rp] Hchk. apply triple_bind_lift. intros sorted Hs%prefix_error_ok.
  apply triple_ret. intros ? [-> Hsol]. exists replace_local, (local ++ fileoverride), sack, sol.
  split; try done. by apply Forall2_app.
Qed.

(** The request that lets a base package of this name be replaced, and the key under which
    the replacement is recorded. *)
Inductive replacement_source (n : string) : string → Prop :=
  | source_local nevra_v np : nevra_v ∈ get_packages_override_replace_local tf → loaded nevra_v np →
      pkg_name np.2 = n → replacement_source n ""
  | source_repo repo ns : (repo, ns) ∈ get_packages_override_replace tf → n ∈ ns →
      replacement_source n ("repo=" +:+ repo).

Lemma replaced_table_sources overrides t source ns :
  foldl (λ t rp, add_replaced rp t) t overrides !! source = Some ns → ∀ n, n ∈ ns →
  (∃ ns', t !! source = Some ns' ∧ n ∈ ns') ∨
  ∃ repo l, (repo, l) ∈ overrides ∧ source = "repo=" +:+ repo ∧ n ∈ l.
Proof.
  revert t. induction overrides as [|[repo l] overrides IH]; intros t Ht n Hn; cbn [foldl] in Ht; [by eauto|].
  destruct (IH _ Ht n Hn) as [(ns' & Hl & Hn')|(repo' & l' & ? & ? & ?)].
  2: { right. exists repo', l'. split; [by right|done]. }
  unfold add_replaced in Hl. cbn [fst snd] in Hl. apply lookup_insert_Some in Hl as [[<- <-]|[_ ?]]; [|eauto].
  apply elem_of_union in Hn' as [Hn'%elem_of_list_to_set|Hn'].
  - right. exists repo, l. split; [left|done].
  - destruct (t !! ("repo=" +:+ repo)) as [ns'|] eqn:E; [|done]. left. eauto.
Qed.

Context (Hht : ∀ t, ht_order t ≡ₚ map_to_list t) (Hlocal : ∀ m, local_order m ≡ₚ (map_to_list m).*2).

Lemma pkgname_source replace_local n source :
  Forall2 loaded (get_packages_override_replace_local tf) replace_local →
  get_pkgname_source ht_order (replaced_table (list_to_set (pkg_name <$> replace_local.*2))) n = Some source →
  replacement_source n source.
Proof.
  intros Hl. unfold get_pkgname_source. destruct (find _ _) as [[src ns]|] eqn:Hf; [|done]. intros [= <-].
  apply find_some in Hf as [Hin%list_elem_of_In Hn%bool_decide_eq_true]. rewrite Hht in Hin.
  apply elem_of_map_to_list in Hin.
  destruct (replaced_table_sources _ _ _ _ Hin n Hn) as [(ns' & Hs & Hn')|(repo & l & ? & -> & ?)].
  - apply lookup_singleton_Some in Hs as [<- <-].
    apply elem_of_list_to_set, list_elem_of_fmap in Hn' as (p & -> & Hp).
    apply list_elem_of_fmap in Hp as (np & -> & Hnp).
    apply list_elem_of_lookup in Hnp as [i Hi]. destruct (Forall2_lookup_r _ _ _ _ _ Hl Hi) as (v & Hv & ?).
    eapply source_local; [by eapply list_elem_of_lookup_2|done|done].
  - by eapply source_repo.
Qed.

Lemma local_table_lookup nps nevra p : (nevra, p) ∈ nps → ∃ p', (nevra, p') ∈ nps ∧ local_table nps !! nevra = Some p'.
Proof.
  unfold local_table. revert nevra p. induction nps as [|[n q] nps IH] using rev_ind; intros nevra p Hin.
  { by apply elem_of_nil in Hin. }
  rewrite foldl_app. cbn [foldl fst snd]. destruct (decide (nevra = n)) as [->|Hne].
  - exists q. rewrite lookup_insert_eq. split; [|done]. apply elem_of_app. right. by left.
  - apply elem_of_app in Hin as [Hin|[= ? ?]%list_elem_of_singleton]; [|done].
    destruct (IH _ _ Hin) as (p' & ? & ?). exists p'. rewrite lookup_insert_ne by done.
    split; [|done]. apply elem_of_app. by left.
Qed.

Lemma loaded_table nps nevras nevra_v : cx_is_container cx = false → Forall2 loaded nevras nps →
  nevra_v ∈ nevras → ∃ np, loaded nevra_v np ∧ np.2 ∈ local_order (local_table nps).
Proof.
  intros Hc Hl [i Hi]%list_elem_of_lookup.
  destruct (Forall2_lookup_l _ _ _ _ _ Hl Hi) as ([nevra p] & Hnp%list_elem_of_lookup_2 & Hp).
  destruct (local_table_lookup _ _ _ Hnp) as (p' & Hin & Ht).
  apply list_elem_of_lookup in Hin as [j Hj]. destruct (Forall2_lookup_r _ _ _ _ _ Hl Hj) as (v & _ & Hp').
  exists (nevra, p'). split.
  - unfold loaded in *. rewrite Hc in *. simpl in *.
    destruct Hp as (sha & sk & sk' & Hd & h & c & Hch & Hsha & _).
    destruct Hp' as (_ & sk1 & sk1' & _ & h' & c' & Hch' & _ & Ha).
    destruct (cached_header_fun _ _ _ _ _ Hch Hch') as [<- <-].
    exists sha, sk1, sk1'. split; [done|]. eauto.
  - simpl. rewrite Hlocal. apply list_elem_of_fmap. exists (nevra, p'). split; [done|].
    by apply elem_of_map_to_list.
Qed.

(** C10: the job a successful preparation gives to the solver: every removal, request and
    local package of the treefile is in it, a local package with the header whose checksum
    was recorded, every remote replacement as a selection in its repository, and every other
    base package is locked. *)
Theorem prepare_goal enable s tr pr s' :
  cx_is_container cx = false → st_metarpm s = ∅ → prepare enable s = (tr, Ok (pr, s')) →
  ∃ sack sol, st_sack s' = Some sack ∧
    dnf_goal_depsolve dops sack (st_goal s') (get_recommends (cx_treefile cx)) = Done sol ∧
    pp_pkgs pr = sol_install sol ++ sol_update sol ++ sol_downgrade sol ∧
    (∀ n, n ∈ get_packages_override_remove tf → JobErase n ∈ st_goal s') ∧
    (∀ n, n ∈ get_packages tf → JobInstallSubject n ∈ st_goal s') ∧
    (∀ nevra_v, nevra_v ∈ local_nevras → ∃ np, loaded nevra_v np ∧ JobInstall np.2 ∈ st_goal s') ∧
    (∀ repo ns n, (repo, ns) ∈ get_packages_override_replace tf → n ∈ ns →
       Exists (selects (λ p, pkg_reponame p = repo ∧ pkg_name p = n)) (st_goal s')) ∧
    (∀ p, p ∈ dnf_considered dops sack → pkg_reponame p = HY_SYSTEM_REPO_NAME →
       pkg_name p ∈ get_packages_override_remove tf ∨ (∃ source, replacement_source (pkg_name p) source) ∨
       JobLock p ∈ st_goal s').
Proof.
  intros Hc Hm Hp. destruct (triple_run _ _ _ _ _ _ _ _ (prepare_run enable) Hm Hp) as (rl & ot & sack & sol & []).
  assert (∀ j, wanted (local_table (rl ++ ot)) (λ j', j' = j) → j ∈ st_goal s') as Hjob.
  { intros j Hj. apply pb_jobs0 in Hj. apply Exists_exists in Hj as (? & ? & ->). done. }
  exists sack, sol. split_and!; try done.
  - intros n Hn. by apply Hjob, want_erase.
  - intros n Hn. by apply Hjob, want_install.
  - intros v Hv. destruct (loaded_table (rl ++ ot) local_nevras v) as (np & ? & ?); [done|by apply Forall2_app|done|].
    exists np. split; [done|]. by apply Hjob, want_local.
  - intros repo ns n Hin Hn. apply pb_jobs0. by eapply want_replace.
  - intros p Hin Hr. destruct (pb_locks0 p) as [[?|[source Hs]]|?]; auto.
    + apply dnf_query_spec. split; [done|]. constructor; [|done]. by apply bool_decide_eq_true.
    + right. left. exists source. by eapply pkgname_source.
Qed.

(** C9: preparing succeeds only when the solution changes no base package beyond the
    overrides: what is removed or obsoleted is named by a removal and recorded, all removals
    take place, nothing is reinstalled, and each update or downgrade is of a package of the
    same name that was asked for, and is recorded under its source. *)
Theorem prepare_changes_expected enable s tr pr s' :
  st_metarpm s = ∅ → prepare enable s = (tr, Ok (pr, s')) →
  ∃ sack sol, dnf_goal_depsolve dops sack (st_goal s') (get_recommends (cx_treefile cx)) = Done sol ∧
    dom (pp_pkgs_to_remove pr) = list_to_set (get_packages_override_remove tf) ∧
    (∀ p, p ∈ sol_remove sol ++ sol_obsolete sol → pkg_name p ∈ get_packages_override_remove tf) ∧
    sol_reinstall sol = [] ∧
    (∀ p, p ∈ sol_update sol ++ sol_downgrade sol → ∃ old source,
       replaces (sol_obsoleted_by sol) p old ∧ replacement_source (pkg_name p) source ∧
       ∃ old', recorded (pp_pkgs_to_replace pr) source (gv_nevra_from_pkg p) old') ∧
    (∀ source new old, recorded (pp_pkgs_to_replace pr) source new old → ∃ p q,
       p ∈ sol_update sol ++ sol_downgrade sol ∧ replaces (sol_obsoleted_by sol) p q ∧
       replacement_source (pkg_name p) source ∧ new = gv_nevra_from_pkg p ∧ old = gv_nevra_from_pkg q).
Proof.
  intros Hm Hp. destruct (triple_run _ _ _ _ _ _ _ _ (prepare_run enable) Hm Hp) as (rl & ot & sack & sol & []).
  exists sack, sol. split; [done|].
  destruct (check_goal_solution_spec _ _ _ _ _ pb_checked0) as (Hdom & Hrm & Hre & Hup & Hrec).
  split_and!; try done.
  - intros p Hin. destruct (Hup p Hin) as (old & source & ? & Hs & ?).
    exists old, source. split_and!; [done|by eapply pkgname_source|done].
  - intros source new old Hr. destruct (Hrec _ _ _ Hr) as (p & q & ? & ? & Hs & ? & ?).
    exists p, q. split_and!; try done. by eapply pkgname_source.
Qed.

(** ** Lockfiles *)

(** The package is the one an entry locks. *)
Definition locked_by (lp : FfiLockedPackage) (p : Package) : Prop :=
  pkg_name p = lp_name lp ∧ dnf_evr_cmp dops (dp_evr (pkg_base p)) (lp_evr lp) = 0%Z ∧
  (lp_arch lp = "" ∨ pkg_arch p = lp_arch lp) ∧
  (lp_digest lp = "" ∨ get_repodata_chksum_repr p = Ok (lp_digest lp)).
Definition locked_in (lps : list FfiLockedPackage) (p : Package) : Prop := Exists (λ lp, locked_by lp p) lps.
(** All packages that are not excluded have [φ]. *)
Definition all_considered (φ : Package → Prop) (s : PrepareState Sack) : Prop :=
  ∀ sack, st_sack s = Some sack → ∀ p, p ∈ dnf_considered dops sack → φ p.

Lemma digest_matches_spec digest ps found p : digest_matches digest ps = Ok found → p ∈ found →
  p ∈ ps ∧ (digest = "" ∨ get_repodata_chksum_repr p = Ok digest).
Proof.
  revert found. induction ps as [|q ps IH]; intros found; cbn [digest_matches].
  { by intros [= <-] ?%elem_of_nil. }
  case_bool_decide as Hd.
  - intros (rest & Hrest & [= <-])%bind_ok [->|Hp]%elem_of_cons; [split; [left|by left]|].
    destruct (IH _ Hrest Hp). split; [by right|done].
  - intros (chk & Hchk & (rest & Hrest & [= <-])%bind_ok)%bind_ok Hp.
    assert (p ∈ rest → p ∈ q :: ps ∧ (digest = "" ∨ get_repodata_chksum_repr p = Ok digest)) as Hr.
    { intros Hin. destruct (IH _ Hrest Hin). split; [by right|done]. }
    case_bool_decide as Hc; [|auto]. apply elem_of_cons in Hp as [->|?]; [|auto].
    split; [left|right]. by rewrite Hchk, Hc.
Qed.

Lemma locked_match sack lp found p :
  digest_matches (lp_digest lp) (dnf_query_run dops sack (locked_filters lp)) = Ok found → p ∈ found → locked_by lp p.
Proof.
  intros Hd Hp. destruct (digest_matches_spec _ _ _ _ Hd Hp) as [[_ Hq]%dnf_query_spec ?].
  unfold locked_filters in Hq. rewrite Forall_app, !Forall_cons in Hq. destruct Hq as [(Hn & He & _) Ha].
  apply bool_decide_eq_true in Hn, He. split_and!; try done.
  case_bool_decide; [by left|]. right. apply Forall_cons in Ha as [Ha%bool_decide_eq_true _]. done.
Qed.

Lemma find_locked_loop_locked (I : PrepareState Sack → Prop) locked :
  triple I (find_locked_loop dops locked) any (λ found s, (∀ p, p ∈ found → locked_in locked p) ∧ I s).
Proof.
  induction locked as [|lp locked IH]; cbn [find_locked_loop].
  { apply triple_ret. intros s ?. split; [by intros ? ?%elem_of_nil|done]. }
  apply triple_get_sack. intros sack. apply triple_bind_lift. intros found Hf.
  eapply (triple_bind _ _ (λ _, I)).
  { unfold when. apply triple_if; intros _; [apply triple_perform; [done|]; by intros ? ? ? [? _]|by apply triple_ret; intros ? [? _]]. }
  intros []. eapply triple_bind; [apply IH|]. intros rest. apply triple_and_fact. intros Hr.
  apply triple_ret. intros s Hs. split; [|done]. intros p [Hp|Hp]%elem_of_app.
  - apply Exists_cons_hd. by eapply locked_match.
  - by apply Exists_cons_tl, Hr.
Qed.

Lemma add_excludes_considered φ ps :
  triple (all_considered φ) (add_excludes dops ps) any (λ _, all_considered (λ p, φ p ∧ p ∉ ps)).
Proof.
  unfold add_excludes. apply triple_get_sack. intros sack. apply triple_modify.
  intros s [Hs Hsack] sack' [= <-] p [Hp Hn]%dnf_excludes_spec. split; [by eapply Hs|done].
Qed.
Lemma exclude_considered φ sack fs locked :
  triple (λ s, all_considered φ s ∧ st_sack s = Some sack)
    (add_excludes dops (subtract (dnf_query_run dops sack fs) locked)) any
    (λ _, all_considered (λ p, φ p ∧ (Forall (λ f, filter_matches (dnf_evr_cmp dops) f p = true) fs → p ∈ locked))).
Proof.
  unfold add_excludes. apply triple_get_sack. intros sack1. apply triple_modify.
  intros s [[Hs Hsack] Hsack1] sack' [= <-] p [Hp Hn]%dnf_excludes_spec. simplify_eq.
  split; [by eapply Hs|]. intros Hf. apply dec_stable. intros Hl. apply Hn.
  apply list_elem_of_filter. split; [done|]. by apply dnf_query_spec.
Qed.

Lemma exclude_repos_considered locked repos φ :
  triple (all_considered φ) (for_each (exclude_repo dops locked) repos) any
    (λ _, all_considered (λ p, φ p ∧ (pkg_reponame p ∈ repos → p ∈ locked))).
Proof.
  revert φ. induction repos as [|r repos IH]; intros φ; simpl.
  { apply triple_ret. intros s Hs sack Hsack p Hp. split; [by eapply Hs|by intros ?%elem_of_nil]. }
  eapply triple_bind; [apply triple_get_sack; intros sack; apply (exclude_considered φ sack)|intros []].
  eapply triple_conseq; [apply IH|intros s Hs; exact Hs|done|].
  intros [] s Hs sack' Hsack p Hp. destruct (Hs _ Hsack p Hp) as [[? Hr] ?]. split; [done|].
  intros [Hn|?]%elem_of_cons; [|auto]. apply Hr. constructor; [|done]. by apply bool_decide_eq_true.
Qed.

Lemma named_packages_elem sack lps p : p ∈ dnf_considered dops sack → pkg_name p ∈ lp_name <$> lps →
  p ∈ named_packages dops sack lps.
Proof.
  intros Hp. induction lps as [|lp lps IH]; simpl; [by intros ?%elem_of_nil|].
  intros [Hn|?]%elem_of_cons; apply elem_of_app; [left|auto]. apply dnf_query_spec. split; [done|].
  constructor; [|done]. by apply bool_decide_eq_true.
Qed.

(** The lockfile says something about the package. *)
Definition lock_applies (lps : list FfiLockedPackage) (p : Package) : Prop :=
  cx_lockfile_strict cx = true ∨ pkg_reponame p ∈ get_lockfile_repos (cx_treefile cx) ∨
  pkg_name p ∈ lp_name <$> lps.

Lemma apply_lockfile_considered lf :
  triple (λ _, True) (apply_lockfile dops cx lf) any (λ _ s, ∃ lps, get_locked_packages lf = Ok lps ∧
    all_considered (λ p, lock_applies lps p → locked_in lps p) s).
Proof.
  unfold apply_lockfile, find_locked_packages, lock_applies.
  eapply (triple_bind _ _ (λ locked _, ∃ lps,
    (get_locked_packages lf = Ok lps ∧ ∀ p, p ∈ locked → locked_in lps p) ∧ True)).
  { apply triple_bind_lift. intros lps Hl. eapply triple_conseq; [apply (find_locked_loop_locked (λ _, True))|done|done|].
    intros locked s [? _]. eauto. }
  intros locked. apply triple_exists. intros lps. apply triple_and_fact. intros [Hl Hlocked].
  apply triple_if; intros Hstrict; rewrite Hstrict.
  - apply triple_get_sack. intros sack. unfold add_excludes. apply triple_get_sack. intros sack1.
    apply triple_modify. intros s [[_ Hs] Hs1]. simplify_eq. exists lps. split; [done|].
    intros sack' [= <-] p [Hp Hn]%dnf_excludes_spec _. apply Hlocked, dec_stable. intros Hno. apply Hn.
    apply list_elem_of_filter. split; [done|]. by apply dnf_all_spec.
  - eapply (triple_bind _ _ (λ _, all_considered (λ p, True ∧
      (pkg_reponame p ∈ get_lockfile_repos (cx_treefile cx) → p ∈ locked))));
      [eapply triple_conseq; [apply (exclude_repos_considered locked _ (λ _, True))|done|done|done]|intros []].
    apply triple_bind_lift. rewrite Hl. intros lps' [= <-]. apply triple_get_sack. intros sack.
    unfold add_excludes. apply triple_get_sack. intros sack1.
    apply triple_modify. intros s [[Hs Hsack] Hs1]. simplify_eq. exists lps. split; [done|].
    intros sack' [= <-] p [Hp Hn]%dnf_excludes_spec [?|[Hr|Hname]]; [done| |]; apply Hlocked.
    + by apply (Hs _ Hsack p Hp).
    + apply dec_stable. intros Hno. apply Hn. apply list_elem_of_filter. split; [done|]. by apply named_packages_elem.
Qed.

Lemma build_goal_considered lf local_pkgs local_replaced : cx_lockfile cx = Some lf →
  triple (λ _, True) (build_goal dops ht_order local_order cx local_pkgs local_replaced) any
    (λ _ s, ∃ lps, get_locked_packages lf = Ok lps ∧
       all_considered (λ p, lock_applies lps p → locked_in lps p) s).
Proof.
  intros Hlf. unfold build_goal. rewrite Hlf. eapply triple_bind; [apply apply_lockfile_considered|intros []].
  apply triple_exists. intros lps. apply triple_and_fact. intros Hl.
  eapply triple_conseq; [|intros s Hs; exact Hs|done|intros ? s Hs; exists lps; split; [done|exact Hs]].
  set (φ := λ p, lock_applies lps p → locked_in lps p).
  assert (∀ job s, all_considered φ s → all_considered φ (add_st_job job s)) as Hjob by done.
  apply keeps_bind; [apply keeps_for_each; intros n _|intros []].
  { unfold exclude_name. keeps_step; [by apply keeps_get_sack|].
    eapply triple_conseq; [apply add_excludes_considered|intros s Hs; exact Hs|done|].
    intros [] s Hs sack Hsack p Hp. by apply (Hs _ Hsack p Hp). }
  apply keeps_bind; [apply keeps_for_each; intros; by apply keeps_remove_name|intros []].
  apply keeps_bind; [apply keeps_for_each; intros; by apply keeps_add_job|intros []].
  apply keeps_bind; [do 2 (apply keeps_for_each; intros); by apply keeps_install_from_repo|intros []].
  apply keeps_bind; [do 2 (apply keeps_for_each; intros); by apply keeps_replace_from_repo|intros []].
  apply keeps_bind; [by apply keeps_install_names|intros missing].
  apply keeps_bind; [keeps_auto|intros []]. apply keeps_bind; [by apply keeps_get_sack|intros sack].
  apply keeps_bind; [apply keeps_for_each; intros; by apply keeps_lock_base_pkg|intros []]. keeps_auto.
Qed.

(** The sack the solver got keeps to the lockfile. *)
Definition keeps_to_lockfile (lf : LockfileConfig) (s : PrepareState Sack) : Prop :=
  ∃ sack lps sol, st_sack s = Some sack ∧ get_locked_packages lf = Ok lps ∧
    (∀ p, p ∈ dnf_considered dops sack → lock_applies lps p → locked_in lps p) ∧
    dnf_goal_depsolve dops sack (st_goal s) (get_recommends (cx_treefile cx)) = Done sol.

Lemma prepare_keeps_to_lockfile enable lf : cx_lockfile cx = Some lf →
  triple (λ _, True) (prepare enable) any (λ _, keeps_to_lockfile lf).
Proof.
  intros Hlf. unfold rpmostree_context_prepare.
  do 2 (apply triple_bind_lift; intros _ _). eapply triple_bind; [apply triple_any|intros []].
  do 3 (eapply triple_bind; [apply triple_any|intros ?]). eapply triple_bind; [apply triple_any|intros []].
  eapply triple_bind; [by apply build_goal_considered|]. intros [removed replaced].
  apply triple_exists. intros lps. apply triple_and_fact. intros Hl.
  apply triple_get_sack. intros sack. apply triple_bind_get. intros s1 [Hs1 Hsack].
  eapply (triple_bind _ _ (λ sol s', s' = s1 ∧ dnf_goal_depsolve dops sack (st_goal s1) (get_recommends (cx_treefile cx)) = Done sol)).
  { apply triple_call. by intros sol ? ? ->. }
  intros sol. apply triple_bind_lift. intros _ _. apply triple_bind_lift. intros [rm rp] _. apply triple_bind_lift. intros sorted _.
  apply triple_ret. intros ? [-> Hsol]. exists sack, lps, sol. split_and!; [done|done|by apply Hs1|done].
Qed.

(** C11: a preparation with a lockfile solves over a sack in which every package the lockfile
    says something about, that is every package when it is strict, and otherwise those of the
    lockfile repositories and of a locked name, has the version (as libdnf compares them),
    architecture and checksum of one of its entries. *)
Theorem prepare_lockfile enable s tr pr s' lf :
  cx_lockfile cx = Some lf → prepare enable s = (tr, Ok (pr, s')) → keeps_to_lockfile lf s'.
Proof. intros Hlf. by apply (triple_run _ _ _ _ _ _ _ _ (prepare_keeps_to_lockfile enable lf Hlf)). Qed.
End prepare.

(** * An example *)

(** A sack is its packages and the excluded ones, and the solver answers [sol]. *)
Definition ex_sack : Type := list Package * list Package.
Definition ex_considered (sack : ex_sack) : list Package := filter (λ p, p ∉ sack.2) sack.1.
Definition ex_evr_cmp (a b : string) : Z := if bool_decide (a = b) then 0 else 1.
Definition ex_query (sack : ex_sack) (fs : list QueryFilter) : list Package :=
  filter (λ p, Forall (λ f, filter_matches ex_evr_cmp f p = true) fs) (ex_considered sack).
Definition ex_dops (pkgs : list Package) (file : RpmFile → option Package) (sol : Solution) : DnfOps ex_sack :=
  MkDnfOps (λ _, Done (pkgs, [])) ex_considered ex_evr_cmp ex_query
    (λ sack n, Some (ex_query sack [HY_PKG_NAME n])) fst (λ sack ps, (sack.1, ps ++ sack.2))
    (λ sack f, p ← file f; Some (p, (p :: sack.1, filter (λ q, q ≠ p) sack.2)))
    (λ _ _, Done tt) (λ _ _, Done tt)
    (λ sack n, if bool_decide (ex_query sack [HY_PKG_NAME n] = []) then PackageNotFound else Installed)
    (λ _ _, Done tt) (λ _ _ _, Done sol).
#[global] Instance ex_dops_sack pkgs file sol : DnfSack (ex_dops pkgs file sol).
Proof.
  split; simpl.
  - intros sack fs p. unfold ex_query. rewrite list_elem_of_filter. tauto.
  - intros sack p. unfold ex_considered. rewrite list_elem_of_filter. by intros [_ ?].
  - intros sack ps p. unfold ex_considered. rewrite !list_elem_of_filter. simpl. rewrite elem_of_app. tauto.
  - intros sack f pkg sack' p H. destruct (file f) as [q|]; [|done]. injection H as -> <-.
    unfold ex_considered. rewrite !list_elem_of_filter. simpl. rewrite elem_of_cons, list_elem_of_filter.
    destruct (decide (p = pkg)); naive_solver.
Qed.

Definition ex_package (id : nat) (name evr repo : string) : Package :=
  MkPackage id (MkDnfPackage name evr "x86_64") (name +:+ "-" +:+ evr +:+ ".x86_64") 0 evr "1" repo
    (bool_decide (repo = HY_SYSTEM_REPO_NAME)) (Some ("sha256", "h")) (Some ("sha256", name +:+ evr)).
Definition ex_bash1 := ex_package 1 "bash" "1-1" HY_SYSTEM_REPO_NAME.
Definition ex_nano1 := ex_package 2 "nano" "1-1" HY_SYSTEM_REPO_NAME.
Definition ex_glibc := ex_package 3 "glibc" "1-1" HY_SYSTEM_REPO_NAME.
Definition ex_htop := ex_package 4 "htop" "3-1" "fedora".
Definition ex_htop4 := ex_package 5 "htop" "4-1" "fedora".
Definition ex_bash2 := ex_package 6 "bash" "2-1" HY_CMDLINE_REPO_NAME.
Definition ex_sha : string := "0123456789abcdef0123456789abcdef0123456789abcdef0123456789abcdef".

Definition ex_split (nevra : string) : option split_nevra :=
  if bool_decide (nevra = "bash-2-1.x86_64"%string) then Some (SplitNevra "bash" 0 "2" "1" "x86_64") else None.
Definition ex_repo : PkgcacheRepo :=
  let rev branch := if bool_decide (branch = "rpmostree/pkg/bash/2-1.x86__64"%string) then Some "r"%string else None in
  MkPkgcacheRepo (λ b, Done (rev b))
    (λ b, match rev b with Some r => Done r | None => Failed (GError G_IO_ERROR_NOT_FOUND "") end)
    (λ _, Done (MkPkgCommit {[METADATA_SHA256 := VString ex_sha]} (Some "header"%string) false)) (Done []).
Definition ex_treefile : ComposeConfig :=
  MkComposeConfig (MkTreefile (Some {["htop"%string]}) None None None None (Some {["nano"%string]}) None
      (Some {["bash-2-1.x86_64"%string := ex_sha]}) None None None None None None)
    None None None None None None None None None None.
Definition ex_cx : ContextConf :=
  MkContextConf false ex_treefile false false (Some ex_repo) [MkDnfRepo "fedora" 1 false false] None None false
    (Done tt) (λ _, Done tt) None (λ _, false) RPMOSTREE_CONTEXT_DNF_CACHE_DEFAULT (λ _ _, true) (λ _, Done tt) false.
Definition ex_solution : Solution :=
  MkSolution [ex_htop] [ex_bash2] [] [] [ex_nano1] []
    (λ p, if bool_decide (p = ex_bash2) then [ex_bash1] else []).
Definition ex_file (f : RpmFile) : option Package := match f with Metarpm _ _ => Some ex_bash2 | StagedRpm _ => None end.
Definition ex_base_dops := ex_dops [ex_bash1; ex_nano1; ex_glibc; ex_htop] ex_file ex_solution.
Definition ex_init : PrepareState ex_sack := MkPrepareState None [] ∅ false.
Definition ex_local_order (m : gmap string Package) : list Package := (map_to_list m).*2.
Definition ex_prepare :=
  rpmostree_context_prepare true ex_split "" (λ _, Ok tt) ex_base_dops map_to_list ex_local_order ex_cx false ex_init.
Definition ex_dummy_prepared : Prepared * PrepareState ex_sack :=
  (MkPrepared [] (MkSorted [] [] []) ∅ ∅ ∅, ex_init).
Definition ex_prepared : Prepared * PrepareState ex_sack := from_ok ex_dummy_prepared ex_prepare.2.

Lemma ex_prepare_ok : ex_prepare = (ex_prepare.1, Ok (ex_prepared.1, ex_prepared.2)).
Proof. apply (prog_result ex_dummy_prepared); [reflexivity|vm_compute; reflexivity]. Qed.

Lemma sort_packages_spec_witness :
  pkgs_to_import (pp_sorted ex_prepared.1) = [ex_htop] ∧
  ∃ commit, cached_copy true (Some ex_repo) ex_treefile ex_bash2 commit.
Proof.
  split; [vm_compute; reflexivity|].
  destruct (sort_packages_spec true "" (Some ex_repo) ex_treefile None false (cx_sources ex_cx) (λ _, false)
    [ex_htop; ex_bash2] (MkSorted [ex_htop] [ex_htop] []) ltac:(vm_compute; reflexivity)) as (H & _).
  destruct (H ex_bash2) as (commit & ? & _); [right; left| |by exists commit].
  intros ?%list_elem_of_singleton. done.
Defined.

Lemma prepare_goal_witness :
  JobErase "nano" ∈ st_goal ex_prepared.2 ∧ JobInstallSubject "htop" ∈ st_goal ex_prepared.2 ∧
  ∃ np, loaded true ex_split (λ _, Ok tt) ex_base_dops ex_cx (ex_sha +:+ ":bash-2-1.x86_64") np ∧
    JobInstall np.2 ∈ st_goal ex_prepared.2.
Proof.
  destruct (prepare_goal true ex_split "" (λ _, Ok tt) ex_base_dops map_to_list ex_local_order ex_cx
    (λ t, reflexivity _) (λ m, reflexivity _) false ex_init _ _ _ eq_refl eq_refl ex_prepare_ok)
    as (sack & sol & _ & _ & _ & He & Hi & Hl & _).
  split_and!.
  - apply He. replace (get_packages_override_remove _) with ["nano"%string] by (vm_compute; reflexivity). left.
  - apply Hi. replace (get_packages _) with ["htop"%string] by (vm_compute; reflexivity). left.
  - apply Hl. replace (local_nevras _) with [ex_sha +:+ ":bash-2-1.x86_64"] by (vm_compute; reflexivity). left.
Defined.

Lemma prepare_changes_expected_witness :
  dom (pp_pkgs_to_remove ex_prepared.1) = {["nano"%string]} ∧
  (m ← pp_pkgs_to_replace ex_prepared.1 !! ""%string; m !! gv_nevra_from_pkg ex_bash2)
    = Some (gv_nevra_from_pkg ex_bash1).
Proof.
  destruct (prepare_changes_expected true ex_split "" (λ _, Ok tt) ex_base_dops map_to_list ex_local_order ex_cx
    (λ t, reflexivity _) false ex_init _ _ _ eq_refl ex_prepare_ok) as (sack & sol & _ & Hd & _).
  split; [|vm_compute; reflexivity].
  rewrite Hd. replace (get_packages_override_remove _) with ["nano"%string] by (vm_compute; reflexivity). set_solver.
Defined.

Definition ex_lock_treefile : ComposeConfig :=
  MkComposeConfig (MkTreefile (Some {["htop"%string]}) None None None None None None None
      None None None None None None)
    None None None None None None None None None None.
Definition ex_lockfile : LockfileConfig := Some {["htop"%string := Evra "3-1.x86_64" (Some "sha256:htop3-1"%string)]}.
Definition ex_lock_cx : ContextConf :=
  MkContextConf false ex_lock_treefile false false (Some ex_repo) [MkDnfRepo "fedora" 1 false false] None
    (Some ex_lockfile) false (Done tt) (λ _, Done tt) None (λ _, false) RPMOSTREE_CONTEXT_DNF_CACHE_DEFAULT
    (λ _ _, true) (λ _, Done tt) false.
Definition ex_lock_solution : Solution := MkSolution [ex_htop] [] [] [] [] [] (λ _, []).
Definition ex_lock_dops := ex_dops [ex_glibc; ex_htop4; ex_htop] (λ _, None) ex_lock_solution.
Definition ex_lock_prepare :=
  rpmostree_context_prepare true ex_split "" (λ _, Ok tt) ex_lock_dops map_to_list ex_local_order ex_lock_cx false
    ex_init.
Definition ex_lock_prepared : Prepared * PrepareState ex_sack := from_ok ex_dummy_prepared ex_lock_prepare.2.

Lemma ex_lock_prepare_ok : ex_lock_prepare = (ex_lock_prepare.1, Ok (ex_lock_prepared.1, ex_lock_prepared.2)).
Proof. apply (prog_result ex_dummy_prepared); [reflexivity|vm_compute; reflexivity]. Qed.

Lemma prepare_lockfile_witness :
  (ex_considered <$> st_sack ex_lock_prepared.2) = Some [ex_glibc; ex_htop] ∧
  keeps_to_lockfile ex_lock_dops ex_lock_cx ex_lockfile ex_lock_prepared.2.
Proof.
  split; [vm_compute; reflexivity|].
  exact (prepare_lockfile true ex_split "" (λ _, Ok tt) ex_lock_dops map_to_list ex_local_order ex_lock_cx false
    ex_init _ _ _ ex_lockfile eq_refl ex_lock_prepare_ok).
Defined.
