(* ===== verification/Importer.v ===== *)
(** Importing an RPM into the package cache: which files of its archive become content of
    the commit, where they go, and the metadata of the commit; from
    [src/libpriv/rpmostree-importer.cxx], [rust/src/importer.rs], [rust/src/tmpfiles.rs] and
    [rust/src/utils.rs]. Reading the archive and writing objects are libarchive's and
    libostree's. *)

From S2P Require Import Prelude Vardict FileTree Nevra RpmHeaders Deploy SysrootCore Origin Core.

(** * Paths *)

(** A path relative to the root, where ostree wants it to be. *)
Definition translated_path (path : string) : option string :=
  if bool_decide (path = "etc"%string) || starts_with "etc/" path then Some ("usr/" +:+ path)
  else match strip_prefix "boot/" path with
  | Some prefixless => Some ("usr/lib/ostree-boot/" +:+ prefixless)
  | None =>
  match strip_prefix "var/lib/selinux/targeted/" path with
  | Some prefixless => Some ("usr/etc/selinux/targeted/" +:+ prefixless)
  | None =>
  if bool_decide (path = "opt"%string) || starts_with "opt/" path then Some ("usr/lib/" +:+ path)
  else match strip_prefix "var/lib/" path with
  | Some prefixless =>
      if existsb (λ entry, starts_with entry prefixless) ["alternatives"; "vagrant"]%string
      then Some ("usr/lib/" +:+ prefixless)
      else None
  | None => None
  end end end.
Definition translate_path_for_ostree_impl (path : string) : outcome (option string) :=
  _ ← g_assert (negb (starts_with "/" path));
  _ ← g_assert (negb (starts_with "./" path));
  Ok (translated_path path).
Definition translate_path_for_ostree (path : string) : outcome string :=
  translated ← translate_path_for_ostree_impl path;
  Ok (default ""%string translated).

(** The path is in the part of the tree that ostree manages. *)
Definition path_is_ostree_compliant (path : string) : bool :=
  bool_decide (path ∈ ["/"; "/usr"; "/bin"; "/sbin"; "/lib"; "/lib64"]%string)
  || (starts_with "/bin/" path || starts_with "/sbin/" path || starts_with "/lib/" path
      || starts_with "/lib64/" path)
  || starts_with "/usr/" path.

(** * Files *)

Inductive FileType := FileType_Directory | FileType_Regular | FileType_SymbolicLink | FileType_Other.
#[global] Instance FileType_eq_dec : EqDecision FileType.
Proof. solve_decision. Defined.

(** [GFileInfo]: the type, "unix::mode" and the target of a link. *)
Record FileInfo := MkFileInfo { file_type : FileType; unix_mode : Z; symlink_target : option string }.
Definition set_unix_mode (mode : Z) (i : FileInfo) : FileInfo := MkFileInfo (file_type i) mode (symlink_target i).

(** An entry of the header: [rpmfiFN], [rpmfiFUser] and so on. *)
Record RpmFi := MkRpmFi {
  rpmfiFN : option string;
  rpmfiFUser : option string;
  rpmfiFGroup : option string;
  rpmfiFCaps : option string;
  rpmfiFFlags : Z;
  rpmfiFSignature : list Z;
  rpmfiFColor : N;
  rpmfiFMode : Z;
}.
Definition RPMFILE_DOC : Z := Z.shiftl 1 1.

(** -1 for a signature that is too short, 1 for a header of zeros, 0 otherwise. *)
Definition ima_check_zero_hdr (fsig : list Z) : Z :=
  if bool_decide (length fsig < 9) then -1
  else if bool_decide (take 9 fsig = replicate 9 0%Z) then 1 else 0.
Definition have_ima (fi : RpmFi) : bool :=
  negb (bool_decide (rpmfiFSignature fi = [])) && bool_decide (ima_check_zero_hdr (rpmfiFSignature fi) = 0%Z).

(** * The importer *)

Definition SKIP_EXTRANEOUS : Z := 1.
Definition NODOCS_FLAG : Z := 2.
Definition RO_EXECUTABLES : Z := 4.
Definition IMA : Z := 8.

(** The flags for a package of a treefile. *)
Definition importer_flags (tf : ComposeConfig) (pkg_name : string) : Z :=
  Z.lor (if bool_decide (pkg_name = "filesystem"%string) || bool_decide (pkg_name = "rootfiles"%string)
         then SKIP_EXTRANEOUS else 0)
  (Z.lor (if get_documentation tf then 0 else NODOCS_FLAG)
  (Z.lor (if get_readonly_executables tf then RO_EXECUTABLES else 0)
         (if get_ima tf then IMA else 0))).

Record RpmImporter := MkRpmImporter {
  doc_files : option (gset string);
  imp_flags : Z;
  opt_direntries : gset string;
  ostree_branch : string;
  importer_pkg_name : string;
  varlib_direntries : gset string;
  rpmfi_overrides : gmap string nat;
  tmpfiles_entries : list string;
}.
Definition set_doc_files (d : option (gset string)) (i : RpmImporter) : RpmImporter :=
  MkRpmImporter d (imp_flags i) (opt_direntries i) (ostree_branch i) (importer_pkg_name i)
    (varlib_direntries i) (rpmfi_overrides i) (tmpfiles_entries i).
Definition set_opt_direntries (d : gset string) (i : RpmImporter) : RpmImporter :=
  MkRpmImporter (doc_files i) (imp_flags i) d (ostree_branch i) (importer_pkg_name i)
    (varlib_direntries i) (rpmfi_overrides i) (tmpfiles_entries i).
Definition set_varlib_direntries (d : gset string) (i : RpmImporter) : RpmImporter :=
  MkRpmImporter (doc_files i) (imp_flags i) (opt_direntries i) (ostree_branch i) (importer_pkg_name i)
    d (rpmfi_overrides i) (tmpfiles_entries i).
Definition set_rpmfi_overrides (m : gmap string nat) (i : RpmImporter) : RpmImporter :=
  MkRpmImporter (doc_files i) (imp_flags i) (opt_direntries i) (ostree_branch i) (importer_pkg_name i)
    (varlib_direntries i) m (tmpfiles_entries i).
Definition set_tmpfiles_entries (l : list string) (i : RpmImporter) : RpmImporter :=
  MkRpmImporter (doc_files i) (imp_flags i) (opt_direntries i) (ostree_branch i) (importer_pkg_name i)
    (varlib_direntries i) (rpmfi_overrides i) l.

Definition rpm_importer_new (pkg_name ostree_branch : string) (flags : Z) : outcome RpmImporter :=
  if bool_decide (pkg_name = ""%string) then glnx_throw "Empty package name"
  else Ok (MkRpmImporter (if flag_set flags NODOCS_FLAG then Some ∅ else None) flags ∅ ostree_branch pkg_name ∅ ∅ []).

Definition get_first_path_element (rel_path : string) : string :=
  match split_slash rel_path with Some (dirname, _) => dirname | None => rel_path end.

(** Whether the path is one of the special cases. *)
Definition inspect_opt_path (self : RpmImporter) (path : string) : bool * RpmImporter :=
  match strip_prefix "opt/" path with
  | Some prefixless =>
      let dirname := get_first_path_element prefixless in
      if bool_decide (dirname = ""%string) then (false, self)
      else (true, set_opt_direntries ({[dirname]} ∪ opt_direntries self) self)
  | None => (false, self)
  end.
Definition inspect_varlib_path (self : RpmImporter) (path : string) : bool * RpmImporter :=
  let dirname :=
    if bool_decide (path = "var/lib/alternatives"%string) then Some "alternatives"%string
    else if bool_decide (path = "var/lib/vagrant"%string) then Some "vagrant"%string
    else None in
  match dirname with
  | Some entry => (true, set_varlib_direntries ({[entry]} ∪ varlib_direntries self) self)
  | None => (false, self)
  end.
Definition inspect_path_for_symlink_translation (self : RpmImporter) (path : string) : bool * RpmImporter :=
  let '(matched, self) := inspect_opt_path self path in
  if matched then (true, self) else inspect_varlib_path self path.

Definition handle_translate_pathname (self : RpmImporter) (path : string) : outcome (string * RpmImporter) :=
  _ ← g_assert (negb (starts_with "/" path));
  let self := (inspect_path_for_symlink_translation self path).2 in
  translated ← translate_path_for_ostree path;
  Ok (translated, self).

Definition doc_files_are_filtered (self : RpmImporter) : bool := nonnull (doc_files self).
Definition doc_files_insert (path : string) (self : RpmImporter) : RpmImporter :=
  match doc_files self with
  | Some docs => set_doc_files (Some ({[path]} ∪ docs)) self
  | None => self
  end.
Definition doc_files_contains (self : RpmImporter) (path : string) : bool :=
  match doc_files self with Some docs => bool_decide (path ∈ docs) | None => false end.
Definition is_ima_enabled (self : RpmImporter) : bool := flag_set (imp_flags self) IMA.

(** ** Modes and link targets *)

Definition S_IFMT : Z := 61440.
Definition S_IWUSR : Z := 128.
(** [S_IXUSR | S_IXGRP | S_IXOTH] and [S_IWUSR | S_IWGRP | S_IWOTH]. *)
Definition MODE_EXEC : Z := 73.
Definition MODE_WRITE : Z := 146.

(** Empty components and "." are dropped, but for a leading ".". *)
Definition canonicalize_path (p : string) : string :=
  let parts := filter (λ c, c ≠ ""%string) (split_components p "") in
  if starts_with "/" p then "/" +:+ String.concat "/" (filter (λ c, c ≠ "."%string) parts)
  else match parts with
       | [] => ""
       | first :: parts => String.concat "/" (first :: filter (λ c, c ≠ "."%string) parts)
       end.

Definition tweak_imported_file_info (ro_executables : bool) (info : FileInfo) : FileInfo :=
  match file_type info with
  | FileType_Directory => set_unix_mode (Z.lor (unix_mode info) S_IWUSR) info
  | FileType_Regular =>
      if ro_executables && negb (bool_decide (Z.land (unix_mode info) MODE_EXEC = 0%Z))
      then set_unix_mode (Z.land (unix_mode info) (Z.lnot MODE_WRITE)) info
      else info
  | FileType_SymbolicLink =>
      match symlink_target info with
      | Some target =>
          if ends_with "//sbin/chkconfig" target
          then MkFileInfo (file_type info) (unix_mode info) (Some (canonicalize_path target))
          else info
      | None => info
      end
  | FileType_Other => info
  end.

(** ** tmpfiles.d *)

(** Octal digits, at least [width] of them; 32 bits have eleven. *)
Fixpoint octal_go (fuel width : nat) (v : N) (acc : string) : string :=
  match fuel with
  | 0 => acc
  | S fuel =>
      if (v =? 0)%N && (width <=? String.length acc)%nat then acc
      else octal_go fuel width (N.shiftr v 3) (String (ascii_of_N (48 + N.land v 7)) acc)
  end.
Definition format_04o (mode : Z) : string := octal_go 11 4 (Z.to_N mode) "".

Definition shellsafe (c : ascii) : bool :=
  g_ascii_isalnum c || bool_decide (c ∈ ["-"; "."; "_"; "/"; "="; ":"]%char).
Fixpoint all_chars (f : ascii → bool) (s : string) : bool :=
  match s with EmptyString => true | String c s => f c && all_chars f s end.

Section importer.
(** [glib::shell_quote], the EVR of a header, SHA-256 and the extended attribute of file
    capabilities *)
Context (shell_quote : string → string) (header_evr : Header → string) (sha256 : string → string)
  (fcap_to_ostree_xattr : string → result string) (char_signed : bool).

Definition maybe_shell_quote (input : string) : string :=
  if negb (bool_decide (input = ""%string)) && all_chars shellsafe input then input else shell_quote input.

(** "/var/run" is "/run". *)
Definition canonicalize_escape_path (abs_path : string) : string :=
  maybe_shell_quote
    (match strip_prefix "/var" abs_path with
     | Some rest => if starts_with "/var/run/" abs_path then rest else abs_path
     | None => abs_path
     end).

Definition translate_to_tmpfiles_d (abs_path : string) (info : FileInfo) (username groupname : string) :
    outcome string :=
  prefix_error ("Translating " +:+ abs_path) (
    filetype_char ← match file_type info with
                    | FileType_Directory => Ok "d"%string
                    | FileType_Regular => Ok "f"%string
                    | FileType_SymbolicLink => Ok "L"%string
                    | FileType_Other => glnx_throw ("path '" +:+ abs_path +:+ "' has invalid type")
                    end;
    let buf := filetype_char +:+ " " +:+ canonicalize_escape_path abs_path in
    if bool_decide (file_type info = FileType_SymbolicLink) then
      match symlink_target info with
      | None => glnx_throw "missing symlink target"
      | Some link_target => Ok (buf +:+ " - - - - " +:+ link_target)
      end
    else
      Ok (buf +:+ " " +:+ format_04o (Z.land (unix_mode info) (Z.lnot S_IFMT)) +:+ " " +:+ username
          +:+ " " +:+ groupname +:+ " - -")).

Definition tmpfiles_symlink_entries (self : RpmImporter) : list string :=
  ((λ dirname, "L " +:+ maybe_shell_quote ("/opt/" +:+ dirname) +:+ " - - - - ../../usr/lib/opt/" +:+ dirname)
     <$> bset_iter (opt_direntries self))
  ++ ((λ dirname, "L " +:+ maybe_shell_quote ("/var/lib/" +:+ dirname) +:+ " - - - - ../../usr/lib/" +:+ dirname)
        <$> bset_iter (varlib_direntries self)).
Definition has_tmpfiles_entries (self : RpmImporter) : bool :=
  bool_decide (0 < length (tmpfiles_entries self) + size (opt_direntries self) + size (varlib_direntries self)).
Definition serialize_tmpfiles_content (self : RpmImporter) : string :=
  foldl (λ buf entry, buf +:+ entry +:+ nl) ""%string (tmpfiles_symlink_entries self ++ tmpfiles_entries self).

(** ** Reading the header *)

Definition is_root (o : option string) : bool := match o with Some u => bool_decide (u = "root"%string) | None => true end.
Definition fcaps_is_unset (o : option string) : bool :=
  match o with Some c => bool_decide (c = ""%string) | None => true end.

Fixpoint build_rpmfi_overrides_from (i : nat) (fi : list RpmFi) (self : RpmImporter) : outcome RpmImporter :=
  match fi with
  | [] => Ok self
  | f :: fi =>
      match rpmfiFN f with
      | None => glnx_throw "Missing expected filepath"
      | Some abs_filepath =>
          _ ← throw_if (negb (starts_with "/" abs_filepath)) ("Invalid absolute filepath '" +:+ abs_filepath +:+ "'");
          let self :=
            if negb (is_root (rpmfiFUser f) && is_root (rpmfiFGroup f) && fcaps_is_unset (rpmfiFCaps f)) || have_ima f
            then set_rpmfi_overrides (<[abs_filepath := i]> (rpmfi_overrides self)) self
            else self in
          let self :=
            if doc_files_are_filtered self && flag_set (rpmfiFFlags f) RPMFILE_DOC
            then doc_files_insert abs_filepath self
            else self in
          build_rpmfi_overrides_from (S i) fi self
      end
  end.
Definition build_rpmfi_overrides (fi : list RpmFi) (self : RpmImporter) : outcome RpmImporter :=
  build_rpmfi_overrides_from 0 fi self.

(** The entry of the header for a path that needs it. *)
Definition get_rpmfi_override (fi : list RpmFi) (self : RpmImporter) (abs_filepath : string) : outcome (option RpmFi) :=
  _ ← g_assert (starts_with "/" abs_filepath);
  match rpmfi_overrides self !! abs_filepath with
  | None => Ok None
  | Some index => match fi !! index with Some f => Ok (Some f) | None => Abort end
  end.

Definition rpmostree_get_cache_branch_header (hdr : Header) : string :=
  rpmostree_get_cache_branch_for_n_evr_a char_signed (h_name hdr) (header_evr hdr) (h_arch hdr).
Definition rpmostree_importer_new_take_fd (hdr : Header) (fi : list RpmFi) (flags : Z) : outcome RpmImporter :=
  importer_rs ← rpm_importer_new (h_name hdr) (rpmostree_get_cache_branch_header hdr) flags;
  prefix_error ("Processing file-overrides for package " +:+ h_name hdr) (build_rpmfi_overrides fi importer_rs).

(** ** The callbacks of the import *)

Inductive FilterResult := OSTREE_REPO_COMMIT_FILTER_ALLOW | OSTREE_REPO_COMMIT_FILTER_SKIP.
#[global] Instance FilterResult_eq_dec : EqDecision FilterResult.
Proof. solve_decision. Defined.

Definition import_filter (path : string) (skip_extraneous : bool) : outcome FilterResult :=
  prefix_error ("Analyzing " +:+ path) (
    if starts_with "/usr/etc/selinux" path && ends_with ".LOCK" path then Ok OSTREE_REPO_COMMIT_FILTER_SKIP
    else if starts_with "/run" path || starts_with "/var" path then Ok OSTREE_REPO_COMMIT_FILTER_SKIP
    else if negb (path_is_ostree_compliant path) then
      if negb skip_extraneous then
        glnx_throw "Unsupported path; see https://github.com/projectatomic/rpm-ostree/issues/233"
      else Ok OSTREE_REPO_COMMIT_FILTER_SKIP
    else Ok OSTREE_REPO_COMMIT_FILTER_ALLOW).

(** The importer and the error of the callbacks; the first one stays. *)
Record ImportState := MkImportState { im_self : RpmImporter; im_error : option gerror }.
Definition note_error (e : gerror) (s : ImportState) : ImportState :=
  MkImportState (im_self s) (match im_error s with Some e0 => Some e0 | None => Some e end).

Definition translate_to_tmpfiles_entry (path : string) (info : FileInfo) (username groupname : string)
    (s : ImportState) : ImportState :=
  match translate_to_tmpfiles_d path info username groupname with
  | Ok entry =>
      MkImportState (set_tmpfiles_entries (tmpfiles_entries (im_self s) ++ [entry]) (im_self s)) (im_error s)
  | Err e => note_error e s
  | Abort => s
  end.

(** [path] is where the file goes, after the translation. *)
Definition compose_filter_cb (fi : list RpmFi) (path : string) (info : FileInfo) (s : ImportState) :
    outcome (FilterResult * FileInfo * ImportState) :=
  _ ← g_assert (starts_with "/" path);
  let self := im_self s in
  let skip s := Ok (OSTREE_REPO_COMMIT_FILTER_SKIP, info, s) in
  if doc_files_are_filtered self && doc_files_contains self path then skip s
  else if starts_with "/run/" path || starts_with "/var/" path then
    if starts_with "/var/lib/rpm" path || starts_with "/var/lib/selinux" path then skip s
    else match file_type info with
    | FileType_Directory | FileType_SymbolicLink =>
        override ← get_rpmfi_override fi self path;
        let user := default "root"%string (override ≫= rpmfiFUser) in
        let group := default "root"%string (override ≫= rpmfiFGroup) in
        skip (translate_to_tmpfiles_entry path info user group s)
    | _ => skip s
    end
  else
    match import_filter path (flag_set (imp_flags self) SKIP_EXTRANEOUS) with
    | Ok OSTREE_REPO_COMMIT_FILTER_ALLOW =>
        Ok (OSTREE_REPO_COMMIT_FILTER_ALLOW,
            tweak_imported_file_info (flag_set (imp_flags self) RO_EXECUTABLES) info, s)
    | Ok OSTREE_REPO_COMMIT_FILTER_SKIP => skip s
    | Err e => skip (note_error e s)
    | Abort => Abort
    end.

Inductive xattr := FileCaps (value : string) | ImaSignature (value : list Z).
Definition xattr_cb (fi : list RpmFi) (path : string) (s : ImportState) : outcome (list xattr * ImportState) :=
  _ ← g_assert (starts_with "/" path);
  override ← get_rpmfi_override fi (im_self s) path;
  match override with
  | None => Ok ([], s)
  | Some f =>
      let ima := if is_ima_enabled (im_self s) && have_ima f then [ImaSignature (rpmfiFSignature f)] else [] in
      if fcaps_is_unset (rpmfiFCaps f) then Ok (ima, s)
      else match fcap_to_ostree_xattr (default ""%string (rpmfiFCaps f)) with
           | Done v => Ok (FileCaps v :: ima, s)
           | Failed e => Ok ([], note_error e s)
           end
  end.

(** An entry of the archive, by its relative path, and a file of the commit. *)
Record Imported := MkImported { im_path : string; im_info : FileInfo; im_xattrs : list xattr }.
Definition import_entry (fi : list RpmFi) (entry : string * FileInfo) (s : ImportState) :
    outcome (option Imported * ImportState) :=
  let '(path, info) := entry in
  '(translated, self) ← handle_translate_pathname (im_self s) path;
  let s := MkImportState self (im_error s) in
  let path := "/" +:+ (if bool_decide (translated = ""%string) then path else translated) in
  '(r, info, s) ← compose_filter_cb fi path info s;
  match r with
  | OSTREE_REPO_COMMIT_FILTER_SKIP => Ok (None, s)
  | OSTREE_REPO_COMMIT_FILTER_ALLOW =>
      '(xattrs, s) ← xattr_cb fi path s;
      Ok (Some (MkImported path info xattrs), s)
  end.
Fixpoint import_entries (fi : list RpmFi) (archive : list (string * FileInfo)) (s : ImportState) :
    outcome (list Imported * ImportState) :=
  match archive with
  | [] => Ok ([], s)
  | entry :: archive =>
      '(file, s) ← import_entry fi entry s;
      '(files, s) ← import_entries fi archive s;
      Ok (match file with Some file => file :: files | None => files end, s)
  end.

(** ** The metadata of the commit *)

Definition PKG_NEVRA_FLAGS_NEVRA : Z :=
  Z.lor (Z.lor PKG_NEVRA_FLAGS_NAME PKG_NEVRA_FLAGS_EPOCH_VERSION_RELEASE) PKG_NEVRA_FLAGS_ARCH.
Definition rpmostree_importer_get_nevra (hdr : Header) : string :=
  rpmostree_header_custom_nevra_strdup hdr PKG_NEVRA_FLAGS_NEVRA.

(** [metadata] is the header as it is in the RPM. *)
Definition build_metadata_variant (self : RpmImporter) (metadata : string) (sepolicy : option SePolicy)
    (pkg : option Package) (repo : option DnfRepo) : outcome (vardict * string) :=
  let metadata_sha256 := sha256 metadata in
  let dict : vardict :=
    <["rpmostree.unpack_minor_version"%string := VUint32 6]>
    (<["rpmostree.unpack_version"%string := VUint32 1]>
    (<["rpmostree.nevra"%string := VOther]>
    (<[METADATA_SHA256 := VString metadata_sha256]>
    {["rpmostree.metadata"%string := VOther]}))) in
  dict ← match sepolicy with
         | Some policy => match sep_csum policy with
                          | Some csum => Ok (<[SEPOLICY := VString csum]> dict)
                          | None => Abort
                          end
         | None => Ok dict
         end;
  dict ← match pkg with
         | Some pkg =>
             let dict := if nonnull repo then <["rpmostree.repo"%string := VOther]> dict else dict in
             chksum_repr ← get_repodata_chksum_repr pkg;
             Ok (<[REPODATA_CHECKSUM := VString chksum_repr]> dict)
         | None => Ok dict
         end;
  Ok (if doc_files_are_filtered self then <[NODOCS := VBool true]> dict else dict, metadata_sha256).

(** What goes to libostree: the files, the tmpfiles.d fragment and the metadata. *)
Record ImportedCommit := MkImportedCommit {
  ic_branch : string;
  ic_files : list Imported;
  ic_tmpfiles : option (string * string);
  ic_commit : PkgCommit;
  ic_metadata_sha256 : string;
}.
Definition import_rpm_to_repo (fi : list RpmFi) (archive : list (string * FileInfo)) (self : RpmImporter)
    (metadata : string) (sepolicy : option SePolicy) (pkg : option Package) (repo : option DnfRepo) :
    outcome ImportedCommit :=
  '(files, s) ← import_entries fi archive (MkImportState self None);
  match im_error s with
  | Some e => Err e
  | None =>
      let self := im_self s in
      '(dict, metadata_sha256) ← build_metadata_variant self metadata sepolicy pkg repo;
      Ok (MkImportedCommit (ostree_branch self) files
            (if has_tmpfiles_entries self
             then Some ("usr/lib/rpm-ostree/tmpfiles.d/" +:+ importer_pkg_name self +:+ ".conf",
                        serialize_tmpfiles_content self)
             else None)
            (MkPkgCommit dict (Some metadata) false) metadata_sha256)
  end.
Definition rpmostree_importer_run (fi : list RpmFi) (archive : list (string * FileInfo)) (self : RpmImporter)
    (metadata : string) (sepolicy : option SePolicy) (pkg : option Package) (repo : option DnfRepo) :
    outcome ImportedCommit :=
  prefix_error ("Importing package '" +:+ importer_pkg_name self +:+ "'")
    (import_rpm_to_repo fi archive self metadata sepolicy pkg repo).
End importer.
