(* ===== verification/ImporterSpec.v ===== *)
(** What an import puts into the package cache: content only where ostree manages it, a
    tmpfiles.d line for what is state, nothing lost silently, and metadata by which the
    package is found again. *)

From S2P Require Import Prelude Vardict FileTree Nevra RpmHeaders Deploy SysrootCore Origin Core CoreSpec Importer.

(** * Paths *)

(** Where a relative path of the archive goes. *)
Definition destination (path : string) : string := "/" +:+ default path (translated_path path).
Definition relative (path : string) : bool := negb (starts_with "/" path) && negb (starts_with "./" path).

(** A path that is translated ends up below "/usr/". *)
Lemma translate_below_usr path t : translated_path path = Some t → starts_with "usr/" t = true.
Proof.
  unfold translated_path.
  destruct (_ || _); [intros [= <-]; by apply starts_with_lit|].
  destruct (strip_prefix "boot/" path); [intros [= <-]; by apply starts_with_lit|].
  destruct (strip_prefix "var/lib/selinux/targeted/" path); [intros [= <-]; by apply starts_with_lit|].
  destruct (_ || _); [intros [= <-]; by apply starts_with_lit|].
  destruct (strip_prefix "var/lib/" path); [|done].
  destruct (existsb _ _); [intros [= <-]; by apply starts_with_lit|done].
Qed.

Lemma translate_relative path : relative path = true →
  translate_path_for_ostree path = Ok (default ""%string (translated_path path)).
Proof.
  unfold relative, translate_path_for_ostree, translate_path_for_ostree_impl.
  intros [H1 H2]%andb_true_iff. by rewrite H1, H2.
Qed.

Lemma destination_eq path : 
  let translated := default ""%string (translated_path path) in
  "/" +:+ (if bool_decide (translated = ""%string) then path else translated) = destination path.
Proof.
  unfold destination. destruct (translated_path path) as [t|] eqn:E; simpl; [|done].
  rewrite bool_decide_eq_false_2; [done|]. intros ->. by apply translate_below_usr in E.
Qed.
Lemma destination_absolute path : starts_with "/" (destination path) = true.
Proof. by apply starts_with_lit. Qed.

(** * Entries *)

Section spec.
Context (shell_quote : string → string) (header_evr : Header → string) (sha256 : string → string)
  (fcap_to_ostree_xattr : string → result string) (char_signed : bool).

Local Abbreviation entry_of := (import_entry shell_quote fcap_to_ostree_xattr).
Local Abbreviation entries_of := (import_entries shell_quote fcap_to_ostree_xattr).
Local Abbreviation filter_cb := (compose_filter_cb shell_quote).

(** What the import does not change, and what it only adds to. *)
Record extends (i j : RpmImporter) : Prop := {
  ex_docs : doc_files j = doc_files i;
  ex_flags : imp_flags j = imp_flags i;
  ex_branch : ostree_branch j = ostree_branch i;
  ex_name : importer_pkg_name j = importer_pkg_name i;
  ex_overrides : rpmfi_overrides j = rpmfi_overrides i;
  ex_opt : opt_direntries i ⊆ opt_direntries j;
  ex_varlib : varlib_direntries i ⊆ varlib_direntries j;
  ex_tmpfiles : tmpfiles_entries i `prefix_of` tmpfiles_entries j;
}.
#[local] Instance extends_preorder : PreOrder extends.
Proof.
  split; [by split|]. intros i j k [] []. split; first [congruence|by etrans].
Qed.

Lemma inspect_extends self path : extends self (inspect_path_for_symlink_translation self path).2.
Proof.
  unfold inspect_path_for_symlink_translation, inspect_opt_path, inspect_varlib_path.
  destruct (strip_prefix _ _); [case_bool_decide|]; repeat case_bool_decide; simpl; split; simpl; try done;
    apply union_subseteq_r.
Qed.

(** The error of the callbacks stays. *)
Definition grows (s s' : ImportState) : Prop :=
  extends (im_self s) (im_self s') ∧ (im_error s ≠ None → im_error s' ≠ None).
#[local] Instance grows_preorder : PreOrder grows.
Proof.
  split; [by split|]. intros s1 s2 s3 [? ?] [? ?]. split; [by etrans|auto].
Qed.
Lemma note_error_grows e s : grows s (note_error e s).
Proof. split; [done|]. simpl. by destruct (im_error s). Qed.
Lemma note_error_set e s : im_error (note_error e s) ≠ None.
Proof. simpl. by destruct (im_error s). Qed.

Lemma tmpfiles_entry_grows path info user group s :
  grows s (translate_to_tmpfiles_entry shell_quote path info user group s).
Proof.
  unfold translate_to_tmpfiles_entry. destruct (translate_to_tmpfiles_d _ _ _ _ _); [|apply note_error_grows|done].
  split; [|done]. split; simpl; try done. by eexists.
Qed.

(** Why a file of the archive is not part of the commit. [self] is the importer when the
    file was looked at, [s'] the state after it. *)
Inductive left_out (fi : list RpmFi) (self : RpmImporter) (path : string) (info : FileInfo) (s' : ImportState) : Prop :=
  | left_doc : doc_files_contains self path = true → left_out fi self path info s'
  | left_owned : starts_with "/var/lib/rpm" path = true ∨ starts_with "/var/lib/selinux" path = true →
      left_out fi self path info s'
  | left_state : starts_with "/run" path = true ∨ starts_with "/var" path = true →
      file_type info ≠ FileType_Directory → file_type info ≠ FileType_SymbolicLink → left_out fi self path info s'
  | left_mount : starts_with "/run" path = true ∨ starts_with "/var" path = true →
      starts_with "/run/" path = false → starts_with "/var/" path = false → left_out fi self path info s'
  | left_tmpfiles override line : get_rpmfi_override fi self path = Ok override →
      translate_to_tmpfiles_d shell_quote path info (default "root"%string (override ≫= rpmfiFUser))
        (default "root"%string (override ≫= rpmfiFGroup)) = Ok line →
      line ∈ tmpfiles_entries (im_self s') → left_out fi self path info s'
  | left_lock : starts_with "/usr/etc/selinux" path = true → ends_with ".LOCK" path = true → left_out fi self path info s'
  | left_extraneous : path_is_ostree_compliant path = false → flag_set (imp_flags self) SKIP_EXTRANEOUS = true →
      left_out fi self path info s'
  | left_error : im_error s' ≠ None → left_out fi self path info s'.

(** A file of the commit. *)
Record taken (self : RpmImporter) (path : string) (info info' : FileInfo) : Prop := {
  tk_compliant : path_is_ostree_compliant path = true;
  tk_run : starts_with "/run" path = false;
  tk_var : starts_with "/var" path = false;
  tk_doc : doc_files_contains self path = false;
  tk_info : info' = tweak_imported_file_info (flag_set (imp_flags self) RO_EXECUTABLES) info;
}.

Lemma run_slash path : starts_with "/run/" path = true → starts_with "/run" path = true.
Proof. apply (starts_with_app "/run" "/"). Qed.
Lemma var_slash path : starts_with "/var/" path = true → starts_with "/var" path = true.
Proof. apply (starts_with_app "/var" "/"). Qed.

Lemma filter_cb_allow fi path info s info' s' :
  filter_cb fi path info s = Ok (OSTREE_REPO_COMMIT_FILTER_ALLOW, info', s') → taken (im_self s) path info info' ∧ s' = s.
Proof.
  intros (_ & _ & H)%bind_ok. cbv zeta in H.
  destruct (doc_files_are_filtered (im_self s) && _) eqn:Hd; [done|].
  destruct (starts_with "/run/" path || starts_with "/var/" path) eqn:Hrv.
  { destruct (_ || _) in H; [done|]. destruct (file_type info); try done; by apply bind_ok in H as (? & _ & ?). }
  destruct (import_filter _ _) as [[]| |] eqn:Hf; try done. injection H as <- <-.
  unfold import_filter in Hf. apply prefix_error_ok in Hf.
  destruct (_ && _) in Hf; [done|]. destruct (starts_with "/run" path || starts_with "/var" path) eqn:H1; [done|].
  apply orb_false_iff in H1 as [? ?].
  destruct (path_is_ostree_compliant path) eqn:Hc; simpl in Hf; [|by destruct (negb _)].
  split; [|done]. split; try done. unfold doc_files_are_filtered, doc_files_contains in *.
  destruct (doc_files (im_self s)); [|done]. done.
Qed.

Lemma filter_cb_skip fi path info s info' s' :
  filter_cb fi path info s = Ok (OSTREE_REPO_COMMIT_FILTER_SKIP, info', s') →
  left_out fi (im_self s) path info s' ∧ grows s s'.
Proof.
  intros (_ & _ & H)%bind_ok. cbv zeta in H.
  destruct (doc_files_are_filtered (im_self s) && _) eqn:Hd.
  { injection H as _ <-. apply andb_true_iff in Hd as [_ ?]. split; [by apply left_doc|done]. }
  destruct (starts_with "/run/" path || starts_with "/var/" path) eqn:Hrv.
  - assert (starts_with "/run" path = true ∨ starts_with "/var" path = true) as Hp.
    { apply orb_true_iff in Hrv as [?%run_slash|?%var_slash]; auto. }
    destruct (starts_with "/var/lib/rpm" path || starts_with "/var/lib/selinux" path) eqn:Ho.
    { injection H as _ <-. split; [|done]. by apply left_owned, orb_true_iff. }
    destruct (file_type info) eqn:Ht.
    2,4: injection H as _ <-; split; [apply left_state; congruence|done].
    all: apply bind_ok in H as (o & Ho' & H); injection H as _ <-; split; [|apply tmpfiles_entry_grows].
    all: unfold translate_to_tmpfiles_entry; destruct (translate_to_tmpfiles_d _ _ _ _ _) as [line|e|] eqn:Hl.
    1,4: eapply left_tmpfiles; [done|done|]; apply elem_of_app; right; left.
    1,3: apply left_error, note_error_set.
    all: unfold translate_to_tmpfiles_d in Hl; rewrite Ht in Hl; simpl in Hl; try case_bool_decide; try done;
      destruct (symlink_target info); done.
  - apply orb_false_iff in Hrv as [Hr Hv].
    destruct (import_filter _ _) as [[]|e|] eqn:Hf; try done; injection H as _ <-.
    + split; [|done]. unfold import_filter in Hf. apply prefix_error_ok in Hf.
      destruct (_ && _) eqn:Hl in Hf; [apply andb_true_iff in Hl as [? ?]; by apply left_lock|].
      destruct (starts_with "/run" path || starts_with "/var" path) eqn:H1;
        [by apply left_mount; [apply orb_true_iff|..]|].
      destruct (path_is_ostree_compliant path) eqn:Hc; simpl in Hf; [done|].
      destruct (flag_set _ _) eqn:Hs; simpl in Hf; [by apply left_extraneous|done].
    + split; [apply left_error, note_error_set|apply note_error_grows].
Qed.

Lemma xattr_cb_grows fi path s xs s' : xattr_cb fcap_to_ostree_xattr fi path s = Ok (xs, s') → grows s s'.
Proof.
  intros (_ & _ & (o & _ & H)%bind_ok)%bind_ok. destruct o as [f|]; [|by injection H as _ <-].
  cbv zeta in H. destruct (fcaps_is_unset _); [by injection H as _ <-|].
  destruct (fcap_to_ostree_xattr _); injection H as _ <-; [done|apply note_error_grows].
Qed.

(** The reasons do not depend on what an import adds, and stay. *)
Lemma left_out_mono fi i j path info s1 s2 :
  extends i j → grows s1 s2 → left_out fi j path info s1 → left_out fi i path info s2.
Proof.
  intros [Hd Hfl _ _ Ho _ _ _] [Hg He] [H|H|H1 H2 H3|H1 H2 H3|o l H1 H2 H3|H1 H2|H1 H2|H].
  - apply left_doc. unfold doc_files_contains in *. by rewrite Hd in H.
  - by apply left_owned.
  - by apply left_state.
  - by apply left_mount.
  - eapply left_tmpfiles; [|done|].
    + unfold get_rpmfi_override in *. by rewrite Ho in H1.
    + destruct (ex_tmpfiles _ _ Hg) as [k ->]. apply elem_of_app. by left.
  - by apply left_lock.
  - apply left_extraneous; [done|]. by rewrite Hfl in H2.
  - by apply left_error, He.
Qed.
Lemma taken_mono i j path info info' : extends i j → taken j path info info' → taken i path info info'.
Proof.
  intros [Hd Hfl _ _ _ _ _ _] [? ? ? Hdoc Hinfo]. split; try done.
  - unfold doc_files_contains in *. by rewrite Hd in Hdoc.
  - by rewrite Hfl in Hinfo.
Qed.

(** The importer when an entry is looked at: the path has been inspected. *)
Definition inspected (self : RpmImporter) (path : string) : RpmImporter :=
  (inspect_path_for_symlink_translation self path).2.
(** What became of an entry of the archive. *)
Definition handled (fi : list RpmFi) (self : RpmImporter) (files : list Imported) (s' : ImportState)
    (path : string) (info : FileInfo) : Prop :=
  (∃ f, f ∈ files ∧ im_path f = destination path ∧ taken self (destination path) info (im_info f)) ∨
  left_out fi self (destination path) info s'.

Lemma import_entry_spec fi path info s file s' : relative path = true →
  entry_of fi (path, info) s = Ok (file, s') → grows s s' ∧ extends (inspected (im_self s) path) (im_self s') ∧
  match file with
  | Some f => im_path f = destination path ∧ taken (im_self s) (destination path) info (im_info f)
  | None => left_out fi (im_self s) (destination path) info s'
  end.
Proof.
  intros Hrel. unfold import_entry, handle_translate_pathname. pose proof (inspect_extends (im_self s) path) as Hi.
  rewrite translate_relative by done. intros ([t self] & (_ & _ & [= <- <-])%bind_ok & H)%bind_ok.
  fold (inspected (im_self s) path) in *.
  rewrite destination_eq in H. apply bind_ok in H as ([[r info'] s1] & Hf & H).
  set (s0 := MkImportState (inspected (im_self s) path) (im_error s)) in *.
  assert (grows s s0) as Hg by done. destruct r.
  - apply filter_cb_allow in Hf as [Ht ->]. apply bind_ok in H as ([xs s2] & Hx & [= <- <-]).
    apply xattr_cb_grows in Hx. split; [by etrans|]. split; [by destruct Hx|]. split; [done|]. by apply (taken_mono _ (im_self s0)).
  - injection H as <- <-. apply filter_cb_skip in Hf as [Hl Hg']. split; [by etrans|].
    split; [by destruct Hg'|]. by apply (left_out_mono fi _ (im_self s0) _ _ s1 s1).
Qed.

(** A package directory below "/opt". *)
Definition opt_dirname (path : string) : option string :=
  rest ← strip_prefix "opt/" path;
  let d := get_first_path_element rest in if bool_decide (d = ""%string) then None else Some d.
Lemma inspected_opt self path d : opt_dirname path = Some d → d ∈ opt_direntries (inspected self path).
Proof.
  unfold opt_dirname, inspected, inspect_path_for_symlink_translation, inspect_opt_path.
  destruct (strip_prefix _ _); simpl; [|done]. case_bool_decide; [done|]. intros [= ->]. simpl. set_solver.
Qed.

Lemma import_entries_spec fi archive s files s' : Forall (λ e, relative e.1 = true) archive →
  entries_of fi archive s = Ok (files, s') → grows s s' ∧
  (∀ f, f ∈ files → ∃ path info, (path, info) ∈ archive ∧ im_path f = destination path ∧
     taken (im_self s) (destination path) info (im_info f)) ∧
  (∀ path info, (path, info) ∈ archive → handled fi (im_self s) files s' path info ∧
     ∀ d, opt_dirname path = Some d → d ∈ opt_direntries (im_self s')).
Proof.
  revert s files. induction archive as [|[path info] archive IH]; intros s files Hrel; cbn [import_entries].
  { intros [= <- <-]. split; [done|]. split; [by intros ? ?%elem_of_nil|by intros ? ? ?%elem_of_nil]. }
  inversion_clear Hrel as [|? ? Hp Hrest]. intros ([file s1] & He & ([files1 s2] & Hes & [= <- <-])%bind_ok)%bind_ok.
  destruct (import_entry_spec _ _ _ _ _ _ Hp He) as ([Hx He1] & Hi & Hfile). clear He.
  destruct (IH s1 files1 Hrest Hes) as ([Hx2 He2] & Hin & Hout). split; [split; [by etrans|auto]|]. split.
  - intros f Hf. destruct file as [f0|]; [apply elem_of_cons in Hf as [->|Hf]|].
    + exists path, info. split; [left|done].
    + destruct (Hin f Hf) as (p & i & ? & ? & ?). exists p, i. split; [by right|]. split; [done|]. by apply (taken_mono _ (im_self s1)).
    + destruct (Hin f Hf) as (p & i & ? & ? & ?). exists p, i. split; [by right|]. split; [done|]. by apply (taken_mono _ (im_self s1)).
  - intros p i [[= -> ->]|Hpi]%elem_of_cons.
    + split.
      * destruct file as [f0|]; [left; exists f0; split; [left|done]|right].
        by apply (left_out_mono fi (im_self s) (im_self s) _ _ s1).
      * intros d Hd. apply (ex_opt _ _ Hx2), (ex_opt _ _ Hi). by apply inspected_opt.
    + destruct (Hout p i Hpi) as [Hh Hopt]. split; [|done]. destruct Hh as [(f & ? & ? & ?)|Hl].
      * left. exists f. split; [by destruct file; [right|]|]. split; [done|]. by apply (taken_mono _ (im_self s1)).
      * right. by apply (left_out_mono fi _ (im_self s1) _ _ s2).
Qed.

(** ** The commit *)

Local Abbreviation new_importer := (rpmostree_importer_new_take_fd header_evr char_signed).
Local Abbreviation run := (rpmostree_importer_run shell_quote sha256 fcap_to_ostree_xattr).

(** The lines of the tmpfiles.d fragment. *)
Definition tmpfiles_lines (ic : ImportedCommit) (lines : list string) : Prop :=
  ∃ file, ic_tmpfiles ic = Some (file, foldl (λ buf entry, buf +:+ entry +:+ nl) ""%string lines).

Lemma build_overrides_extends i fi self self' : build_rpmfi_overrides_from i fi self = Ok self' →
  imp_flags self' = imp_flags self ∧ ostree_branch self' = ostree_branch self ∧
  importer_pkg_name self' = importer_pkg_name self ∧ nonnull (doc_files self') = nonnull (doc_files self).
Proof.
  revert i self. induction fi as [|f fi IH]; intros i self; cbn [build_rpmfi_overrides_from].
  { by intros [= <-]. }
  destruct (rpmfiFN f) as [fn|]; [|done]. cbv zeta. intros (_ & _ & H)%bind_ok. apply IH in H.
  unfold doc_files_are_filtered, doc_files_insert, set_doc_files, set_rpmfi_overrides in *.
  destruct (flag_set (rpmfiFFlags f) RPMFILE_DOC), (_ || have_ima f); simpl in *;
    destruct (doc_files self) as [docs|] eqn:Hd; simpl in *; rewrite ?Hd in H; done.
Qed.

Lemma new_importer_spec hdr fi flags self : new_importer hdr fi flags = Ok self →
  imp_flags self = flags ∧ ostree_branch self = rpmostree_get_cache_branch_header header_evr char_signed hdr ∧
  doc_files_are_filtered self = flag_set flags NODOCS_FLAG.
Proof.
  unfold rpmostree_importer_new_take_fd, rpm_importer_new. intros (i & Hi & H%prefix_error_ok)%bind_ok.
  case_bool_decide; [done|]. injection Hi as <-.
  apply build_overrides_extends in H as (-> & -> & _ & Hd). split_and!; try done.
  unfold doc_files_are_filtered. rewrite Hd. simpl. by destruct (flag_set _ _).
Qed.

(** What the commit of an import is made of. *)
Lemma run_inv fi archive self metadata policy pkg repo ic :
  run fi archive self metadata policy pkg repo = Ok ic →
  ∃ s', import_entries shell_quote fcap_to_ostree_xattr fi archive (MkImportState self None) = Ok (ic_files ic, s') ∧
    im_error s' = None ∧ ic_branch ic = ostree_branch (im_self s') ∧
    ic_tmpfiles ic = (if has_tmpfiles_entries (im_self s') then
      Some ("usr/lib/rpm-ostree/tmpfiles.d/" +:+ importer_pkg_name (im_self s') +:+ ".conf",
            serialize_tmpfiles_content shell_quote (im_self s')) else None) ∧
    ∃ dict, build_metadata_variant sha256 (im_self s') metadata policy pkg repo = Ok (dict, ic_metadata_sha256 ic) ∧
      ic_commit ic = MkPkgCommit dict (Some metadata) false.
Proof.
  unfold rpmostree_importer_run, import_rpm_to_repo.
  intros ([files s'] & He & H)%prefix_error_ok%bind_ok. destruct (im_error s') eqn:Herr; [done|].
  apply bind_ok in H as ([dict sha] & Hb & [= <-]). exists s'. split_and!; try done. by exists dict.
Qed.

(** C12: the content of an imported package: every file of the commit comes from an entry of
    the archive, at the place ostree wants it, in a part of the tree ostree manages and not
    below "/run" or "/var"; every entry is in the commit or was left out for one of the known
    reasons, state directories and links with a line in tmpfiles.d; and every directory the
    package has below "/opt" gets a link there. *)
Theorem import_contents fi archive self metadata policy pkg repo ic :
  Forall (λ e, relative e.1 = true) archive → run fi archive self metadata policy pkg repo = Ok ic →
  ∃ s', im_error s' = None ∧
    (∀ f, f ∈ ic_files ic → ∃ path info, (path, info) ∈ archive ∧ im_path f = destination path ∧
       taken self (im_path f) info (im_info f)) ∧
    (∀ path info, (path, info) ∈ archive → handled fi self (ic_files ic) s' path info) ∧
    (∀ line, line ∈ tmpfiles_entries (im_self s') → ∃ lines, tmpfiles_lines ic lines ∧ line ∈ lines) ∧
    (∀ path info d, (path, info) ∈ archive → opt_dirname path = Some d → ∃ lines, tmpfiles_lines ic lines ∧
       "L " +:+ maybe_shell_quote shell_quote ("/opt/" +:+ d) +:+ " - - - - ../../usr/lib/opt/" +:+ d ∈ lines).
Proof.
  intros Hrel (s' & He & Herr & _ & Htmp & _)%run_inv.
  destruct (import_entries_spec _ _ _ _ _ Hrel He) as (_ & Hin & Hout).
  assert (∀ line, line ∈ tmpfiles_symlink_entries shell_quote (im_self s') ++ tmpfiles_entries (im_self s') →
    has_tmpfiles_entries (im_self s') = true → ∃ lines, tmpfiles_lines ic lines ∧ line ∈ lines) as Hlines.
  { intros line Hl Hh. rewrite Hh in Htmp. eexists. split; [by eexists|done]. }
  exists s'. split_and!; try done.
  - intros f Hf. destruct (Hin f Hf) as (p & i & ? & Hp & ?). exists p, i. by rewrite Hp.
  - intros p i Hpi. by apply Hout.
  - intros line Hl. apply Hlines; [apply elem_of_app; by right|]. apply bool_decide_eq_true.
    destruct (tmpfiles_entries (im_self s')); [by apply elem_of_nil in Hl|simpl; lia].
  - intros p i d Hpi Hd. destruct (Hout p i Hpi) as [_ Hopt]. specialize (Hopt d Hd). apply Hlines.
    + apply elem_of_app. left. apply elem_of_app. left. apply list_elem_of_fmap. exists d. split; [done|].
      by apply elem_of_bset_iter.
    + apply bool_decide_eq_true. assert (size (opt_direntries (im_self s')) ≠ 0); [|lia].
      intros Hz%size_empty_inv. set_solver.
Qed.

Lemma importer_flags_nodocs tf n : flag_set (importer_flags tf n) NODOCS_FLAG = negb (get_documentation tf).
Proof.
  unfold importer_flags. destruct (_ || _), (get_documentation tf), (get_readonly_executables tf), (get_ima tf); done.
Qed.

Lemma build_metadata_spec self metadata policy pkg repo dict sha :
  build_metadata_variant sha256 self metadata policy (Some pkg) repo = Ok (dict, sha) →
  ∃ chksum, get_repodata_chksum_repr pkg = Ok chksum ∧ vardict_lookup_string dict REPODATA_CHECKSUM = Some chksum ∧
    vardict_lookup_string dict METADATA_SHA256 = Some (sha256 metadata) ∧ sha = sha256 metadata ∧
    vardict_lookup_bool dict NODOCS false = doc_files_are_filtered self ∧
    (∀ p, policy = Some p → ∃ csum, sep_csum p = Some csum ∧ dict !! SEPOLICY = Some (VString csum)).
Proof.
  unfold build_metadata_variant. intros (d1 & H1 & (d2 & (chk & Hc & [= <-])%bind_ok & [= <- <-])%bind_ok)%bind_ok.
  exists chk. destruct policy as [p|]; [destruct (sep_csum p) as [csum|] eqn:Hcs; [|done]|]; injection H1 as <-.
  all: unfold vardict_lookup_string, vardict_lookup_bool, vardict_lookup_boolean.
  all: destruct (doc_files_are_filtered self), (nonnull repo); split_and!; try done.
  all: intros ? [= <-]; by exists csum.
Qed.

(** C13: an imported package is found in the cache afterwards, complete, with the documentation
    state the treefile asks for and labelled for the policy: it is neither imported nor
    relabelled again. *)
Theorem import_found hdr fi archive tf self metadata policy pkg repo ic r rev type_mismatch :
  new_importer hdr fi (importer_flags tf (pkg_name pkg)) = Ok self →
  run fi archive self metadata policy (Some pkg) repo = Ok ic →
  rpmostree_get_cache_branch_header header_evr char_signed hdr = rpmostree_get_cache_branch_pkg char_signed (pkg_base pkg) →
  Forall (λ e, relative e.1 = true) archive →
  pr_resolve_rev_optional r (ic_branch ic) = Done (Some rev) → pr_load_commit r rev = Done (ic_commit ic) →
  find_pkg_in_ostree char_signed type_mismatch (Some r) tf policy pkg = Ok (true, true).
Proof.
  intros (Hfl & Hbr & Hdoc)%new_importer_spec (s' & He & _ & Hb & _ & dict & Hm & Hic)%run_inv Hsame Hrel Hrev Hload.
  destruct (import_entries_spec _ _ _ _ _ Hrel He) as ([[Hd _ Hbr' _ _ _ _ _] _] & _).
  apply build_metadata_spec in Hm as (chk & Hchk & Hrc & _ & _ & Hn & Hpol).
  rewrite Hb, Hbr' in Hrev. simpl in Hrev. rewrite Hbr, Hsame in Hrev. rewrite Hic in Hload.
  assert (doc_files_are_filtered (im_self s') = negb (get_documentation tf)) as Hdocs.
  { simpl in Hd. unfold doc_files_are_filtered in *. by rewrite Hd, Hdoc, importer_flags_nodocs. }
  unfold find_pkg_in_ostree. rewrite Hrev. cbn [returned mbind outcome_bind]. rewrite Hload.
  cbn [returned mbind outcome_bind pc_partial].
  rewrite Hchk. unfold commit_has_matching_repodata_chksum_repr, get_pkgcache_repodata_chksum_repr,
    get_commit_repodata_chksum_repr, get_commit_metadata_string. cbn [pc_metadata]. rewrite Hrc.
  cbn [mbind outcome_bind]. rewrite bool_decide_eq_true_2 by done. cbn [negb]. rewrite Hn, Hdocs.
  rewrite bool_decide_eq_true_2 by done. cbn [negb].
  assert (∀ b : bool, (if b then Ok false else Ok false : outcome bool) = Ok false) as -> by by intros [].
  cbn [mbind outcome_bind].
  destruct policy as [p|]; [|done]. destruct (Hpol p eq_refl) as (csum & Hcs & Hsep).
  destruct (get_selinux tf); [|done]. unfold commit_has_matching_sepolicy. rewrite Hcs. cbn [pc_metadata].
  rewrite Hsep. cbn [mbind outcome_bind]. by rewrite bool_decide_eq_true_2.
Qed.

(** ** Assertions *)

(** The indices the importer keeps are entries of the header. *)
Definition indices_ok (fi : list RpmFi) (self : RpmImporter) : Prop :=
  map_Forall (λ _ i, i < length fi) (rpmfi_overrides self).

Lemma build_overrides_indices fi i rest self self' : i + length rest = length fi →
  build_rpmfi_overrides_from i rest self = Ok self' → indices_ok fi self → indices_ok fi self'.
Proof.
  unfold indices_ok. revert i self. induction rest as [|f rest IH]; intros i self Hi; cbn [build_rpmfi_overrides_from].
  { by intros [= <-]. }
  destruct (rpmfiFN f) as [fn|]; [|done]. cbv zeta. intros (_ & _ & H)%bind_ok Hok. simpl in Hi.
  eapply IH; [|exact H|]; [lia|]. assert (∀ s, rpmfi_overrides (doc_files_insert fn s) = rpmfi_overrides s) as Hdoc.
  { intros s. unfold doc_files_insert. by destruct (doc_files s). }
  destruct (_ && flag_set _ _), (_ || have_ima f); rewrite ?Hdoc; try done; simpl;
    apply map_Forall_insert_2; (lia || done).
Qed.

Lemma get_override_returns fi self path : indices_ok fi self → starts_with "/" path = true →
  get_rpmfi_override fi self path ≠ Abort.
Proof.
  intros Hi Hp. unfold get_rpmfi_override. rewrite Hp. simpl. destruct (rpmfi_overrides self !! path) as [n|] eqn:E; [|done].
  apply Hi in E. destruct (lookup_lt_is_Some_2 fi n E) as [f ->]. done.
Qed.

Lemma import_entry_returns fi path info s : indices_ok fi (im_self s) → relative path = true →
  entry_of fi (path, info) s ≠ Abort.
Proof.
  intros Hi Hrel. unfold import_entry, handle_translate_pathname. rewrite translate_relative by done.
  assert (starts_with "/" path = false) as Hp.
  { unfold relative in Hrel. apply andb_true_iff in Hrel as [?%negb_true_iff _]. done. }
  rewrite Hp. cbn [negb g_assert mbind outcome_bind]. rewrite destination_eq.
  fold (inspected (im_self s) path). set (s0 := MkImportState _ _).
  assert (indices_ok fi (im_self s0)) as Hi0.
  { unfold indices_ok, s0, inspected. simpl. by rewrite (ex_overrides _ _ (inspect_extends (im_self s) path)). }
  apply bind_returns.
  - unfold compose_filter_cb. rewrite destination_absolute. cbn [g_assert mbind outcome_bind].
    destruct (_ && _); [done|]. destruct (_ || _).
    + destruct (_ || _); [done|]. destruct (file_type info); try done.
      all: apply bind_returns; [by apply get_override_returns, destination_absolute|done].
    + destruct (import_filter _ _) as [[]| |] eqn:Hf; try done. unfold import_filter in Hf.
      repeat case_match; done.
  - intros [[r i] s1] Hf. destruct r; [|done]. apply filter_cb_allow in Hf as [_ ->].
    apply bind_returns; [|by intros []]. unfold xattr_cb. rewrite destination_absolute. cbn [g_assert mbind outcome_bind].
    apply bind_returns; [by apply get_override_returns, destination_absolute|]. intros [f|] _; [|done].
    destruct (fcaps_is_unset _); [done|]. by destruct (fcap_to_ostree_xattr _).
Qed.

Lemma import_entries_returns fi archive s : indices_ok fi (im_self s) →
  Forall (λ e, relative e.1 = true) archive → entries_of fi archive s ≠ Abort.
Proof.
  intros Hi Hrel. revert s Hi. induction Hrel as [|[path info] archive Hp Hrel IH]; intros s Hi; [done|].
  cbn [import_entries]. apply bind_returns; [by apply import_entry_returns|]. intros [file s1] He.
  apply import_entry_spec in He as ([Hx _] & _); [|done].
  apply bind_returns; [|by intros []]. apply IH. unfold indices_ok. by rewrite (ex_overrides _ _ Hx).
Qed.

Lemma import_safe hdr fi flags archive self metadata policy pkg repo :
  new_importer hdr fi flags = Ok self → Forall (λ e, relative e.1 = true) archive →
  (∀ p, policy = Some p → sep_csum p ≠ None) → run fi archive self metadata policy pkg repo ≠ Abort.
Proof.
  intros (i & Hi & H%prefix_error_ok)%bind_ok Hrel Hpol. apply prefix_error_returns, bind_returns.
  - apply import_entries_returns; [|done]. eapply build_overrides_indices; [|exact H|]; [done|].
    unfold rpm_importer_new in Hi. case_bool_decide; [done|]. injection Hi as <-. apply map_Forall_empty.
  - intros [files s'] _. destruct (im_error s'); [done|]. apply bind_returns; [|by intros []].
    unfold build_metadata_variant. apply bind_returns.
    + destruct policy as [p|]; [|done]. specialize (Hpol p eq_refl). by destruct (sep_csum p).
    + intros d _. apply bind_returns; [|done]. destruct pkg as [p|]; [|done]. apply bind_returns; [|done].
      unfold get_repodata_chksum_repr. by destruct (if pkg_installed p then _ else _) as [[]|].
Qed.
End spec.

(** * An example *)

Definition ex_hdr : Header := MkHeader "tool" 0 "1" "1" "x86_64" None [].
Definition ex_evr (h : Header) : string := h_version h +:+ "-" +:+ h_release h.
Definition ex_file_info (t : FileType) : FileInfo := MkFileInfo t 493 None.
Definition ex_fi (path : string) (caps : option string) (flags : Z) : RpmFi :=
  MkRpmFi (Some path) (Some "root"%string) (Some "root"%string) caps flags [] 0 33261.
Definition ex_headers : list RpmFi :=
  [ex_fi "/usr/bin/tool" (Some "cap_net_raw=p"%string) 0; ex_fi "/usr/share/doc/README" None RPMFILE_DOC;
   ex_fi "/opt/tool/README" None RPMFILE_DOC; ex_fi "/opt/tool/ping" (Some "cap_net_raw=p"%string) 0;
   ex_fi "/var/lib/tool" None 0].
Definition ex_archive : list (string * FileInfo) :=
  [("usr/bin/tool", ex_file_info FileType_Regular); ("usr/share/doc/README", ex_file_info FileType_Regular);
   ("opt/tool/README", ex_file_info FileType_Regular); ("opt/tool/ping", ex_file_info FileType_Regular);
   ("etc/tool.conf", ex_file_info FileType_Regular); ("var/lib/tool", ex_file_info FileType_Directory)]%string.
Definition ex_nodocs : ComposeConfig :=
  MkComposeConfig (cf_derive ex_treefile) None None None None None (Some false) None None None None.
Definition ex_pkg : Package := ex_package 7 "tool" "1-1" "fedora".
Definition ex_new := rpmostree_importer_new_take_fd ex_evr true ex_hdr ex_headers (importer_flags ex_nodocs "tool").
Definition ex_importer : RpmImporter := from_ok (MkRpmImporter None 0 ∅ "" "" ∅ ∅ []) ex_new.
Definition ex_policy : SePolicy := MkSePolicy (Some "csum"%string) (Some "targeted"%string).
Definition ex_run :=
  rpmostree_importer_run id (λ _, "sha"%string) (λ c, Done c) ex_headers ex_archive ex_importer "header" (Some ex_policy)
    (Some ex_pkg) None.
Definition ex_imported : ImportedCommit :=
  from_ok (MkImportedCommit "" [] None (MkPkgCommit ∅ None false) "") ex_run.

Lemma ex_new_ok : ex_new = Ok ex_importer.
Proof. apply from_ok_eq. vm_compute. reflexivity. Qed.
Lemma ex_run_ok : ex_run = Ok ex_imported.
Proof. apply from_ok_eq. vm_compute. reflexivity. Qed.
Lemma ex_archive_relative : Forall (λ e, relative e.1 = true) ex_archive.
Proof. repeat constructor. Qed.

Lemma import_contents_witness :
  (im_path <$> ic_files ex_imported) = ["/usr/bin/tool"; "/usr/lib/opt/tool/README"; "/usr/lib/opt/tool/ping";
    "/usr/etc/tool.conf"]%string ∧
  ∃ lines, tmpfiles_lines ex_imported lines ∧ "L /opt/tool - - - - ../../usr/lib/opt/tool" ∈ lines.
Proof.
  split; [vm_compute; reflexivity|].
  destruct (import_contents id (λ _, "sha"%string) (λ c, Done c) ex_headers ex_archive ex_importer "header"
    (Some ex_policy) (Some ex_pkg) None ex_imported ex_archive_relative ex_run_ok) as (s & _ & _ & _ & _ & Hopt).
  apply (Hopt "opt/tool/ping"%string (ex_file_info FileType_Regular) "tool"%string); [|vm_compute; reflexivity].
  right. right. right. left.
Defined.

Definition ex_cache : PkgcacheRepo :=
  MkPkgcacheRepo (λ b, Done (if bool_decide (b = ic_branch ex_imported) then Some "r"%string else None))
    (λ _, Done "r"%string) (λ _, Done (ic_commit ex_imported)) (Done []).

Lemma import_found_witness :
  find_pkg_in_ostree true "" (Some ex_cache) ex_nodocs (Some ex_policy) ex_pkg = Ok (true, true).
Proof.
  apply (import_found id ex_evr (λ _, "sha"%string) (λ c, Done c) true ex_hdr ex_headers ex_archive ex_nodocs
    ex_importer "header" (Some ex_policy) ex_pkg None ex_imported ex_cache "r" "" ex_new_ok ex_run_ok).
  - vm_compute. reflexivity.
  - apply ex_archive_relative.
  - unfold ex_cache. cbn [pr_resolve_rev_optional]. rewrite bool_decide_eq_true_2 by reflexivity. reflexivity.
  - unfold ex_cache. cbn [pr_load_commit]. reflexivity.
Defined.

(** The header is looked up under the path after the translation, but was filled in with the
    path of the RPM: without documentation, what is marked as such below "/opt" is imported,
    and file capabilities there are lost. *)
Lemma overrides_below_opt_lost :
  doc_files_contains ex_importer "/opt/tool/README" = true ∧
  "/usr/lib/opt/tool/README"%string ∈ im_path <$> ic_files ex_imported ∧
  (∃ f, f ∈ ic_files ex_imported ∧ im_path f = "/usr/lib/opt/tool/ping"%string ∧ im_xattrs f = []) ∧
  (∃ f, f ∈ ic_files ex_imported ∧ im_path f = "/usr/bin/tool"%string ∧ im_xattrs f = [FileCaps "cap_net_raw=p"]).
Proof.
  split; [vm_compute; reflexivity|].
  split; [replace (im_path <$> ic_files ex_imported) with ["/usr/bin/tool"; "/usr/lib/opt/tool/README"; "/usr/lib/opt/tool/ping";
    "/usr/etc/tool.conf"]%string by (vm_compute; reflexivity); right; left|].
  replace (ic_files ex_imported) with [
    MkImported "/usr/bin/tool" (ex_file_info FileType_Regular) [FileCaps "cap_net_raw=p"];
    MkImported "/usr/lib/opt/tool/README" (ex_file_info FileType_Regular) [];
    MkImported "/usr/lib/opt/tool/ping" (ex_file_info FileType_Regular) [];
    MkImported "/usr/etc/tool.conf" (ex_file_info FileType_Regular) []] by (vm_compute; reflexivity).
  split; eexists; [split; [right; right; left|done]|split; [left|done]].
Qed.

(** The translation of "/var/lib/alternatives" takes everything that starts like it, the link
    is only made for the directory itself. *)
Lemma varlib_prefix_without_link self :
  translated_path "var/lib/vagrant-libvirt/box" = Some "usr/lib/vagrant-libvirt/box"%string ∧
  inspected self "var/lib/vagrant-libvirt" = self ∧ inspected self "var/lib/vagrant-libvirt/box" = self.
Proof. split_and!; vm_compute; reflexivity. Qed.
