(* ===== verification/CoreImport.v ===== *)
(** Downloading, importing and relabelling the packages of a prepared context: the
    asynchronous part of [src/libpriv/rpmostree-core.cxx]. Threads are represented by the
    tasks in flight: which one finishes next is up to a scheduler, and how it finishes up to
    the result of the task. *)

From S2P Require Import Prelude Vardict Nevra RpmHeaders Deploy SysrootCore Origin Core.

(** * Effects *)

Inductive ievent :=
  | Downloaded (repo : string) (pkgs : list Package)
  | KeysImported
  | TxnPrepared
  | TxnCommitted
  | TxnAborted
  | FileUnlinked (pkg : Package)
  (** the package of this index, with so many tasks in flight *)
  | ImportStarted (index in_flight : nat)
  | RelabelStarted (index : nat).

(** What the libraries report. The results of the tasks are given by the index of their
    package, and [io_next] picks a task among those in flight. *)
Record ImportOps := MkImportOps {
  io_mkdir_packages : string → result unit;
  io_download : string → list Package → result unit;
  io_import_keys : result unit;
  io_prepare_transaction : result unit;
  io_commit_transaction : result unit;
  io_gpgcheck_package : Package → result unit;
  io_open : Package → result unit;
  io_unlink : Package → result unit;
  io_importer_new : Package → result unit;
  io_keep_cache : bool;
  io_num_processors : Z;
  io_import : nat → result string;
  io_relabel : nat → result bool;
  io_mkdtemp : result unit;
  io_next : nat → list nat → nat;
}.

(** [guint] *)
Definition u32 (z : Z) : Z := (z mod 2 ^ 32)%Z.

(** * The asynchronous part of the context *)

Record AsyncState := MkAsyncState {
  async_running : bool;
  async_index : Z;
  n_async_running : Z;
  n_async_max : Z;
  n_async_pkgs_imported : Z;
  n_async_pkgs_relabeled : Z;
  n_changed_pkgs : Z;
  async_error : option gerror;
  async_cancelled : bool;
  (** the tasks that run, and those whose callback was called *)
  in_flight : list nat;
  completed : list nat;
}.

Definition set_async_running (b : bool) (s : AsyncState) : AsyncState :=
  MkAsyncState b (async_index s) (n_async_running s) (n_async_max s) (n_async_pkgs_imported s)
    (n_async_pkgs_relabeled s) (n_changed_pkgs s) (async_error s) (async_cancelled s) (in_flight s) (completed s).
(** The first error is kept. *)
Definition fail_async (e : gerror) (s : AsyncState) : AsyncState :=
  MkAsyncState (async_running s) (async_index s) (n_async_running s) (n_async_max s) (n_async_pkgs_imported s)
    (n_async_pkgs_relabeled s) (n_changed_pkgs s)
    (match async_error s with Some e0 => Some e0 | None => Some e end) true (in_flight s) (completed s).
Definition start_task (i : nat) (s : AsyncState) : AsyncState :=
  MkAsyncState (async_running s) (async_index s) (n_async_running s) (n_async_max s) (n_async_pkgs_imported s)
    (n_async_pkgs_relabeled s) (n_changed_pkgs s) (async_error s) (async_cancelled s) (in_flight s ++ [i]) (completed s).
Definition end_task (i : nat) (s : AsyncState) : AsyncState :=
  MkAsyncState (async_running s) (async_index s) (n_async_running s) (n_async_max s) (n_async_pkgs_imported s)
    (n_async_pkgs_relabeled s) (n_changed_pkgs s) (async_error s) (async_cancelled s)
    (filter (λ j, j ≠ i) (in_flight s)) (completed s ++ [i]).
Definition count_started (s : AsyncState) : AsyncState :=
  MkAsyncState (async_running s) (u32 (async_index s + 1)) (u32 (n_async_running s + 1)) (n_async_max s)
    (n_async_pkgs_imported s) (n_async_pkgs_relabeled s) (n_changed_pkgs s) (async_error s) (async_cancelled s)
    (in_flight s) (completed s).
Definition count_imported (s : AsyncState) : AsyncState :=
  MkAsyncState (async_running s) (async_index s) (n_async_running s) (n_async_max s)
    (u32 (n_async_pkgs_imported s + 1)) (n_async_pkgs_relabeled s) (n_changed_pkgs s) (async_error s)
    (async_cancelled s) (in_flight s) (completed s).
Definition count_stopped (s : AsyncState) : AsyncState :=
  MkAsyncState (async_running s) (async_index s) (u32 (n_async_running s - 1)) (n_async_max s)
    (n_async_pkgs_imported s) (n_async_pkgs_relabeled s) (n_changed_pkgs s) (async_error s) (async_cancelled s)
    (in_flight s) (completed s).
Definition count_relabeled (changed : bool) (s : AsyncState) : AsyncState :=
  MkAsyncState (async_running s) (async_index s) (n_async_running s) (n_async_max s) (n_async_pkgs_imported s)
    (u32 (n_async_pkgs_relabeled s + 1)) (if changed then u32 (n_changed_pkgs s + 1) else n_changed_pkgs s)
    (async_error s) (async_cancelled s) (in_flight s) (completed s).
Definition reset_import (max : Z) (s : AsyncState) : AsyncState :=
  MkAsyncState true 0 0 max (n_async_pkgs_imported s) (n_async_pkgs_relabeled s) (n_changed_pkgs s) None
    (async_cancelled s) (in_flight s) (completed s).
Definition reset_relabel (s : AsyncState) : AsyncState :=
  MkAsyncState true (async_index s) (n_async_running s) (n_async_max s) (n_async_pkgs_imported s)
    (n_async_pkgs_relabeled s) 0 None (async_cancelled s) (in_flight s) (completed s).
Definition clear_relabeled (s : AsyncState) : AsyncState :=
  MkAsyncState (async_running s) (async_index s) (n_async_running s) (n_async_max s) (n_async_pkgs_imported s)
    0 (n_changed_pkgs s) (async_error s) (async_cancelled s) (in_flight s) (completed s).

Abbreviation M := (prog ievent AsyncState).

(** [RpmOstreeRepoAutoTransaction]: the transaction is ended when the function returns. *)
Definition repo_auto_transaction {A} (ops : ImportOps) (commit_on_failure : bool) (body : M (A * bool)) : M A :=
  _ ← performs TxnPrepared (io_prepare_transaction ops);
  with_cleanup (if commit_on_failure then TxnCommitted else TxnAborted) body.

Section import.
Context (ops : ImportOps) (sources : list DnfRepo).

(** * Download *)

Definition add_to_source (t : gmap string (list Package)) (repo : string) (pkg : Package) :
    gmap string (list Package) :=
  <[repo := default [] (t !! repo) ++ [pkg]]> t.
Fixpoint gather_source_to_packages (packages : list Package) (t : gmap string (list Package)) :
    outcome (gmap string (list Package)) :=
  match packages with
  | [] => Ok t
  | pkg :: packages =>
      if rpmostree_pkg_is_local sources pkg then gather_source_to_packages packages t
      else match name_to_repo sources (pkg_reponame pkg) with
           | None => Abort
           | Some src => gather_source_to_packages packages (add_to_source t (repo_id src) pkg)
           end
  end.
(** [src_order] is the order of the hash table. *)
Definition rpmostree_download_packages (src_order : gmap string (list Package) → list (string * list Package))
    (packages : list Package) : M unit :=
  source_to_packages ← lift (gather_source_to_packages packages ∅);
  for_each (λ '(src, src_packages),
              _ ← call (io_mkdir_packages ops src);
              on_error ("Downloading from '" +:+ src +:+ "'")
                (performs (Downloaded src src_packages) (io_download ops src src_packages)))
    (src_order source_to_packages).
Definition rpmostree_context_download (src_order : gmap string (list Package) → list (string * list Package))
    (pkgs_to_download : list Package) : M unit :=
  if bool_decide (pkgs_to_download = []) then mret tt
  else rpmostree_download_packages src_order pkgs_to_download.

(** * Import *)

Definition rpmostree_context_consume_package (pkg : Package) : M unit :=
  _ ← call (io_gpgcheck_package ops pkg);
  _ ← call (io_open ops pkg);
  when (negb (rpmostree_pkg_is_local sources pkg) && negb (io_keep_cache ops))
    (performs (FileUnlinked pkg) (io_unlink ops pkg)).

Context (pkgs : list Package).

Definition start_async_import_one_package (i : nat) (pkg : Package) : M unit :=
  _ ← rpmostree_context_consume_package pkg;
  _ ← on_error "creating importer" (call (io_importer_new ops pkg));
  s ← get_self;
  _ ← perform (ImportStarted i (S (length (in_flight s)))) (Ok tt);
  modify (start_task i).

Fixpoint start_imports (fuel : nat) : M unit :=
  s ← get_self;
  if (async_index s <? Z.of_nat (length pkgs))%Z && (n_async_running s <? n_async_max s)%Z
     && negb (nonnull (async_error s))
  then
    match fuel, pkgs !! Z.to_nat (async_index s) with
    | S fuel, Some pkg =>
        r ← attempt (start_async_import_one_package (Z.to_nat (async_index s)) pkg);
        match r with
        | Failed e => modify (fail_async e)
        | Done _ => _ ← modify count_started; start_imports fuel
        end
    | _, _ => lift Abort
    end
  else mret tt.
Definition async_imports_mainctx_iter : M unit :=
  _ ← start_imports (S (length pkgs));
  s ← get_self;
  when (bool_decide (n_async_running s = 0%Z)) (modify (set_async_running false)).

Definition on_async_import_done (r : result string) : M unit :=
  _ ← match r with
      | Failed e => modify (fail_async e)
      | Done _ => mret tt
      end;
  s ← get_self;
  _ ← lift (g_assert (n_async_pkgs_imported s <? Z.of_nat (length pkgs))%Z);
  _ ← modify count_imported;
  _ ← lift (g_assert (0 <? n_async_running s)%Z);
  _ ← modify count_stopped;
  async_imports_mainctx_iter.

(** The main loop while [async_running]: a task ends and its callback runs. Without a task in
    flight it would wait forever. *)
Fixpoint wait_for (on_done : nat → M unit) (fuel : nat) : M unit :=
  s ← get_self;
  if async_running s then
    match fuel, in_flight s !! io_next ops fuel (in_flight s) with
    | S fuel, Some i =>
        _ ← modify (end_task i);
        _ ← on_done i;
        wait_for on_done fuel
    | _, _ => lift Abort
    end
  else mret tt.

Definition rpmostree_context_import (repo : option PkgcacheRepo) : M unit :=
  if bool_decide (pkgs = []) then mret tt
  else
    _ ← lift (g_assert (nonnull repo));
    _ ← performs KeysImported (io_import_keys ops);
    repo_auto_transaction ops true (
      _ ← modify (reset_import (io_num_processors ops));
      _ ← async_imports_mainctx_iter;
      _ ← wait_for (λ i, on_async_import_done (io_import ops i)) (S (length pkgs));
      s ← get_self;
      match async_error s with
      | Some e => lift (prefix_error "importing RPMs" (Err e))
      | None =>
          _ ← performs TxnCommitted (io_commit_transaction ops);
          mret (tt, false)
      end).

(** * Relabelling *)

Definition on_async_relabel_done (r : result bool) : M unit :=
  _ ← match r with Failed e => modify (fail_async e) | Done _ => mret tt end;
  s ← get_self;
  _ ← lift (g_assert (n_async_pkgs_relabeled s <? Z.of_nat (length pkgs))%Z);
  _ ← modify (count_relabeled (match r with Done changed => changed | Failed _ => false end));
  s ← get_self;
  when (bool_decide (n_async_pkgs_relabeled s = Z.of_nat (length pkgs))) (modify (set_async_running false)).

(** [g_task_run_in_thread] for every package. *)
Fixpoint start_relabels (i : nat) (n : nat) : M unit :=
  match n with
  | 0 => mret tt
  | S n =>
      _ ← perform (RelabelStarted i) (Ok tt);
      _ ← modify (start_task i);
      start_relabels (S i) n
  end.

(** [pkgs] is [pkgs_to_relabel]; the transaction is still set after it was committed. *)
Definition relabel_if_necessary (sepolicy : option SePolicy) (repo : option PkgcacheRepo) : M unit :=
  if bool_decide (pkgs = []) then mret tt
  else
    _ ← lift (g_assert (nonnull sepolicy));
    _ ← lift (g_assert (nonnull repo));
    repo_auto_transaction ops false (
      _ ← call (io_mkdtemp ops);
      _ ← modify reset_relabel;
      _ ← start_relabels 0 (length pkgs);
      _ ← wait_for (λ i, on_async_relabel_done (io_relabel ops i)) (S (length pkgs));
      s ← get_self;
      match async_error s with
      | Some e => lift (prefix_error "relabeling" (Err e))
      | None =>
          _ ← performs TxnCommitted (io_commit_transaction ops);
          _ ← modify clear_relabeled;
          mret (tt, true)
      end).
End import.
