(* ===== verification/CoreImportSpec.v ===== *)
(** The asynchronous import and relabelling of packages: no assertion fails and no wait is in
    vain, however the tasks are scheduled and however they end; the number of tasks is
    bounded; and success means that every package was handled exactly once. *)

From S2P Require Import Prelude Vardict Nevra RpmHeaders Deploy SysrootCore Origin Core CoreImport.

Lemma u32_small z : (0 ≤ z < 2 ^ 32)%Z → u32 z = z.
Proof. intros. unfold u32. by apply Z.mod_small. Qed.

Lemma filter_ne_absent (l : list nat) i : i ∉ l → filter (λ j, j ≠ i) l = l.
Proof.
  induction l as [|j l IH]; [done|]. rewrite not_elem_of_cons, filter_cons. intros [? ?].
  rewrite decide_True by done. f_equal. auto.
Qed.
(** Taking a task out of those in flight. *)
Lemma filter_ne_perm (l : list nat) i : NoDup l → i ∈ l → l ≡ₚ i :: filter (λ j, j ≠ i) l.
Proof.
  intros Hnd Hi. induction Hnd as [|j l Hj Hnd IH]; [by apply elem_of_nil in Hi|].
  rewrite filter_cons. destruct (decide (j ≠ i)) as [Hne|Heq].
  - apply elem_of_cons in Hi as [->|Hi]; [done|]. rewrite (IH Hi) at 1. apply Permutation_swap.
  - apply dec_stable in Heq. subst. by rewrite filter_ne_absent.
Qed.

Lemma total_bind_assert {E S B} (P : E → Prop) (I : S → Prop) Q (b : bool) (f : unit → prog E S B) :
  (∀ s, I s → b = true) → total I (f tt) P Q → total I (lift (g_assert b) ≫= f) P Q.
Proof.
  intros Hb Hf. eapply (total_bind _ _ (λ _, I)); [|by intros []].
  apply total_lift; [|done]. intros s Hs. by rewrite (Hb s Hs).
Qed.

Section import.
Context (ops : ImportOps) (sources : list DnfRepo) (pkgs : list Package).
Context (Hlen : (Z.of_nat (length pkgs) < 2 ^ 32)%Z)
  (Hmax : (1 ≤ io_num_processors ops < 2 ^ 32)%Z)
  (Hnext : ∀ t l, l ≠ [] → io_next ops t l < length l).

(** A package is only imported after its signature was checked, and there are never more
    tasks than processors. *)
Definition bounded (e : ievent) : Prop :=
  match e with
  | ImportStarted i n => (Z.of_nat n ≤ io_num_processors ops)%Z ∧
      ∃ pkg, pkgs !! i = Some pkg ∧ io_gpgcheck_package ops pkg = Done tt
  | _ => True
  end.

Record import_inv (s : AsyncState) : Prop := {
  ii_index : (0 ≤ async_index s ≤ Z.of_nat (length pkgs))%Z;
  ii_running : n_async_running s = Z.of_nat (length (in_flight s));
  ii_imported : n_async_pkgs_imported s = Z.of_nat (length (completed s));
  ii_tasks : in_flight s ++ completed s ≡ₚ seq 0 (Z.to_nat (async_index s));
  ii_max : n_async_max s = io_num_processors ops;
  ii_bound : (n_async_running s ≤ n_async_max s)%Z;
  ii_done : async_error s = None → ∀ i, i ∈ completed s → ∃ rev, io_import ops i = Done rev;
}.
(** Nothing is left to start. *)
Definition exhausted (s : AsyncState) : Prop :=
  async_index s = Z.of_nat (length pkgs) ∨ n_async_running s = n_async_max s ∨ async_error s ≠ None.

Lemma ii_count s : import_inv s → length (in_flight s) + length (completed s) = Z.to_nat (async_index s).
Proof. intros [_ _ _ Ht _ _ _]. apply Permutation_length in Ht. by rewrite length_app, length_seq in Ht. Qed.

Lemma start_one_spec i pkg s : pkgs !! i = Some pkg →
  (Z.of_nat (S (length (in_flight s))) ≤ io_num_processors ops)%Z →
  total (λ s', s' = s) (start_async_import_one_package ops sources i pkg) bounded (λ _ s', s' = start_task i s).
Proof.
  intros Hp Hb. unfold start_async_import_one_package, rpmostree_context_consume_package.
  eapply (total_bind _ _ (λ _ s', io_gpgcheck_package ops pkg = Done tt ∧ s' = s)).
  { eapply (total_bind _ _ (λ _ s', io_gpgcheck_package ops pkg = Done tt ∧ s' = s));
      [apply total_call; by intros [] ? ? ->|intros []].
    eapply (total_bind _ _ (λ _ s', io_gpgcheck_package ops pkg = Done tt ∧ s' = s)); [by apply total_call|intros []].
    apply total_when; [intros _; by apply total_performs|done]. }
  intros []. eapply (total_bind _ _ (λ _ s', io_gpgcheck_package ops pkg = Done tt ∧ s' = s));
    [by apply total_on_error, total_call|intros []].
  apply total_bind_get. intros s1 [Hg ->]. eapply (total_bind _ _ (λ _ s', s' = s)).
  - apply total_perform; [done|]. intros [] s2 _ ->. split; [|done]. split; [done|eauto].
  - intros []. apply total_modify. by intros ? ->.
Qed.

Lemma fail_async_inv e s : import_inv s → import_inv (fail_async e s).
Proof. intros []. split; simpl; try done. by destruct (async_error s). Qed.

Lemma start_imports_spec r c fuel :
  total (λ s, import_inv s ∧ async_running s = r ∧ completed s = c ∧
           (Z.of_nat (length pkgs) - async_index s < Z.of_nat fuel)%Z)
    (start_imports ops sources pkgs fuel) bounded
    (λ _ s, import_inv s ∧ async_running s = r ∧ completed s = c ∧ exhausted s).
Proof.
  induction fuel as [|fuel IH]; cbn [start_imports]; apply total_bind_get; intros s (Hi & Hr & Hc & Hf);
    pose proof (ii_index s Hi) as Hidx.
  { rewrite (proj2 (Z.ltb_ge _ _)) by lia. cbn [andb]. apply total_ret. intros ? ->. split_and!; try done.
    left. lia. }
  destruct (_ && _ && _) eqn:Hgo.
  - apply andb_true_iff in Hgo as [[Hlt%Z.ltb_lt Hrun%Z.ltb_lt]%andb_true_iff Herr%negb_true_iff].
    destruct (lookup_lt_is_Some_2 pkgs (Z.to_nat (async_index s)) ltac:(lia)) as [pkg Hpkg]. rewrite Hpkg.
    pose proof (ii_running s Hi) as Hru. pose proof (ii_max s Hi) as Hm. pose proof (ii_count s Hi) as Hco.
    eapply total_bind; [apply total_attempt, start_one_spec; [done|lia]|]. intros [[]|e].
    + eapply (total_bind _ _ (λ _ s', s' = count_started (start_task (Z.to_nat (async_index s)) s)));
        [apply total_modify; by intros ? ->|intros []].
      eapply total_conseq; [apply IH| |done]. intros ? ->. split_and!; try done.
      * destruct Hi. split; simpl; rewrite ?u32_small by lia; try done; try lia.
        -- rewrite length_app. simpl. lia.
        -- replace (Z.to_nat (async_index s + 1)) with (S (Z.to_nat (async_index s))) by lia.
           rewrite seq_S, <-ii_tasks0. simpl. by rewrite <-!(assoc_L (++)), (Permutation_app_comm [_]).
      * simpl. rewrite u32_small by lia. lia.
    + apply total_modify. intros ? ->. split_and!; try done; [by apply fail_async_inv|].
      right. right. simpl. by destruct (async_error s).
  - apply total_ret. intros ? ->. split_and!; try done. unfold exhausted.
    destruct (async_error s); [by right; right|]. pose proof (ii_bound s Hi).
    apply andb_false_iff in Hgo as [[Hlt%Z.ltb_ge|Hrun%Z.ltb_ge]%andb_false_iff|?]; [left; lia|right; left; lia|done].
Qed.

(** The context between two callbacks. *)
Definition import_state (n : nat) (s : AsyncState) : Prop :=
  import_inv s ∧ length (completed s) = n ∧
  if async_running s then in_flight s ≠ []
  else in_flight s = [] ∧ (async_error s = None → async_index s = Z.of_nat (length pkgs)).

Lemma iter_spec n :
  total (λ s, import_inv s ∧ async_running s = true ∧ length (completed s) = n)
    (async_imports_mainctx_iter ops sources pkgs) bounded (λ _, import_state n).
Proof.
  intros s0 (Hi & Hr & Hc).
  assert (total (λ s, s = s0) (async_imports_mainctx_iter ops sources pkgs) bounded (λ _, import_state n)) as H.
  2: { by apply H. }
  unfold async_imports_mainctx_iter.
  eapply (total_bind _ _ (λ _ s, import_inv s ∧ async_running s = true ∧ completed s = completed s0 ∧ exhausted s)).
  { eapply total_conseq; [apply (start_imports_spec true (completed s0))| |done].
    intros ? ->. split_and!; try done. pose proof (ii_index s0 Hi). lia. }
  intros [].
  apply total_bind_get. intros s (Hi' & Hr' & Hc' & Hex). pose proof (ii_running s Hi') as Hru.
  apply total_when.
  - intros Hz%bool_decide_eq_true. apply total_modify. intros ? ->.
    assert (in_flight s = []) as Hfl by (apply length_zero_iff_nil; lia).
    split; [|split; [simpl; by rewrite Hc'|]].
    + destruct Hi'. split; done.
    + simpl. split; [done|]. intros He. destruct Hex as [?|[Hmx|?]]; [done| |done].
      pose proof (ii_max s Hi'). lia.
  - intros Hnz%bool_decide_eq_false ? ->. split; [done|]. split; [by rewrite Hc'|].
    rewrite Hr'. intros Hfl. rewrite Hfl in Hru. done.
Qed.

(** A task ends: it is no longer in flight, but still counted. *)
Lemma end_task_inv i s : import_inv s → i ∈ in_flight s →
  import_inv (count_stopped (count_imported (end_task i (match io_import ops i with Failed e => fail_async e s | Done _ => s end)))) ∧
  (0 < n_async_running s)%Z ∧ (n_async_pkgs_imported s < Z.of_nat (length pkgs))%Z.
Proof.
  intros Hinv Hin. pose proof (ii_count s Hinv) as Hcount. destruct Hinv as [Hx Hr Hn Ht Hm Hb Hd].
  assert (NoDup (in_flight s)) as Hnd.
  { eapply proj1, NoDup_app. rewrite Ht. apply NoDup_seq. }
  pose proof (filter_ne_perm _ _ Hnd Hin) as Hperm.
  assert (length (in_flight s) = S (length (filter (λ j, j ≠ i) (in_flight s)))) as Hlf.
  { by rewrite (Permutation_length Hperm). }
  split; [|split; lia].
  assert (in_flight (match io_import ops i with Failed e => fail_async e s | Done _ => s end) = in_flight s ∧
    completed (match io_import ops i with Failed e => fail_async e s | Done _ => s end) = completed s) as [Hf Hc].
  { by destruct (io_import ops i). }
  split; cbn [count_stopped count_imported end_task async_index n_async_running n_async_max n_async_pkgs_imported
    async_error in_flight completed].
  all: rewrite ?Hf, ?Hc.
  - by destruct (io_import ops i).
  - replace (n_async_running _) with (n_async_running s) by by destruct (io_import ops i). rewrite u32_small by lia. lia.
  - replace (n_async_pkgs_imported _) with (n_async_pkgs_imported s) by by destruct (io_import ops i).
    rewrite u32_small, length_app by lia. simpl. lia.
  - replace (async_index _) with (async_index s) by by destruct (io_import ops i).
    rewrite <-Ht. rewrite Hperm at 2. simpl. by rewrite (assoc_L (++)), <-Permutation_cons_append.
  - by destruct (io_import ops i).
  - replace (n_async_running _) with (n_async_running s) by by destruct (io_import ops i).
    replace (n_async_max _) with (n_async_max s) by by destruct (io_import ops i). rewrite u32_small by lia. lia.
  - intros He j [Hj|Hj%list_elem_of_singleton]%elem_of_app.
    + apply Hd; [|done]. destruct (io_import ops i); [done|]. simpl in He. by destruct (async_error s).
    + subst j. destruct (io_import ops i) as [rev|e]; [eauto|]. simpl in He. by destruct (async_error s).
Qed.

Lemma on_import_done_spec i n s0 : import_inv s0 → async_running s0 = true → i ∈ in_flight s0 →
  length (completed s0) = n →
  total (λ s, s = end_task i s0) (on_async_import_done ops sources pkgs (io_import ops i)) bounded
    (λ _, import_state (S n)).
Proof.
  intros Hi Hr Hin Hn. destruct (end_task_inv i s0 Hi Hin) as (Hinv & Hpos & Hlt).
  set (s1 := end_task i (match io_import ops i with Failed e => fail_async e s0 | Done _ => s0 end)) in Hinv.
  unfold on_async_import_done. eapply (total_bind _ _ (λ _ s, s = s1)).
  { subst s1. destruct (io_import ops i); [apply total_ret|apply total_modify]; by intros ? ->. }
  assert (n_async_pkgs_imported s1 = n_async_pkgs_imported s0 ∧ n_async_running s1 = n_async_running s0 ∧
    async_running s1 = true ∧ completed s1 = completed s0 ++ [i]) as (E1 & E2 & E3 & E4).
  { subst s1. by destruct (io_import ops i). }
  intros []. apply total_bind_get. intros ? ->. apply total_bind_assert; [intros; apply Z.ltb_lt; lia|].
  eapply (total_bind _ _ (λ _ s, s = count_imported s1)); [apply total_modify; by intros ? ->|intros []].
  apply total_bind_assert; [intros; apply Z.ltb_lt; lia|].
  eapply (total_bind _ _ (λ _ s, s = count_stopped (count_imported s1))); [apply total_modify; by intros ? ->|intros []].
  eapply total_conseq; [apply (iter_spec (S n))| |done]. intros ? ->. split_and!; try done.
  cbn [completed count_stopped count_imported]. rewrite E4, length_app. simpl. lia.
Qed.

Lemma import_state_le n s : import_state n s → async_running s = true → n < length pkgs.
Proof.
  intros (Hi & <- & Hr) E. rewrite E in Hr. pose proof (ii_count s Hi). pose proof (ii_index s Hi).
  destruct (in_flight s); [done|]. simpl in *. lia.
Qed.

Lemma wait_for_import fuel n : length pkgs < n + fuel →
  total (import_state n) (wait_for ops (λ i, on_async_import_done ops sources pkgs (io_import ops i)) fuel) bounded
    (λ _ s, ∃ m, import_state m s ∧ async_running s = false).
Proof.
  revert n. induction fuel as [|fuel IH]; intros n Hn; cbn [wait_for]; apply total_bind_get; intros s Hs;
    destruct (async_running s) eqn:Hr.
  - pose proof (import_state_le _ _ Hs Hr). lia.
  - apply total_ret. intros ? ->. by exists n.
  - pose proof Hs as (Hi & Hc & Hfl). rewrite Hr in Hfl.
    destruct (lookup_lt_is_Some_2 (in_flight s) (io_next ops (S fuel) (in_flight s))) as [i Hlook]; [auto|].
    rewrite Hlook. eapply (total_bind _ _ (λ _ s', s' = end_task i s)); [apply total_modify; by intros ? ->|intros []].
    eapply total_bind; [apply (on_import_done_spec i n s); try done; by eapply list_elem_of_lookup_2|intros []].
    apply IH. lia.
  - apply total_ret. intros ? ->. by exists n.
Qed.

Lemma with_cleanup_total {A} cleanup (body : M (A * bool)) (I : AsyncState → Prop) Q (P : ievent → Prop) :
  P cleanup → total I body P (λ r, Q r.1) → total I (with_cleanup cleanup body) P Q.
Proof.
  intros Hc Hb s Hs. destruct (Hb s Hs) as (Hna & Htr & Hok). unfold with_cleanup.
  destruct (body s) as [tr [[[a b] s']|e|]]; simpl in *; [| |done].
  - split; [done|]. split; [|intros ? ? [= <- <-]; by apply (Hok (a, b))]. apply Forall_app. split; [done|].
    destruct b; by repeat constructor.
  - split; [done|]. split; [|done]. apply Forall_app. split; [done|]. by repeat constructor.
Qed.

(** Every package was imported, once. *)
Definition all_imported (s : AsyncState) : Prop :=
  completed s ≡ₚ seq 0 (length pkgs) ∧ ∀ i, i < length pkgs → ∃ rev, io_import ops i = Done rev.

Lemma import_state_done n s : import_state n s → async_running s = false → async_error s = None → all_imported s.
Proof.
  intros (Hi & _ & Hr) E He. rewrite E in Hr. destruct Hr as [Hfl Hidx]. specialize (Hidx He).
  destruct Hi as [_ _ _ Ht _ _ Hd]. rewrite Hfl, Hidx, Nat2Z.id in Ht. simpl in Ht.
  split; [done|]. intros i Hlt. apply Hd; [done|]. rewrite Ht. apply elem_of_seq. lia.
Qed.

(** A context before its import. *)
Definition fresh (s : AsyncState) : Prop := n_async_pkgs_imported s = 0%Z ∧ in_flight s = [] ∧ completed s = [].

(** C14: importing packages in parallel fails no assertion and never waits in vain, whatever
    the order in which the tasks end and however they end; there are never more tasks than
    processors and none for a package whose signature was not checked; and the import
    succeeds only if every package was imported, exactly once. *)
Theorem import_bounded repo s tr r : fresh s → nonnull repo = true → 
  rpmostree_context_import ops sources pkgs repo s = (tr, r) →
  r ≠ Abort ∧ Forall bounded tr ∧ ∀ s', r = Ok (tt, s') → pkgs = [] ∨ all_imported s'.
Proof.
  intros Hs Hrepo Hrun.
  assert (total fresh (rpmostree_context_import ops sources pkgs repo) bounded (λ _ s', pkgs = [] ∨ all_imported s')) as H.
  { unfold rpmostree_context_import. case_bool_decide; [apply total_ret; auto|]. rewrite Hrepo.
    apply total_bind_assert; [done|].
    eapply (total_bind _ _ (λ _, fresh)); [by apply total_performs|intros []].
    eapply (total_bind _ _ (λ _, fresh)); [by apply total_performs|intros []].
    apply with_cleanup_total; [done|].
    eapply (total_bind _ _ (λ _ s', import_inv s' ∧ async_running s' = true ∧ length (completed s') = 0)).
    { apply total_modify. intros s0 (H1 & H2 & H3). split_and!; simpl; try done; [|by rewrite H3].
      split; simpl; rewrite ?H1, ?H2, ?H3; simpl; try done; try lia. by intros ? ? ?%elem_of_nil. }
    intros []. eapply total_bind; [apply iter_spec|intros []].
    eapply total_bind; [apply wait_for_import; lia|intros []].
    apply total_bind_get. intros s1 (m & Hst & Hr). destruct (async_error s1) eqn:He; [by apply total_lift|].
    eapply (total_bind _ _ (λ _ s', s' = s1)); [by apply total_performs|intros []].
    apply total_ret. intros ? ->. right. by eapply import_state_done. }
  specialize (H s Hs). rewrite Hrun in H. destruct H as (? & ? & ?). eauto.
Qed.
End import.

(** * Relabelling *)

Section relabel.
Context (ops : ImportOps) (pkgs : list Package).
Context (Hlen : (Z.of_nat (length pkgs) < 2 ^ 32)%Z)
  (Hnext : ∀ t l, l ≠ [] → io_next ops t l < length l).

Local Abbreviation any := (λ _ : ievent, True).

Record relabel_inv (n : nat) (s : AsyncState) : Prop := {
  ri_relabeled : n_async_pkgs_relabeled s = Z.of_nat n;
  ri_completed : length (completed s) = n;
  ri_tasks : in_flight s ++ completed s ≡ₚ seq 0 (length pkgs);
  ri_running : async_running s = negb (bool_decide (n = length pkgs));
  ri_done : async_error s = None → ∀ i, i ∈ completed s → ∃ changed, io_relabel ops i = Done changed;
}.

Lemma ri_count n s : relabel_inv n s → length (in_flight s) + n = length pkgs.
Proof.
  intros [_ Hc Ht _ _]. apply Permutation_length in Ht. rewrite length_app, length_seq in Ht. lia.
Qed.

Lemma on_relabel_done_spec i n s0 : relabel_inv n s0 → i ∈ in_flight s0 →
  total (λ s, s = end_task i s0) (on_async_relabel_done pkgs (io_relabel ops i)) any (λ _, relabel_inv (S n)).
Proof.
  intros Hinv Hin. pose proof (ri_count n s0 Hinv) as Hcount. destruct Hinv as [Hn Hc Ht Hr Hd].
  assert (NoDup (in_flight s0)) as Hnd by (eapply proj1, NoDup_app; rewrite Ht; apply NoDup_seq).
  pose proof (filter_ne_perm _ _ Hnd Hin) as Hperm.
  assert (0 < length (in_flight s0)) as Hpos by (destruct (in_flight s0); [by apply elem_of_nil in Hin|simpl; lia]).
  set (s1 := end_task i (match io_relabel ops i with Failed e => fail_async e s0 | Done _ => s0 end)).
  unfold on_async_relabel_done. eapply (total_bind _ _ (λ _ s, s = s1)).
  { subst s1. destruct (io_relabel ops i); [apply total_ret|apply total_modify]; by intros ? ->. }
  assert (n_async_pkgs_relabeled s1 = Z.of_nat n ∧ async_running s1 = negb (bool_decide (n = length pkgs)) ∧
    completed s1 = completed s0 ++ [i] ∧ in_flight s1 = filter (λ j, j ≠ i) (in_flight s0) ∧
    (async_error s1 = None → async_error s0 = None ∧ ∃ changed, io_relabel ops i = Done changed))
    as (E1 & E2 & E3 & E4 & E5).
  { subst s1. destruct (io_relabel ops i); simpl; split_and!; eauto. by destruct (async_error s0). }
  clearbody s1. intros []. apply total_bind_get. intros ? ->.
  apply total_bind_assert; [intros; apply Z.ltb_lt; lia|].
  set (changed := match io_relabel ops i with Done c => c | Failed _ => false end).
  eapply (total_bind _ _ (λ _ s, s = count_relabeled changed s1)); [apply total_modify; by intros ? ->|intros []].
  assert (∀ b, b = negb (bool_decide (S n = length pkgs)) →
    relabel_inv (S n) (set_async_running b (count_relabeled changed s1))) as Hpost.
  { intros b Hb. split; cbn [set_async_running count_relabeled n_async_pkgs_relabeled completed in_flight async_running async_error].
    - rewrite E1, u32_small by lia. lia.
    - rewrite E3, length_app. simpl. lia.
    - rewrite E3, E4, <-Ht. rewrite Hperm at 2. simpl. by rewrite (assoc_L (++)), <-Permutation_cons_append.
    - done.
    - intros [He Hch]%E5 j. rewrite E3. intros [Hj|Hj%list_elem_of_singleton]%elem_of_app; [auto|by subst]. }
  apply total_bind_get. intros ? ->. cbn [n_async_pkgs_relabeled count_relabeled]. rewrite E1, u32_small by lia.
  apply total_when.
  - intros Hz%bool_decide_eq_true. apply total_modify. intros ? ->. apply Hpost.
    rewrite bool_decide_eq_true_2 by lia. done.
  - intros Hz%bool_decide_eq_false ? ->.
    replace (count_relabeled changed s1) with (set_async_running (async_running s1) (count_relabeled changed s1)) by done.
    apply Hpost. rewrite E2, !bool_decide_eq_false_2 by lia. done.
Qed.

Lemma wait_for_relabel fuel n : length pkgs < n + fuel →
  total (relabel_inv n) (wait_for ops (λ i, on_async_relabel_done pkgs (io_relabel ops i)) fuel) any
    (λ _, relabel_inv (length pkgs)).
Proof.
  revert n. induction fuel as [|fuel IH]; intros n Hn; cbn [wait_for]; apply total_bind_get; intros s Hs;
    pose proof (ri_count n s Hs) as Hcount; pose proof (ri_running n s Hs) as Hr; [lia|].
  rewrite Hr. destruct (decide (n = length pkgs)) as [->|Hne].
  { rewrite bool_decide_eq_true_2 by done. apply total_ret. by intros ? ->. }
  rewrite bool_decide_eq_false_2 by done. cbn [negb].
  destruct (lookup_lt_is_Some_2 (in_flight s) (io_next ops (S fuel) (in_flight s))) as [i Hlook].
  { apply Hnext. intros E. rewrite E in Hcount. simpl in Hcount. lia. }
  rewrite Hlook. eapply (total_bind _ _ (λ _ s', s' = end_task i s)); [apply total_modify; by intros ? ->|intros []].
  eapply total_bind; [apply (on_relabel_done_spec i n s); [done|by eapply list_elem_of_lookup_2]|intros []].
  apply IH. lia.
Qed.

Lemma start_relabels_spec s i n :
  total (λ s', s' = s) (start_relabels i n) any
    (λ _ s', s' = foldl (λ s j, start_task j s) s (seq i n)).
Proof.
  revert s i. induction n as [|n IH]; intros s i; simpl; [by apply total_ret|].
  eapply (total_bind _ _ (λ _ s', s' = s)); [by apply total_perform|intros []].
  eapply (total_bind _ _ (λ _ s', s' = start_task i s)); [apply total_modify; by intros ? ->|intros []]. apply IH.
Qed.
Lemma start_tasks_state s l :
  foldl (λ s j, start_task j s) s l = MkAsyncState (async_running s) (async_index s) (n_async_running s) (n_async_max s)
    (n_async_pkgs_imported s) (n_async_pkgs_relabeled s) (n_changed_pkgs s) (async_error s) (async_cancelled s)
    (in_flight s ++ l) (completed s).
Proof.
  revert s. induction l as [|j l IH]; intros s; simpl; [rewrite app_nil_r; by destruct s|].
  rewrite IH. simpl. by rewrite <-(assoc_L (++)).
Qed.

(** Relabelling fails no assertion, waits for every package, and succeeds only if all of them
    were relabelled; then the counter is ready for the next time. *)
Lemma relabel_total sepolicy repo : nonnull sepolicy = true → nonnull repo = true →
  total (λ s, n_async_pkgs_relabeled s = 0%Z ∧ in_flight s = [] ∧ completed s = [])
    (relabel_if_necessary ops pkgs sepolicy repo) any
    (λ _ s, n_async_pkgs_relabeled s = 0%Z ∧
       ∀ i, i < length pkgs → ∃ changed, io_relabel ops i = Done changed).
Proof.
  intros Hp Hrepo. unfold relabel_if_necessary. case_bool_decide as Hempty.
  { apply total_ret. intros s (? & _ & _). split; [done|]. rewrite Hempty. simpl. lia. }
  apply total_bind_assert; [done|]. apply total_bind_assert; [done|].
  eapply (total_bind _ _ (λ _ s, n_async_pkgs_relabeled s = 0%Z ∧ in_flight s = [] ∧ completed s = []));
    [by apply total_performs|intros []].
  apply with_cleanup_total; [done|].
  eapply (total_bind _ _ (λ _ s, n_async_pkgs_relabeled s = 0%Z ∧ in_flight s = [] ∧ completed s = []));
    [by apply total_call|intros []].
  eapply (total_bind _ _ (λ _ s, n_async_pkgs_relabeled s = 0%Z ∧ in_flight s = [] ∧ completed s = [] ∧
    async_running s = true ∧ async_error s = None)); [apply total_modify; by intros ? (? & ? & ?)|intros []].
  eapply (total_bind _ _ (λ _, relabel_inv 0)).
  { intros s0 (H1 & H2 & H3 & H4 & H5). eapply (total_conseq _ (λ s, s = s0)); [apply start_relabels_spec|by intros ? ->| |done].
    intros [] ? ->. rewrite start_tasks_state. split; simpl; rewrite ?H2, ?H3; simpl; rewrite ?app_nil_r; try done.
    - rewrite H4. destruct pkgs; done.
    - by intros _ ? ?%elem_of_nil. }
  intros []. eapply total_bind; [apply wait_for_relabel; lia|intros []].
  apply total_bind_get. intros s1 Hinv. destruct (async_error s1) eqn:He; [by apply total_lift|].
  eapply (total_bind _ _ (λ _ s', s' = s1)); [by apply total_performs|intros []].
  eapply (total_bind _ _ (λ _ s', s' = clear_relabeled s1)); [apply total_modify; by intros ? ->|intros []].
  apply total_ret. intros ? ->. split; [done|]. intros i Hi. destruct Hinv as [_ Hc Ht _ Hd]. apply Hd; [done|].
  assert (in_flight s1 = []) as Hfl.
  { apply length_zero_iff_nil. apply Permutation_length in Ht. rewrite length_app, length_seq in Ht. lia. }
  rewrite Hfl in Ht. simpl in Ht. rewrite Ht. apply elem_of_seq. lia.
Qed.
End relabel.

(** * An example *)

Definition ex_import_pkg (id : nat) : Package :=
  MkPackage id (MkDnfPackage "p" "1-1" "x86_64") "p-1-1.x86_64" 0 "1" "1" "fedora" false None None.
Definition ex_import_ops : ImportOps :=
  MkImportOps (λ _, Done tt) (λ _ _, Done tt) (Done tt) (Done tt) (Done tt) (λ _, Done tt) (λ _, Done tt) (λ _, Done tt)
    (λ _, Done tt) false 2 (λ _, Done "rev"%string) (λ _, Done true) (Done tt) (λ _ l, length l - 1).
Definition ex_import_pkgs : list Package := [ex_import_pkg 0; ex_import_pkg 1; ex_import_pkg 2].
Definition ex_async : AsyncState := MkAsyncState false 0 0 0 0 0 0 None false [] [].
Definition ex_import_repo : PkgcacheRepo :=
  MkPkgcacheRepo (λ _, Done None) (λ _, Failed (GError G_IO_ERROR_NOT_FOUND "")) (λ _, Failed (GError G_IO_ERROR_NOT_FOUND ""))
    (Done []).
Definition ex_import :=
  rpmostree_context_import ex_import_ops [MkDnfRepo "fedora" 1 false false] ex_import_pkgs (Some ex_import_repo) ex_async.

Lemma import_bounded_witness :
  List.filter (λ e, match e with ImportStarted _ _ => true | _ => false end) ex_import.1
    = [ImportStarted 0 1; ImportStarted 1 2; ImportStarted 2 2] ∧
  ex_import.2 ≠ Abort ∧ Forall (bounded ex_import_ops ex_import_pkgs) ex_import.1.
Proof.
  split; [vm_compute; reflexivity|].
  unfold ex_import.
  destruct (import_bounded ex_import_ops [MkDnfRepo "fedora" 1 false false] ex_import_pkgs ltac:(vm_compute; reflexivity)
    ltac:(vm_compute; split; [discriminate|reflexivity])
    ltac:(intros t l Hl; simpl; destruct l; [done|simpl; lia])
    (Some ex_import_repo) ex_async _ _ ltac:(done) eq_refl (surjective_pairing _)) as (Hna & Hb & _).
  exact (conj Hna Hb).
Defined.
