(* ===== verification/CoreFiles.v ===== *)
(** The files of packages in the root that is assembled: which of them are not added or not
    deleted, and the deletion of the files of removed packages; from
    [src/libpriv/rpmostree-core.cxx]. *)

From S2P Require Import Prelude Vardict FileTree Nevra RpmHeaders Deploy SysrootCore Origin Core Importer.

(** * Paths *)

Definition canonicalize_rpmfi_path (path : string) : outcome string :=
  let path := skip_slashes path in
  translated ← translate_path_for_ostree path;
  Ok ("/" +:+ (if bool_decide (translated = ""%string) then path else translated)).

(** The links of the top directory into usr/. *)
Definition build_rootfs_usrlinks (t : tree) : gmap string string :=
  map_imap (λ name node,
    match node with
    | FLink link =>
        let link_rel := skip_slashes link in
        if negb (has_slash name) && starts_with "usr/" link_rel then Some link_rel else None
    | _ => None
    end) t.

(** lib/foo/bar is usr/lib/foo/bar *)
Definition canonicalize_non_usrmove_path (rootfs_usrlinks : gmap string string) (path : string) : option string :=
  match split_slash path with
  | None => None
  | Some (prefix, rest) => link ← rootfs_usrlinks !! prefix; Some (g_build_filename link rest)
  end.

(** * File dispositions *)

(** An element of an RPM transaction. *)
Record rpmte := MkRpmte {
  te_added : bool;
  te_dbinstance : N;
  te_name : string;
  te_files : list RpmFi;
  te_provides : list string;
  te_key : Package;
}.
(** A package of the rpmdb, by its offset. *)
Record DbHeader := MkDbHeader { db_offset : N; db_files : list RpmFi }.

Definition fi_fn (f : RpmFi) : string := default ""%string (rpmfiFN f).

Abbreviation FilesAdded := (gmap string (gmap string N)).
Definition ht_insert_path_for_nevra {V} (ht : gmap string (gmap string V)) (nevra path : string) (v : V) :
    gmap string (gmap string V) :=
  <[nevra := <[path := v]> (default ∅ (ht !! nevra))]> ht.

Record Collected := MkCollected {
  pkgs_deleted : gset N;
  files_deleted : gset string;
  files_added : FilesAdded;
}.
Definition collect_te (c : Collected) (te : rpmte) : Collected :=
  if te_added te then
    MkCollected (pkgs_deleted c) (files_deleted c)
      (foldl (λ ht f, if bool_decide (rpmfiFColor f = 0%N) then ht
                      else ht_insert_path_for_nevra ht (pkg_nevra (te_key te)) (fi_fn f) (rpmfiFColor f))
         (files_added c) (te_files te))
  else
    MkCollected ({[te_dbinstance te]} ∪ pkgs_deleted c) (list_to_set (fi_fn <$> te_files te) ∪ files_deleted c)
      (files_added c).
Definition collect_files (elements : list rpmte) : Collected := foldl collect_te (MkCollected ∅ ∅ ∅) elements.

(** What the rest of the function decides: a file that is not added or not deleted, a file
    that makes way. *)
Inductive disposition :=
  | SkipAdd (nevra path : string)
  | SkipDelete (path : string)
  | MakeWay (path : string).

Section dispositions.
(** The colors of the transaction, the links of the root, and the order of the hash tables *)
Context (fs : FsOps) (ts_color ts_prefcolor : N) (rootfs_usrlinks : gmap string string)
  (nevra_order : FilesAdded → list (string * gmap string N)) (path_order : gmap string N → list (string * N)).

(** The files that are added, in the order of the tables. *)
Definition added_list (added : FilesAdded) : list (string * string * N) :=
  '(nevra, paths) ← nevra_order added; '(path, color) ← path_order paths; [(nevra, path, color)].

Definition rainbow_skips (added : FilesAdded) : list disposition :=
  '(nevra, path, color) ← added_list added;
  if negb (bool_decide (ts_color = 0%N)) && bool_decide (N.land ts_color color = 0%N) then [SkipAdd nevra path] else [].

(** A file of a package that stays. *)
Definition db_file_dispositions (c : Collected) (f : RpmFi) : list disposition :=
  let fn := fi_fn f in
  (if bool_decide (fn ∈ files_deleted c) then [SkipDelete fn] else [])
  ++ (let color := N.land (rpmfiFColor f) ts_color in
      if bool_decide (color = 0%N) then []
      else
        let fn_rel := skip_slashes fn in
        let fn_rel := default fn_rel (canonicalize_non_usrmove_path rootfs_usrlinks fn_rel) in
        if negb (starts_with "usr/" fn_rel) then []
        else
          '(nevra, paths) ← nevra_order (files_added c);
          match paths !! fn with
          | None => []
          | Some other_color =>
              let other_color := N.land other_color ts_color in
              if negb (bool_decide (other_color = 0%N)) && negb (bool_decide (color = other_color)) then
                if negb (bool_decide (N.land color ts_prefcolor = 0%N)) then [SkipAdd nevra fn]
                else if negb (bool_decide (N.land other_color ts_prefcolor = 0%N)) then [MakeWay fn_rel]
                else []
              else []
          end).
Definition db_dispositions (c : Collected) (rpmdb : list DbHeader) : list disposition :=
  h ← rpmdb;
  if bool_decide (db_offset h ∈ pkgs_deleted c) then [] else f ← db_files h; db_file_dispositions c f.

(** Files that several of the added packages have: [path_to_nevra] and [path_to_color]. *)
Definition pick_color (st : gmap string (string * N) * list disposition) (a : string * string * N) :
    gmap string (string * N) * list disposition :=
  let '(seen, skips) := st in
  let '(nevra, path, full_color) := a in
  match seen !! path with
  | None => (<[path := (nevra, full_color)]> seen, skips)
  | Some (other_nevra, other_full) =>
      let color := N.land full_color ts_color in
      let other_color := N.land other_full ts_color in
      if negb (bool_decide (color = 0%N)) && negb (bool_decide (other_color = 0%N))
         && negb (bool_decide (color = other_color))
      then
        if negb (bool_decide (N.land color ts_prefcolor = 0%N))
        then (<[path := (nevra, full_color)]> seen, skips ++ [SkipAdd other_nevra path])
        else if negb (bool_decide (N.land other_color ts_prefcolor = 0%N))
        then (seen, skips ++ [SkipAdd nevra path])
        else (seen, skips)
      else (seen, skips)
  end.
Definition pick_colors (added : FilesAdded) : gmap string (string * N) * list disposition :=
  foldl pick_color (∅, []) (added_list added).

Definition dispositions (elements : list rpmte) (rpmdb : list DbHeader) : list disposition :=
  let c := collect_files elements in
  rainbow_skips (files_added c) ++ db_dispositions c rpmdb ++ (pick_colors (files_added c)).2.

(** The tables the dispositions are kept in; only the files that are added are canonicalized. *)
Record SkipTables := MkSkipTables { files_skip_add : gmap string (gset string); files_skip_delete : gset string }.
Definition skip_add (nevra path : string) (tables : SkipTables) : SkipTables :=
  MkSkipTables (<[nevra := {[path]} ∪ default ∅ (files_skip_add tables !! nevra)]> (files_skip_add tables))
    (files_skip_delete tables).
Definition skip_delete (path : string) (tables : SkipTables) : SkipTables :=
  MkSkipTables (files_skip_add tables) ({[path]} ∪ files_skip_delete tables).
Fixpoint handle_dispositions (ds : list disposition) (tables : SkipTables) : prog fsevent tree SkipTables :=
  match ds with
  | [] => mret tables
  | SkipAdd nevra path :: ds =>
      p ← lift (canonicalize_rpmfi_path path);
      handle_dispositions ds (skip_add nevra p tables)
  | SkipDelete path :: ds => handle_dispositions ds (skip_delete path tables)
  | MakeWay path :: ds =>
      _ ← rm_rf fs path;
      handle_dispositions ds tables
  end.
Definition handle_file_dispositions (elements : list rpmte) (rpmdb : list DbHeader) : prog fsevent tree SkipTables :=
  handle_dispositions (dispositions elements rpmdb) (MkSkipTables ∅ ∅).
End dispositions.

(** * Checking out a package *)

Inductive CheckoutFilterResult := OSTREE_REPO_CHECKOUT_FILTER_ALLOW | OSTREE_REPO_CHECKOUT_FILTER_SKIP.
#[global] Instance CheckoutFilterResult_eq_dec : EqDecision CheckoutFilterResult.
Proof. solve_decision. Defined.
Inductive OverwriteMode := OVERWRITE_UNION_FILES | OVERWRITE_ADD_FILES | OVERWRITE_UNION_IDENTICAL.
#[global] Instance OverwriteMode_eq_dec : EqDecision OverwriteMode.
Proof. solve_decision. Defined.

(** [g_regex_match] of a pattern and a path is a parameter. *)
Definition checkout_filter (regex_match : string → string → bool) (files_skip : option (gset string))
    (files_remove_regex : list string) (path : string) : CheckoutFilterResult :=
  if match files_skip with Some s => bool_decide (path ∈ s) | None => false end
  then OSTREE_REPO_CHECKOUT_FILTER_SKIP
  else if existsb (λ regex, regex_match regex path) files_remove_regex then OSTREE_REPO_CHECKOUT_FILTER_SKIP
  else if bool_decide (path = "/usr/etc/nsswitch.conf"%string) then OSTREE_REPO_CHECKOUT_FILTER_SKIP
  else OSTREE_REPO_CHECKOUT_FILTER_ALLOW.
(** The filter a checkout is given, when there is something to filter. *)
Definition checkout_package_filter (regex_match : string → string → bool) (files_skip : option (gset string))
    (files_remove_regex : list string) : option (string → CheckoutFilterResult) :=
  if negb (bool_decide (default ∅ files_skip = (∅ : gset string))) || negb (bool_decide (files_remove_regex = []))
  then Some (checkout_filter regex_match files_skip files_remove_regex)
  else None.

(** * Deleting packages *)


Definition S_ISREG (mode : Z) : bool := (Z.land mode S_IFMT =? 32768)%Z.
Definition S_ISLNK (mode : Z) : bool := (Z.land mode S_IFMT =? 40960)%Z.
Definition S_ISDIR (mode : Z) : bool := (Z.land mode S_IFMT =? 16384)%Z.

(** The negative of the difference of the lengths: longer paths come first. *)
Definition compare_strlen (a b : string) : Z :=
  if bool_decide (String.length a = String.length b) then 0%Z
  else if (String.length b <? String.length a)%nat then (-1)%Z else 1%Z.
(** [g_sequence_insert_sorted]: after the elements that compare equal. *)
Fixpoint g_sequence_insert_sorted (x : string) (l : list string) : list string :=
  match l with
  | [] => [x]
  | y :: l' => if (compare_strlen x y <? 0)%Z then x :: l else y :: g_sequence_insert_sorted x l'
  end.

Section deletion.
(** The links of the root and the files not to delete. *)
Context (fs : FsOps) (rootfs_usrlinks : gmap string string) (files_skip : gset string).
Local Abbreviation F := (prog fsevent tree).

(** The path below usr/ that a file of a removed package has in the root. *)
Definition deleted_path (f : RpmFi) : outcome (option string) :=
  let mode := rpmfiFMode f in
  if negb (S_ISREG mode || S_ISLNK mode || S_ISDIR mode) then Ok None
  else
    match rpmfiFN f with
    | None => Abort
    | Some fn =>
        if bool_decide (fn ∈ files_skip) then Ok None
        else
          let fn := skip_slashes fn in
          _ ← g_assert (negb (bool_decide (fn = ""%string)));
          let fn := default fn (canonicalize_non_usrmove_path rootfs_usrlinks fn) in
          translated ← translate_path_for_ostree fn;
          let fn := if bool_decide (translated = ""%string) then fn else translated in
          Ok (if starts_with "usr/" fn then Some fn else None)
    end.

(** What is a directory in the root is left to the second pass. *)
Definition delete_file (dirs_to_remove : list string) (f : RpmFi) : F (list string) :=
  path ← lift (deleted_path f);
  match path with
  | None => mret dirs_to_remove
  | Some fn =>
      node ← fstatat fs fn;
      match node with
      | None => mret dirs_to_remove
      | Some FDir => mret (g_sequence_insert_sorted fn dirs_to_remove)
      | Some _ =>
          _ ← unlinkat fs fn;
          mret dirs_to_remove
      end
  end.
Fixpoint delete_files (dirs_to_remove : list string) (files : list RpmFi) : F (list string) :=
  match files with
  | [] => mret dirs_to_remove
  | f :: files =>
      dirs_to_remove ← delete_file dirs_to_remove f;
      delete_files dirs_to_remove files
  end.

(** The tmpfiles.d dropin that was generated for a package. *)
Definition delete_dropin (pkgname : string) : F unit :=
  new_dir ← fstatat fs "usr/lib/rpm-ostree/tmpfiles.d";
  let '(tmpfiles_path, dropin) :=
    match new_dir with
    | Some _ => ("usr/lib/rpm-ostree/tmpfiles.d", pkgname +:+ ".conf")
    | None => ("usr/lib/tmpfiles.d", "pkg-" +:+ pkgname +:+ ".conf")
    end%string in
  dir ← readdir fs true tmpfiles_path;
  match dir with
  | None => errno "opendir" tmpfiles_path "No such file or directory"
  | Some _ => rm_rf fs (tmpfiles_path +:+ "/" +:+ dropin)
  end.
Definition delete_package_from_root (te : rpmte) (dirs_to_remove : list string) : F (list string) :=
  dirs_to_remove ← delete_files dirs_to_remove (te_files te);
  _ ← delete_dropin (te_name te);
  mret dirs_to_remove.

(** Directories that are not empty stay. *)
Definition handle_package_deletion_directories (dirs_to_remove : list string) : F unit :=
  for_each (rmdir fs) dirs_to_remove.
End deletion.

(** * Owners, capabilities and modes *)

Definition RPMFILE_GHOST : Z := Z.shiftl 1 6.
(** [S_ISUID | S_ISGID | S_ISVTX] *)
Definition NON_BARE_USER_MODE : Z := 3584.
Definition node_type (node : fnode) : Z :=
  match node with FDir => 16384 | FReg _ => 32768 | FLink _ => 40960 end%Z.

Section overrides.
(** The links of the root, and the users and groups in it. *)
Context (fs : FsOps) (rootfs_usrlinks : gmap string string) (users groups : gmap string Z).
Local Abbreviation F := (prog fsevent tree).

Definition lookup_id (ids : gmap string Z) (name not_found : string) : outcome Z :=
  if bool_decide (name = "root"%string) then Ok 0%Z
  else match ids !! name with Some id => Ok id | None => glnx_throw not_found end.
(** Whether the header says more than the checkout does. *)
Definition has_override (f : RpmFi) : bool :=
  negb (is_root (rpmfiFUser f) && is_root (rpmfiFGroup f)
        && negb (0 <? Z.land (rpmfiFMode f) NON_BARE_USER_MODE)%Z && fcaps_is_unset (rpmfiFCaps f)).
(** The path in the root, if it is one to change. *)
Definition override_path (f : RpmFi) : outcome (option string) :=
  let mode := rpmfiFMode f in
  if negb (has_override f) || negb (S_ISREG mode || S_ISLNK mode || S_ISDIR mode) then Ok None
  else
    match rpmfiFN f with
    | None => Abort
    | Some fn =>
        let fn := skip_slashes fn in
        _ ← g_assert (negb (bool_decide (fn = ""%string)));
        let fn := default fn (canonicalize_non_usrmove_path rootfs_usrlinks fn) in
        if starts_with "run/" fn || starts_with "var/" fn then Ok None
        else Ok (if starts_with "etc/" fn || starts_with "usr/" fn then Some fn else None)
    end.
Definition apply_rpmfi_override (pkg_name : string) (f : RpmFi) : F unit :=
  path ← lift (override_path f);
  match path with
  | None => mret tt
  | Some fn =>
      let mode := rpmfiFMode f in
      let user := default "root"%string (rpmfiFUser f) in
      let group := default "root"%string (rpmfiFGroup f) in
      node ← fstatat fs fn;
      match node with
      | None =>
          if flag_set (rpmfiFFlags f) RPMFILE_GHOST then mret tt
          else errno "fstatat" fn "No such file or directory"
      | Some node =>
          if negb (bool_decide (node_type node = Z.land mode S_IFMT)) then
            lift (glnx_throw ("Inconsistent file type between RPM and checkout for file '" +:+ fn
                              +:+ "' in package '" +:+ pkg_name +:+ "'"))
          else
            _ ← when (negb (bool_decide (node = FDir))) (on_error ("Copyup " +:+ fn) (touch fs "break_hardlink" fn CopiedUp));
            uid ← lift (lookup_id users user ("Could not find user '" +:+ user +:+ "' in passwd file"));
            gid ← lift (lookup_id groups group ("Could not find group '" +:+ group +:+ "' in group file"));
            _ ← touch fs "fchownat" fn (λ p, OwnerSet p uid gid);
            _ ← when (negb (fcaps_is_unset (rpmfiFCaps f)))
                  (touch fs "setxattr" fn (λ p, CapsSet p (default ""%string (rpmfiFCaps f))));
            when (S_ISREG mode) (touch fs "fchmodat" fn (λ p, ModeSet p mode))
      end
  end.
(** The loop over the files, which runs as root only. *)
Definition apply_rpmfi_overrides (pkg_name : string) (fi : list RpmFi) : F unit :=
  for_each (apply_rpmfi_override pkg_name) fi.
End overrides.

(** Every file of a directory gets a copy of its own. *)
Definition break_hardlinks_at (fs : FsOps) (dirpath : string) : prog fsevent tree unit :=
  dents ← readdir fs true dirpath;
  match dents with
  | None => errno "opendir" dirpath "No such file or directory"
  | Some dents => for_each (λ '(name, _), touch fs "break_hardlink" (dirpath +:+ "/" +:+ name) CopiedUp) dents
  end.
