(* ===== verification/CoreFilesSpec.v ===== *)
(** Properties of the files of packages in a root: the deletion of the files of removed
    packages, and which of the files that several packages have are kept. *)

From S2P Require Import Prelude Vardict FileTree FileTreeSpec Nevra RpmHeaders Deploy SysrootCore Origin Core Importer CoreFiles.

(** * Deleting the files of packages *)

(** Longer paths come first. *)
Abbreviation by_length := (StronglySorted (λ a b, String.length b ≤ String.length a)).
Lemma insert_sorted_elem x l d : d ∈ g_sequence_insert_sorted x l ↔ d = x ∨ d ∈ l.
Proof.
  induction l as [|y l IH]; simpl; [rewrite list_elem_of_singleton, elem_of_nil; tauto|].
  case_match; rewrite !elem_of_cons; [done|]. rewrite IH. tauto.
Qed.
Lemma insert_sorted_sorted x l : by_length l → by_length (g_sequence_insert_sorted x l).
Proof.
  induction 1 as [|y l Hl IH Hy]; simpl; [by repeat constructor|]. unfold compare_strlen.
  destruct (_ <? 0)%Z eqn:Hc.
  - assert (String.length y ≤ String.length x).
    { case_bool_decide; [lia|]. destruct (String.length y <? String.length x)%nat eqn:Hlt; [apply Nat.ltb_lt in Hlt; lia|done]. }
    constructor; [by constructor|]. constructor; [done|]. eapply Forall_impl; [exact Hy|]. simpl. lia.
  - constructor; [done|]. apply Forall_forall. intros d [->|Hd]%insert_sorted_elem.
    + case_bool_decide; [lia|]. destruct (String.length y <? String.length x)%nat eqn:Hlt; [done|]. apply Nat.ltb_ge in Hlt. lia.
    + by eapply Forall_forall in Hy.
Qed.

Section deletion.
Context (fs : FsOps) `{!FsLaws fs} (rootfs_usrlinks : gmap string string) (files_skip : gset string).

(** The path below usr/ that a file name has in the root. *)
Definition in_root (fn path : string) : Prop :=
  ∃ rel translated, rel = default (skip_slashes fn) (canonicalize_non_usrmove_path rootfs_usrlinks (skip_slashes fn)) ∧
    translate_path_for_ostree rel = Ok translated ∧
    path = (if bool_decide (translated = ""%string) then rel else translated) ∧ starts_with "usr/" path = true.
(** A regular file, a link or a directory. *)
Definition has_content (mode : Z) : Prop := S_ISREG mode = true ∨ S_ISLNK mode = true ∨ S_ISDIR mode = true.

Lemma deleted_path_spec f path : deleted_path rootfs_usrlinks files_skip f = Ok (Some path) ↔
  ∃ fn, rpmfiFN f = Some fn ∧ has_content (rpmfiFMode f) ∧ fn ∉ files_skip ∧
    skip_slashes fn ≠ ""%string ∧ in_root fn path.
Proof.
  unfold deleted_path, has_content, in_root.
  destruct (S_ISREG (rpmfiFMode f) || S_ISLNK (rpmfiFMode f) || S_ISDIR (rpmfiFMode f)) eqn:Hm; simpl.
  2: { split; [done|]. intros (fn & _ & Hc & _). rewrite !orb_false_iff in Hm. destruct Hm as [[] ?].
       destruct Hc as [|[|]]; congruence. }
  apply orb_true_iff in Hm as [[Hm|Hm]%orb_true_iff|Hm].
  all: destruct (rpmfiFN f) as [fn|]; [|split; [done|by intros (? & ? & _)]].
  all: case_bool_decide as Hs; [split; [done|by intros (? & [= <-] & _ & ? & _)]|].
  all: case_bool_decide as He; simpl; [split; [done|by intros (? & [= <-] & _ & _ & ? & _)]|].
  all: set (rel := default _ _); split.
  all: try (intros (translated & Ht & Hp)%bind_ok; exists fn; split_and!; auto; exists rel, translated;
            destruct (starts_with "usr/" _) eqn:Hu; [|done]; by injection Hp as <-).
  all: intros (? & [= <-] & _ & _ & _ & ? & translated & -> & Ht & -> & Hu); fold rel in Ht, Hu |- *;
       rewrite Ht; simpl; by rewrite Hu.
Qed.

(** The paths in the root of the files of a package that are not skipped. *)
Definition owned (te : rpmte) (path : string) : Prop :=
  ∃ f, f ∈ te_files te ∧ deleted_path rootfs_usrlinks files_skip f = Ok (Some path).
Definition dropin_paths (te : rpmte) : list string :=
  ["usr/lib/rpm-ostree/tmpfiles.d/" +:+ te_name te +:+ ".conf"; "usr/lib/tmpfiles.d/pkg-" +:+ te_name te +:+ ".conf"].
Definition of_dropin (te : rpmte) (path : string) : Prop :=
  ∃ d, d ∈ dropin_paths te ∧ (path = d ∨ below d path = true).
Definition all_direct (t : tree) (te : rpmte) : Prop :=
  (∀ path, owned te path → direct t path) ∧ ∀ d, d ∈ dropin_paths te → direct t d.

(** What a deletion does to the root and to the directories to look at later: only paths with
    [allowed] go, and those with [worked] are gone or among these directories. *)
Record deleted (allowed worked : string → Prop) (t t' : tree) (dirs dirs' : list string) : Prop := {
  del_sub : t' ⊆ t;
  del_only q node : t !! q = Some node → t' !! q = None → allowed q;
  del_done path : worked path → t' !! path = None ∨ t' !! path = Some FDir ∧ path ∈ dirs';
  del_dirs d : d ∈ dirs → d ∈ dirs';
  del_new d : d ∈ dirs' → d ∈ dirs ∨ worked d;
  del_sorted : by_length dirs → by_length dirs';
}.
Definition may_delete (te : rpmte) (path : string) : Prop := owned te path ∨ of_dropin te path.

Lemma deleted_refl A (W : string → Prop) t dirs : (∀ p, ¬ W p) → deleted A W t t dirs dirs.
Proof. intros HW. split; auto; [congruence|]. by intros p ?%HW. Qed.
Lemma deleted_mono (A A' W W' : string → Prop) t t' dirs dirs' :
  deleted A W t t' dirs dirs' → (∀ p, A p → A' p) → (∀ p, W p ↔ W' p) → deleted A' W' t t' dirs dirs'.
Proof.
  intros [S O D I N L] HA HW. split; auto; [eauto|intros p; rewrite <-HW; auto|]. intros d ?%N. rewrite <-HW. auto.
Qed.
Lemma deleted_trans A W W' t t1 t2 dirs dirs1 dirs2 :
  deleted A W t t1 dirs dirs1 → deleted A W' t1 t2 dirs1 dirs2 → deleted A (λ p, W p ∨ W' p) t t2 dirs dirs2.
Proof.
  intros [S1 O1 D1 I1 N1 L1] [S2 O2 D2 I2 N2 L2]. split; auto.
  - by etrans.
  - intros q node Hq Hn. destruct (t1 !! q) as [n|] eqn:Ht1; eauto.
  - intros path [Hp|Hp]; [|eauto]. destruct (t2 !! path) as [n|] eqn:Ht2; [|auto].
    pose proof (lookup_weaken _ _ _ _ Ht2 S2) as Ht1. destruct (D1 path Hp) as [?|[? ?]]; [congruence|].
    right. split; [congruence|auto].
  - intros d [[?|?]%N1|?]%N2; auto.
Qed.

Local Abbreviation path_of f := (λ path, deleted_path rootfs_usrlinks files_skip f = Ok (Some path)).
Lemma delete_file_spec te f dirs t tr dirs' t' : f ∈ te_files te → all_direct t te →
  delete_file fs rootfs_usrlinks files_skip dirs f t = (tr, Ok (dirs', t')) → deleted (may_delete te) (path_of f) t t' dirs dirs'.
Proof.
  intros Hf [Hdir _] Hrun. unfold delete_file in Hrun.
  apply prog_bind_inv in Hrun as (path & t1 & tr1 & tr2 & (Hp & -> & ->)%lift_inv & Hrun & ->).
  destruct path as [fn|].
  2: { injection Hrun as _ <- <-. apply deleted_refl. congruence. }
  assert (owned te fn) as Hown by (by exists f). pose proof (resolve_direct fs t fn (Hdir _ Hown)) as Hres.
  apply prog_bind_inv in Hrun as (node & t1 & tr1 & tr3 & (-> & -> & ->)%fstatat_inv & Hrun & ->). rewrite Hres in Hrun.
  assert (∀ path, path_of f path → path = fn) as Hone by congruence.
  destruct (t !! fn) as [node|] eqn:Hn; [destruct (decide (node = FDir)) as [->|Hnd]|].
  - injection Hrun as _ <- <-. split; auto; [congruence| | | |].
    + intros path ->%Hone. right. split; [done|]. apply insert_sorted_elem. auto.
    + intros d Hd. apply insert_sorted_elem. auto.
    + intros d [->|?]%insert_sorted_elem; auto.
    + apply insert_sorted_sorted.
  - assert ((_ ← unlinkat fs fn; mret dirs) t = (tr3, Ok (dirs', t'))) as Hrun' by (by destruct node). clear Hrun.
    apply prog_bind_inv in Hrun' as (b & t1 & tr1 & tr4 & Hu & Hrun & ->). injection Hrun as _ <- <-.
    apply unlinkat_inv in Hu. rewrite Hres, Hn in Hu. destruct Hu as [[? _]|(n & _ & _ & _ & _ & ->)]; [done|].
    split; auto.
    + apply delete_subseteq.
    + intros q nq Hq [->|?]%lookup_delete_None; [by left|congruence].
    + intros path ->%Hone. left. apply lookup_delete_eq.
  - injection Hrun as _ <- <-. split; auto; [congruence|].
    intros path ->%Hone. auto.
Qed.

Lemma all_direct_subseteq t t' te : t' ⊆ t → all_direct t te → all_direct t' te.
Proof. intros Hsub [H1 H2]. split; intros; eapply direct_subseteq; eauto. Qed.

Lemma delete_files_spec te fl dirs t tr dirs' t' : fl ⊆ te_files te → all_direct t te →
  delete_files fs rootfs_usrlinks files_skip dirs fl t = (tr, Ok (dirs', t')) → deleted (may_delete te) (λ path, ∃ f, f ∈ fl ∧ path_of f path) t t' dirs dirs'.
Proof.
  revert dirs t tr. induction fl as [|f fl IH]; intros dirs t tr Hfl Hd Hrun; simpl in Hrun.
  { injection Hrun as _ <- <-. apply deleted_refl. by intros p (f & ?%elem_of_nil & _). }
  apply prog_bind_inv in Hrun as (dirs1 & t1 & tr1 & tr2 & Hf & Hrun & ->).
  apply (delete_file_spec te) in Hf; [|set_solver|done].
  eapply deleted_mono; [|done|].
  - eapply deleted_trans; [exact Hf|]. eapply IH; [set_solver| |exact Hrun].
    eapply all_direct_subseteq; [apply Hf|done].
  - intros path. setoid_rewrite elem_of_cons. naive_solver.
Qed.

Lemma delete_dropin_spec te dirs t tr a t' : all_direct t te →
  delete_dropin fs (te_name te) t = (tr, Ok (a, t')) → deleted (may_delete te) (λ _, False) t t' dirs dirs.
Proof.
  intros [_ Hd] Hrun. unfold delete_dropin in Hrun.
  apply prog_bind_inv in Hrun as (new_dir & t1 & tr1 & tr2 & (_ & -> & ->)%fstatat_inv & Hrun & ->).
  assert (∃ path, path ∈ dropin_paths te ∧ (a, t') = (a, remove_all path t)) as (path & Hin & [= ->]).
  { destruct new_dir as [n|].
    all: apply prog_bind_inv in Hrun as (dir & t1 & tr1 & tr3 & (-> & ->)%readdir_inv & Hrun & ->).
    all: destruct dir; [|done]; apply rm_rf_inv in Hrun as [_ ->].
    - eexists. split; [left|]. rewrite (resolve_direct fs); [done|]. apply Hd. left.
    - eexists. split; [right; left|]. rewrite (resolve_direct fs); [done|]. apply Hd. right. left. }
  split; auto; [| |done].
  - apply map_filter_subseteq.
  - intros q node Hq Hn. right. exists path. split; [done|]. destruct (decide (q = path)); [auto|]. right.
    destruct (below path q) eqn:Hb; [done|].
    assert (remove_all path t !! q = Some node) by (by apply map_lookup_filter_Some). congruence.
Qed.

Lemma delete_package_spec te dirs t tr dirs' t' : all_direct t te →
  delete_package_from_root fs rootfs_usrlinks files_skip te dirs t = (tr, Ok (dirs', t')) →
  deleted (may_delete te) (owned te) t t' dirs dirs'.
Proof.
  intros Hd Hrun. unfold delete_package_from_root in Hrun.
  apply prog_bind_inv in Hrun as (dirs1 & t1 & tr1 & tr2 & Hf & Hrun & ->).
  apply (delete_files_spec te) in Hf; [|done|done].
  apply prog_bind_inv in Hrun as (a & t2 & tr3 & tr4 & Hdr & Hrun & ->). injection Hrun as _ <- <-.
  eapply deleted_mono; [|done|].
  - eapply deleted_trans; [exact Hf|]. eapply delete_dropin_spec; [|exact Hdr].
    eapply all_direct_subseteq; [apply Hf|done].
  - intros path. unfold owned. naive_solver.
Qed.

(** ** Directories *)

(** No directory of the list is empty. *)
Definition not_empty (t : tree) (d : string) : Prop := t !! d = Some FDir → has_children t d = true.
Lemma not_empty_delete (t : tree) d e : not_empty t d → String.length e ≤ String.length d → not_empty (delete e t) d.
Proof.
  intros Hd Hlen [Hne Ht]%lookup_delete_Some. specialize (Hd Ht). unfold has_children in *.
  apply bool_decide_eq_true in Hd as (q & n & Hq & Hb). apply bool_decide_eq_true. exists q, n. split; [|done].
  apply lookup_delete_Some. split; [|done]. intros ->. apply below_length in Hb. lia.
Qed.
Lemma delete_directories_spec dirs t tr a t' : by_length dirs → (∀ d, d ∈ dirs → direct t d) →
  handle_package_deletion_directories fs dirs t = (tr, Ok (a, t')) →
  t' ⊆ t ∧ (∀ q node, t !! q = Some node → t' !! q = None → q ∈ dirs ∧ node = FDir) ∧
  ∀ seen : list string, (∀ d, d ∈ seen → not_empty t d ∧ ∀ e, e ∈ dirs → String.length e ≤ String.length d) →
    ∀ d, d ∈ seen ∨ d ∈ dirs → not_empty t' d.
Proof.
  unfold handle_package_deletion_directories. intros Hs. revert t tr a.
  induction Hs as [|e dirs Hs IH He]; intros t tr a Hd Hrun; simpl in Hrun.
  { injection Hrun as _ _ <-. split_and!; [done|congruence|]. intros seen Hseen d [Hin|[]%elem_of_nil]. by apply Hseen. }
  apply prog_bind_inv in Hrun as (b & t1 & tr1 & tr2 & Hr & Hrun & ->). apply rmdir_inv in Hr.
  rewrite (resolve_direct fs) in Hr by (apply Hd; left).
  assert (t1 ⊆ t) as Hsub by (destruct Hr as [(_ & _ & _ & ->)|(_ & _ & ->)]; [apply delete_subseteq|done]).
  assert (not_empty t1 e) as Hne.
  { destruct Hr as [(_ & _ & _ & ->)|([Hn|[_ Hn]] & _ & ->)]; intros ?; simplify_map_eq; done. }
  destruct (IH t1 tr2 a) as (S & O & N); [|done|].
  { intros d Hin. eapply direct_subseteq; [done|]. apply Hd. by right. }
  split_and!.
  - by etrans.
  - intros q node Hq Hn. destruct (t1 !! q) as [n|] eqn:Ht1.
    + pose proof (lookup_weaken _ _ _ _ Ht1 Hsub). destruct (O q n Ht1 Hn). split; [by right|congruence].
    + destruct Hr as [(Hdir & _ & _ & ->)|(_ & _ & ->)]; [|congruence].
      apply lookup_delete_None in Ht1 as [<-|?]; [|congruence]. split; [left|congruence].
  - intros seen Hseen d Hin. apply (N (e :: seen)); [|rewrite elem_of_cons in *; naive_solver].
    intros d' [->|Hd']%elem_of_cons.
    + split; [done|]. intros e' He'. by eapply Forall_forall in He.
    + destruct (Hseen d' Hd') as [Hk Hlen]. split; [|intros e' ?; apply Hlen; by right].
      destruct Hr as [(_ & _ & _ & ->)|(_ & _ & ->)]; [|done]. apply not_empty_delete; [done|]. apply Hlen. left.
Qed.
End deletion.

(** * Files that several packages have *)

Section dispositions.
Context (fs : FsOps) (ts_color ts_prefcolor : N) (rootfs_usrlinks : gmap string string)
  (nevra_order : FilesAdded → list (string * gmap string N)) (path_order : gmap string N → list (string * N)).
Local Abbreviation all := (dispositions ts_color ts_prefcolor rootfs_usrlinks nevra_order path_order).

Lemma collect_spec elements :
  (∀ n, n ∈ pkgs_deleted (collect_files elements) ↔ ∃ te, te ∈ elements ∧ te_added te = false ∧ te_dbinstance te = n) ∧
  (∀ p, p ∈ files_deleted (collect_files elements) ↔
     ∃ te f, te ∈ elements ∧ te_added te = false ∧ f ∈ te_files te ∧ fi_fn f = p).
Proof.
  unfold collect_files. rewrite <-(reverse_involutive elements).
  induction (reverse elements) as [|te l [IHn IHp]]; [simpl; set_solver|].
  rewrite reverse_cons, foldl_app. cbn [foldl]. set (c := foldl _ _ _) in *. unfold collect_te.
  split; intros x; setoid_rewrite elem_of_app; setoid_rewrite list_elem_of_singleton.
  - destruct (te_added te) eqn:Ha; simpl; rewrite ?elem_of_union, ?elem_of_singleton, IHn; split.
    + intros (te' & ? & ?). eauto.
    + intros (te' & [?| ->] & ? & ?); [eauto|congruence].
    + intros [->|(te' & ? & ?)]; eauto.
    + intros (te' & [?| ->] & ? & ?); [eauto|auto].
  - destruct (te_added te) eqn:Ha; simpl; rewrite ?elem_of_union, ?elem_of_list_to_set, ?list_elem_of_fmap, IHp; split.
    + intros (te' & f & ? & ?). eauto.
    + intros (te' & f & [?| ->] & ? & ?); [eauto|congruence].
    + intros [(f & -> & ?)|(te' & f & ? & ?)]; [exists te, f|]; eauto 10.
    + intros (te' & f & [?| ->] & ? & ? & <-); [right|left]; eauto 10.
Qed.

(** The table of the files that are not deleted is that of the dispositions. *)
Lemma handle_dispositions_skip ds tables t tr tables' t' :
  handle_dispositions fs ds tables t = (tr, Ok (tables', t')) →
  ∀ p, p ∈ files_skip_delete tables' ↔ p ∈ files_skip_delete tables ∨ SkipDelete p ∈ ds.
Proof.
  revert tables t tr. induction ds as [|d ds IH]; intros tables t tr Hrun p; simpl in Hrun.
  { injection Hrun as _ <- _. rewrite elem_of_nil. tauto. }
  rewrite elem_of_cons. destruct d as [nevra path|path|path].
  - apply prog_bind_inv in Hrun as (? & ? & ? & ? & _ & Hrun & ->). rewrite (IH _ _ _ Hrun). simpl. naive_solver.
  - rewrite (IH _ _ _ Hrun). simpl. rewrite elem_of_union, elem_of_singleton. naive_solver.
  - apply prog_bind_inv in Hrun as (? & ? & ? & ? & _ & Hrun & ->). rewrite (IH _ _ _ Hrun). naive_solver.
Qed.

(** So is the table of the files that are not added, whose paths are those of the root. *)
Lemma handle_dispositions_add ds tables t tr tables' t' :
  handle_dispositions fs ds tables t = (tr, Ok (tables', t')) →
  ∀ nevra p, p ∈ default ∅ (files_skip_add tables' !! nevra) ↔
    p ∈ default ∅ (files_skip_add tables !! nevra) ∨
    ∃ path, SkipAdd nevra path ∈ ds ∧ canonicalize_rpmfi_path path = Ok p.
Proof.
  revert tables t tr. induction ds as [|d ds IH]; intros tables t tr Hrun nevra p; simpl in Hrun.
  { injection Hrun as _ <- _. setoid_rewrite elem_of_nil. naive_solver. }
  setoid_rewrite elem_of_cons. destruct d as [n path|path|path].
  - apply prog_bind_inv in Hrun as (q & ? & ? & ? & (Hq & _ & ->)%lift_inv & Hrun & ->). rewrite (IH _ _ _ Hrun). simpl.
    destruct (decide (n = nevra)) as [->|Hn].
    + rewrite lookup_insert_eq. simpl. rewrite elem_of_union, elem_of_singleton. clear IH Hrun. split.
      * intros [[->|?]|(path' & ? & ?)]; [right; exists path; auto|auto|right; exists path'; auto].
      * intros [?|(path' & [[= ->]|?] & ?)]; [auto|left; left; congruence|right; eauto].
    + rewrite lookup_insert_ne by done. clear IH Hrun. split.
      * intros [?|(path' & ? & ?)]; [auto|right; exists path'; auto].
      * intros [?|(path' & [[= ? _]|?] & ?)]; [auto|congruence|right; eauto].
  - rewrite (IH _ _ _ Hrun). simpl. naive_solver.
  - apply prog_bind_inv in Hrun as (? & ? & ? & ? & _ & Hrun & ->). rewrite (IH _ _ _ Hrun). naive_solver.
Qed.

(** What goes from the root are the files that make way. *)
Lemma handle_dispositions_root `{!FsLaws fs} ds tables t tr tables' t' :
  (∀ path, MakeWay path ∈ ds → direct t path) →
  handle_dispositions fs ds tables t = (tr, Ok (tables', t')) →
  t' ⊆ t ∧ ∀ q, is_Some (t !! q) → t' !! q = None → ∃ path, MakeWay path ∈ ds ∧ (q = path ∨ below path q = true).
Proof.
  revert tables t tr. induction ds as [|d ds IH]; intros tables t tr Hd Hrun; simpl in Hrun.
  { injection Hrun as _ _ <-. split; [done|]. intros q [n Hq] ?. congruence. }
  assert (∀ t1, t1 ⊆ t → ∀ path, MakeWay path ∈ ds → direct t1 path) as Hd'.
  { intros t1 Hsub path Hp. eapply direct_subseteq; [done|]. apply Hd. by right. }
  destruct d as [n path|path|path].
  - apply prog_bind_inv in Hrun as (q & ? & ? & ? & (_ & -> & ->)%lift_inv & Hrun & ->).
    apply IH in Hrun as [? Hq]; [|by apply Hd']. split; [done|]. intros q' H1 H2.
    destruct (Hq q' H1 H2) as (path' & ? & ?). exists path'. split; [by right|done].
  - apply IH in Hrun as [? Hq]; [|by apply Hd']. split; [done|]. intros q' H1 H2.
    destruct (Hq q' H1 H2) as (path' & ? & ?). exists path'. split; [by right|done].
  - apply prog_bind_inv in Hrun as (? & t1 & ? & ? & [_ ->]%rm_rf_inv & Hrun & ->).
    rewrite (resolve_direct fs) in Hrun by (apply Hd; left).
    assert (remove_all path t ⊆ t) as Hsub by apply map_filter_subseteq.
    apply IH in Hrun as [Hs Hq]; [|by apply Hd']. split; [by etrans|]. intros q' [n Hn] H2.
    destruct (remove_all path t !! q') as [n'|] eqn:Hr.
    + destruct (Hq q') as (path' & ? & ?); [eauto|done|]. exists path'. split; [by right|done].
    + exists path. split; [left|]. apply map_lookup_filter_None in Hr as [?|Hr]; [congruence|].
      destruct (decide (q' = path)); [auto|]. right. destruct (below path q') eqn:Hb; [done|]. by destruct (Hr n Hn).
Qed.

(** The files of the added packages that have a color. *)
Lemma collect_added elements nevra paths fn color :
  files_added (collect_files elements) !! nevra = Some paths → paths !! fn = Some color →
  ∃ te f, te ∈ elements ∧ te_added te = true ∧ f ∈ te_files te ∧ fi_fn f = fn ∧ rpmfiFColor f = color.
Proof.
  assert (∀ l c, (∀ nevra paths, files_added c !! nevra = Some paths → paths !! fn = Some color →
      ∃ te f, te ∈ elements ∧ te_added te = true ∧ f ∈ te_files te ∧ fi_fn f = fn ∧ rpmfiFColor f = color) →
    l ⊆ elements → ∀ nevra paths, files_added (foldl collect_te c l) !! nevra = Some paths → paths !! fn = Some color →
      ∃ te f, te ∈ elements ∧ te_added te = true ∧ f ∈ te_files te ∧ fi_fn f = fn ∧ rpmfiFColor f = color) as H.
  2: { intros Hn Hp. apply (H elements (MkCollected ∅ ∅ ∅)) with (nevra := nevra) (paths := paths); [|done|done|done].
       intros ? ? He. simpl in He. by rewrite lookup_empty in He. }
  induction l as [|te l IH]; intros c Hc Hl; [done|]. simpl. apply IH; [|set_solver]. clear IH.
  assert (te ∈ elements) as Hte by set_solver. unfold collect_te. destruct (te_added te) eqn:Ha; [|done]. simpl.
  assert (∀ fl ht, (∀ nevra paths, ht !! nevra = Some paths → paths !! fn = Some color →
      ∃ te f, te ∈ elements ∧ te_added te = true ∧ f ∈ te_files te ∧ fi_fn f = fn ∧ rpmfiFColor f = color) →
    fl ⊆ te_files te → ∀ nevra paths,
    foldl (λ ht f, if bool_decide (rpmfiFColor f = 0%N) then ht
             else ht_insert_path_for_nevra ht (pkg_nevra (te_key te)) (fi_fn f) (rpmfiFColor f)) ht fl !! nevra = Some paths →
    paths !! fn = Some color →
      ∃ te f, te ∈ elements ∧ te_added te = true ∧ f ∈ te_files te ∧ fi_fn f = fn ∧ rpmfiFColor f = color) as H;
    [|by apply H].
  induction fl as [|f fl IH]; intros ht Hht Hfl; [done|]. simpl. apply IH; [|set_solver]. case_bool_decide; [done|].
  unfold ht_insert_path_for_nevra. intros n paths'. destruct (decide (n = pkg_nevra (te_key te))) as [->|Hne].
  - rewrite lookup_insert_eq. intros [= <-]. destruct (decide (fn = fi_fn f)) as [->|Hf].
    + rewrite lookup_insert_eq. intros [= <-]. exists te, f. set_solver.
    + rewrite lookup_insert_ne by done. destruct (ht !! _) eqn:Hh; simpl; [by eapply Hht|by rewrite lookup_empty].
  - rewrite lookup_insert_ne by done. apply Hht.
Qed.

(** A file makes way if a package that stays has it, but an added package has it with the
    preferred color. *)
Definition makes_way (elements : list rpmte) (rpmdb : list DbHeader) (path : string) : Prop :=
  ∃ h f te f', h ∈ rpmdb ∧ (∀ te', te' ∈ elements → te_added te' = false → te_dbinstance te' ≠ db_offset h) ∧
    f ∈ db_files h ∧
    path = default (skip_slashes (fi_fn f)) (canonicalize_non_usrmove_path rootfs_usrlinks (skip_slashes (fi_fn f))) ∧
    starts_with "usr/" path = true ∧
    te ∈ elements ∧ te_added te = true ∧ f' ∈ te_files te ∧ fi_fn f' = fi_fn f ∧
    N.land (N.land (rpmfiFColor f) ts_color) ts_prefcolor = 0%N ∧
    N.land (N.land (rpmfiFColor f') ts_color) ts_prefcolor ≠ 0%N.

Lemma make_way_disposition (Horder : ∀ m, nevra_order m ≡ₚ map_to_list m) elements rpmdb path :
  MakeWay path ∈ all elements rpmdb → makes_way elements rpmdb path.
Proof.
  unfold dispositions. rewrite !elem_of_app. set (c := collect_files elements). intros [Hin|[Hin|Hin]].
  { unfold rainbow_skips in Hin. apply list_elem_of_bind in Hin as (((nevra & p) & color) & Hin & _).
    case_match; [|by apply elem_of_nil in Hin]. by apply list_elem_of_singleton in Hin. }
  2: { exfalso. revert Hin. unfold pick_colors. generalize (added_list nevra_order path_order (files_added c)) as l. intros l.
       assert (MakeWay path ∉ (∅ : gmap string (string * N), [] : list disposition).2) as H by (simpl; by intros ?%elem_of_nil).
       revert H. generalize (∅ : gmap string (string * N), [] : list disposition) as st.
       induction l as [|[[nevra p] color] l IH]; intros [seen skips] Hst; [done|]. simpl in *. apply IH.
       repeat case_match; simpl; try done; rewrite elem_of_app, list_elem_of_singleton; naive_solver. }
  unfold db_dispositions in Hin. apply list_elem_of_bind in Hin as (h & Hin & Hh). case_bool_decide as Hdel; [by apply elem_of_nil in Hin|].
  apply list_elem_of_bind in Hin as (f & Hin & Hf). unfold db_file_dispositions in Hin. apply elem_of_app in Hin as [Hin|Hin].
  { case_bool_decide; [by apply list_elem_of_singleton in Hin|by apply elem_of_nil in Hin]. }
  case_bool_decide; [by apply elem_of_nil in Hin|]. set (rel := default _ _) in Hin.
  destruct (starts_with "usr/" rel) eqn:Hu; [simpl in Hin|by apply elem_of_nil in Hin].
  apply list_elem_of_bind in Hin as ([nevra paths] & Hin & Hp). rewrite Horder, elem_of_map_to_list in Hp.
  destruct (paths !! fi_fn f) as [other|] eqn:Ho; [|by apply elem_of_nil in Hin].
  destruct (_ && _); [|by apply elem_of_nil in Hin].
  case_bool_decide as Hpref; simpl in Hin; [|by apply list_elem_of_singleton in Hin].
  case_bool_decide as Hother; simpl in Hin; [by apply elem_of_nil in Hin|]. apply list_elem_of_singleton in Hin as [= ->].
  destruct (collect_added elements nevra paths (fi_fn f) other Hp Ho) as (te & f' & ? & ? & ? & ? & <-).
  exists h, f, te, f'. split_and!; try done. intros te' ? ? Heq. apply Hdel. apply (proj1 (collect_spec elements)). eauto.
Qed.

Lemma skip_delete_disposition elements rpmdb p :
  SkipDelete p ∈ all elements rpmdb ↔
  p ∈ files_deleted (collect_files elements) ∧
  ∃ h f, h ∈ rpmdb ∧ db_offset h ∉ pkgs_deleted (collect_files elements) ∧ f ∈ db_files h ∧ fi_fn f = p.
Proof.
  unfold dispositions. rewrite !elem_of_app. set (c := collect_files elements).
  assert (SkipDelete p ∉ rainbow_skips ts_color nevra_order path_order (files_added c)) as Hr.
  { unfold rainbow_skips. intros (((nevra & path) & color) & Hin & _)%list_elem_of_bind.
    case_match; [|by apply elem_of_nil in Hin]. by apply list_elem_of_singleton in Hin. }
  assert (SkipDelete p ∉ (pick_colors ts_color ts_prefcolor nevra_order path_order (files_added c)).2) as Hp.
  { unfold pick_colors. generalize (added_list nevra_order path_order (files_added c)) as l.
    assert (SkipDelete p ∉ (∅ : gmap string (string * N), [] : list disposition).2) as H by (simpl; by intros ?%elem_of_nil).
    revert H. generalize (∅ : gmap string (string * N), [] : list disposition) as st. intros st Hst l. revert st Hst.
    induction l as [|[[nevra path] color] l IH]; intros [seen skips] Hst; [done|]. simpl in *. apply IH.
    repeat case_match; simpl; try done; rewrite elem_of_app, list_elem_of_singleton; naive_solver. }
  assert (SkipDelete p ∈ db_dispositions ts_color ts_prefcolor rootfs_usrlinks nevra_order c rpmdb ↔
    p ∈ files_deleted c ∧ ∃ h f, h ∈ rpmdb ∧ db_offset h ∉ pkgs_deleted c ∧ f ∈ db_files h ∧ fi_fn f = p); [|tauto].
  unfold db_dispositions. rewrite list_elem_of_bind. split.
  - intros (h & Hin & Hh). case_bool_decide; [by apply elem_of_nil in Hin|].
    apply list_elem_of_bind in Hin as (f & Hin & Hf). unfold db_file_dispositions in Hin. apply elem_of_app in Hin as [Hin|Hin].
    + case_bool_decide; [|by apply elem_of_nil in Hin]. apply list_elem_of_singleton in Hin as [= ->]. eauto 10.
    + exfalso. repeat (case_match; try by apply elem_of_nil in Hin).
      all: apply list_elem_of_bind in Hin as ([nevra paths] & Hin & _).
      all: repeat (case_match; try by apply elem_of_nil in Hin); by apply list_elem_of_singleton in Hin.
  - intros (Hd & h & f & Hh & Ho & Hf & Hfn). exists h. split; [|done]. rewrite bool_decide_false by done.
    apply list_elem_of_bind. exists f. split; [|done]. unfold db_file_dispositions. rewrite Hfn.
    apply elem_of_app. left. rewrite bool_decide_true by done. by apply list_elem_of_singleton.
Qed.

(** C23: a file that a package which stays has as well, under the same name, is never deleted
    with a removed package, whatever the colors and types of the files are. *)
Theorem shared_files_kept elements rpmdb t tr tables t' te f h f' :
  handle_file_dispositions fs ts_color ts_prefcolor rootfs_usrlinks nevra_order path_order elements rpmdb t
    = (tr, Ok (tables, t')) →
  te ∈ elements → te_added te = false → f ∈ te_files te →
  h ∈ rpmdb → (∀ te', te' ∈ elements → te_added te' = false → te_dbinstance te' ≠ db_offset h) →
  f' ∈ db_files h → rpmfiFN f' = rpmfiFN f →
  ∀ path, deleted_path rootfs_usrlinks (files_skip_delete tables) f ≠ Ok (Some path).
Proof.
  intros Hrun Hte Ha Hf Hh Hst Hf' Hfn path Hp.
  assert (fi_fn f ∈ files_skip_delete tables) as Hskip.
  { apply (handle_dispositions_skip _ _ _ _ _ _ Hrun). right. apply skip_delete_disposition.
    destruct (collect_spec elements) as [Hn Hd]. split; [apply Hd; eauto 10|].
    exists h, f'. split_and!; [done| |done|unfold fi_fn; by rewrite Hfn].
    rewrite Hn. intros (te' & ? & ? & ?). by apply (Hst te'). }
  unfold deleted_path in Hp. destruct (negb _); [done|]. unfold fi_fn in Hskip.
  destruct (rpmfiFN f) as [fn|]; [|done]. simpl in Hskip. by rewrite bool_decide_true in Hp.
Qed.
End dispositions.

(** A file that both packages have under different names of one path is deleted: the names are
    compared before the links of the root are taken into account. *)
Lemma alias_not_shared :
  let removed := MkRpmFi (Some "/lib/libx.so"%string) None None None 0 [] 0 33261 in
  let other := MkRpmFi (Some "/usr/lib/libx.so"%string) None None None 0 [] 0 33261 in
  ∀ pkg, let te := MkRpmte false 1 "x" [removed] [] pkg in
  let usrlinks := {["lib"%string := "usr/lib"%string]} in
  dispositions 0 0 usrlinks map_to_list map_to_list [te] [MkDbHeader 1 [removed]; MkDbHeader 2 [other]] = [] ∧
  deleted_path usrlinks ∅ removed = Ok (Some "usr/lib/libx.so"%string).
Proof. intros removed other pkg te usrlinks. split; vm_compute; reflexivity. Qed.

Lemma shared_files_kept_witness :
  let f := MkRpmFi (Some "/usr/lib/libx.so"%string) None None None 0 [] 0 33261 in
  let pkg := MkPackage 1 (MkDnfPackage "x" "1-1" "x86_64") "x-1-1.x86_64" 0 "1" "1" "@System" true None None in
  let te := MkRpmte false 1 "x" [f] [] pkg in
  let run := handle_file_dispositions plain_fs 0 0 ∅ map_to_list map_to_list [te] [MkDbHeader 1 [f]; MkDbHeader 2 [f]] ∅ in
  deleted_path ∅ ∅ f = Ok (Some "usr/lib/libx.so"%string) ∧
  ∃ tables, run = ([], Ok (tables, ∅)) ∧ ∀ path, deleted_path ∅ (files_skip_delete tables) f ≠ Ok (Some path).
Proof.
  intros f pkg te run. split; [vm_compute; reflexivity|].
  exists (MkSkipTables ∅ {["/usr/lib/libx.so"%string]}). split; [vm_compute; reflexivity|].
  apply (shared_files_kept plain_fs 0 0 ∅ map_to_list map_to_list [te] [MkDbHeader 1 [f]; MkDbHeader 2 [f]] ∅ []
    (MkSkipTables ∅ {["/usr/lib/libx.so"%string]}) ∅ te f (MkDbHeader 2 [f]) f).
  - vm_compute. reflexivity.
  - left.
  - done.
  - left.
  - right. left.
  - by intros te' ->%list_elem_of_singleton _.
  - left.
  - done.
Defined.
