(* ===== verification/Kernel.v ===== *)
(** Kernels of a root: finding, removing and placing them, from
    [src/libpriv/rpmostree-kernel.cxx] and [rust/src/core.rs]. The checksum of kernel and
    initramfs is a parameter. *)

From S2P Require Import Prelude Vardict FileTree.

(** "(sssms)". *)
Record KernelState := MkKernelState {
  ks_kver : string;
  ks_bootdir : string;
  ks_kernel : string;
  ks_initramfs : option string;
}.

(** [RpmOstreeFinalizeKernelDestination], and its numbers. *)
Inductive FinalizeKernelDestination :=
  | RPMOSTREE_FINALIZE_KERNEL_AUTO
  | RPMOSTREE_FINALIZE_KERNEL_USRLIB_MODULES
  | RPMOSTREE_FINALIZE_KERNEL_USRLIB_OSTREEBOOT
  | RPMOSTREE_FINALIZE_KERNEL_SLASH_BOOT.
#[global] Instance FinalizeKernelDestination_eq_dec : EqDecision FinalizeKernelDestination.
Proof. solve_decision. Defined.
Definition dest_number (d : FinalizeKernelDestination) : Z :=
  match d with
  | RPMOSTREE_FINALIZE_KERNEL_AUTO => 0
  | RPMOSTREE_FINALIZE_KERNEL_USRLIB_MODULES => 1
  | RPMOSTREE_FINALIZE_KERNEL_USRLIB_OSTREEBOOT => 2
  | RPMOSTREE_FINALIZE_KERNEL_SLASH_BOOT => 3
  end.

Definition usrlib_ostreeboot : string := "usr/lib/ostree-boot".
Definition slash_bootdir : string := "boot".
Definition usrlib_modules : string := "usr/lib/modules".

(** * Looking at a directory *)

(** What was found: the suffix of the kernel, the kernel and the initramfs. *)
Record BootFiles := MkBootFiles { bf_ksuffix : option string; bf_kernel : option string; bf_initramfs : option string }.

Definition is_vmlinuz (has_ksuffix : bool) (name : string) : bool :=
  if has_ksuffix then starts_with "vmlinuz-" name else bool_decide (name = "vmlinuz"%string).
Definition is_initramfs (name : string) : bool :=
  bool_decide (name = "initramfs.img"%string) || starts_with "initramfs-" name.

Fixpoint scan_bootdir (has_ksuffix : bool) (bootdir : string) (dents : list (string * fnode)) (ret : BootFiles) :
    outcome BootFiles :=
  match dents with
  | [] => Ok ret
  | (name, FReg _) :: dents =>
      if is_vmlinuz has_ksuffix name then
        match bf_kernel ret with
        | Some ret_kernel =>
            glnx_throw ("Multiple vmlinuz" +:+ (if has_ksuffix then "-" else "") +:+ " in " +:+ bootdir
                        +:+ ", occurrences '" +:+ ret_kernel +:+ "' and '" +:+ bootdir +:+ "/" +:+ name +:+ "'")
        | None =>
            scan_bootdir has_ksuffix bootdir dents
              (MkBootFiles (if has_ksuffix then strip_prefix "vmlinuz-" name else None)
                 (Some (bootdir +:+ "/" +:+ name)) (bf_initramfs ret))
        end
      else if is_initramfs name then
        match bf_initramfs ret with
        | Some ret_initramfs =>
            glnx_throw ("Multiple initramfs- in " +:+ bootdir +:+ ", occurrences '" +:+ ret_initramfs
                        +:+ "' and '" +:+ bootdir +:+ "/" +:+ name +:+ "'")
        | None =>
            scan_bootdir has_ksuffix bootdir dents
              (MkBootFiles (bf_ksuffix ret) (bf_kernel ret) (Some (bootdir +:+ "/" +:+ name)))
        end
      else scan_bootdir has_ksuffix bootdir dents ret
  | _ :: dents => scan_bootdir has_ksuffix bootdir dents ret
  end.

Section kernel.
(** [ostree_validate_checksum_string] and the SHA256 of a file. *)
Context (fs : FsOps) (validate_checksum : string → bool) (sha256 : string → string).
Local Abbreviation F := (prog fsevent tree).

Definition find_kernel_and_initramfs_in_bootdir (has_ksuffix : bool) (bootdir : string) : F BootFiles :=
  dents ← readdir fs false bootdir;
  match dents with
  | None => mret (MkBootFiles None None None)
  | Some dents => lift (scan_bootdir has_ksuffix bootdir dents (MkBootFiles None None None))
  end.

Fixpoint scan_modules (subpath : string) (dents : list (string * fnode)) (ret_subdir : option string) :
    F (option string) :=
  match dents with
  | [] => mret ret_subdir
  | (name, FDir) :: dents =>
      vmlinuz ← fstatat fs (subpath +:+ "/" +:+ name +:+ "/vmlinuz");
      match vmlinuz, ret_subdir with
      | None, _ => scan_modules subpath dents ret_subdir
      | Some _, Some ret_subdir =>
          lift (glnx_throw ("Multiple kernels (vmlinuz) found in: " +:+ subpath +:+ ": "
                            +:+ from_option snd ret_subdir (rsplit_slash ret_subdir) +:+ " " +:+ name))
      | Some _, None => scan_modules subpath dents (Some (subpath +:+ "/" +:+ name))
      end
  | _ :: dents => scan_modules subpath dents ret_subdir
  end.
Definition find_dir_with_vmlinuz (subpath : string) : F (option string) :=
  dents ← readdir fs true subpath;
  match dents with
  | None => errno "opendir" subpath "No such file or directory"
  | Some dents => scan_modules subpath dents None
  end.

(** * Removing *)

Definition unlink_found (path : option string) : F unit :=
  match path with Some path => glnx_unlinkat fs path | None => mret tt end.
Definition kernel_remove_in (bootdir : string) (has_ksuffix : bool) : F unit :=
  found ← find_kernel_and_initramfs_in_bootdir has_ksuffix bootdir;
  _ ← unlink_found (bf_kernel found);
  unlink_found (bf_initramfs found).

Definition depmod_files : list string :=
  ["modules.alias"; "modules.alias.bin"; "modules.builtin.alias.bin"; "modules.builtin.bin"; "modules.dep";
   "modules.dep.bin"; "modules.devname"; "modules.softdep"; "modules.symbols"; "modules.symbols.bin"].
Definition rpmostree_kernel_remove : F unit :=
  modversion_dir ← find_dir_with_vmlinuz usrlib_modules;
  _ ← match modversion_dir with
      | None => mret tt
      | Some modversion_dir =>
          _ ← kernel_remove_in modversion_dir false;
          dir ← readdir fs true modversion_dir;
          match dir with
          | None => errno "opendir" modversion_dir "No such file or directory"
          | Some _ => for_each (λ name, _ ← unlinkat fs (modversion_dir +:+ "/" +:+ name); mret tt) depmod_files
          end
      end;
  _ ← kernel_remove_in usrlib_ostreeboot true;
  kernel_remove_in slash_bootdir true.

(** * Finding *)

(** The version without the digest that kernels in /boot have. *)
Definition strip_boot_checksum (kver : string) : string :=
  let n := String.length kver in
  if (65 <? n)%nat && bool_decide (String.get (n - 65) kver = Some "-"%char)
     && validate_checksum (String.substring (n - 64) 64 kver)
  then String.substring 0 (n - 65) kver
  else kver.

Definition rpmostree_find_kernel : F KernelState :=
  in_ostreeboot ← find_kernel_and_initramfs_in_bootdir true usrlib_ostreeboot;
  '(bootdir, found) ←
    match bf_kernel in_ostreeboot with
    | Some _ => mret (usrlib_ostreeboot, in_ostreeboot)
    | None => in_boot ← find_kernel_and_initramfs_in_bootdir true slash_bootdir; mret (slash_bootdir, in_boot)
    end;
  match bf_kernel found, bf_ksuffix found with
  | Some kernel_path, Some kver =>
      mret (MkKernelState (strip_boot_checksum kver) bootdir kernel_path (bf_initramfs found))
  | Some _, None => lift Abort
  | None, _ =>
      modversion_dir ← find_dir_with_vmlinuz usrlib_modules;
      match modversion_dir with
      | None => lift (glnx_throw "/usr/lib/modules is empty")
      | Some modversion_dir =>
          in_modules ← find_kernel_and_initramfs_in_bootdir false modversion_dir;
          match bf_kernel in_modules with
          | Some kernel_path =>
              mret (MkKernelState (from_option snd modversion_dir (rsplit_slash modversion_dir)) modversion_dir
                      kernel_path (bf_initramfs in_modules))
          | None =>
              lift (glnx_throw ("Unable to find kernel (vmlinuz) in /boot or /usr/lib/modules (bootdir="
                                +:+ modversion_dir +:+ ")"))
          end
      end
  end.

(** * Placing *)

(** The kernel and the initramfs of the modules directory replace those of [bootdir]. *)
Definition copy_kernel_into (kver boot_checksum_str kernel_modules_path initramfs_modules_path : string)
    (only_if_found : bool) (bootdir : string) : F unit :=
  legacy ← find_kernel_and_initramfs_in_bootdir true bootdir;
  if negb (nonnull (bf_kernel legacy)) && only_if_found then mret tt
  else
    _ ← unlink_found (bf_kernel legacy);
    _ ← linkat fs kernel_modules_path (bootdir +:+ "/" +:+ "vmlinuz-" +:+ kver +:+ "-" +:+ boot_checksum_str);
    _ ← unlink_found (bf_initramfs legacy);
    linkat fs initramfs_modules_path
      (bootdir +:+ "/" +:+ "initramfs-" +:+ kver +:+ ".img-" +:+ boot_checksum_str).

(** [Utf8Path::file_name]. *)
Definition file_name (path : string) : option string :=
  match last (filter (λ c, c ≠ ""%string ∧ c ≠ "."%string) (split_components path "")) with
  | Some name => if bool_decide (name = ".."%string) then None else Some name
  | None => None
  end.
(** [split_once] at two blanks. *)
Fixpoint split_blanks (s : string) : option (string * string) :=
  match strip_prefix "  " s with
  | Some rest => Some (""%string, rest)
  | None =>
      match s with
      | EmptyString => None
      | String c s => match split_blanks s with Some (a, b) => Some (String c a, b) | None => None end
      end
  end.
Definition verify_kernel_hmac (moddir : string) : F unit :=
  let hmac_path := moddir +:+ "/.vmlinuz.hmac" in
  hmac_contents ← read_file fs hmac_path;
  match hmac_contents with
  | None => mret tt
  | Some hmac_contents =>
      if negb (has_slash hmac_contents) then mret tt
      else
        match split_blanks hmac_contents with
        | None => lift (glnx_throw ("Missing path in .vmlinuz.hmac: " +:+ hmac_contents))
        | Some (hmac, path) =>
            match file_name path with
            | None => lift (glnx_throw ("Missing filename in .vmlinuz.hmac: " +:+ hmac_contents))
            | Some file_name =>
                let new_contents := hmac +:+ "  " +:+ file_name in
                if has_slash new_contents
                then lift (glnx_throw ("Unexpected '/' in .vmlinuz.hmac: " +:+ new_contents))
                else replace_file fs hmac_path new_contents
            end
        end
  end.

Definition read_for_checksum (path : string) : F string :=
  content ← read_file fs path;
  match content with Some content => mret content | None => errno "openat" path "No such file or directory" end.

(** [initramfs] is the content of a temporary file; it replaces the one that is there. *)
Definition place_initramfs (initramfs_modules_path : string) (initramfs : option string) : F string :=
  match initramfs with
  | Some content =>
      _ ← unlinkat fs initramfs_modules_path;
      created ← create fs "link_tmpfile" initramfs_modules_path (FReg content);
      if created : bool then mret content
      else lift (prefix_error "Linking initramfs" (glnx_throw "File exists"))
  | None =>
      node ← fstatat fs initramfs_modules_path;
      match node with Some _ => read_for_checksum initramfs_modules_path | None => mret ""%string end
  end.
Definition place_kernel (bootdir modules_bootdir kernel_path kernel_modules_path : string) : F unit :=
  when (negb (bool_decide (kernel_path = kernel_modules_path))) (
    _ ← lift (g_assert (negb (bool_decide (bootdir = modules_bootdir))));
    _ ← unlinkat fs kernel_modules_path;
    linkat fs kernel_path kernel_modules_path).

Definition rpmostree_finalize_kernel (bootdir kver kernel_path : string) (initramfs : option string)
    (dest : FinalizeKernelDestination) : F unit :=
  let modules_bootdir := g_build_filename usrlib_modules kver in
  let initramfs_modules_path := g_build_filename modules_bootdir "initramfs.img" in
  let kernel_modules_path := g_build_filename modules_bootdir "vmlinuz" in
  kernel_content ← read_for_checksum kernel_path;
  initramfs_content ← place_initramfs initramfs_modules_path initramfs;
  let boot_checksum_str := sha256 (kernel_content +:+ initramfs_content) in
  _ ← place_kernel bootdir modules_bootdir kernel_path kernel_modules_path;
  _ ← verify_kernel_hmac modules_bootdir;
  let only_if_found := bool_decide (dest = RPMOSTREE_FINALIZE_KERNEL_AUTO) in
  let copy := copy_kernel_into kver boot_checksum_str kernel_modules_path initramfs_modules_path only_if_found in
  _ ← when (only_if_found || (2 <=? dest_number dest)%Z) (copy usrlib_ostreeboot);
  when (only_if_found || (3 <=? dest_number dest)%Z) (copy slash_bootdir).
End kernel.
