(* ===== verification/KernelSpec.v ===== *)
(** Properties of the kernels of a root: after a removal none is found, and what is placed is
    found again. *)

From S2P Require Import Prelude Vardict FileTree FileTreeSpec Kernel.

(** * What the code keeps *)

Section keeps.
Context (fs : FsOps) (P : fsevent → Prop) (I : tree → Prop).

Lemma keeps_find_in has_ksuffix bootdir : keeps P I (find_kernel_and_initramfs_in_bootdir fs has_ksuffix bootdir).
Proof. unfold find_kernel_and_initramfs_in_bootdir. keeps_auto. Qed.
Lemma keeps_scan_modules subpath dents ret : keeps P I (scan_modules fs subpath dents ret).
Proof.
  revert ret. induction dents as [|[name []] dents IH]; intros ret; simpl; [keeps_auto| |auto..].
  apply keeps_bind; [apply keeps_fstatat|]. intros [|]; [|auto]. destruct ret; [apply keeps_lift|auto].
Qed.
#[local] Hint Resolve keeps_scan_modules : keeps.
Lemma keeps_find_dir subpath : keeps P I (find_dir_with_vmlinuz fs subpath).
Proof. unfold find_dir_with_vmlinuz, errno. keeps_auto. Qed.
End keeps.
#[export] Hint Resolve keeps_find_in keeps_find_dir : keeps.

(** * Looking at a directory *)

(** The kernels and the initramfs of a directory. *)
Definition kernels (has_ksuffix : bool) (dents : list (string * fnode)) : list string :=
  omap (λ '(name, node), match node with
                         | FReg _ => if is_vmlinuz has_ksuffix name then Some name else None
                         | _ => None
                         end) dents.
Definition initrds (has_ksuffix : bool) (dents : list (string * fnode)) : list string :=
  omap (λ '(name, node), match node with
                         | FReg _ => if negb (is_vmlinuz has_ksuffix name) && is_initramfs name then Some name else None
                         | _ => None
                         end) dents.
Lemma kernels_elem hs dents name :
  name ∈ kernels hs dents ↔ ∃ content, (name, FReg content) ∈ dents ∧ is_vmlinuz hs name = true.
Proof.
  unfold kernels. rewrite list_elem_of_omap. split.
  - intros ([n []] & Hin & He); try done. destruct (is_vmlinuz hs n) eqn:Hv; [|done]. injection He as <-. eauto.
  - intros (content & Hin & Hv). exists (name, FReg content). by rewrite Hv.
Qed.
Lemma initrds_elem hs dents name :
  name ∈ initrds hs dents ↔
  ∃ content, (name, FReg content) ∈ dents ∧ is_vmlinuz hs name = false ∧ is_initramfs name = true.
Proof.
  unfold initrds. rewrite list_elem_of_omap. split.
  - intros ([n []] & Hin & He); try done. destruct (is_vmlinuz hs n) eqn:Hv; [done|].
    destruct (is_initramfs n) eqn:Hi; [|done]. injection He as <-. eauto.
  - intros (content & Hin & Hv & Hi). exists (name, FReg content). by rewrite Hv, Hi.
Qed.

(** What is found, when there is at most one of each. *)
Definition boot_files (hs : bool) (dir : string) (vm im : list string) (ret : BootFiles) : BootFiles :=
  MkBootFiles
    match vm with n :: _ => if hs then strip_prefix "vmlinuz-" n else None | [] => bf_ksuffix ret end
    match vm with n :: _ => Some (dir +:+ "/" +:+ n) | [] => bf_kernel ret end
    match im with n :: _ => Some (dir +:+ "/" +:+ n) | [] => bf_initramfs ret end.
Definition one_each (vm im : list string) (ret : BootFiles) : Prop :=
  length vm ≤ 1 ∧ length im ≤ 1 ∧ (vm ≠ [] → bf_kernel ret = None) ∧ (im ≠ [] → bf_initramfs ret = None).

Lemma scan_bootdir_ok hs dir dents ret r :
  scan_bootdir hs dir dents ret = Ok r ↔
  one_each (kernels hs dents) (initrds hs dents) ret ∧ r = boot_files hs dir (kernels hs dents) (initrds hs dents) ret.
Proof.
  revert ret. induction dents as [|[name node] dents IH]; intros ret.
  { simpl. unfold one_each, boot_files. destruct ret. naive_solver lia. }
  destruct node as [|content|target]; [apply IH| |apply IH]. cbn [scan_bootdir].
  unfold kernels, initrds. cbn [omap list_omap]. fold (kernels hs dents) (initrds hs dents).
  generalize dependent (initrds hs dents). generalize (kernels hs dents). intros vm im IH.
  destruct (is_vmlinuz hs name); [|destruct (is_initramfs name)]; cbn [negb andb].
  - destruct (bf_kernel ret) eqn:Hk.
    { split; [done|]. intros [(_ & _ & H & _) _]. specialize (H ltac:(done)). congruence. }
    rewrite IH. unfold one_each, boot_files. cbn [bf_kernel bf_initramfs bf_ksuffix length].
    destruct vm as [|v vm]; [|split; [intros [(_ & _ & H & _) _]; by specialize (H ltac:(done))|simpl; lia]].
    cbn [length]. split; intros [(? & ? & ? & ?) ->]; (split; [|done]); split_and!; auto with lia; done.
  - destruct (bf_initramfs ret) eqn:Hk.
    { split; [done|]. intros [(_ & _ & _ & H) _]. specialize (H ltac:(done)). congruence. }
    rewrite IH. unfold one_each, boot_files. cbn [bf_kernel bf_initramfs bf_ksuffix length].
    destruct im as [|v im]; [|split; [intros [(_ & _ & _ & H) _]; by specialize (H ltac:(done))|simpl; lia]].
    cbn [length]. split; intros [(? & ? & ? & ?) ->]; (split; [|done]); split_and!; auto with lia; done.
  - apply IH.
Qed.

Section found.
Context (hs : bool) (t : tree) (dir : string).

Definition kernel_at (name : string) : Prop :=
  is_vmlinuz hs name = true ∧ ∃ content, (name, FReg content) ∈ entries t dir.
Definition initrd_at (name : string) : Prop :=
  is_vmlinuz hs name = false ∧ is_initramfs name = true ∧ ∃ content, (name, FReg content) ∈ entries t dir.

(** What was found is there, and it is the only one. *)
Record found (bf : BootFiles) : Prop := {
  fd_no_kernel : bf_kernel bf = None → ∀ name, ¬ kernel_at name;
  fd_kernel k : bf_kernel bf = Some k →
    ∃ name, k = dir +:+ "/" +:+ name ∧ kernel_at name ∧ bf_ksuffix bf = (if hs then strip_prefix "vmlinuz-" name else None) ∧
      ∀ name', kernel_at name' → name' = name;
  fd_no_initrd : bf_initramfs bf = None → ∀ name, ¬ initrd_at name;
  fd_initrd k : bf_initramfs bf = Some k →
    ∃ name, k = dir +:+ "/" +:+ name ∧ initrd_at name ∧ ∀ name', initrd_at name' → name' = name;
}.

Lemma kernels_at dents name : dents ≡ₚ entries t dir → name ∈ kernels hs dents ↔ kernel_at name.
Proof. intros Hp. rewrite kernels_elem. unfold kernel_at. setoid_rewrite Hp. naive_solver. Qed.
Lemma initrds_at dents name : dents ≡ₚ entries t dir → name ∈ initrds hs dents ↔ initrd_at name.
Proof. intros Hp. rewrite initrds_elem. unfold initrd_at. setoid_rewrite Hp. naive_solver. Qed.
Lemma at_most_one (l : list string) x y : length l ≤ 1 → x ∈ l → y ∈ l → x = y.
Proof. destruct l as [|? [|]]; simpl; [|set_solver|lia]. by intros _ ?%elem_of_nil. Qed.

Lemma found_nothing : t !! dir = None → tree_wf t → found (MkBootFiles None None None).
Proof.
  intros Hn Hwf. split; try done; intros _ name; [intros (_ & content & Hin)|intros (_ & _ & content & Hin)].
  all: apply entries_spec in Hin as (Hin & _); assert (t !! dir = Some FDir); [|congruence].
  all: eapply wf_below; [done|exact Hin|]; apply below_spec; eauto.
Qed.
Lemma found_scan dents bf : dents ≡ₚ entries t dir →
  scan_bootdir hs dir dents (MkBootFiles None None None) = Ok bf → found bf.
Proof.
  intros Hp [(Hv & Hi & _) ->]%scan_bootdir_ok. unfold boot_files. split; cbn [bf_kernel bf_initramfs bf_ksuffix].
  - destruct (kernels hs dents) eqn:Hk; [|done]. intros _ name Hat%(kernels_at dents); [|done].
    rewrite Hk in Hat. by apply elem_of_nil in Hat.
  - intros k Hs. destruct (kernels hs dents) as [|n l] eqn:Hk; [done|]. injection Hs as <-. exists n.
    split_and!; [done|apply (kernels_at dents); [done|]; rewrite Hk; left|done|].
    intros name' Hat%(kernels_at dents); [|done]. rewrite Hk in Hat. by eapply at_most_one; [exact Hv|..|left].
  - destruct (initrds hs dents) eqn:Hk; [|done]. intros _ name Hat%(initrds_at dents); [|done].
    rewrite Hk in Hat. by apply elem_of_nil in Hat.
  - intros k Hs. destruct (initrds hs dents) as [|n l] eqn:Hk; [done|]. injection Hs as <-. exists n.
    split_and!; [done|apply (initrds_at dents); [done|]; rewrite Hk; left|].
    intros name' Hat%(initrds_at dents); [|done]. rewrite Hk in Hat. by eapply at_most_one; [exact Hi|..|left].
Qed.
End found.

Section kernel.
Context (fs : FsOps) `{!FsLaws fs}.
Local Abbreviation find_in := (find_kernel_and_initramfs_in_bootdir fs).

Lemma find_in_inv hs dir t tr bf t' : tree_wf t → direct t dir →
  find_in hs dir t = (tr, Ok (bf, t')) →
  t' = t ∧ found hs t dir bf ∧ (t !! dir = None ∨ t !! dir = Some FDir).
Proof.
  intros Hwf Hd Hrun. unfold find_kernel_and_initramfs_in_bootdir, readdir in Hrun.
  apply prog_bind_inv in Hrun as (dents & t1 & tr1 & tr2 & Hr & Hrun & ->). apply call_inv in Hr.
  rewrite (resolve_direct fs) in Hr by done. cbv zeta in Hr.
  destruct (t !! dir) as [[| |]|] eqn:Ht; [|done..|]; injection Hr as <- <- <-.
  - apply lift_inv in Hrun as (Hs & -> & ->). split_and!; [done| |by right]. eapply found_scan; [|exact Hs]. apply order_perm.
  - injection Hrun as <- <- <-. split_and!; [done|by apply found_nothing|by left].
Qed.

(** * Removing *)

Lemma wf_delete_file t p node : tree_wf t → t !! p = Some node → node ≠ FDir → tree_wf (delete p t).
Proof. intros Hwf Hp Hn. apply wf_delete; [done|]. by eapply wf_file_childless. Qed.

(** A file of a directory that was found there. *)
Lemma unlink_entry t dir name content path tr a t' : tree_wf t → (name, FReg content) ∈ entries t dir →
  path = dir +:+ "/" +:+ name → unlink_found fs (Some path) t = (tr, Ok (a, t')) → t' = delete path t ∧ tree_wf t'.
Proof.
  intros Hwf (Hp & _)%entries_spec -> Hrun. simpl in Hrun. apply glnx_unlinkat_inv in Hrun as (node & Hn & Hnd & ->).
  rewrite (resolve_present fs t Hwf _ _ Hp) in *. split; [done|]. by eapply wf_delete_file.
Qed.

Lemma kernel_remove_in_spec dir hs t tr a t' : tree_wf t → direct t dir →
  kernel_remove_in fs dir hs t = (tr, Ok (a, t')) → t' ⊆ t ∧ tree_wf t' ∧ ∀ name, ¬ kernel_at hs t' dir name.
Proof.
  intros Hwf Hd Hrun. unfold kernel_remove_in in Hrun.
  apply prog_bind_inv in Hrun as (bf & ? & ? & tr1 & Hb & Hrun & ->). apply find_in_inv in Hb as (-> & Hf & _); [|done..].
  apply prog_bind_inv in Hrun as (? & t1 & ? & tr2 & Hk & Hrun & ->).
  assert (t1 ⊆ t ∧ tree_wf t1 ∧ (∀ name, ¬ kernel_at hs t1 dir name) ∧
          ∀ name content, is_vmlinuz hs name = false → (name, FReg content) ∈ entries t dir →
            (name, FReg content) ∈ entries t1 dir) as (Hs1 & Hw1 & Hn1 & Hi1).
  { destruct (bf_kernel bf) as [k|] eqn:Hbk.
    - destruct (fd_kernel _ _ _ _ Hf k Hbk) as (name & -> & [Hv [content Hin]] & _ & Hu).
      destruct (unlink_entry t dir name content _ _ _ _ Hwf Hin eq_refl Hk) as [-> Hw].
      split_and!; [apply delete_subseteq|done| |].
      + intros n [Hvn [c Hc]]. assert (n = name) as ->.
        { apply Hu. split; [done|]. exists c. eapply entries_subseteq; [apply delete_subseteq|done]. }
        apply entries_spec in Hc as [Hc _]. by rewrite lookup_delete_eq in Hc.
      + intros n c Hvn [Hc Hrest]%entries_spec. apply entries_spec. split; [|done].
        rewrite lookup_delete_ne; [done|]. intros He%str_app_inj_l%str_app_inj_l. congruence.
    - injection Hk as _ _ <-. split_and!; [done..| |done]. by apply (fd_no_kernel _ _ _ _ Hf). }
  destruct (bf_initramfs bf) as [k|] eqn:Hbi; [|injection Hrun as _ _ <-; done].
  destruct (fd_initrd _ _ _ _ Hf k Hbi) as (name & -> & (Hv & _ & content & Hin) & _).
  destruct (unlink_entry t1 dir name content _ _ _ _ Hw1 (Hi1 _ _ Hv Hin) eq_refl Hrun) as [-> Hw].
  split_and!; [etrans; [apply delete_subseteq|done]|done|].
  intros n [Hvn [c Hc]]. apply (Hn1 n). split; [done|]. exists c. eapply entries_subseteq; [apply delete_subseteq|done].
Qed.

(** The directory with modules and a kernel, if there is one; it is the only one. *)
Definition has_vmlinuz (t : tree) (sub name : string) : Prop :=
  (name, FDir) ∈ entries t sub ∧ is_Some (t !! (sub +:+ "/" +:+ name +:+ "/vmlinuz")).
Definition modules_dir (t : tree) (sub : string) (r : option string) : Prop :=
  match r with
  | None => ∀ name, ¬ has_vmlinuz t sub name
  | Some d => ∃ name, d = sub +:+ "/" +:+ name ∧ has_vmlinuz t sub name ∧ ∀ name', has_vmlinuz t sub name' → name' = name
  end.
Lemma fstat_vmlinuz t sub name tr node t' : tree_wf t → (name, FDir) ∈ entries t sub →
  fstatat fs (sub +:+ "/" +:+ name +:+ "/vmlinuz") t = (tr, Ok (node, t')) →
  node = t !! (sub +:+ "/" +:+ name +:+ "/vmlinuz") ∧ tr = [] ∧ t' = t.
Proof.
  intros Hwf (Hd & _)%entries_spec (-> & -> & ->)%fstatat_inv. split; [|done]. f_equal. apply (resolve_direct fs).
  change ("/vmlinuz"%string) with ("/" +:+ "vmlinuz"). rewrite !str_app_assoc, <-(str_app_assoc _ "/" "vmlinuz").
  apply direct_child; [done|by rewrite <-str_app_assoc|done].
Qed.
Definition among (t : tree) (sub : string) (dents : list (string * fnode)) (name : string) : Prop :=
  (name, FDir) ∈ dents ∧ has_vmlinuz t sub name.
Definition one_among (t : tree) (sub : string) (dents : list (string * fnode)) (r : option string) : Prop :=
  match r with
  | None => ∀ name, ¬ among t sub dents name
  | Some d => ∃ name, d = sub +:+ "/" +:+ name ∧ among t sub dents name ∧ ∀ name', among t sub dents name' → name' = name
  end.
Lemma scan_modules_inv t sub dents ret tr r t' : tree_wf t → dents ⊆ entries t sub →
  scan_modules fs sub dents ret t = (tr, Ok (r, t')) →
  tr = [] ∧ t' = t ∧
  match ret with Some d => r = Some d ∧ ∀ name, ¬ among t sub dents name | None => one_among t sub dents r end.
Proof.
  intros Hwf. revert ret tr. induction dents as [|[name node] dents IH]; intros ret tr Hsub Hrun; simpl in Hrun.
  { injection Hrun as <- <- <-. assert (∀ name, ¬ among t sub [] name) by (intros name [?%elem_of_nil _]; done).
    destruct ret; done. }
  assert (dents ⊆ entries t sub) as Hsub' by set_solver.
  assert (∀ n, n ≠ name ∨ node ≠ FDir ∨ ¬ has_vmlinuz t sub n → among t sub ((name, node) :: dents) n ↔ among t sub dents n) as Hcons.
  { intros n Hn. unfold among. rewrite elem_of_cons. naive_solver. }
  destruct (decide (node = FDir)) as [->|Hnd].
  - apply prog_bind_inv in Hrun as (v & ? & ? & tr2 & Hs & Hrun & ->).
    apply fstat_vmlinuz in Hs as (-> & -> & ->); [|done|apply Hsub; left].
    destruct (t !! _) as [v|] eqn:Hv.
    + assert (has_vmlinuz t sub name) as Hhas by (split; [apply Hsub; left|by rewrite Hv]).
      destruct ret as [d|]; [done|]. apply IH in Hrun as (-> & -> & -> & Hno); [|done]. split_and!; [done..|].
      exists name. split_and!; [done|split; [left|done]|]. intros name' Ha. destruct (decide (name' = name)) as [|Hne]; [done|].
      exfalso. apply (Hno name'), Hcons; auto.
    + assert (¬ has_vmlinuz t sub name) as Hhas by (intros [_ [? ?]]; congruence).
      assert (∀ n, among t sub ((name, FDir) :: dents) n ↔ among t sub dents n) as Heq.
      { intros n. destruct (decide (n = name)) as [->|]; [apply Hcons; auto|apply Hcons; auto]. }
      apply IH in Hrun as (-> & -> & Hr); [|done]. split_and!; [done..|]. destruct ret.
      * destruct Hr as [-> Hno]. split; [done|]. intros n Hn%Heq. by apply (Hno n).
      * unfold one_among in *. destruct r; setoid_rewrite Heq; done.
  - assert (scan_modules fs sub dents ret t = (tr, Ok (r, t'))) as Hrun' by (by destruct node). clear Hrun.
    assert (∀ n, among t sub ((name, node) :: dents) n ↔ among t sub dents n) as Heq by (intros n; apply Hcons; auto).
    apply IH in Hrun' as (-> & -> & Hr); [|done]. split_and!; [done..|]. destruct ret.
    + destruct Hr as [-> Hno]. split; [done|]. intros n Hn%Heq. by apply (Hno n).
    + unfold one_among in *. destruct r; setoid_rewrite Heq; done.
Qed.
Lemma find_dir_inv t sub tr r t' : tree_wf t → direct t (sub +:+ "/.") →
  find_dir_with_vmlinuz fs sub t = (tr, Ok (r, t')) → t' = t ∧ t !! sub = Some FDir ∧ modules_dir t sub r.
Proof.
  intros Hwf Hd Hrun. unfold find_dir_with_vmlinuz, readdir in Hrun.
  apply prog_bind_inv in Hrun as (dents & ? & ? & tr2 & Hr & Hrun & ->). apply call_inv in Hr. cbv zeta in Hr.
  rewrite (follow_plain fs) in Hr by done. destruct (t !! sub) as [[| |]|] eqn:Ht; [|done..|]; injection Hr as <- <- <-; [|done].
  apply scan_modules_inv in Hrun as (_ & -> & Hr); [|done|intros e; by rewrite order_perm].
  split_and!; [done..|]. assert (∀ n, among t sub (fs_order fs (entries t sub)) n ↔ has_vmlinuz t sub n) as Heq.
  { intros n. unfold among. rewrite order_perm. unfold has_vmlinuz. tauto. }
  unfold one_among in Hr. unfold modules_dir. destruct r; setoid_rewrite <-Heq; done.
Qed.

Lemma unlink_depmod dir t tr a t' : tree_wf t →
  for_each (λ name, _ ← unlinkat fs (dir +:+ "/" +:+ name); mret tt) depmod_files t = (tr, Ok (a, t')) → t' ⊆ t ∧ tree_wf t'.
Proof.
  generalize depmod_files as l. intros l Hwf. revert t tr Hwf. induction l as [|n l IH]; intros t tr Hwf Hrun; simpl in Hrun.
  { injection Hrun as _ _ <-. done. }
  apply prog_bind_inv in Hrun as (? & t1 & ? & tr2 & Hu & Hrun & ->).
  apply prog_bind_inv in Hu as (b & t2 & ? & tr3 & Hu & Hret & ->). injection Hret as _ _ <-.
  apply unlinkat_inv in Hu as [(_ & _ & _ & ->)|(node & Hn & Hnd & _ & _ & ->)]; [by eapply IH|].
  apply IH in Hrun as [Hs ?]; [|by eapply wf_delete_file]. split; [|done]. etrans; [exact Hs|apply delete_subseteq].
Qed.

Lemma no_kernel_subseteq hs t t' dir : t' ⊆ t → (∀ name, ¬ kernel_at hs t dir name) → ∀ name, ¬ kernel_at hs t' dir name.
Proof. intros Hs Hn name [Hv [c Hc]]. apply (Hn name). split; [done|]. exists c. by eapply entries_subseteq. Qed.

(** Without a kernel in any of the places none is found. *)
Lemma find_kernel_fails validate_checksum t :
  tree_wf t → direct t usrlib_ostreeboot → direct t slash_bootdir → direct t (usrlib_modules +:+ "/.") →
  (∀ name, ¬ kernel_at true t usrlib_ostreeboot name) → (∀ name, ¬ kernel_at true t slash_bootdir name) →
  (∀ dir, has_vmlinuz t usrlib_modules dir → ∀ name, ¬ kernel_at false t (usrlib_modules +:+ "/" +:+ dir) name) →
  ∀ tr k t', rpmostree_find_kernel fs validate_checksum t ≠ (tr, Ok (k, t')).
Proof.
  intros Hwf Ho Hb Hm No Nb Nm tr k t' Hfind. unfold rpmostree_find_kernel in Hfind.
  apply prog_bind_inv in Hfind as (bf & ? & ? & tr1 & Hf & Hfind & ->). apply find_in_inv in Hf as (-> & Hf & _); [|done..].
  destruct (bf_kernel bf) as [k1|] eqn:Hk1; [destruct (fd_kernel _ _ _ _ Hf k1 Hk1) as (name & _ & Hat & _); by apply (No name)|].
  apply prog_bind_inv in Hfind as ([bootdir bf2] & ? & ? & tr2 & Hf2 & Hfind & ->).
  apply prog_bind_inv in Hf2 as (bf3 & ? & ? & tr3 & Hf2 & Hret & ->). injection Hret as _ <- <- <-.
  apply find_in_inv in Hf2 as (-> & Hf2 & _); [|done..].
  destruct (bf_kernel bf3) as [k2|] eqn:Hk2; [destruct (fd_kernel _ _ _ _ Hf2 k2 Hk2) as (name & _ & Hat & _); by apply (Nb name)|].
  apply prog_bind_inv in Hfind as (r & ? & ? & tr4 & Hd & Hfind & ->). apply find_dir_inv in Hd as (-> & _ & Hmod); [|done..].
  destruct r as [d|]; [|done]. destruct Hmod as (name & -> & Hhas & _). pose proof (proj1 Hhas) as (Hd & _)%entries_spec.
  apply prog_bind_inv in Hfind as (bf4 & ? & ? & tr5 & Hf4 & Hfind & ->).
  apply find_in_inv in Hf4 as (-> & Hf4 & _); [|done|by eapply direct_present].
  destruct (bf_kernel bf4) as [k4|] eqn:Hk4; [|done]. destruct (fd_kernel _ _ _ _ Hf4 k4 Hk4) as (n4 & _ & Hat & _).
  by apply (Nm name Hhas n4).
Qed.

(** C20: after the kernels of a root were removed none is found in it: neither below
    /usr/lib/modules nor in the two boot directories; nothing was added to the root. *)
Theorem kernel_remove_complete validate_checksum t tr t' :
  tree_wf t → direct t usrlib_ostreeboot → direct t slash_bootdir → direct t (usrlib_modules +:+ "/.") →
  rpmostree_kernel_remove fs t = (tr, Ok (tt, t')) →
  t' ⊆ t ∧ ∀ tr' k t'', rpmostree_find_kernel fs validate_checksum t' ≠ (tr', Ok (k, t'')).
Proof.
  intros Hwf Ho Hb Hm Hrun. unfold rpmostree_kernel_remove in Hrun.
  apply prog_bind_inv in Hrun as (r & ? & ? & tr1 & Hf & Hrun & ->). apply find_dir_inv in Hf as (-> & Hdir & Hmod); [|done..].
  apply prog_bind_inv in Hrun as (? & t1 & ? & tr2 & H1 & Hrun & ->).
  assert (t1 ⊆ t ∧ tree_wf t1 ∧ ∀ d, r = Some d → ∀ name, ¬ kernel_at false t1 d name) as (S1 & W1 & N1).
  { destruct r as [d|]; [|injection H1 as _ _ <-; done].
    destruct Hmod as (name & -> & [(Hd & _)%entries_spec _] & _).
    apply prog_bind_inv in H1 as (? & t2 & ? & tr3 & Hk & H1 & ->).
    apply kernel_remove_in_spec in Hk as (S2 & W2 & N2); [|done|by eapply direct_present].
    apply prog_bind_inv in H1 as (dir & ? & ? & tr4 & (-> & ->)%readdir_inv & H1 & ->). destruct dir; [|done].
    apply unlink_depmod in H1 as [S3 W3]; [|done]. split_and!; [by etrans|done|].
    intros d [= <-]. by eapply no_kernel_subseteq. }
  apply prog_bind_inv in Hrun as (? & t2 & ? & tr3 & H2 & H3 & ->).
  apply kernel_remove_in_spec in H2 as (S2 & W2 & N2); [|done|by eapply direct_subseteq].
  apply kernel_remove_in_spec in H3 as (S3 & W3 & N3); [|done|eapply direct_subseteq; [|done]; by etrans].
  assert (t' ⊆ t) as Hs by (do 2 (etrans; [done|]); done). split; [done|].
  apply find_kernel_fails; [done|by eapply direct_subseteq..|by eapply (no_kernel_subseteq true t2)|done|].
  intros name [Hin [v Hv]]. assert (has_vmlinuz t usrlib_modules name) as Hhas.
  { split; [by eapply entries_subseteq|]. exists v. by eapply lookup_weaken. }
  destruct r as [d|]; [|by destruct (Hmod name)]. destruct Hmod as (n0 & -> & _ & Hu). rewrite (Hu _ Hhas).
  apply (no_kernel_subseteq false t1); [by transitivity t2|by apply N1].
Qed.

(** * Placing *)

(** What is the only kernel and the only initramfs of a directory is found. *)
Lemma only_one (l : list string) x : NoDup l → (∀ y, y ∈ l ↔ y = x) → l = [x].
Proof.
  intros Hnd Hl. destruct l as [|a l]; [by assert (x ∈ []) as ?%elem_of_nil by by apply Hl|].
  assert (a = x) as -> by (apply Hl; left). destruct l as [|b l]; [done|].
  assert (b = x) as -> by (apply Hl; right; left). apply NoDup_cons in Hnd as [Hn _]. by destruct Hn; left.
Qed.
Lemma omap_NoDup (f : string * fnode → option string) (l : list (string * fnode)) :
  (∀ e x, f e = Some x → x = e.1) → NoDup l.*1 → NoDup (omap f l).
Proof.
  intros Hf. induction l as [|e l IH]; [constructor|]. intros [Hn Hnd]%NoDup_cons. simpl.
  destruct (f e) as [x|] eqn:He; [|auto]. constructor; [|auto].
  intros (e' & Hin & He')%list_elem_of_omap. apply Hn. rewrite <-(Hf _ _ He), (Hf _ _ He'). by apply list_elem_of_fmap_2.
Qed.
Lemma find_in_run (Hnoerr : ∀ op path, fs_error fs op path = None) dir t kn inn : tree_wf t → t !! dir = Some FDir →
  (∀ n, kernel_at true t dir n ↔ n = kn) → (∀ n, initrd_at true t dir n ↔ n = inn) →
  find_in true dir t =
    ([], Ok (MkBootFiles (strip_prefix "vmlinuz-" kn) (Some (dir +:+ "/" +:+ kn)) (Some (dir +:+ "/" +:+ inn)), t)).
Proof.
  intros Hwf Hd Hk Hi. unfold find_kernel_and_initramfs_in_bootdir, readdir, reach, mbind, prog_bind, get_self.
  rewrite (resolve_present fs t Hwf dir FDir Hd), (wf_below_file t Hwf dir FDir Hd), Hnoerr. cbn. rewrite Hd. cbn.
  set (dents := fs_order fs (entries t dir)). assert (dents ≡ₚ entries t dir) as Hp by apply order_perm.
  assert (NoDup dents.*1) as Hnd by (rewrite Hp; apply entries_NoDup).
  assert (kernels true dents = [kn]) as Hkn.
  { apply only_one; [apply omap_NoDup; [|done]|intros y; by rewrite (kernels_at true t dir)].
    intros [n []] x; simpl; try done. case_match; naive_solver. }
  assert (initrds true dents = [inn]) as Hin.
  { apply only_one; [apply omap_NoDup; [|done]|intros y; by rewrite (initrds_at true t dir)].
    intros [n []] x; simpl; try done. case_match; naive_solver. }
  unfold lift. replace (scan_bootdir true dir dents _) with (Ok (boot_files true dir [kn] [inn] (MkBootFiles None None None))); [done|].
  symmetry. apply scan_bootdir_ok. rewrite Hkn, Hin. split; [|done]. unfold one_each. simpl. split_and!; auto.
Qed.

(** Replacing a file of a directory. *)
Lemma wf_insert_file t p node : tree_wf t → t !! p = None → parent_ok t p = true → tree_wf (<[p := node]> t).
Proof. intros Hwf Hn Hp. apply wf_insert; [done|congruence|done]. Qed.
Definition unlinked (path : option string) (t : tree) : tree := match path with Some p => delete p t | None => t end.
Lemma unlinked_links path t : links_sub (unlinked path t) t.
Proof. destruct path; [apply links_sub_delete|by intros ? ? ?]. Qed.
Lemma entry_path_inj (dir a b : string) : dir +:+ "/" +:+ a = dir +:+ "/" +:+ b → a = b.
Proof. by intros ?%str_app_inj_l%str_app_inj_l. Qed.
Lemma lookup_unlinked path t q : path ≠ Some q → unlinked path t !! q = t !! q.
Proof. destruct path; simpl; [|done]. intros Hne. apply lookup_delete_ne. congruence. Qed.
Lemma unlink_found_inv path t tr a t' : tree_wf t → (∀ p, path = Some p → ∃ content, t !! p = Some (FReg content)) →
  unlink_found fs path t = (tr, Ok (a, t')) → t' = unlinked path t ∧ tree_wf t'.
Proof.
  intros Hwf Hp Hrun. destruct path as [p|]; [|by injection Hrun as _ _ <-]. destruct (Hp p eq_refl) as [content Hc].
  simpl in Hrun. apply glnx_unlinkat_inv in Hrun as (node & _ & _ & ->). rewrite (resolve_present fs t Hwf _ _ Hc).
  split; [done|]. by eapply wf_delete_file.
Qed.
(** A file is linked into a directory. *)
Lemma link_into from dir name content t tr a t' : tree_wf t → t !! from = Some (FReg content) →
  t !! dir = None ∨ t !! dir = Some FDir → direct t dir → has_slash name = false →
  linkat fs from (dir +:+ "/" +:+ name) t = (tr, Ok (a, t')) →
  t !! dir = Some FDir ∧ t !! (dir +:+ "/" +:+ name) = None ∧ t' = <[dir +:+ "/" +:+ name := FReg content]> t ∧ tree_wf t'.
Proof.
  intros Hwf Hfrom Hdir Hdd Hs Hrun. apply linkat_inv in Hrun as (node & Hn & _ & Hnone & Hpar & ->).
  assert (direct t (dir +:+ "/" +:+ name)) as Hd.
  { intros d target Hb. destruct (below_parent _ _ Hb) as (x & y & Hxy & He).
    rewrite rsplit_slash_app in Hxy by done. injection Hxy as <- <-. destruct He as [<-|He]; [|by apply Hdd].
    destruct Hdir; congruence. }
  rewrite (resolve_direct fs) in * by done. rewrite (resolve_present fs t Hwf _ _ Hfrom) in Hn.
  assert (node = FReg content) as -> by congruence. pose proof Hpar as Hp. unfold parent_ok in Hp.
  rewrite rsplit_slash_app in Hp by done. apply bool_decide_eq_true in Hp. split_and!; [done..|]. by apply wf_insert_file.
Qed.

Section copy.
Context (kver csum kmp ip dir : string) (Hkver : has_slash kver = false) (Hcsum : has_slash csum = false)
  (Hout : ∀ n, has_slash n = false → kmp ≠ dir +:+ "/" +:+ n ∧ ip ≠ dir +:+ "/" +:+ n).
Definition kernel_name : string := "vmlinuz-" +:+ kver +:+ "-" +:+ csum.
Definition initrd_name : string := "initramfs-" +:+ kver +:+ ".img-" +:+ csum.

Lemma kernel_name_slash : has_slash kernel_name = false.
Proof. unfold kernel_name. by rewrite !has_slash_app, Hkver, Hcsum. Qed.
Lemma initrd_name_slash : has_slash initrd_name = false.
Proof. unfold initrd_name. by rewrite !has_slash_app, Hkver, Hcsum. Qed.
Lemma kernel_name_vmlinuz : is_vmlinuz true kernel_name = true.
Proof. apply starts_with_spec. by eexists. Qed.
Lemma initrd_name_not_vmlinuz : is_vmlinuz true initrd_name = false ∧ is_initramfs initrd_name = true.
Proof.
  split.
  - simpl. destruct (starts_with _ _) eqn:Hs; [|done]. by apply starts_with_spec in Hs as [u Hu].
  - unfold is_initramfs. apply orb_true_iff. right. apply starts_with_spec. by eexists.
Qed.

(** The root after the files of a directory were replaced. *)
Definition replaced_in (bf : BootFiles) (content ic : string) (t : tree) : tree :=
  <[dir +:+ "/" +:+ initrd_name := FReg ic]> (unlinked (bf_initramfs bf)
    (<[dir +:+ "/" +:+ kernel_name := FReg content]> (unlinked (bf_kernel bf) t))).

Lemma copy_inv t tr a t' content ic : tree_wf t → direct t dir → t !! kmp = Some (FReg content) → t !! ip = Some (FReg ic) →
  copy_kernel_into fs kver csum kmp ip false dir t = (tr, Ok (a, t')) →
  ∃ bf, found true t dir bf ∧ t !! dir = Some FDir ∧ t' = replaced_in bf content ic t ∧ tree_wf t'.
Proof.
  intros Hwf Hd Hk Hi Hrun. unfold copy_kernel_into in Hrun. cbv zeta in Hrun.
  apply prog_bind_inv in Hrun as (bf & ? & ? & tr1 & Hb & Hrun & ->). apply find_in_inv in Hb as (-> & Hf & Hdir); [|done..].
  rewrite andb_false_r in Hrun. exists bf.
  assert (∀ p, bf_kernel bf = Some p → ∃ n c, p = dir +:+ "/" +:+ n ∧ has_slash n = false ∧ is_vmlinuz true n = true ∧ t !! p = Some (FReg c)) as Fk.
  { intros p Hp. destruct (fd_kernel _ _ _ _ Hf p Hp) as (n & -> & [Hv [c (Hc & Hs & _)%entries_spec]] & _). eauto 10. }
  assert (∀ p, bf_initramfs bf = Some p → ∃ n c, p = dir +:+ "/" +:+ n ∧ has_slash n = false ∧ is_vmlinuz true n = false ∧ t !! p = Some (FReg c)) as Fi.
  { intros p Hp. destruct (fd_initrd _ _ _ _ Hf p Hp) as (n & -> & (Hv & _ & c & (Hc & Hs & _)%entries_spec) & _). eauto 10. }
  assert (∀ q, (q = kmp ∨ q = ip ∨ q = dir) → bf_kernel bf ≠ Some q ∧ bf_initramfs bf ≠ Some q) as Hne.
  { intros q Hq. split; intros Hp; [destruct (Fk q Hp) as (n & c & -> & Hs & _)|destruct (Fi q Hp) as (n & c & -> & Hs & _)];
      destruct (Hout n Hs) as [? ?], Hq as [?|[?|Hq]]; try congruence;
      apply (f_equal String.length) in Hq; rewrite !str_app_length in Hq; simpl in Hq; lia. }
  apply prog_bind_inv in Hrun as (? & t1 & ? & tr2 & H1 & Hrun & ->).
  apply unlink_found_inv in H1 as [-> W1]; [|done|by intros p (n & c & ? & ? & ? & ?)%Fk; eauto].
  apply prog_bind_inv in Hrun as (? & t2 & ? & tr3 & H2 & Hrun & ->).
  apply (link_into kmp dir kernel_name content) in H2 as (D2 & N2 & -> & W2); [|done|..].
  2: { rewrite lookup_unlinked; [done|]. apply Hne. auto. }
  2: { rewrite lookup_unlinked; [done|]. apply Hne. auto. }
  2: { eapply direct_links; [apply unlinked_links|done]. }
  2: { apply kernel_name_slash. }
  apply prog_bind_inv in Hrun as (? & t3 & ? & tr4 & H3 & Hrun & ->).
  apply unlink_found_inv in H3 as [-> W3]; [|done|].
  2: { intros p Hp. destruct (Fi p Hp) as (n & c & -> & Hs & Hv & Hc). exists c. rewrite lookup_insert_ne, lookup_unlinked; [done|..].
       - intros Hp'. destruct (Fk _ Hp') as (n' & c' & ->%entry_path_inj & _ & Hv' & _). congruence.
       - intros He%entry_path_inj. pose proof kernel_name_vmlinuz. congruence. }
  apply (link_into ip dir initrd_name ic) in Hrun as (D4 & N4 & -> & W4); [|done|..].
  - rewrite lookup_unlinked in D2 by (apply Hne; auto). done.
  - rewrite lookup_unlinked, lookup_insert_ne, lookup_unlinked; [done|apply Hne; auto| |apply Hne; auto].
    intros He. destruct (Hout _ kernel_name_slash). congruence.
  - right. rewrite lookup_unlinked by (apply Hne; auto). rewrite lookup_insert_ne; [done|]. intros He.
    apply (f_equal String.length) in He. rewrite !str_app_length in He. simpl in He. lia.
  - eapply direct_links; [|exact Hd]. eapply links_sub_trans; [apply unlinked_links|].
    eapply links_sub_trans; [apply links_sub_insert|apply unlinked_links].
  - apply initrd_name_slash.
Qed.

Section replaced.
Context (bf : BootFiles) (content ic : string) (t : tree) (Hf : found true t dir bf).
Local Abbreviation t' := (replaced_in bf content ic t).

(** What was there and is neither of the new files is not of the old ones. *)
Lemma replaced_old n node : t' !! (dir +:+ "/" +:+ n) = Some node → n ≠ kernel_name → n ≠ initrd_name →
  t !! (dir +:+ "/" +:+ n) = Some node ∧ bf_kernel bf ≠ Some (dir +:+ "/" +:+ n) ∧ bf_initramfs bf ≠ Some (dir +:+ "/" +:+ n).
Proof.
  intros Hn Hk Hi. unfold replaced_in in Hn. rewrite lookup_insert_ne in Hn by (by intros ?%entry_path_inj).
  assert (bf_initramfs bf ≠ Some (dir +:+ "/" +:+ n)) as Hi'.
  { intros Hb. rewrite Hb in Hn. simpl in Hn. by rewrite lookup_delete_eq in Hn. }
  rewrite lookup_unlinked, lookup_insert_ne in Hn by (done || by intros ?%entry_path_inj).
  assert (bf_kernel bf ≠ Some (dir +:+ "/" +:+ n)) as Hk'.
  { intros Hb. rewrite Hb in Hn. simpl in Hn. by rewrite lookup_delete_eq in Hn. }
  by rewrite lookup_unlinked in Hn.
Qed.
Lemma replaced_other q : (∀ n, has_slash n = false → q ≠ dir +:+ "/" +:+ n) → t' !! q = t !! q.
Proof.
  intros Hq. pose proof (Hq _ kernel_name_slash). pose proof (Hq _ initrd_name_slash). unfold replaced_in.
  rewrite lookup_insert_ne, lookup_unlinked, lookup_insert_ne, lookup_unlinked; try done.
  - intros Hb. destruct (fd_kernel _ _ _ _ Hf _ Hb) as (n & -> & [_ [c (_ & Hs & _)%entries_spec]] & _). by apply (Hq n).
  - intros Hb. destruct (fd_initrd _ _ _ _ Hf _ Hb) as (n & -> & (_ & _ & c & (_ & Hs & _)%entries_spec) & _). by apply (Hq n).
Qed.
Lemma replaced_kernel : t' !! (dir +:+ "/" +:+ kernel_name) = Some (FReg content).
Proof.
  destruct initrd_name_not_vmlinuz as [Hv _]. pose proof kernel_name_vmlinuz as Hk. unfold replaced_in.
  rewrite lookup_insert_ne, lookup_unlinked, lookup_insert_eq; [done| |].
  - intros Hb. destruct (fd_initrd _ _ _ _ Hf _ Hb) as (n & <-%entry_path_inj & (Hn & _) & _). congruence.
  - intros He%entry_path_inj. congruence.
Qed.
Lemma replaced_kernel_at n : kernel_at true t' dir n ↔ n = kernel_name.
Proof.
  split.
  - intros [Hv [c (Hc & Hs & Hne)%entries_spec]]. destruct (decide (n = kernel_name)) as [|Hk]; [done|]. exfalso.
    assert (n ≠ initrd_name) as Hi by (intros ->; destruct initrd_name_not_vmlinuz; congruence).
    destruct (replaced_old n _ Hc Hk Hi) as (Ht & Hbk & _).
    assert (kernel_at true t dir n) as Hat by (split; [done|]; exists c; by apply entries_spec).
    destruct (bf_kernel bf) as [k|] eqn:Hb; [|by eapply (fd_no_kernel _ _ _ _ Hf)].
    destruct (fd_kernel _ _ _ _ Hf k Hb) as (n' & -> & _ & _ & Hu). apply Hbk. by rewrite (Hu n Hat).
  - intros ->. split; [apply kernel_name_vmlinuz|]. exists content. apply entries_spec.
    split_and!; [apply replaced_kernel|apply kernel_name_slash|done].
Qed.
Lemma replaced_initrd_at n : initrd_at true t' dir n ↔ n = initrd_name.
Proof.
  destruct initrd_name_not_vmlinuz as [Hv0 Hi0]. split.
  - intros (Hv & Hi & c & (Hc & Hs & Hne)%entries_spec). destruct (decide (n = initrd_name)) as [|Hni]; [done|]. exfalso.
    assert (n ≠ kernel_name) as Hk by (intros ->; pose proof kernel_name_vmlinuz; congruence).
    destruct (replaced_old n _ Hc Hk Hni) as (Ht & _ & Hbi).
    assert (initrd_at true t dir n) as Hat by (split_and!; [done..|]; exists c; by apply entries_spec).
    destruct (bf_initramfs bf) as [k|] eqn:Hb; [|by eapply (fd_no_initrd _ _ _ _ Hf)].
    destruct (fd_initrd _ _ _ _ Hf k Hb) as (n' & -> & _ & Hu). apply Hbi. by rewrite (Hu n Hat).
  - intros ->. split_and!; [done..|]. exists ic. apply entries_spec.
    split_and!; [apply lookup_insert_eq|apply initrd_name_slash|done].
Qed.
Lemma replaced_links : links_sub t' t.
Proof.
  unfold replaced_in. eapply links_sub_trans; [apply links_sub_insert|]. eapply links_sub_trans; [apply unlinked_links|].
  eapply links_sub_trans; [apply links_sub_insert|]. apply unlinked_links.
Qed.
End replaced.
End copy.

(** ** The version *)

Lemma substring_prefix a b : String.substring 0 (String.length a) (a +:+ b) = a.
Proof. induction a as [|c a IH]; [by destruct b|]. rewrite str_app_cons. simpl. by rewrite IH. Qed.
Lemma substring_suffix a b : String.substring (String.length a) (String.length b) (a +:+ b) = b.
Proof.
  induction a as [|c a IH]; [|by rewrite str_app_cons]. pose proof (substring_prefix b "") as H. by rewrite str_app_nil_r in H.
Qed.
Lemma get_app a c b : String.get (String.length a) (a +:+ String c b) = Some c.
Proof. induction a as [|d a IH]; [done|]. by rewrite str_app_cons. Qed.
Lemma strip_boot_checksum_kver (validate : string → bool) kver csum :
  kver ≠ ""%string → String.length csum = 64 → validate csum = true → strip_boot_checksum validate (kver +:+ "-" +:+ csum) = kver.
Proof.
  intros Hk Hl Hv. unfold strip_boot_checksum. rewrite !str_app_length, Hl. simpl String.length.
  assert (0 < String.length kver) by (destruct kver; simpl; [done|lia]).
  replace (String.length kver + (1 + 64) - 65) with (String.length kver) by lia.
  replace (String.length kver + (1 + 64) - 64) with (String.length (kver +:+ "-")) by (rewrite str_app_length; simpl; lia).
  change ("-" +:+ csum) with (String "-" csum). rewrite get_app, bool_decide_true by done.
  change (String "-" csum) with ("-" +:+ csum). rewrite substring_prefix. rewrite <-Hl, str_app_assoc, substring_suffix, Hv.
  rewrite andb_true_r. case_match eqn:H1; [done|]. rewrite andb_true_r in H1. apply Nat.ltb_ge in H1. lia.
Qed.

(** ** Paths *)

Lemma drop_trailing_id a b : has_slash b = false → b ≠ ""%string → drop_trailing_slashes (a +:+ b) = a +:+ b.
Proof.
  intros Hs Hne. induction a as [|c a IH].
  - change ("" +:+ b) with b. induction b as [|c b IH]; [done|]. simpl in Hs. apply orb_false_iff in Hs as [Hc Hs].
    destruct b as [|d b]; [cbn; by rewrite Hc|]. cbn [drop_trailing_slashes] in *. by rewrite IH.
  - rewrite str_app_cons. cbn [drop_trailing_slashes]. rewrite IH. destruct (a +:+ b) eqn:E; [|done].
    destruct a; [|done]. by destruct Hne.
Qed.
Lemma skip_slashes_id b : has_slash b = false → skip_slashes b = b.
Proof. destruct b as [|c b]; [done|]. simpl. intros [-> _]%orb_false_iff. done. Qed.
Lemma build_filename a b x : has_slash b = false → b ≠ ""%string → has_slash x = false → x ≠ ""%string →
  g_build_filename (a +:+ b) x = (a +:+ b) +:+ "/" +:+ x.
Proof.
  intros. unfold g_build_filename. rewrite bool_decide_false by done. by rewrite drop_trailing_id, skip_slashes_id.
Qed.

(** ** The steps *)

Section steps.
Context (md : string).
Local Abbreviation ip := (md +:+ "/" +:+ "initramfs.img").
Local Abbreviation kmp := (md +:+ "/" +:+ "vmlinuz").

Lemma read_for_checksum_inv path t tr r t' : read_for_checksum fs path t = (tr, Ok (r, t')) → t' = t.
Proof.
  intros Hrun. unfold read_for_checksum in Hrun. apply prog_bind_inv in Hrun as (c & t1 & ? & ? & ->%read_file_inv & Hrun & ->).
  destruct c; [|done]. by injection Hrun as _ _ <-.
Qed.
(** A file that is there is removed. *)
Lemma unlink_direct path t tr b t' : tree_wf t → direct t path → unlinkat fs path t = (tr, Ok (b, t')) →
  tree_wf t' ∧ links_sub t' t ∧ t' !! path = None ∧ ∀ q, q ≠ path → t' !! q = t !! q.
Proof.
  intros Hwf Hd Hrun. apply unlinkat_inv in Hrun. rewrite (resolve_direct fs) in Hrun by done.
  destruct Hrun as [(Hn & _ & _ & ->)|(node & Hn & Hnd & _ & _ & ->)].
  { split_and!; [done|by intros ? ? ?|done..]. }
  split_and!; [by eapply wf_delete_file|apply links_sub_delete|apply lookup_delete_eq|].
  intros q Hq. by rewrite lookup_delete_ne.
Qed.
Lemma place_initramfs_inv initramfs t tr r t' : tree_wf t → direct t ip →
  (initramfs = None → ∃ c, t !! ip = Some (FReg c)) →
  place_initramfs fs ip initramfs t = (tr, Ok (r, t')) →
  tree_wf t' ∧ links_sub t' t ∧ (∃ c, t' !! ip = Some (FReg c)) ∧ ∀ q, q ≠ ip → t' !! q = t !! q.
Proof.
  intros Hwf Hd Hnone Hrun. destruct initramfs as [content|]; simpl in Hrun.
  - apply prog_bind_inv in Hrun as (b & t1 & ? & tr2 & Hu & Hrun & ->).
    apply unlink_direct in Hu as (W1 & L1 & N1 & O1); [|done..].
    apply prog_bind_inv in Hrun as (c & t2 & ? & tr3 & Hc & Hrun & ->). apply create_inv in Hc.
    rewrite (resolve_direct fs) in Hc by (by eapply direct_links).
    destruct Hc as [(_ & -> & _)|(_ & Hp & -> & ->)]; [done|]. injection Hrun as _ _ <-.
    split_and!; [by apply wf_insert_file|eapply links_sub_trans; [apply links_sub_insert|done]| |].
    + exists content. apply lookup_insert_eq.
    + intros q Hq. rewrite lookup_insert_ne by done. auto.
  - apply prog_bind_inv in Hrun as (node & ? & ? & ? & (-> & _ & ->)%fstatat_inv & Hrun & ->).
    assert (t' = t) as ->; [|split_and!; [done|by intros ? ? ?|auto|done]].
    destruct (t !! fs_resolve fs t ip); [by apply read_for_checksum_inv in Hrun|by injection Hrun as _ _ <-].
Qed.
Lemma place_kernel_inv bootdir kernel_path content t tr a t' : tree_wf t → direct t kmp → t !! kernel_path = Some (FReg content) →
  place_kernel fs bootdir md kernel_path kmp t = (tr, Ok (a, t')) →
  tree_wf t' ∧ links_sub t' t ∧ t' !! kmp = Some (FReg content) ∧ ∀ q, q ≠ kmp → t' !! q = t !! q.
Proof.
  intros Hwf Hd Hk Hrun. unfold place_kernel in Hrun. case_bool_decide as Heq; simpl in Hrun.
  { injection Hrun as _ _ <-. subst kernel_path. split_and!; [done|by intros ? ? ?|done..]. }
  apply prog_bind_inv in Hrun as (? & ? & ? & tr1 & (_ & _ & ->)%lift_inv & Hrun & ->).
  apply prog_bind_inv in Hrun as (b & t1 & ? & tr2 & Hu & Hrun & ->).
  apply unlink_direct in Hu as (W1 & L1 & N1 & O1); [|done..].
  apply linkat_inv in Hrun as (node & Hn & _ & Hno & Hpar & ->).
  rewrite (resolve_direct fs) in * by (by eapply direct_links).
  assert (t1 !! kernel_path = Some (FReg content)) as Hk1 by (by rewrite O1).
  rewrite (resolve_present fs t1 W1 _ _ Hk1) in Hn. assert (node = FReg content) as -> by congruence.
  split_and!; [by apply wf_insert_file|eapply links_sub_trans; [apply links_sub_insert|done]|apply lookup_insert_eq|].
  intros q Hq. rewrite lookup_insert_ne by done. auto.
Qed.
Lemma verify_hmac_inv t tr a t' : tree_wf t → direct t (md +:+ "/.vmlinuz.hmac") →
  verify_kernel_hmac fs md t = (tr, Ok (a, t')) →
  tree_wf t' ∧ links_sub t' t ∧ ∀ q, q ≠ md +:+ "/.vmlinuz.hmac" → t' !! q = t !! q.
Proof.
  intros Hwf Hd Hrun. unfold verify_kernel_hmac in Hrun.
  apply prog_bind_inv in Hrun as (c & t1 & ? & tr1 & ->%read_file_inv & Hrun & ->).
  assert (t' = t ∨ ∃ new tr2, replace_file fs (md +:+ "/.vmlinuz.hmac") new t = (tr2, Ok (a, t'))) as [->|(new & tr2 & Hr)].
  { destruct c as [c|]; [|injection Hrun as _ _ <-; auto]. destruct (negb (has_slash c)); [injection Hrun as _ _ <-; auto|].
    destruct (split_blanks c) as [[hmac path]|]; [|done]. destruct (file_name path) as [fname|]; [|done].
    destruct (has_slash _); [done|]. eauto. }
  { split_and!; [done|by intros ? ? ?|done]. }
  apply replace_file_inv in Hr as (Hnd & Hp & ->). rewrite (resolve_direct fs) in * by done.
  split_and!; [by apply wf_insert|apply links_sub_insert|]. intros q Hq. by rewrite lookup_insert_ne.
Qed.
End steps.

(** The copy in a boot directory is found, whatever is in the other one. *)
Lemma find_kernel_run (Hnoerr : ∀ op path, fs_error fs op path = None) validate_checksum t kver csum : tree_wf t →
  t !! usrlib_ostreeboot = Some FDir → kver ≠ ""%string → String.length csum = 64 → validate_checksum csum = true →
  (∀ n, kernel_at true t usrlib_ostreeboot n ↔ n = kernel_name kver csum) →
  (∀ n, initrd_at true t usrlib_ostreeboot n ↔ n = initrd_name kver csum) →
  rpmostree_find_kernel fs validate_checksum t =
    ([], Ok (MkKernelState kver usrlib_ostreeboot (usrlib_ostreeboot +:+ "/" +:+ kernel_name kver csum)
               (Some (usrlib_ostreeboot +:+ "/" +:+ initrd_name kver csum)), t)).
Proof.
  intros Hwf Hd Hk Hl Hv Hkn Hin. unfold rpmostree_find_kernel.
  rewrite (bind_run _ _ _ _ _ (find_in_run Hnoerr usrlib_ostreeboot t _ _ Hwf Hd Hkn Hin)).
  assert (strip_prefix "vmlinuz-" (kernel_name kver csum) = Some (kver +:+ "-" +:+ csum)) as Hs.
  { apply strip_prefix_Some. unfold kernel_name. by rewrite !str_app_assoc. }
  rewrite Hs. cbn [bf_kernel]. rewrite (bind_run _ _ t (usrlib_ostreeboot, _) t eq_refl). cbn [bf_kernel bf_ksuffix].
  by rewrite strip_boot_checksum_kver.
Qed.

(** The two boot directories. *)
Section copies.
Context (kver csum content ic : string) (Hks : has_slash kver = false) (Hcs : has_slash csum = false).
Local Abbreviation md := (usrlib_modules +:+ "/" +:+ kver).
Local Abbreviation kmp := (md +:+ "/" +:+ "vmlinuz").
Local Abbreviation ip := (md +:+ "/" +:+ "initramfs.img").

Lemma outside dir n : dir = usrlib_ostreeboot ∨ dir = slash_bootdir → kmp ≠ dir +:+ "/" +:+ n ∧ ip ≠ dir +:+ "/" +:+ n.
Proof. by intros [->| ->]. Qed.

(** What holds of /usr/lib/ostree-boot. *)
Record placed_in (t : tree) : Prop := {
  pl_dir : t !! usrlib_ostreeboot = Some FDir;
  pl_kernel n : kernel_at true t usrlib_ostreeboot n ↔ n = kernel_name kver csum;
  pl_initrd n : initrd_at true t usrlib_ostreeboot n ↔ n = initrd_name kver csum;
  pl_content : t !! (usrlib_ostreeboot +:+ "/" +:+ kernel_name kver csum) = Some (FReg content);
  pl_modules : t !! kmp = Some (FReg content);
  pl_initramfs : t !! ip = Some (FReg ic);
}.
Lemma placed_in_ext t t' : (∀ q, (∀ n, q ≠ slash_bootdir +:+ "/" +:+ n) → t' !! q = t !! q) → placed_in t → placed_in t'.
Proof.
  intros Hq [D K I C M J].
  assert (∀ n node, (n, node) ∈ entries t' usrlib_ostreeboot ↔ (n, node) ∈ entries t usrlib_ostreeboot) as He.
  { intros n node. by rewrite !entries_spec, Hq. }
  split; [by rewrite Hq|..|by rewrite Hq|by rewrite Hq|by rewrite Hq].
  - intros n. rewrite <-K. unfold kernel_at. by setoid_rewrite He.
  - intros n. rewrite <-I. unfold initrd_at. by setoid_rewrite He.
Qed.

Lemma copies_inv dest t tr a t' :
  dest = RPMOSTREE_FINALIZE_KERNEL_USRLIB_OSTREEBOOT ∨ dest = RPMOSTREE_FINALIZE_KERNEL_SLASH_BOOT →
  tree_wf t → direct t usrlib_ostreeboot → direct t slash_bootdir →
  t !! kmp = Some (FReg content) → t !! ip = Some (FReg ic) →
  let only_if_found := bool_decide (dest = RPMOSTREE_FINALIZE_KERNEL_AUTO) in
  let copy := copy_kernel_into fs kver csum kmp ip only_if_found in
  (_ ← when (only_if_found || (2 <=? dest_number dest)%Z) (copy usrlib_ostreeboot);
   when (only_if_found || (3 <=? dest_number dest)%Z) (copy slash_bootdir)) t = (tr, Ok (a, t')) →
  tree_wf t' ∧ placed_in t'.
Proof.
  intros Hdest Hwf Ho Hb Hk Hi only copy Hrun. subst only copy.
  rewrite (bool_decide_false (dest = _)) in Hrun by (by destruct Hdest as [->| ->]).
  apply prog_bind_inv in Hrun as (? & t1 & ? & tr1 & H1 & Hrun & ->).
  replace (2 <=? dest_number dest)%Z with true in H1 by (by destruct Hdest as [->| ->]). simpl in H1.
  apply (copy_inv kver csum kmp ip usrlib_ostreeboot Hks Hcs ltac:(by intros; apply outside; left) _ _ _ _ content ic)
    in H1 as (bf & Hf & Hd & -> & W1); [|done..].
  set (t1 := replaced_in _ _ _ _ _ _ _) in *.
  assert (∀ q, (∀ n, q ≠ usrlib_ostreeboot +:+ "/" +:+ n) → t1 !! q = t !! q) as O1.
  { intros q Hq. by apply replaced_other. }
  assert (placed_in t1) as P1.
  { split; [by rewrite O1|..|by rewrite O1|by rewrite O1].
    - intros n. by apply replaced_kernel_at.
    - intros n. by apply replaced_initrd_at.
    - by apply replaced_kernel. }
  destruct Hdest as [->| ->]; simpl in Hrun; [by injection Hrun as _ _ <-|].
  apply (copy_inv kver csum kmp ip slash_bootdir Hks Hcs ltac:(by intros; apply outside; right) _ _ _ _ content ic)
    in Hrun as (bf2 & Hf2 & _ & -> & W2); [|done|eapply direct_links; [by apply replaced_links|done]|apply P1|apply P1].
  split; [done|]. eapply placed_in_ext; [|exact P1]. intros q Hq. by apply replaced_other.
Qed.
End copies.

(** C19: a kernel that was placed for booting is found again, with its version and contents: after
    [rpmostree_finalize_kernel] with a boot directory as its destination succeeded,
    [rpmostree_find_kernel] finds the copy in /usr/lib/ostree-boot, whatever other kernel was
    there before, and it has the content of the kernel that was given. *)
Theorem finalized_kernel_found (Hnoerr : ∀ op path, fs_error fs op path = None) validate_checksum sha256 t bootdir kver
    kernel_path content initramfs dest tr t' :
  (∀ s, String.length (sha256 s) = 64 ∧ has_slash (sha256 s) = false ∧ validate_checksum (sha256 s) = true) →
  kver ≠ ""%string → has_slash kver = false →
  let md := usrlib_modules +:+ "/" +:+ kver in
  tree_wf t → direct t usrlib_ostreeboot → direct t slash_bootdir → direct t (md +:+ "/.") →
  t !! kernel_path = Some (FReg content) → kernel_path ≠ md +:+ "/initramfs.img" →
  (initramfs = None → ∃ c, t !! (md +:+ "/initramfs.img") = Some (FReg c)) →
  dest = RPMOSTREE_FINALIZE_KERNEL_USRLIB_OSTREEBOOT ∨ dest = RPMOSTREE_FINALIZE_KERNEL_SLASH_BOOT →
  rpmostree_finalize_kernel fs sha256 bootdir kver kernel_path initramfs dest t = (tr, Ok (tt, t')) →
  ∃ csum k, rpmostree_find_kernel fs validate_checksum t' = ([], Ok (k, t')) ∧
    ks_kver k = kver ∧ ks_bootdir k = usrlib_ostreeboot ∧
    ks_kernel k = usrlib_ostreeboot +:+ "/" +:+ kernel_name kver csum ∧
    ks_initramfs k = Some (usrlib_ostreeboot +:+ "/" +:+ initrd_name kver csum) ∧
    t' !! ks_kernel k = Some (FReg content) ∧ t' !! (md +:+ "/vmlinuz") = Some (FReg content).
Proof.
  intros Hsha Hk Hks md Hwf Ho Hb Hm Hkp Hne Hnone Hdest Hrun. unfold rpmostree_finalize_kernel in Hrun. cbv zeta in Hrun.
  assert (g_build_filename usrlib_modules kver = md) as Emd by (by apply (build_filename "usr/lib/" "modules")).
  assert (∀ x, has_slash x = false → x ≠ ""%string → g_build_filename md x = md +:+ "/" +:+ x) as Ex.
  { intros x Hx Hx'. unfold md. rewrite (str_app_assoc usrlib_modules "/" kver). by apply build_filename. }
  assert (∀ x, has_slash x = false → direct t (md +:+ "/" +:+ x)) as Hdx by (intros x Hx; by eapply (direct_sibling t md ".")).
  rewrite Emd, !Ex in Hrun by done.
  apply prog_bind_inv in Hrun as (kc & ? & ? & tr1 & ->%read_for_checksum_inv & Hrun & ->).
  apply prog_bind_inv in Hrun as (icc & t1 & ? & tr2 & H1 & Hrun & ->).
  apply place_initramfs_inv in H1 as (W1 & L1 & [ic I1] & O1); [|done|by apply Hdx|done].
  set (csum := sha256 (kc +:+ icc)) in *. destruct (Hsha (kc +:+ icc)) as (Cl & Cs & Cv). fold csum in Cl, Cs, Cv.
  apply prog_bind_inv in Hrun as (? & t2 & ? & tr3 & H2 & Hrun & ->).
  apply (place_kernel_inv md _ _ content) in H2 as (W2 & L2 & K2 & O2);
    [|done|eapply direct_links; [exact L1|by apply Hdx]|by rewrite O1].
  apply prog_bind_inv in Hrun as (? & t3 & ? & tr4 & H3 & Hrun & ->).
  pose proof (links_sub_trans _ _ _ L2 L1) as L12.
  apply verify_hmac_inv in H3 as (W3 & L3 & O3); [|done|eapply direct_links; [exact L12|by apply (Hdx ".vmlinuz.hmac")]].
  pose proof (links_sub_trans _ _ _ L3 L12) as L13.
  assert (t3 !! (md +:+ "/" +:+ "vmlinuz") = Some (FReg content)) as K3 by (rewrite O3; [done|by intros ?%str_app_inj_l]).
  assert (t3 !! (md +:+ "/" +:+ "initramfs.img") = Some (FReg ic)) as I3.
  { rewrite O3, O2; [done|by intros ?%str_app_inj_l..]. }
  apply copies_inv with (content := content) (ic := ic) in Hrun as [W P];
    [|done|done|done|done|by eapply direct_links|by eapply direct_links|done|done].
  exists csum. eexists. split; [by apply find_kernel_run; try apply P|].
  split_and!; try done; apply P.
Qed.
End kernel.

(** * An instance *)

Definition ex_kernel_root : tree :=
  {["usr" := FDir; "usr/lib" := FDir; "usr/lib/modules" := FDir; "usr/lib/modules/6.8" := FDir;
    "usr/lib/modules/6.8/vmlinuz" := FReg "K"; "usr/lib/ostree-boot" := FDir; "usr/lib/ostree-boot/vmlinuz-5-c" := FReg "old";
    "usr/lib/ostree-boot/initramfs-5.img-c" := FReg "i"; "boot" := FDir; "boot/vmlinuz-5-c" := FReg "old"]}%string.
Definition ex_digest : string := "0123456789abcdef0123456789abcdef0123456789abcdef0123456789abcdef".
Definition ex_validate (s : string) : bool := String.length s =? 64.
Lemma ex_kernel_direct path : direct ex_kernel_root path.
Proof.
  intros d target _ Hd.
  assert (map_Forall (λ _ n, match n with FLink _ => false | _ => true end = true) ex_kernel_root) as H.
  { apply (bool_decide_eq_true_1 _). vm_compute. reflexivity. }
  by specialize (H _ _ Hd).
Qed.
Lemma ex_kernel_wf : tree_wf ex_kernel_root.
Proof. apply tree_wf_decide. vm_compute. reflexivity. Qed.

(** Without an initramfs, neither given nor in the directory of the modules, a boot directory
    cannot be filled. *)
Lemma finalize_without_initramfs :
  (rpmostree_finalize_kernel plain_fs (λ _, ex_digest) "boot" "6.8" "usr/lib/modules/6.8/vmlinuz" None
     RPMOSTREE_FINALIZE_KERNEL_USRLIB_OSTREEBOOT ex_kernel_root).2
  = glnx_throw ("linkat(usr/lib/ostree-boot/initramfs-6.8.img-" +:+ ex_digest +:+ "): No such file or directory").
Proof. vm_compute. reflexivity. Qed.

Definition ex_removed_kernels := rpmostree_kernel_remove plain_fs ex_kernel_root.
Definition ex_without_kernels : tree := (from_ok (tt, ∅) ex_removed_kernels.2).2.
Lemma kernel_remove_complete_witness :
  ex_kernel_root !! "boot/vmlinuz-5-c"%string = Some (FReg "old") ∧
  ex_without_kernels !! "usr/lib/modules/6.8"%string = Some FDir ∧
  ∀ tr k t, rpmostree_find_kernel plain_fs ex_validate ex_without_kernels ≠ (tr, Ok (k, t)).
Proof.
  split_and!; [vm_compute; reflexivity..|].
  exact (proj2 (kernel_remove_complete plain_fs ex_validate ex_kernel_root ex_removed_kernels.1 ex_without_kernels ex_kernel_wf
    (ex_kernel_direct _) (ex_kernel_direct _) (ex_kernel_direct _) ltac:(vm_compute; reflexivity))).
Defined.

Definition ex_finalize :=
  rpmostree_finalize_kernel plain_fs (λ _, ex_digest) "boot" "6.8" "usr/lib/modules/6.8/vmlinuz" (Some "new"%string)
    RPMOSTREE_FINALIZE_KERNEL_SLASH_BOOT ex_kernel_root.
Definition ex_finalized : tree := (from_ok (tt, ∅) ex_finalize.2).2.
Lemma finalized_kernel_found_witness :
  ∃ csum k, rpmostree_find_kernel plain_fs ex_validate ex_finalized = ([], Ok (k, ex_finalized)) ∧
    ks_kver k = "6.8"%string ∧ ks_kernel k = "usr/lib/ostree-boot/" +:+ kernel_name "6.8" csum ∧
    ex_finalized !! ks_kernel k = Some (FReg "K").
Proof.
  destruct (finalized_kernel_found plain_fs (λ _ _, eq_refl) ex_validate (λ _, ex_digest) ex_kernel_root "boot" "6.8"
    "usr/lib/modules/6.8/vmlinuz" "K" (Some "new"%string) RPMOSTREE_FINALIZE_KERNEL_SLASH_BOOT ex_finalize.1 ex_finalized)
    as (csum & k & Hf & Hv & _ & Hk & _ & Hc & _).
  - intros s. split_and!; vm_compute; reflexivity.
  - done.
  - done.
  - apply ex_kernel_wf.
  - apply ex_kernel_direct.
  - apply ex_kernel_direct.
  - apply ex_kernel_direct.
  - vm_compute. reflexivity.
  - done.
  - done.
  - by right.
  - vm_compute. reflexivity.
  - exists csum, k. split_and!; [exact Hf|exact Hv|rewrite Hk; reflexivity|exact Hc].
Defined.
