(* ===== verification/Scripts.v ===== *)
(** RPM scripts: which of them are run and how, and the files that match a trigger, from
    [src/libpriv/rpmostree-scripts.cxx] and [rust/src/scripts.rs]. What a script does to the
    root, macro expansion and the texts of built-in replacements are parameters. *)

From S2P Require Import Prelude Vardict FileTree Deploy.

(** * Packages and headers *)

(** [DnfStateAction]: what is done with a package. *)
Inductive DnfStateAction :=
  | DNF_STATE_ACTION_INSTALL
  | DNF_STATE_ACTION_UPDATE
  | DNF_STATE_ACTION_DOWNGRADE
  | DNF_STATE_ACTION_REMOVE
  | DNF_STATE_ACTION_OBSOLETE
  | DNF_STATE_ACTION_UNKNOWN.

Inductive RpmOstreeScriptKind := RPMOSTREE_SCRIPT_PREIN | RPMOSTREE_SCRIPT_POSTIN | RPMOSTREE_SCRIPT_POSTTRANS.
#[global] Instance RpmOstreeScriptKind_eq_dec : EqDecision RpmOstreeScriptKind.
Proof. solve_decision. Defined.

(** The tags of a script: whether there is an entry for the text or the interpreter, the
    interpreter with its arguments, the flags and the text. *)
Record RpmScript := MkRpmScript {
  rs_is_entry : bool;
  rs_prog : option (list string);
  rs_flags : Z;
  rs_text : option string;
}.
(** The arrays of the file triggers: scripts, interpreters and flags of the scripts, and the
    file names with their flags and the index of their script. *)
Record Triggers := MkTriggers {
  tr_scripts : list (option string);
  tr_progs : list (option string);
  tr_scriptflags : list Z;
  tr_names : list (option string);
  tr_flags : list Z;
  tr_index : list Z;
}.
Record ScriptPkg := MkScriptPkg {
  sp_name : string;
  sp_release : string;
  sp_action : DnfStateAction;
  sp_script : RpmOstreeScriptKind → RpmScript;
  (** descriptions of the triggers we do not support that the header has *)
  sp_unsupported : list string;
  sp_triggers : Triggers;
}.

(** * Tables *)

Definition lua_builtin : string := "<lua>".
Definition RPMSCRIPT_FLAG_EXPAND : Z := Z.shiftl 1 0.
Definition RPMSENSE_TRIGGERIN : Z := Z.shiftl 1 16.

Definition script_desc (kind : RpmOstreeScriptKind) : string :=
  match kind with
  | RPMOSTREE_SCRIPT_PREIN => "%prein"
  | RPMOSTREE_SCRIPT_POSTIN => "%post"
  | RPMOSTREE_SCRIPT_POSTTRANS => "%posttrans"
  end.
Definition unsupported_scripts : list string := ["%triggerprein"; "%triggerin"]%string.

(** The interpreters of the replacements for Lua scripts. *)
Definition lua_replacements : list (string * string) :=
  [("fedora-release-atomichost.post", "/usr/bin/sh"); ("fedora-release-coreos.post", "/usr/bin/sh");
   ("fedora-release-workstation.post", "/usr/bin/sh"); ("fedora-release.post", "/usr/bin/sh");
   ("glibc-all-langpacks.posttrans", "/usr/bin/sh"); ("glibc-common.post", "/usr/bin/sh");
   ("glibc-common.transfiletriggerin", "/usr/bin/sh"); ("glibc-common.transfiletriggerpostun", "/usr/bin/sh");
   ("glibc.post", "/usr/bin/bash"); ("glibc.posttrans", "/usr/bin/true"); ("glibc-gconv-extra.post", "/usr/bin/bash");
   ("crypto-policies.post", "/usr/bin/bash"); ("authselect-libs.prein", "/usr/bin/bash");
   ("rpmostree-lua-override-test.post", "/usr/bin/sh"); ("rpmostree-lua-override-test-expand.post", "/usr/bin/sh")]%string.
(** Scripts that are left out for some releases; no entry has an interpreter of its own. *)
Definition script_replacements : list (string * string) :=
  [("pam.post", ".el7"); ("nvme-cli.post", ".el8_2"); ("nvme-cli.post", ".el8")]%string.

Definition IGNORED_KERNEL_SCRIPTS : list string :=
  ["kernel.posttrans"; "kernel-core.posttrans"; "kernel-modules.posttrans"; "kernel-redhat-core.posttrans";
   "kernel-redhat-modules.posttrans"; "kernel-debug-core.posttrans"; "kernel-debug-modules.posttrans";
   "kernel-redhat-debug-core.posttrans"; "kernel-redhat-debug-modules.posttrans"; "kernel-automotive-core.posttrans";
   "kernel-automotive-modules.posttrans"; "kernel-automotive-debug-core.posttrans";
   "kernel-automotive-debug-modules.posttrans"; "kernel-rt-core.posttrans"; "kernel-rt-modules.posttrans";
   "kernel-rt-debug-core.posttrans"; "kernel-rt-debug-modules.posttrans"; "kernel-16k-core.posttrans";
   "kernel-16k-modules.posttrans"; "kernel-16k-debug-core.posttrans"; "kernel-16k-debug-modules.posttrans";
   "kernel-64k-core.posttrans"; "kernel-64k-modules.posttrans"; "kernel-64k-debug-core.posttrans";
   "kernel-64k-debug-modules.posttrans"; "kernel-uek.posttrans"; "kernel-uek-core.posttrans"; "kernel-lt.posttrans";
   "kernel-lt-core.posttrans"; "kernel-lt-modules.posttrans"; "kernel-ml.posttrans"; "kernel-ml-core.posttrans";
   "kernel-ml-modules.posttrans"].
Definition IGNORED_PKG_SCRIPTS : list string :=
  ["glibc.prein"; "glibc-headers.prein"; "coreutils.prein"; "ca-certificates.prein"; "libgcc.post";
   "filesystem.posttrans"; "setup.post"; "pinentry.prein"; "fedora-release.posttrans"; "vagrant.prein";
   "vagrant-libvirt.prein"; "bash.post"; "gdb.prein"; "systemd.transfiletriggerin"; "man-db.transfiletriggerin";
   "filesystem.transfiletriggerin"; "nfs-utils.post"; "microcode_ctl.post"; "microcode_ctl.posttrans"].

(** [trim_start_matches('%')]. *)
Fixpoint trim_percent (s : string) : string :=
  match s with
  | String c t => if bool_decide (c = "%"%char) then trim_percent t else s
  | EmptyString => EmptyString
  end.
Definition script_is_ignored (pkg script : string) (use_kernel_install : bool) : bool :=
  let pkgscript := pkg +:+ "." +:+ trim_percent script in
  if bool_decide (pkgscript ∈ IGNORED_PKG_SCRIPTS) then true
  else if negb use_kernel_install then bool_decide (pkgscript ∈ IGNORED_KERNEL_SCRIPTS)
  else false.

(** * Running a script *)

Inductive BubblewrapMutability := MutateFreely | RoFiles.
(** What is run in the container. *)
Record ContainerRun := MkContainerRun {
  cr_id : string;
  cr_mutability : BubblewrapMutability;
  cr_interp : string;
  cr_script : string;
  cr_arg : option string;
  cr_statedir : bool;
  cr_stdin : option (list string);
}.

(** A container is started for a script, or for a shell to debug it in. *)
Inductive sevent :=
  | ScriptFs (e : fsevent)
  | Executed (run : ContainerRun)
  | ExecutedShell (id : string).

(** [scriptdesc + 1] *)
Definition tail_string (s : string) : string := match s with String _ s => s | EmptyString => EmptyString end.

(** The comment that leaves a Lua script out is in one of the first ten lines. *)
Fixpoint after_newline (s : string) : option string :=
  match s with
  | EmptyString => None
  | String c s => if bool_decide (c = "010"%char) then Some s else after_newline s
  end.
Fixpoint lua_has_skip_within (max_lines : nat) (buf : string) : bool :=
  match max_lines, buf with
  | 0, _ | _, EmptyString => false
  | S n, _ =>
      if starts_with "-- rpm-ostree-skip" buf then true
      else match after_newline buf with Some buf => lua_has_skip_within n buf | None => false end
  end.
Definition lua_script_has_skip (buf : string) : bool := lua_has_skip_within 10 buf.

(** The interpreter of a replacement. *)
Definition find_lua_replacement (id : string) : option string :=
  snd <$> find (λ '(name, _), bool_decide (name = id)) lua_replacements.
Definition is_suppressed (id release : string) : bool :=
  existsb (λ '(name, release_suffix), bool_decide (name = id) && ends_with release_suffix release) script_replacements.

Definition rpmostree_script_txn_validate (pkg : ScriptPkg) (use_kernel_install : bool) : outcome unit :=
  match find (λ desc, bool_decide (desc ∈ sp_unsupported pkg)
                      && negb (script_is_ignored (sp_name pkg) desc use_kernel_install)) unsupported_scripts with
  | Some desc =>
      glnx_throw ("Package '" +:+ sp_name pkg +:+ "' has (currently) unsupported script of type '" +:+ desc
                  +:+ "'; see https://github.com/coreos/rpm-ostree/issues/749")
  | None => Ok tt
  end.

Definition throw_lua {A} (pkg_name desc : string) : outcome A :=
  glnx_throw ("Package '" +:+ pkg_name +:+ "' has (currently) unsupported " +:+ lua_builtin +:+ " script in '"
              +:+ desc +:+ "'").

Section scripts.
(** The texts of the replacements, [rpmExpand], what a script and a shell do to the root, the
    variable RPMOSTREE_SCRIPT_DEBUG, whether rofiles-fuse is used and whether output goes to
    the journal. *)
Context (fs : FsOps) (replacement_text : string → string) (rpmExpand : string → string)
  (bwrap_run : ContainerRun → tree → result tree) (bwrap_bash : string → tree → result tree)
  (script_debug : option string) (enable_fuse running_in_systemd : bool).
Local Abbreviation M := (prog sevent tree).

(** The directory "run" is made if it is not there. A given standard input is duplicated to a
    descriptor of at least 3, so that only debugging runs a shell. *)
Definition mkdir_run : M unit :=
  on_events ScriptFs (_ ← create fs "mkdirat" "run" FDir; mret tt).
Definition rpmostree_run_script_in_bwrap_container (name : string) (scriptdesc : string) (interp script : string)
    (script_arg : option string) (var_lib_rpm_statedir : bool) (stdin : option (list string)) : M unit :=
  _ ← lift (g_assert (negb (bool_decide (name = ""%string))));
  let pkg_script := name +:+ "." +:+ tail_string scriptdesc in
  let is_glibc_locales := bool_decide (pkg_script ∈ ["glibc-all-langpacks.posttrans"; "glibc-common.post"]%string) in
  let mutability := if is_glibc_locales || negb enable_fuse then MutateFreely else RoFiles in
  let run := MkContainerRun pkg_script mutability interp script script_arg var_lib_rpm_statedir stdin in
  let debugging_script := bool_decide (script_debug = Some pkg_script) in
  _ ← mkdir_run;
  t ← get_self;
  _ ← perform (if debugging_script then ExecutedShell pkg_script else Executed run) (Ok tt);
  match (if debugging_script then bwrap_bash pkg_script t else bwrap_run run t) with
  | Done t' => modify (λ _, t')
  | Failed e =>
      lift (Err (if running_in_systemd
                 then GError G_IO_ERROR_FAILED
                        (err_msg e +:+ "; run `journalctl -t 'rpm-ostree(" +:+ pkg_script +:+ ")'` for more information")
                 else e))
  end.

Definition script_arg (action : DnfStateAction) : outcome string :=
  match action with
  | DNF_STATE_ACTION_INSTALL => Ok "1"%string
  | DNF_STATE_ACTION_UPDATE | DNF_STATE_ACTION_DOWNGRADE => Ok "2"%string
  | _ => Abort
  end.

(** The interpreter, the text and whether macros are expanded; nothing if the script is left
    out. *)
Definition choose_script (kind : RpmOstreeScriptKind) (pkg : ScriptPkg) (script : string) :
    outcome (option (string * string * bool)) :=
  let s := sp_script pkg kind in
  let interp := match rs_prog s with Some (arg0 :: _) => arg0 | _ => "/bin/sh"%string end in
  let id := sp_name pkg +:+ "." +:+ tail_string (script_desc kind) in
  let expand := flag_set (rs_flags s) RPMSCRIPT_FLAG_EXPAND in
  if bool_decide (interp = lua_builtin) then
    if lua_script_has_skip script then Ok None
    else match find_lua_replacement id with
         | None => throw_lua (sp_name pkg) (script_desc kind)
         | Some interp => Ok (Some (interp, replacement_text id, expand || bool_decide (id = "glibc-common.post"%string)))
         end
  else if is_suppressed id (sp_release pkg) then Ok None
  else Ok (Some (interp, script, expand)).

Definition impl_run_rpm_script (kind : RpmOstreeScriptKind) (pkg : ScriptPkg) (script : string) : M unit :=
  chosen ← lift (choose_script kind pkg script);
  match chosen with
  | None => mret tt
  | Some (interp, script, expand) =>
      let script := if expand : bool then rpmExpand script else script in
      arg ← lift (script_arg (sp_action pkg));
      on_error ("Running " +:+ script_desc kind +:+ " for " +:+ sp_name pkg)
        (rpmostree_run_script_in_bwrap_container (sp_name pkg) (script_desc kind) interp script (Some arg) true None)
  end.
(** Whether the script counts as run. *)
Definition run_script (kind : RpmOstreeScriptKind) (pkg : ScriptPkg) (use_kernel_install : bool) : M bool :=
  let s := sp_script pkg kind in
  if negb (rs_is_entry s) then mret false
  else match rs_text s with
       | None => mret false
       | Some script =>
           if script_is_ignored (sp_name pkg) (script_desc kind) use_kernel_install then mret false
           else _ ← impl_run_rpm_script kind pkg script; mret true
       end.
Definition rpmostree_script_run_sync (kind : RpmOstreeScriptKind) (pkg : ScriptPkg) (use_kernel_install : bool)
    (n_run : nat) : M nat :=
  did_run ← run_script kind pkg use_kernel_install;
  mret (if did_run : bool then S n_run else n_run).

(** * File triggers *)

(** [glnx_opendirat_with_errno] *)
Inductive opened := OpenedDir (dents : list (string * fnode)) | OpenedNotDir | OpenedNoEnt.
Definition open_subdir (path : string) : M opened :=
  t ← get_self;
  let p := follow_path fs t path in
  match fs_error fs "opendirat" path with
  | Some e => on_events ScriptFs (errno "opendirat" path e)
  | None =>
      if below_file t p then mret OpenedNotDir
      else match t !! p with
           | None => mret OpenedNoEnt
           | Some FDir => mret (OpenedDir (fs_order fs (entries t p)))
           | Some _ => mret OpenedNotDir
           end
  end.
(** The names of the files below a directory. The recursion is as deep as the directories. *)
Fixpoint write_subdir (depth : nat) (path prefix : string) : M (list string) :=
  dir ← open_subdir path;
  match dir with
  | OpenedNotDir => mret [prefix]
  | OpenedNoEnt => mret []
  | OpenedDir dents =>
      match depth with
      | 0 => lift Abort
      | S depth =>
          foldr (λ '(name, node) rest,
                   here ← match node with
                          | FDir => write_subdir depth (path +:+ "/" +:+ name) (prefix +:+ "/" +:+ name)
                          | _ => mret [prefix +:+ "/" +:+ name]
                          end;
                   others ← rest;
                   mret (here ++ others))
            (mret []) dents
      end
  end.
(** The code opens the pattern as it is; trailing slashes make no difference to the kernel for
    a directory. *)
Definition find_and_write_matching_files (pattern : string) : M (list string) :=
  if starts_with "usr/local" pattern || negb (starts_with "usr/" pattern) then mret []
  else
    t ← get_self;
    let pattern := drop_trailing_slashes pattern in
    write_subdir (S (size t)) pattern ("/" +:+ pattern).

(** The patterns of a script: its entries among the names, if they are for installation. *)
Fixpoint trigger_patterns (tr : Triggers) (i : nat) (j n : nat) : outcome (list string) :=
  match n with
  | 0 => Ok []
  | S n =>
      match tr_index tr !! j with
      | None => Abort
      | Some tindex_num =>
          rest ← trigger_patterns tr i (S j) n;
          if negb (bool_decide (tindex_num = Z.of_nat i)) then Ok rest
          else if negb (flag_set (default 0%Z (tr_flags tr !! j)) RPMSENSE_TRIGGERIN) then Ok rest
          else match tr_names tr !! j with
               | Some (Some pattern) =>
                   let pattern := skip_slashes pattern in
                   Ok (if bool_decide (pattern = ""%string) then rest else pattern :: rest)
               | _ => Ok rest
               end
      end
  end.
(** The interpreter and the text; a replacement is not expanded. *)
Definition choose_trigger (pkg_name script : string) (interp : option string) (expand : bool) :
    outcome (string * string) :=
  let interp := default "/bin/sh"%string interp in
  let id := pkg_name +:+ ".transfiletriggerin" in
  if bool_decide (interp = lua_builtin) then
    match find_lua_replacement id with
    | Some interp => Ok (interp, replacement_text id)
    | None => throw_lua pkg_name "%transfiletriggerin"
    end
  else Ok (interp, if expand then rpmExpand script else script).

Fixpoint matching_files (patterns : list string) : M (list string) :=
  match patterns with
  | [] => mret []
  | pattern :: patterns =>
      here ← on_error "Finding matches" (on_error ("pattern '" +:+ pattern +:+ "'") (find_and_write_matching_files pattern));
      others ← matching_files patterns;
      mret (here ++ others)
  end.
Definition run_trigger (pkg_name : string) (tr : Triggers) (i : nat) (n_run : nat) : M nat :=
  match tr_scripts tr !! i with
  | None => lift Abort
  | Some None => mret n_run
  | Some (Some script) =>
      let expand := flag_set (default 0%Z (tr_scriptflags tr !! i)) RPMSCRIPT_FLAG_EXPAND in
      match tr_progs tr !! i with
      | None => lift Abort
      | Some interp =>
          '(interp, script) ← lift (choose_trigger pkg_name script interp expand);
          patterns ← lift (trigger_patterns tr i 0 (length (tr_names tr)));
          if bool_decide (patterns = []) then mret n_run
          else
            files ← matching_files patterns;
            if bool_decide (files = []) then mret n_run
            else
              _ ← rpmostree_run_script_in_bwrap_container pkg_name "%transfiletriggerin" interp script None false (Some files);
              mret (S n_run)
      end
  end.
Fixpoint run_triggers (pkg_name : string) (tr : Triggers) (i n : nat) (n_run : nat) : M nat :=
  match n with
  | 0 => mret n_run
  | S n => n_run ← run_trigger pkg_name tr i n_run; run_triggers pkg_name tr (S i) n n_run
  end.
Definition rpmostree_transfiletriggers_run_sync (pkg_name : string) (tr : Triggers) (use_kernel_install : bool)
    (n_run : nat) : M nat :=
  on_error ("Executing %transfiletriggerin for " +:+ pkg_name) (
    if script_is_ignored pkg_name "%transfiletriggerin" use_kernel_install then mret n_run
    else run_triggers pkg_name tr 0 (length (tr_scripts tr)) n_run).
End scripts.
