(* ===== verification/ScriptsSpec.v ===== *)
(** Properties of running RPM scripts: which scripts are run and how, and the files a trigger
    is given. *)

From S2P Require Import Prelude Vardict FileTree FileTreeSpec Deploy Scripts.

Lemma lua_replacement_interp id interp : find_lua_replacement id = Some interp → interp ≠ lua_builtin.
Proof.
  unfold find_lua_replacement. intros Hf ->.
  apply fmap_Some in Hf as ([n i] & Hfind & Hi). simpl in Hi. subst i.
  apply find_some in Hfind as [Hin _]. simpl in Hin. naive_solver.
Qed.

Section scripts.
Context (fs : FsOps) (replacement_text : string → string) (rpmExpand : string → string)
  (bwrap_run : ContainerRun → tree → result tree) (bwrap_bash : string → tree → result tree)
  (script_debug : option string) (enable_fuse running_in_systemd : bool).
Local Abbreviation in_container :=
  (rpmostree_run_script_in_bwrap_container fs bwrap_run bwrap_bash script_debug enable_fuse running_in_systemd).
Local Abbreviation run_sync := (rpmostree_script_run_sync fs replacement_text rpmExpand bwrap_run bwrap_bash
  script_debug enable_fuse running_in_systemd).
Local Abbreviation triggers_sync := (rpmostree_transfiletriggers_run_sync fs replacement_text rpmExpand bwrap_run
  bwrap_bash script_debug enable_fuse running_in_systemd).

(** * What is executed *)

Definition script_id (pkg : ScriptPkg) (kind : RpmOstreeScriptKind) : string :=
  sp_name pkg +:+ "." +:+ tail_string (script_desc kind).
Definition header_interp (s : RpmScript) : string :=
  match rs_prog s with Some (arg0 :: _) => arg0 | _ => "/bin/sh"%string end.

(** A run of a script of a package: Lua never runs; a script of the package is run with its
    own interpreter and text, a Lua script has a replacement. *)
Record script_ok (kind : RpmOstreeScriptKind) (pkg : ScriptPkg) (use_kernel_install : bool) (run : ContainerRun) : Prop := {
  so_id : cr_id run = script_id pkg kind;
  so_interp : cr_interp run ≠ lua_builtin;
  so_ignored : script_is_ignored (sp_name pkg) (script_desc kind) use_kernel_install = false;
  so_arg : cr_arg run = Some "1"%string ∧ sp_action pkg = DNF_STATE_ACTION_INSTALL
           ∨ cr_arg run = Some "2"%string ∧
             (sp_action pkg = DNF_STATE_ACTION_UPDATE ∨ sp_action pkg = DNF_STATE_ACTION_DOWNGRADE);
  so_stdin : cr_stdin run = None;
  so_text : ∃ text, rs_text (sp_script pkg kind) = Some text ∧
    let expanded := flag_set (rs_flags (sp_script pkg kind)) RPMSCRIPT_FLAG_EXPAND in
    (header_interp (sp_script pkg kind) = lua_builtin →
       lua_script_has_skip text = false ∧ find_lua_replacement (script_id pkg kind) = Some (cr_interp run) ∧
       (cr_script run = replacement_text (script_id pkg kind)
        ∨ cr_script run = rpmExpand (replacement_text (script_id pkg kind)))) ∧
    (header_interp (sp_script pkg kind) ≠ lua_builtin →
       is_suppressed (script_id pkg kind) (sp_release pkg) = false ∧
       cr_interp run = header_interp (sp_script pkg kind) ∧
       cr_script run = (if expanded then rpmExpand text else text));
}.
(** A run of a trigger, with the files that match. *)
Record trigger_ok (name : string) (use_kernel_install : bool) (run : ContainerRun) : Prop := {
  to_id : cr_id run = name +:+ ".transfiletriggerin";
  to_interp : cr_interp run ≠ lua_builtin;
  to_ignored : script_is_ignored name "%transfiletriggerin" use_kernel_install = false;
  to_arg : cr_arg run = None;
  to_stdin : ∃ files, cr_stdin run = Some files ∧ files ≠ [];
}.

(** A property of the root that creating "run" and what runs in the container keep. *)
Section keeps_scripts.
Context (I : tree → Prop)
  (Hmkdir : keeps (λ e, ∃ p, e = Created p FDir) I (create fs "mkdirat" "run" FDir))
  (Hrun : ∀ r t t', bwrap_run r t = Done t' → I t → I t')
  (Hbash : ∀ id t t', bwrap_bash id t = Done t' → I t → I t').

Lemma keeps_in_container (P : sevent → Prop) name desc interp script arg statedir stdin :
  (∀ p, P (ScriptFs (Created p FDir))) →
  (∀ r, cr_id r = name +:+ "." +:+ tail_string desc → cr_interp r = interp → cr_script r = script →
        cr_arg r = arg → cr_stdin r = stdin → P (Executed r)) →
  (∀ id, id = name +:+ "." +:+ tail_string desc → script_debug = Some id → P (ExecutedShell id)) →
  keeps P I (in_container name desc interp script arg statedir stdin).
Proof.
  intros Hfs Hex Hsh. unfold rpmostree_run_script_in_bwrap_container.
  apply keeps_bind; [apply keeps_lift|]. intros []. apply keeps_bind.
  { apply triple_on_events. apply keeps_bind; [|intros ?; apply keeps_ret].
    eapply keeps_mono; [exact Hmkdir|]. intros ? [p ->]. apply Hfs. }
  intros []. apply keeps_bind_get. intros t Ht. case_bool_decide as Hd.
  - apply keeps_bind; [apply keeps_perform; intros ? _; by apply Hsh|]. intros [].
    destruct (bwrap_bash _ t) as [t'|e] eqn:Hb; [|apply keeps_lift]. apply keeps_modify. intros _ _. by eapply Hbash.
  - apply keeps_bind; [apply keeps_perform; intros ? _; by apply Hex|]. intros [].
    destruct (bwrap_run _ t) as [t'|e] eqn:Hb; [|apply keeps_lift]. apply keeps_modify. intros _ _. by eapply Hrun.
Qed.

Lemma choose_script_ok kind pkg text interp script expand :
  choose_script replacement_text kind pkg text = Ok (Some (interp, script, expand)) →
  let expanded := flag_set (rs_flags (sp_script pkg kind)) RPMSCRIPT_FLAG_EXPAND in
  interp ≠ lua_builtin ∧
  (header_interp (sp_script pkg kind) = lua_builtin →
     lua_script_has_skip text = false ∧ find_lua_replacement (script_id pkg kind) = Some interp ∧
     script = replacement_text (script_id pkg kind)) ∧
  (header_interp (sp_script pkg kind) ≠ lua_builtin →
     is_suppressed (script_id pkg kind) (sp_release pkg) = false ∧
     interp = header_interp (sp_script pkg kind) ∧ script = text ∧ expand = expanded).
Proof.
  unfold choose_script. fold (header_interp (sp_script pkg kind)) (script_id pkg kind). case_bool_decide as Hl.
  - destruct (lua_script_has_skip text); [done|].
    destruct (find_lua_replacement (script_id pkg kind)) as [i|] eqn:Hf; [|done].
    intros [= <- <- <-]. split; [by eapply lua_replacement_interp|]. naive_solver.
  - destruct (is_suppressed _ _); [done|]. intros [= <- <- <-]. naive_solver.
Qed.

Lemma keeps_run_sync (P : sevent → Prop) kind pkg use_kernel_install n :
  (∀ p, P (ScriptFs (Created p FDir))) →
  (∀ r, script_ok kind pkg use_kernel_install r → P (Executed r)) →
  (script_debug = Some (script_id pkg kind) → P (ExecutedShell (script_id pkg kind))) →
  keeps P I (run_sync kind pkg use_kernel_install n).
Proof.
  intros Hfs Hex Hsh. unfold rpmostree_script_run_sync, run_script.
  apply keeps_bind; [|intros ?; apply keeps_ret].
  apply keeps_if; intros _; [apply keeps_ret|]. destruct (rs_text _) as [text|] eqn:Ht; [|apply keeps_ret].
  apply keeps_if; intros Hig; [apply keeps_ret|]. apply keeps_bind; [|intros ?; apply keeps_ret].
  unfold impl_run_rpm_script. apply keeps_bind_lift. intros [[[interp script] expand]|] Hc; [|apply keeps_ret].
  apply choose_script_ok in Hc as (Hi & Hlua & Hown). apply keeps_bind_lift. intros arg Ha. apply keeps_on_error.
  apply keeps_in_container; [done| |by intros ? -> ?; apply Hsh].
  intros r Hid Hint Hs Harg Hin. apply Hex. split; [done|congruence|done| |done|].
  - unfold script_arg in Ha. destruct (sp_action pkg); naive_solver.
  - exists text. split; [done|]. simpl. split.
    + intros Hl. destruct (Hlua Hl) as (? & ? & ->). rewrite Hint. destruct expand; auto.
    + intros Hl. destruct (Hown Hl) as (? & -> & -> & ->). done.
Qed.

(** Finding files changes nothing. *)
Lemma keeps_write_subdir (P : sevent → Prop) depth path prefix : keeps P I (write_subdir fs depth path prefix).
Proof.
  revert path prefix. induction depth as [|depth IH]; intros path prefix; simpl;
    (apply keeps_bind; [unfold open_subdir, errno; keeps_auto; apply triple_on_events, keeps_lift|]);
    intros [dents| |]; try first [apply keeps_ret|apply keeps_lift].
  induction dents as [|[name node] dents IHd]; simpl; [apply keeps_ret|].
  apply keeps_bind; [destruct node; [apply IH|apply keeps_ret..]|]. intros here.
  apply keeps_bind; [apply IHd|intros ?; apply keeps_ret].
Qed.
Lemma keeps_matching_files (P : sevent → Prop) patterns : keeps P I (matching_files fs patterns).
Proof.
  induction patterns as [|p patterns IH]; simpl; [apply keeps_ret|]. apply keeps_bind.
  - do 2 apply keeps_on_error. unfold find_and_write_matching_files.
    apply keeps_if; intros _; [apply keeps_ret|]. apply keeps_bind_get. intros t _. apply keeps_write_subdir.
  - intros here. apply keeps_bind; [apply IH|intros ?; apply keeps_ret].
Qed.

Lemma keeps_triggers_sync (P : sevent → Prop) name tr use_kernel_install n :
  (∀ p, P (ScriptFs (Created p FDir))) →
  (∀ r, trigger_ok name use_kernel_install r → P (Executed r)) →
  (script_debug = Some (name +:+ ".transfiletriggerin") → P (ExecutedShell (name +:+ ".transfiletriggerin"))) →
  keeps P I (triggers_sync name tr use_kernel_install n).
Proof.
  intros Hfs Hex Hsh. unfold rpmostree_transfiletriggers_run_sync. apply keeps_on_error.
  apply keeps_if; intros Hig; [apply keeps_ret|].
  generalize (length (tr_scripts tr)) as len, 0 as i. intros len. revert n.
  induction len as [|len IH]; intros n i; simpl; [apply keeps_ret|]. apply keeps_bind; [|intros ?; apply IH].
  unfold run_trigger. destruct (tr_scripts tr !! i) as [[script|]|]; [|apply keeps_ret|apply keeps_lift].
  destruct (tr_progs tr !! i) as [interp|]; [|apply keeps_lift].
  apply keeps_bind_lift. intros [interp' script'] Hc. apply keeps_bind; [apply keeps_lift|]. intros patterns.
  apply keeps_if; intros _; [apply keeps_ret|]. apply keeps_bind; [apply keeps_matching_files|]. intros files.
  apply keeps_if; intros Hf; [apply keeps_ret|]. apply keeps_bind; [|intros ?; apply keeps_ret].
  apply keeps_in_container; [done| |by intros ? -> ?; apply Hsh].
  intros r Hid Hint Hs Harg Hin. apply Hex. split; try done.
  - rewrite Hint. unfold choose_trigger in Hc. destruct (bool_decide (_ = lua_builtin)) eqn:Hl;
      [|injection Hc as <- _; by apply bool_decide_eq_false in Hl].
    destruct (find_lua_replacement _) eqn:Hr; [|done]. injection Hc as <- _. by eapply lua_replacement_interp.
  - exists files. split; [done|]. by apply bool_decide_eq_false in Hf.
Qed.
End keeps_scripts.

(** C21: whatever a header says and whatever the outcome, a script that is run for a package is
    neither Lua nor one of those that are left out; it has the interpreter and the text of
    the header, or those of the replacement of a Lua script, and its argument is the number
    of the installed instances of the package, 1 for an installation and 2 for an update. A
    shell is run in its place only if RPMOSTREE_SCRIPT_DEBUG names this very script. *)
Theorem scripts_executed kind pkg use_kernel_install n t :
  Forall (λ e, match e with
               | ScriptFs e => ∃ p, e = Created p FDir
               | Executed run => script_ok kind pkg use_kernel_install run
               | ExecutedShell id => id = script_id pkg kind ∧ script_debug = Some id
               end) (run_sync kind pkg use_kernel_install n t).1.
Proof.
  apply (keeps_effects _ (λ _, True)); [done|]. apply keeps_run_sync; [|done|done|eauto|done|done].
  apply create_effects.
Qed.
End scripts.

(** * The files that match a trigger *)

Section matching.
Context (fs : FsOps) `{!FsLaws fs} (Hnoerr : ∀ op path, fs_error fs op path = None)
  (t : tree) (Hwf : tree_wf t) (Hplain : tree_plain t).

(** The number of paths below a directory bounds the depth. *)
Definition count_below (dir : string) : nat := size (filter (λ '(p, _), below dir p = true) t).
Lemma count_below_entry dir name : t !! (dir +:+ "/" +:+ name) = Some FDir →
  count_below (dir +:+ "/" +:+ name) < count_below dir.
Proof.
  intros Hd. unfold count_below. apply map_subset_size. split.
  - apply map_subseteq_spec. intros p n (Hp & Hb)%map_lookup_filter_Some. apply map_lookup_filter_Some. split; [done|].
    eapply below_trans; [|exact Hb]. apply below_spec. eauto.
  - intros Hsub. rewrite map_subseteq_spec in Hsub.
    assert (filter (λ '(p, _), below (dir +:+ "/" +:+ name) p = true) t !! (dir +:+ "/" +:+ name) = Some FDir) as Hin.
    { apply Hsub, map_lookup_filter_Some. split; [done|]. apply below_spec. eauto. }
    apply map_lookup_filter_Some in Hin as [_ Hb]. by rewrite below_irrefl in Hb.
Qed.

(** What is listed for an entry of a directory. *)
Definition listed (path prefix : string) (e : string * fnode) (f : string) : Prop :=
  match e.2 with
  | FDir => ∃ y n, f = prefix +:+ "/" +:+ e.1 +:+ "/" +:+ y ∧
              t !! (path +:+ "/" +:+ e.1 +:+ "/" +:+ y) = Some n ∧ n ≠ FDir
  | _ => f = prefix +:+ "/" +:+ e.1
  end.
(** The names of two entries are not mixed up. *)
Lemma listed_name path prefix e e' f : has_slash e.1 = false → has_slash e'.1 = false →
  listed path prefix e f → listed path prefix e' f → e.1 = e'.1.
Proof.
  intros Hs Hs' H H'. assert (∀ a : string * fnode, listed path prefix a f →
    ∃ r, f = prefix +:+ "/" +:+ a.1 +:+ r ∧ (r = ""%string ∨ ∃ y, r = "/" +:+ y)) as Hl.
  { intros [n []] Ha; unfold listed in Ha; simpl in *.
    - destruct Ha as (y & _ & -> & _). eauto.
    - exists ""%string. rewrite str_app_nil_r. auto.
    - exists ""%string. rewrite str_app_nil_r. auto. }
  destruct (Hl _ H) as (r & -> & Hr), (Hl _ H') as (r' & Heq & Hr'). clear H H' Hl.
  do 2 apply str_app_inj_l in Heq. destruct e as [a ?], e' as [b ?]. simpl in *. revert b Hs' Heq.
  induction a as [|x a IH]; intros [|y b] Hs' Heq; [done| | |].
  - exfalso. change ("" +:+ r) with r in Heq. rewrite str_app_cons in Heq.
    destruct Hr as [->|[z ->]]; [done|]. injection Heq as <- _. done.
  - exfalso. change ("" +:+ r') with r' in Heq. rewrite str_app_cons in Heq.
    destruct Hr' as [->|[z ->]]; [done|]. injection Heq as -> _. done.
  - rewrite !str_app_cons in Heq. injection Heq as -> Heq. simpl in Hs, Hs'.
    apply orb_false_iff in Hs as [_ Hs], Hs' as [_ Hs']. f_equal. auto.
Qed.

Lemma open_subdir_dir path : t !! path = Some FDir →
  open_subdir fs path t = ([], Ok (OpenedDir (fs_order fs (entries t path)), t)).
Proof.
  intros Hp. unfold open_subdir, mbind, prog_bind, get_self. rewrite (follow_dir fs t Hwf path Hp), Hnoerr.
  by rewrite (wf_below_file t Hwf path FDir Hp), Hp.
Qed.

Lemma write_subdir_spec depth path prefix : t !! path = Some FDir → count_below path < depth →
  ∃ files, write_subdir fs depth path prefix t = ([], Ok (files, t)) ∧ NoDup files ∧
    ∀ f, f ∈ files ↔ ∃ x node, f = prefix +:+ "/" +:+ x ∧ t !! (path +:+ "/" +:+ x) = Some node ∧ node ≠ FDir.
Proof.
  revert path prefix. induction depth as [|depth IH]; intros path prefix Hp Hn; [lia|]. simpl.
  rewrite (bind_run _ _ _ _ _ (open_subdir_dir path Hp)). cbv beta iota.
  assert (∀ l, l ⊆ entries t path → NoDup l.*1 → ∃ files,
    foldr (λ '(name, node) rest,
       here ← match node with
              | FDir => write_subdir fs depth (path +:+ "/" +:+ name) (prefix +:+ "/" +:+ name)
              | _ => mret [prefix +:+ "/" +:+ name]
              end; others ← rest; mret (here ++ others)) (mret []) l t = ([], Ok (files, t)) ∧
    NoDup files ∧ ∀ f, f ∈ files ↔ ∃ e, e ∈ l ∧ listed path prefix e f) as Hloop.
  { intros l. induction l as [|[name node] l IHl]; intros Hsub Hnd; simpl.
    { exists []. split_and!; [done|constructor|]. intros f. split; [by intros ?%elem_of_nil|].
      by intros (e & ?%elem_of_nil & _). }
    apply NoDup_cons in Hnd as [Hnew Hnd].
    destruct (IHl ltac:(set_solver) Hnd) as (others & Hrun & Hno & Ho).
    assert ((name, node) ∈ entries t path) as Hin by (apply Hsub; left).
    pose proof Hin as (Hnode & Hslash & _)%entries_spec.
    assert (∃ here, match node with
              | FDir => write_subdir fs depth (path +:+ "/" +:+ name) (prefix +:+ "/" +:+ name)
              | _ => mret [prefix +:+ "/" +:+ name]
              end t = ([], Ok (here, t)) ∧ NoDup here ∧ ∀ f, f ∈ here ↔ listed path prefix (name, node) f)
      as (here & Hhere & Hnh & Hh).
    { destruct node; [|eexists; split; [done|]; split; [apply NoDup_singleton|by intros f; rewrite list_elem_of_singleton]..].
      destruct (IH (path +:+ "/" +:+ name) (prefix +:+ "/" +:+ name) Hnode) as (fl & ? & ? & Hfl).
      { pose proof (count_below_entry path name Hnode). lia. }
      exists fl. split_and!; [done|done|]. intros f. rewrite Hfl. unfold listed. simpl.
      by setoid_rewrite <-str_app_assoc; setoid_rewrite <-str_app_assoc. }
    exists (here ++ others). split; [|split].
    - by rewrite (bind_run _ _ _ _ _ Hhere), (bind_run _ _ _ _ _ Hrun).
    - apply NoDup_app. split_and!; [done| |done]. intros f Hf1%Hh (e & He & Hf2)%Ho. apply Hnew.
      apply list_elem_of_fmap. exists e. split; [|done]. destruct e as [n' node'].
      assert ((n', node') ∈ entries t path) as (_ & Hs' & _)%entries_spec by (apply Hsub; by right).
      by apply (listed_name path prefix (name, node) (n', node') f).
    - intros f. rewrite elem_of_app, Hh, Ho. setoid_rewrite elem_of_cons. naive_solver. }
  assert (fs_order fs (entries t path) ⊆ entries t path) as Hsub by (intros ? ?; by rewrite <-order_perm).
  destruct (Hloop _ Hsub) as (files & Hrun & Hno & Hf).
  { rewrite order_perm. apply entries_NoDup. }
  exists files. rewrite Hrun. split_and!; [done|done|]. intros f. rewrite Hf. split.
  - intros ([name node] & Hin%Hsub%entries_spec & Hl). destruct Hin as (Hnode & _ & _). unfold listed in Hl.
    destruct node; simpl in Hl; [|exists name; eauto..]. destruct Hl as (y & n & -> & Hy & ?).
    exists (name +:+ "/" +:+ y), n. done.
  - intros (x & node & -> & Hx & Hnd). destruct (below_entry t path x node Hwf Hplain Hx) as (name & n & Hin & Hcase).
    exists (name, n). split; [by rewrite order_perm|]. unfold listed. simpl.
    destruct Hcase as [[-> ->]|[-> [y ->]]]; [by destruct node|]. eauto.
Qed.

(** C22: for a pattern below /usr, but not one that begins with "usr/local", the search for the
    files of a trigger ends, with every file and link at or below the pattern exactly once
    and nothing else, if nothing on the way to the pattern is a link or another file; for all
    other patterns it finds nothing. *)
Theorem trigger_files_exact pattern :
  let p := drop_trailing_slashes pattern in
  if starts_with "usr/" pattern && negb (starts_with "usr/local" pattern) then
    below_file t p = false → direct t (p +:+ "/.") →
    ∃ files, find_and_write_matching_files fs pattern t = ([], Ok (files, t)) ∧ NoDup files ∧
      ∀ f, f ∈ files ↔ ∃ q node, f = "/" +:+ q ∧ (q = p ∨ below p q = true) ∧ t !! q = Some node ∧ node ≠ FDir
  else find_and_write_matching_files fs pattern t = ([], Ok ([], t)).
Proof.
  intros p. unfold find_and_write_matching_files.
  destruct (starts_with "usr/local" pattern) eqn:Hl; [by rewrite andb_false_r|].
  destruct (starts_with "usr/" pattern) eqn:Hu; [|done]. simpl. intros Hbf Hlinks.
  rewrite (bind_run _ _ t t t eq_refl). fold p.
  destruct (t !! p) as [n|] eqn:Hp; [destruct (decide (n = FDir)) as [->|Hn]|].
  - destruct (write_subdir_spec (S (size t)) p ("/" +:+ p) Hp) as (files & Hrun & Hnd & Hf).
    { unfold count_below. apply le_n_S, map_subseteq_size, map_filter_subseteq. }
    exists files. split_and!; [done|done|]. intros f. rewrite Hf. split.
    + intros (x & node & -> & Hx & ?). exists (p +:+ "/" +:+ x), node. split_and!; try done. right.
      apply below_spec. eauto.
    + intros (q & node & -> & [->|[x ->]%below_spec] & Hq & ?); [congruence|]. exists x, node. done.
  - exists ["/" +:+ p]. split_and!; [|apply NoDup_singleton|].
    + simpl. unfold open_subdir, mbind, prog_bind, get_self. rewrite follow_plain, Hnoerr, Hbf, Hp by done.
      by destruct n.
    + intros f. rewrite list_elem_of_singleton. split; [intros ->; eauto 10|].
      intros (q & node & -> & [->|Hb] & Hq & _); [done|]. pose proof (wf_below t Hwf p q node Hq Hb). congruence.
  - exists []. split_and!; [|constructor|].
    + simpl. unfold open_subdir, mbind, prog_bind, get_self. by rewrite follow_plain, Hnoerr, Hbf, Hp by done.
    + intros f. split; [by intros ?%elem_of_nil|].
      intros (q & node & -> & [->|Hb] & Hq & _); [congruence|]. pose proof (wf_below t Hwf p q node Hq Hb). congruence.
Qed.
End matching.

(** * An instance *)

Definition ex_root : tree :=
  {["usr" := FDir; "usr/lib" := FDir; "usr/lib/locale" := FDir; "usr/lib/locale/C" := FDir;
    "usr/lib/locale/C/LC_TIME" := FReg "t"; "usr/lib/locale/default" := FLink "C"; "usr/bin" := FReg ""]}%string.

(** A path below a file is listed although there is nothing at it. *)
Lemma file_below_file_listed :
  find_and_write_matching_files plain_fs "usr/bin/ls" ex_root = ([], Ok (["/usr/bin/ls"%string], ex_root)) ∧
  ex_root !! "usr/bin/ls"%string = None.
Proof. split; vm_compute; reflexivity. Qed.

Lemma trigger_files_exact_witness :
  ∃ files, find_and_write_matching_files plain_fs "usr/lib/locale/" ex_root = ([], Ok (files, ex_root)) ∧
    "/usr/lib/locale/C/LC_TIME"%string ∈ files ∧ "/usr/lib/locale/default"%string ∈ files ∧
    "/usr/lib/locale/C"%string ∉ files.
Proof.
  destruct (trigger_files_exact plain_fs ltac:(done) ex_root
    ltac:(by apply tree_wf_decide; vm_compute) ltac:(by apply tree_plain_decide; vm_compute) "usr/lib/locale/"
    ltac:(vm_compute; reflexivity))
    as (files & Hrun & _ & Hf).
  { intros d target Hb Hd. assert (∀ p node, ex_root !! p = Some node → below p "usr/lib/locale/." = true → node = FDir) as H.
    { apply (bool_decide_eq_true_1 (map_Forall (λ p node, below p "usr/lib/locale/." = true → node = FDir) ex_root)).
      vm_compute. reflexivity. }
    by specialize (H d _ Hd Hb). }
  exists files. split; [exact Hrun|]. rewrite !Hf. split_and!.
  - exists "usr/lib/locale/C/LC_TIME"%string, (FReg "t"). split_and!; [done|right; vm_compute; reflexivity|vm_compute; reflexivity|done].
  - exists "usr/lib/locale/default"%string, (FLink "C"). split_and!; [done|right; vm_compute; reflexivity|vm_compute; reflexivity|done].
  - intros (q & node & Hq & _ & Hn & Hd). apply (str_app_inj_l "/" "usr/lib/locale/C") in Hq. subst q.
    assert (ex_root !! "usr/lib/locale/C"%string = Some FDir) by (vm_compute; reflexivity). congruence.
Defined.
