(* ===== verification/CoreAssemble.v ===== *)
(** Assembling a root from the packages of a prepared context, from
    [rpmostree_context_assemble] and what it calls in [src/libpriv/rpmostree-core.cxx]. The
    contents of commits, librpm's transaction order, the rpmdb and what other programs do to
    the root are parameters; cancellation and progress output are left out. *)

From S2P Require Import Prelude Vardict FileTree Nevra RpmHeaders Deploy SysrootCore Origin Core Importer CoreImport CoreFiles Kernel Scripts.

(** * Effects *)

(** What is asked of librpm. *)
Inductive TsOp :=
  | TsInstall (pkg : Package) (upgrade : bool)
  | TsErase (pkg : Package).

(** Calls of other parts that prepare the root or restore it. *)
Inductive astep :=
  | RootfsPrepareLinks
  | PrepareTempetc
  | UndoTempetc
  | PrepareScripts
  | UndoScripts
  | PrepareRpmLayering
  | CompleteRpmLayering
  | RunSysusers (forced : bool)
  | FixupSelinuxStore
  | SanitycheckTrue
  | DeduplicateTmpfiles
  | RewriteRpmdb
  | SanitycheckRpmdb
  | CliwrapWriteWrappers
  | CliwrapWriteSome (wrappers : list string).

Inductive aevent :=
  | AsmFs (e : fsevent)
  | AsmAsync (e : ievent)
  | AsmScript (e : sevent)
  | HeaderCheckedOut (pkg : Package)
  | ContentPulled (commit : string)
  | PackageCheckedOut (pkg : Package) (commit : string) (mode : OverwriteMode) (skip : option (gset string))
  | LayerCheckedOut (ref : string) (mode : OverwriteMode)
  | Stepped (step : astep)
  | RpmdbWritten (ops : list TsOp).

(** * What is assembled *)

(** The parts of the treefile that are only used here. *)
Record AssembleConfig := MkAssembleConfig {
  af_remove_from_packages : option (list (list string));
  af_ostree_layers : option (list string);
  af_ostree_override_layers : option (list string);
  af_use_kernel_install : bool;
  af_sysusers_is_forced : bool;
  af_rpmdb_backend_is_target : bool;
  af_cliwrap_binaries : option (list string);
}.
Definition get_ostree_layers (t : AssembleConfig) : list string := default [] (af_ostree_layers t).
Definition get_ostree_override_layers (t : AssembleConfig) : list string := default [] (af_ostree_override_layers t).
Definition get_cliwrap_binaries (t : AssembleConfig) : list string := default [] (af_cliwrap_binaries t).
(** An entry without a name is out of bounds. *)
Fixpoint files_remove_loop (package : string) (packages : list (list string)) : outcome (list string) :=
  match packages with
  | [] => Ok []
  | [] :: _ => Abort
  | (name :: files) :: packages =>
      rest ← files_remove_loop package packages;
      Ok (if bool_decide (name = package) then files ++ rest else rest)
  end.
Definition get_files_remove_regex (t : AssembleConfig) (package : string) : outcome (list string) :=
  files_remove_loop package (default [] (af_remove_from_packages t)).

(** The context: what was prepared, and how it was set up. *)
Record AssembleConf := MkAssembleConf {
  ac_cx : ContextConf;
  ac_config : AssembleConfig;
  ac_solution : Solution;
  ac_pkgs_to_relabel : list Package;
  ac_fileoverride_pkgs : gset string;
  ac_allow_empty_transaction : bool;
  ac_pkgcache_is_repo : bool;
  ac_enable_rofiles : bool;
  ac_force_overlay : bool;
  ac_passwd_dir : option (result unit);
  ac_cliwrap : bool;
  ac_getuid : Z;
}.

Record AsmState := MkAsmState {
  as_tree : tree;
  as_async : AsyncState;
  as_kernel_changed : bool;
  as_rootfs_usrlinks : option (gmap string string);
  as_tmprootfs_set : bool;
  as_repo_tmpdir : bool;
}.
Definition set_tree (t : tree) (s : AsmState) : AsmState :=
  MkAsmState t (as_async s) (as_kernel_changed s) (as_rootfs_usrlinks s) (as_tmprootfs_set s) (as_repo_tmpdir s).
Definition set_async (a : AsyncState) (s : AsmState) : AsmState :=
  MkAsmState (as_tree s) a (as_kernel_changed s) (as_rootfs_usrlinks s) (as_tmprootfs_set s) (as_repo_tmpdir s).
Definition set_kernel_changed (s : AsmState) : AsmState :=
  MkAsmState (as_tree s) (as_async s) true (as_rootfs_usrlinks s) (as_tmprootfs_set s) (as_repo_tmpdir s).
Definition set_rootfs_usrlinks (l : gmap string string) (s : AsmState) : AsmState :=
  MkAsmState (as_tree s) (as_async s) (as_kernel_changed s) (Some l) (as_tmprootfs_set s) (as_repo_tmpdir s).
Definition set_tmprootfs (s : AsmState) : AsmState :=
  MkAsmState (as_tree s) (as_async s) (as_kernel_changed s) (as_rootfs_usrlinks s) true true.

(** What the libraries report. *)
Record AssembleOps := MkAssembleOps {
  ao_fs : FsOps;
  ao_imports : ImportOps;
  ao_failpoint : string → result unit;
  ao_mkdtemp : string → result unit;
  ao_checkout_header : Package → result unit;
  ao_metainfo : Package → result (ScriptPkg * list RpmFi);
  ao_filename : Package → string;
  ao_add_element : TsOp → bool;
  ao_rpmdbid : Package → N;
  ao_rpmdb_header : Package → bool;
  (** the elements of a transaction after [rpmtsOrder] *)
  ao_elements : list TsOp → list rpmte;
  ao_rpmdb : list DbHeader;
  ao_rpmdb_triggers : list (string * Triggers);
  ao_colors : N * N;
  ao_nevra_order : gmap string (gmap string N) → list (string * gmap string N);
  ao_path_order : gmap string N → list (string * N);
  ao_regex_new : string → bool;
  ao_regex_match : string → string → bool;
  ao_pull_content : string → result unit;
  ao_checkout : string → option (string → CheckoutFilterResult) → OverwriteMode → tree → result tree;
  ao_resolve_layer : string → result string;
  ao_step : astep → tree → result tree;
  ao_have_passwd : bool;
  (** the users and groups in "etc/passwd" and "etc/group" *)
  ao_passwd : tree → result (gmap string Z * gmap string Z);
  ao_replacement_text : string → string;
  ao_rpmExpand : string → string;
  ao_bwrap_run : ContainerRun → tree → result tree;
  ao_bwrap_bash : string → tree → result tree;
  (** RPMOSTREE_SCRIPT_DEBUG *)
  ao_script_debug : option string;
  ao_running_in_systemd : bool;
  ao_write_rpmdb : list TsOp → tree → result tree;
}.

Definition goal_overlays (sol : Solution) : list Package := sol_install sol.
Definition goal_replace (sol : Solution) : list Package := sol_update sol ++ sol_downgrade sol.
Definition goal_remove (sol : Solution) : list Package := sol_remove sol ++ sol_obsolete sol.
Definition rpmostree_dnf_context_has_empty_transaction (sol : Solution) : bool :=
  bool_decide (goal_overlays sol = []) && bool_decide (goal_remove sol = []) && bool_decide (goal_replace sol = []).
(** [dnf_package_get_action] *)
Definition goal_action (sol : Solution) (pkg : Package) : DnfStateAction :=
  if bool_decide (pkg ∈ sol_install sol) then DNF_STATE_ACTION_INSTALL
  else if bool_decide (pkg ∈ sol_update sol) then DNF_STATE_ACTION_UPDATE
  else if bool_decide (pkg ∈ sol_downgrade sol) then DNF_STATE_ACTION_DOWNGRADE
  else if bool_decide (pkg ∈ sol_remove sol) then DNF_STATE_ACTION_REMOVE
  else if bool_decide (pkg ∈ sol_obsolete sol) then DNF_STATE_ACTION_OBSOLETE
  else DNF_STATE_ACTION_UNKNOWN.

Definition rpmte_is_kernel (te : rpmte) : bool :=
  existsb (λ provname, bool_decide (provname ∈ ["kernel"; "kernel-core"; "kernel-rt"; "kernel-rt-core"]%string))
    (te_provides te).

Definition RPMOSTREE_RPMDB_LOCATION : string := "usr/share/rpm".

Section assemble.
Context (char_signed : bool) (type_mismatch : string) (dnf_package_cmp : Package → Package → Z)
  (ops : AssembleOps) (c : AssembleConf).
Local Abbreviation M := (prog aevent AsmState).
Local Abbreviation fs := (ao_fs ops).
Local Abbreviation cx := (ac_cx c).

Definition on_root {A} (m : prog fsevent tree A) : M A := on_events AsmFs (zoom as_tree set_tree m).
(** A step that changes the root in its own way. *)
Definition transform (e : aevent) (f : tree → result tree) : M unit :=
  s ← get_self;
  t ← performs e (f (as_tree s));
  modify (set_tree t).
Definition step (s : astep) : M unit := transform (Stepped s) (ao_step ops s).

Definition ensure_tmprootfs_dfd : M unit :=
  s ← get_self;
  if as_tmprootfs_set s then mret tt
  else
    _ ← lift (g_assert (negb (as_repo_tmpdir s)));
    _ ← call (ao_mkdtemp ops "tmp/rpmostree-assemble-XXXXXX");
    modify set_tmprootfs.

(** [build_rootfs_usrlinks] *)
Definition build_usrlinks : M unit :=
  s ← get_self;
  _ ← lift (g_assert (negb (nonnull (as_rootfs_usrlinks s))));
  modify (set_rootfs_usrlinks (build_rootfs_usrlinks (as_tree s))).
Definition usrlinks (s : AsmState) : gmap string string := default ∅ (as_rootfs_usrlinks s).

(** ** Experimental state overlays *)

(** "opt" becomes a link and "usr/local" a directory, if it is a link or missing. *)
Definition replace_link (op path : string) (node : fnode) : prog fsevent tree unit :=
  present ← fstatat fs path;
  match present with
  | None | Some (FLink _) =>
      _ ← when (nonnull present) (glnx_unlinkat fs path);
      created ← create fs op path node;
      if created : bool then mret tt else errno op path "File exists"
  | Some _ => mret tt
  end.
Fixpoint mkdirs (paths : list string) : prog fsevent tree unit :=
  match paths with
  | [] => mret tt
  | p :: paths => _ ← create fs "mkdirat" p FDir; mkdirs paths
  end.
(** [symlinkat] where [EEXIST] is accepted. *)
Definition enable_overlay (service : string) : prog fsevent tree unit :=
  _ ← create fs "symlinkat" ("usr/lib/systemd/system/local-fs.target.wants/" +:+ service) (FLink service);
  mret tt.
Definition force_opt_usrlocal_overlay : prog fsevent tree unit :=
  _ ← replace_link "symlinkat" "opt" (FLink "usr/lib/opt");
  _ ← replace_link "mkdirat" "usr/local" FDir;
  _ ← mkdirs ["usr"; "usr/lib"; "usr/lib/systemd"; "usr/lib/systemd/system";
              "usr/lib/systemd/system/local-fs.target.wants"];
  _ ← enable_overlay "ostree-state-overlay@usr-lib-opt.service";
  enable_overlay "ostree-state-overlay@usr-local.service".

(** ** Packages of the transaction *)

Definition metainfo (pkg : Package) : M (ScriptPkg * list RpmFi) :=
  '(sp, fi) ← call (ao_metainfo ops pkg);
  mret (MkScriptPkg (sp_name sp) (sp_release sp) (goal_action (ac_solution c) pkg) (sp_script sp)
          (sp_unsupported sp) (sp_triggers sp), fi).
Definition rpmts_add_install (pkg : Package) (upgrade validate_scripts : bool) : M TsOp :=
  '(hdr, _) ← metainfo pkg;
  _ ← when validate_scripts (lift (rpmostree_script_txn_validate hdr (af_use_kernel_install (ac_config c))));
  if ao_add_element ops (TsInstall pkg upgrade) then mret (TsInstall pkg upgrade)
  else lift (glnx_throw ("Failed to add install element for " +:+ ao_filename ops pkg)).
Definition rpmts_add_erase (pkg : Package) : M TsOp :=
  _ ← lift (g_assert (0 <? ao_rpmdbid ops pkg)%N);
  if negb (ao_rpmdb_header ops pkg)
  then lift (glnx_throw ("Failed to find package '" +:+ pkg_nevra pkg +:+ "' in rpmdb"))
  else if ao_add_element ops (TsErase pkg) then mret (TsErase pkg)
  else lift (glnx_throw ("Failed to add erase element for package '" +:+ pkg_nevra pkg +:+ "'")).

(** A package with its commit in the cache. *)
Definition add_install (pkg : Package) (is_upgrade : bool) : M (TsOp * (Package * string)) :=
  match cx_pkgcache cx with
  | None => lift Abort
  | Some repo =>
      cached_rev ← call (pr_resolve_rev repo (rpmostree_get_cache_branch_pkg char_signed (pkg_base pkg)));
      commit ← call (pr_load_commit repo cached_rev);
      _ ← match cx_sepolicy cx with
          | None => mret tt
          | Some policy =>
              sepolicy_matches ← lift (commit_has_matching_sepolicy type_mismatch commit policy);
              lift (g_assert sepolicy_matches)
          end;
      _ ← performs (HeaderCheckedOut pkg) (ao_checkout_header ops pkg);
      op ← rpmts_add_install pkg is_upgrade true;
      mret (op, (pkg, cached_rev))
  end.

(** [for] with a result for each element. *)
Fixpoint collect {A B} (f : A → M B) (l : list A) : M (list B) :=
  match l with
  | [] => mret []
  | a :: l => b ← f a; bs ← collect f l; mret (b :: bs)
  end.

Definition commit_of (commits : list (Package * string)) (pkg : Package) : outcome string :=
  match find (λ '(p, _), bool_decide (p = pkg)) commits with Some (_, rev) => Ok rev | None => Abort end.

(** ** Checkouts *)

(** A regular expression that does not parse is reported without an error, which the callers
    dereference. *)
Definition checkout_package_into_root (commits : list (Package * string))
    (files_skip : option (gmap string (gset string))) (ovwmode : OverwriteMode) (pkg : Package) : M unit :=
  files_remove_regex ← lift (get_files_remove_regex (ac_config c) (pkg_name pkg));
  _ ← lift (g_assert (forallb (ao_regex_new ops) files_remove_regex));
  pkg_commit ← lift (commit_of commits pkg);
  _ ← when (negb (ac_pkgcache_is_repo c))
        (on_error ("Linking cached content for " +:+ pkg_nevra pkg)
           (performs (ContentPulled pkg_commit) (ao_pull_content ops pkg_commit)));
  let pkg_files_skip := files_skip ≫= λ skip, skip !! pkg_nevra pkg in
  on_error ("Checkout " +:+ pkg_nevra pkg)
    (transform (PackageCheckedOut pkg pkg_commit ovwmode pkg_files_skip)
       (ao_checkout ops pkg_commit (checkout_package_filter (ao_regex_match ops) pkg_files_skip files_remove_regex) ovwmode)).

Definition last_named (name : string) (pkgs : list Package) : option Package :=
  last (filter (λ p, pkg_name p = name) pkgs).

(** The "filesystem" package is checked out first. *)
Definition link_merged_sbin : prog fsevent tree unit :=
  sbin ← fstatat fs "usr/sbin";
  match sbin with
  | Some _ => mret tt
  | None =>
      created ← create fs "symlinkat" "usr/sbin" (FLink "bin");
      if created : bool then mret tt else errno "symlinkat" "usr/sbin" "File exists"
  end.
Definition checkout_filesystem (commits : list (Package * string)) (provides : Package → list string)
    (filesystem_package : option Package) : M unit :=
  match filesystem_package with
  | None => mret tt
  | Some pkg =>
      _ ← checkout_package_into_root commits None OVERWRITE_UNION_IDENTICAL pkg;
      for_each (λ dep, when (bool_decide (dep = "filesystem(merged-sbin)"%string)) (on_root link_merged_sbin)) (provides pkg)
  end.

(** The removed packages. *)
Fixpoint delete_packages (files_skip_delete : gset string) (elements : list rpmte) (dirs_to_remove : list string) :
    M (list string) :=
  match elements with
  | [] => mret dirs_to_remove
  | te :: elements =>
      if te_added te then delete_packages files_skip_delete elements dirs_to_remove
      else
        _ ← when (rpmte_is_kernel te) (
              _ ← modify set_kernel_changed;
              on_root (rpmostree_kernel_remove fs));
        s ← get_self;
        dirs_to_remove ← on_root (delete_package_from_root fs (usrlinks s) files_skip_delete te dirs_to_remove);
        delete_packages files_skip_delete elements dirs_to_remove
  end.

(** The removed packages go, with what they alone have; the tables are those of the files that
    are not added or not deleted. *)
Definition delete_removed (elements : list rpmte) : M SkipTables :=
  s ← get_self;
  tables ← on_root (handle_file_dispositions fs (ao_colors ops).1 (ao_colors ops).2 (usrlinks s) (ao_nevra_order ops)
                      (ao_path_order ops) elements (ao_rpmdb ops));
  dirs_to_remove ← delete_packages (files_skip_delete tables) elements [];
  _ ← on_root (handle_package_deletion_directories fs dirs_to_remove);
  mret tables.

(** The added packages, file overrides after the others. *)
Definition is_fileoverride (pkg : Package) : bool := bool_decide (pkg_nevra pkg ∈ ac_fileoverride_pkgs c).
Definition checkout_added (commits : list (Package * string)) (files_skip_add : gmap string (gset string))
    (filesystem_package setup_package : option Package) (te : rpmte) : M unit :=
  let pkg := te_key te in
  if negb (te_added te) || bool_decide (Some pkg = filesystem_package) then mret tt
  else
    let checkout := checkout_package_into_root commits (Some files_skip_add)
      (if bool_decide (Some pkg = setup_package) then OVERWRITE_ADD_FILES else OVERWRITE_UNION_IDENTICAL) pkg in
    if rpmte_is_kernel te then _ ← modify set_kernel_changed; checkout
    else if is_fileoverride pkg then mret tt
    else checkout.
Definition checkout_fileoverride (commits : list (Package * string)) (te : rpmte) : M unit :=
  if negb (te_added te) || negb (is_fileoverride (te_key te)) then mret tt
  else checkout_package_into_root commits None OVERWRITE_UNION_FILES (te_key te).

Definition process_one_ostree_layer (ovw_mode : OverwriteMode) (ref : string) : M unit :=
  rev ← call (ao_resolve_layer ops ref);
  transform (LayerCheckedOut ref ovw_mode) (ao_checkout ops rev None ovw_mode).
Definition process_ostree_layers : M unit :=
  _ ← for_each (process_one_ostree_layer OVERWRITE_UNION_IDENTICAL) (get_ostree_layers (ac_config c));
  for_each (process_one_ostree_layer OVERWRITE_UNION_FILES) (get_ostree_override_layers (ac_config c)).

(** ** Scripts *)

Definition in_script {A} (m : prog sevent tree A) : M A := on_events AsmScript (zoom as_tree set_tree m).
Definition run_script_sync (kind : RpmOstreeScriptKind) (pkg : Package) : M unit :=
  '(hdr, _) ← metainfo pkg;
  _ ← in_script (rpmostree_script_run_sync fs (ao_replacement_text ops) (ao_rpmExpand ops) (ao_bwrap_run ops)
         (ao_bwrap_bash ops) (ao_script_debug ops) (ac_enable_rofiles c) (ao_running_in_systemd ops) kind hdr (af_use_kernel_install (ac_config c)) 0);
  mret tt.
Definition transfiletriggers (name : string) (tr : Triggers) : M unit :=
  _ ← in_script (rpmostree_transfiletriggers_run_sync fs (ao_replacement_text ops) (ao_rpmExpand ops) (ao_bwrap_run ops)
         (ao_bwrap_bash ops) (ao_script_debug ops) (ac_enable_rofiles c) (ao_running_in_systemd ops) name tr (af_use_kernel_install (ac_config c)) 0);
  mret tt.
Definition added_packages (elements : list rpmte) : list Package := te_key <$> filter (λ te, te_added te = true) elements.
Definition run_all_transfiletriggers (elements : list rpmte) : M unit :=
  rpmdb ← on_root (fstatat fs RPMOSTREE_RPMDB_LOCATION);
  _ ← when (nonnull rpmdb) (for_each (λ '(name, tr), transfiletriggers name tr) (ao_rpmdb_triggers ops));
  for_each (λ pkg, '(hdr, _) ← metainfo pkg; transfiletriggers (sp_name hdr) (sp_triggers hdr)) (added_packages elements).

(** An empty "selinux/config" is there while the %pre scripts run, if there was none. *)
Definition usr_etc_selinux_config : string := "usr/etc/selinux/config".
Definition create_selinux_config : prog fsevent tree bool :=
  dir ← fstatat_follow fs "usr/etc/selinux";
  match dir with
  | None => mret false
  | Some _ =>
      config ← fstatat_follow fs usr_etc_selinux_config;
      match config with
      | Some _ => mret false
      | None => _ ← replace_file fs usr_etc_selinux_config ""; mret true
      end
  end.

(** %post runs after the owners and modes of the package are set. *)
Definition post_package (users groups : gmap string Z) (pkg : Package) : M unit :=
  _ ← on_error ("While applying overrides for pkg " +:+ pkg_name pkg)
        (when (bool_decide (ac_getuid c = 0%Z)) (
           '(_, fi) ← metainfo pkg;
           s ← get_self;
           on_root (apply_rpmfi_overrides fs (usrlinks s) users groups (pkg_name pkg) fi)));
  run_script_sync RPMOSTREE_SCRIPT_POSTIN pkg.

Definition run_scripts (elements : list rpmte) : M unit :=
  _ ← step PrepareScripts;
  with_cleanup (Stepped UndoScripts) (
    _ ← step PrepareRpmLayering;
    _ ← on_error "Running systemd-sysusers" (step (RunSysusers (af_sysusers_is_forced (ac_config c))));
    _ ← step FixupSelinuxStore;
    _ ← call (ao_mkdtemp ops "/tmp/rpmostree-state.XXXXXX");
    _ ← on_root (mkdirs ["var"; "var/lib"; "var/lib/rpm-state"]);
    created_etc_selinux_config ← on_root create_selinux_config;
    _ ← for_each (run_script_sync RPMOSTREE_SCRIPT_PREIN) (added_packages elements);
    _ ← when created_etc_selinux_config (on_root (glnx_unlinkat fs usr_etc_selinux_config));
    s ← get_self;
    '(users, groups) ← call (ao_passwd ops (as_tree s));
    _ ← for_each (post_package users groups) (added_packages elements);
    _ ← for_each (run_script_sync RPMOSTREE_SCRIPT_POSTTRANS) (added_packages elements);
    _ ← run_all_transfiletriggers elements;
    _ ← step SanitycheckTrue;
    _ ← when (ao_have_passwd ops) (step CompleteRpmLayering);
    _ ← step UndoScripts;
    mret (tt, false)).

(** ** The rpmdb and the end *)

Definition write_rpmdb (overlays overrides_replace overrides_remove : list Package) : M unit :=
  _ ← on_root (mkdirs ["usr"; "usr/share"; RPMOSTREE_RPMDB_LOCATION]);
  _ ← on_root (break_hardlinks_at fs RPMOSTREE_RPMDB_LOCATION);
  install ← collect (λ pkg, rpmts_add_install pkg false false) overlays;
  replace ← collect (λ pkg, rpmts_add_install pkg true false) overrides_replace;
  remove ← collect rpmts_add_erase overrides_remove;
  let all := install ++ replace ++ remove in
  _ ← transform (RpmdbWritten all) (ao_write_rpmdb ops all);
  step (if af_rpmdb_backend_is_target (ac_config c) then RewriteRpmdb else SanitycheckRpmdb).

Definition rpmostree_context_assemble_end : M unit :=
  _ ← call (ao_failpoint ops "core::assemble-end");
  _ ← ensure_tmprootfs_dfd;
  if ac_cliwrap c then step CliwrapWriteWrappers
  else
    let wrappers := get_cliwrap_binaries (ac_config c) in
    when (negb (bool_decide (wrappers = []))) (step (CliwrapWriteSome wrappers)).

(** ** The whole *)

(** What comes after the transaction was ordered. The guard of the temporary /etc does nothing
    when it is dropped: only a success undoes the move. *)
Definition assemble_elements (provides : Package → list string) (commits : list (Package * string))
    (overlays overrides_replace overrides_remove : list Package) (elements : list rpmte) : M unit :=
  let filesystem_package := last_named "filesystem" overlays in
  let setup_package := last_named "setup" overlays in
  _ ← checkout_filesystem commits provides filesystem_package;
  tables ← delete_removed elements;
  _ ← for_each (checkout_added commits (files_skip_add tables) filesystem_package setup_package) elements;
  _ ← for_each (checkout_fileoverride commits) elements;
  _ ← on_root (mkdirs ["var"; "var/tmp"]);
  _ ← step RootfsPrepareLinks;
  _ ← step PrepareTempetc;
  _ ← process_ostree_layers;
  _ ← match ac_passwd_dir c with
      | Some r => on_error "Opening deployment passwd dir" (call r)
      | None => mret tt
      end;
  _ ← (if negb (bool_decide (overlays = [])) || negb (bool_decide (overrides_replace = []))
       then run_scripts elements
       else step SanitycheckTrue);
  _ ← step DeduplicateTmpfiles;
  _ ← step UndoTempetc;
  _ ← on_root (rm_rf fs "var/tmp");
  _ ← on_root (rm_rf fs "var/lib/rpm-state");
  _ ← on_error "Writing rpmdb" (write_rpmdb overlays overrides_replace overrides_remove);
  rpmostree_context_assemble_end.

(** The transaction, on a base or for a fresh root. *)
Definition assemble_transaction (provides : Package → list string) (layering_on_base : bool) : M unit :=
  let sol := ac_solution c in
  if rpmostree_dnf_context_has_empty_transaction sol then
    if ac_allow_empty_transaction c then rpmostree_context_assemble_end
    else lift (glnx_throw "No packages in transaction")
  else
    let overlays := sort_pkgs dnf_package_cmp (goal_overlays sol) in
    let overrides_replace := sort_pkgs dnf_package_cmp (goal_replace sol) in
    let overrides_remove := sort_pkgs dnf_package_cmp (goal_remove sol) in
    erases ← collect rpmts_add_erase overrides_remove;
    replaces ← collect (λ pkg, add_install pkg true) overrides_replace;
    installs ← collect (λ pkg, add_install pkg false) overlays;
    let commits := reverse (replaces.*2 ++ installs.*2) in
    let elements := ao_elements ops (erases ++ replaces.*1 ++ installs.*1) in
    _ ← lift (g_assert (layering_on_base
                        || bool_decide (length overrides_remove + length overrides_replace = 0)));
    _ ← lift (g_assert (negb (bool_decide (elements = []))));
    assemble_elements provides commits overlays overrides_replace overrides_remove elements.

Definition rpmostree_context_assemble (provides : Package → list string) : M unit :=
  _ ← ensure_tmprootfs_dfd;
  _ ← call (ao_failpoint ops "core::assemble");
  _ ← build_usrlinks;
  _ ← when (ac_force_overlay c) (on_root force_opt_usrlocal_overlay);
  _ ← on_events AsmAsync (zoom as_async set_async
        (relabel_if_necessary (ao_imports ops) (ac_pkgs_to_relabel c) (cx_sepolicy cx) (cx_pkgcache cx)));
  rpmdb ← on_root (fstatat fs RPMOSTREE_RPMDB_LOCATION);
  assemble_transaction provides (nonnull rpmdb).
End assemble.
