(* ===== verification/CoreAssembleSpec.v ===== *)
(** Properties of the assembly of a root: the order of what is done, what is checked out and
    recorded, and what goes with the removed packages. *)

From S2P Require Import Prelude Vardict FileTree FileTreeSpec ScriptsSpec KernelSpec CoreFilesSpec Nevra RpmHeaders Deploy SysrootCore Origin Core Importer CoreImport CoreFiles Kernel Scripts CoreAssemble CoreSpec CoreImportSpec.

(** * Phases *)

(** The suffix of a script's name says what it is: %pre, %post, %posttrans or a trigger. *)
Definition script_phase (id : string) : nat :=
  if ends_with ".prein" id then 16 else if ends_with ".post" id then 18
  else if ends_with ".posttrans" id then 19 else 20.
Definition step_phase (s : astep) : nat :=
  match s with
  | RootfsPrepareLinks => 7
  | PrepareTempetc => 8
  | PrepareScripts => 11
  | PrepareRpmLayering => 12
  | RunSysusers _ => 13
  | FixupSelinuxStore => 14
  | SanitycheckTrue => 21
  | CompleteRpmLayering => 22
  | UndoScripts => 23
  | DeduplicateTmpfiles => 24
  | UndoTempetc => 25
  | RewriteRpmdb | SanitycheckRpmdb => 29
  | CliwrapWriteWrappers | CliwrapWriteSome _ => 30
  end.

Section phases.
Context (fs : FsOps) (filesystem_package : option Package).

(** A path of the root that the kernel reaches for another one. *)
Definition leads (path p : string) : Prop := ∃ t, p = fs_resolve fs t path.
(** Files are removed in phase 3 and directories in phase 4; apart from that only the links
    that make way for overlays, the file that is there for %pre and the temporary
    directories go. Owners and modes are set when %post runs. *)
Definition fs_allowed (n : nat) (e : fsevent) : Prop :=
  match e with
  | Unlinked p =>
      n = 3 ∨ n = 0 ∧ (leads "opt" p ∨ leads "usr/local" p) ∨ n = 17 ∧ leads usr_etc_selinux_config p
  | DirRemoved _ => n = 4
  | AllRemoved p => n = 3 ∨ n = 26 ∧ (leads "var/tmp" p ∨ leads "var/lib/rpm-state" p)
  | Created _ _ => n ∈ [0; 2; 7; 15; 27]
  | CopiedUp _ => n = 18 ∨ n = 27
  | OwnerSet _ _ _ | CapsSet _ _ | ModeSet _ _ => n = 18
  end.
(** The "filesystem" package comes first, then what is removed goes, the other packages come,
    then those whose files override others, then the layers. *)
Definition allowed (n : nat) (e : aevent) : Prop :=
  match e with
  | AsmFs e => fs_allowed n e
  | AsmAsync _ => n = 0
  | HeaderCheckedOut _ => n = 1
  | ContentPulled _ => n = 2 ∨ n = 5 ∨ n = 6
  | PackageCheckedOut pkg _ mode _ =>
      n = if bool_decide (mode = OVERWRITE_UNION_FILES) then 6
          else if bool_decide (Some pkg = filesystem_package) then 2 else 5
  | LayerCheckedOut _ mode => n = if bool_decide (mode = OVERWRITE_UNION_FILES) then 10 else 9
  | AsmScript (ScriptFs _) => n = 16 ∨ n = 18 ∨ n = 19 ∨ n = 20
  | AsmScript (Executed run) => n = script_phase (cr_id run)
  | AsmScript (ExecutedShell id) => n = script_phase id
  | Stepped s => n = step_phase s
  | RpmdbWritten _ => n = 28
  end.
End phases.

(** ** Calls on the root *)

Section parts.
Context (ops : AssembleOps) (P : fsevent → Prop).
Local Abbreviation fs := (ao_fs ops).
Local Abbreviation plain := (keeps P (λ _ : tree, True)).

Section creates.
Context (Hcreate : ∀ p node, P (Created p node)).
Lemma keeps_create op path node : plain (create fs op path node).
Proof. eapply keeps_mono; [apply create_effects|]. intros ? [p ->]. apply Hcreate. Qed.
#[local] Hint Resolve keeps_create : keeps.
Lemma keeps_mkdirs paths : plain (mkdirs ops paths).
Proof. induction paths; simpl; keeps_auto. Qed.
#[local] Hint Resolve keeps_mkdirs : keeps.
Lemma keeps_link_sbin : plain (link_merged_sbin ops).
Proof. unfold link_merged_sbin, errno. keeps_auto. Qed.
Lemma keeps_selinux_config : plain (create_selinux_config ops).
Proof.
  assert (∀ content, plain (replace_file fs usr_etc_selinux_config content)) by (intros; by apply replace_file_effects).
  unfold create_selinux_config. keeps_auto.
Qed.
Lemma keeps_overlay :
  (∀ t, P (Unlinked (fs_resolve fs t "opt"))) → (∀ t, P (Unlinked (fs_resolve fs t "usr/local"))) →
  plain (force_opt_usrlocal_overlay ops).
Proof.
  intros H1 H2. pose proof (unlinkat_effects fs P "opt" H1). pose proof (unlinkat_effects fs P "usr/local" H2).
  unfold force_opt_usrlocal_overlay, replace_link, enable_overlay, glnx_unlinkat, errno. keeps_auto.
Qed.
End creates.

Section removes.
Context (Hunlink : ∀ p, P (Unlinked p)) (Hremove : ∀ p, P (AllRemoved p)).
Lemma keeps_unlinkat path : plain (unlinkat fs path).
Proof. by apply unlinkat_effects. Qed.
Lemma keeps_rm_rf path : plain (rm_rf fs path).
Proof. by apply rm_rf_effects. Qed.
#[local] Hint Resolve keeps_unlinkat keeps_rm_rf : keeps.
Lemma keeps_dispositions ds tables : plain (handle_dispositions fs ds tables).
Proof. revert tables. induction ds as [|[] ds IH]; intros tables; simpl; keeps_auto; auto. Qed.
Lemma keeps_kernel_remove : plain (rpmostree_kernel_remove fs).
Proof.
  unfold rpmostree_kernel_remove, kernel_remove_in, unlink_found, glnx_unlinkat, errno. keeps_auto.
  apply keeps_for_each. intros name _. keeps_auto.
Qed.
Lemma keeps_delete_package usrlinks skip te dirs : plain (delete_package_from_root fs usrlinks skip te dirs).
Proof.
  unfold delete_package_from_root. apply keeps_bind; [|intros ?; unfold delete_dropin, errno; keeps_auto].
  revert dirs. induction (te_files te) as [|f files IH]; intros dirs; simpl; [keeps_auto|].
  apply keeps_bind; [unfold delete_file; keeps_auto|auto].
Qed.
End removes.
End parts.
Lemma keeps_break_hardlinks fs (P : fsevent → Prop) I dirpath : (∀ p, P (CopiedUp p)) → keeps P I (break_hardlinks_at fs dirpath).
Proof.
  intros HP. unfold break_hardlinks_at, errno. keeps_auto. apply keeps_for_each. intros [name node] _. by apply keeps_touch.
Qed.

(** ** Names of scripts *)

(** What a string ends with is decided by a part of its end that is long enough. *)
Lemma ends_with_tail t s u : String.length t ≤ String.length u → ends_with t (s +:+ u) = ends_with t u.
Proof.
  intros Hlen. apply eq_true_iff_eq. rewrite !ends_with_spec. split.
  - induction s as [|c s IH]; intros [v Hv]; [by exists v|]. rewrite str_app_cons in Hv. destruct v as [|d v].
    + exfalso. change ("" +:+ t) with t in Hv. subst t. simpl in Hlen. rewrite str_app_length in Hlen. lia.
    + rewrite str_app_cons in Hv. injection Hv as -> Hv. apply IH. by exists v.
  - intros [v ->]. exists (s +:+ v). by rewrite str_app_assoc.
Qed.
Definition kind_phase (kind : RpmOstreeScriptKind) : nat :=
  match kind with RPMOSTREE_SCRIPT_PREIN => 16 | RPMOSTREE_SCRIPT_POSTIN => 18 | RPMOSTREE_SCRIPT_POSTTRANS => 19 end.
Lemma script_phase_kind name kind : script_phase (name +:+ "." +:+ tail_string (script_desc kind)) = kind_phase kind.
Proof.
  unfold script_phase. destruct kind; cbn [script_desc tail_string kind_phase].
  - change ("." +:+ "prein") with ".prein"%string. rewrite ends_with_tail by (simpl; lia). vm_compute. reflexivity.
  - change ("." +:+ "post") with ".post"%string. rewrite (ends_with_tail ".post" name ".post") by (simpl; lia).
    replace (ends_with ".prein" (name +:+ ".post")) with false; [vm_compute; reflexivity|].
    symmetry. apply not_true_iff_false. rewrite ends_with_spec. intros [v Hv].
    assert (ends_with "t" (name +:+ ".post") = true) as Ht by (by rewrite ends_with_tail by (simpl; lia)).
    rewrite Hv, ends_with_tail in Ht by (simpl; lia). vm_compute in Ht. discriminate.
  - change ("." +:+ "posttrans") with ".posttrans"%string. rewrite !ends_with_tail by (simpl; lia). vm_compute. reflexivity.
Qed.
Lemma script_phase_trigger name : script_phase (name +:+ ".transfiletriggerin") = 20.
Proof. unfold script_phase. rewrite !ends_with_tail by (simpl; lia). vm_compute. reflexivity. Qed.

(** * The judgements on the assembly *)

Section assemble.
Context (char_signed : bool) (type_mismatch : string) (dnf_package_cmp : Package → Package → Z)
  (ops : AssembleOps) (c : AssembleConf).
Local Abbreviation M := (prog aevent AsmState).
Local Abbreviation fs := (ao_fs ops).
Local Abbreviation assemble := (rpmostree_context_assemble char_signed type_mismatch dnf_package_cmp ops c).

Lemma keeps_on_root {A} (P : aevent → Prop) (m : prog fsevent tree A) :
  keeps (λ e, P (AsmFs e)) (λ _, True) m → keeps P (λ _, True) (on_root m).
Proof. intros Hm. apply triple_on_events. by eapply triple_zoom. Qed.
Lemma keeps_in_script {A} (P : aevent → Prop) (m : prog sevent tree A) :
  keeps (λ e, P (AsmScript e)) (λ _, True) m → keeps P (λ _, True) (in_script m).
Proof. intros Hm. apply triple_on_events. by eapply triple_zoom. Qed.
Lemma keeps_transform (P : aevent → Prop) e f : P e → keeps P (λ _, True) (transform e f).
Proof. intros He. unfold transform. keeps_auto. Qed.

Lemma keeps_metainfo P I pkg : keeps P I (metainfo ops c pkg).
Proof. unfold metainfo. keeps_auto. Qed.
#[local] Hint Resolve keeps_metainfo : keeps.
Lemma keeps_add_install_element P I pkg upgrade validate : keeps P I (rpmts_add_install ops c pkg upgrade validate).
Proof. unfold rpmts_add_install. keeps_auto. Qed.
Lemma keeps_add_erase P I pkg : keeps P I (rpmts_add_erase ops pkg).
Proof. unfold rpmts_add_erase. keeps_auto. Qed.
#[local] Hint Resolve keeps_add_install_element keeps_add_erase : keeps.
Lemma keeps_collect {A B} P I (f : A → M B) l : (∀ a, keeps P I (f a)) → keeps P I (collect f l).
Proof.
  intros Hf. induction l as [|a l IH]; simpl; [apply keeps_ret|]. apply keeps_bind; [apply Hf|]. intros b.
  apply keeps_bind; [done|]. intros bs. apply keeps_ret.
Qed.

(** ** The order *)

Section order.
Context (fsp : option Package).
Local Abbreviation allow := (allowed fs fsp).
Local Abbreviation at_phase n := (keeps (allow n) (λ _, True)).
Local Abbreviation root_phase n := (keeps (fs_allowed fs n) (λ _ : tree, True)).

Lemma created_in n : n ∈ [0; 2; 7; 15; 27] → ∀ p node, fs_allowed fs n (Created p node).
Proof. done. Qed.
Lemma at_root {A} n (m : prog fsevent tree A) : root_phase n m → at_phase n (on_root m).
Proof. intros Hm. by apply (keeps_on_root (allow n)). Qed.
Lemma at_mkdirs n paths : n ∈ [0; 2; 7; 15; 27] → at_phase n (on_root (mkdirs ops paths)).
Proof. intros Hn. by apply at_root, keeps_mkdirs, created_in. Qed.
Lemma at_step n s : step_phase s = n → at_phase n (step ops s).
Proof. intros <-. by apply keeps_transform. Qed.
Lemma at_checkout n commits skip mode pkg : (∀ commit skip, allow n (PackageCheckedOut pkg commit mode skip)) →
  n = 2 ∨ n = 5 ∨ n = 6 → at_phase n (checkout_package_into_root ops c commits skip mode pkg).
Proof. intros Hn ?. unfold checkout_package_into_root. keeps_auto. by apply keeps_transform. Qed.
Lemma at_script kind pkg : at_phase (kind_phase kind) (run_script_sync ops c kind pkg).
Proof.
  unfold run_script_sync. apply keeps_bind; [apply keeps_metainfo|]. intros [hdr fi].
  apply keeps_bind; [|intros ?; apply keeps_ret]. apply keeps_in_script, keeps_run_sync; [|done|done| | |].
  - eapply keeps_mono; [apply create_effects|done].
  - intros p. simpl. destruct kind; simpl; auto.
  - intros r Hr. simpl. rewrite (so_id _ _ _ _ _ _ Hr). symmetry. apply script_phase_kind.
  - intros _. symmetry. apply script_phase_kind.
Qed.
Lemma at_trigger name tr : at_phase 20 (transfiletriggers ops c name tr).
Proof.
  unfold transfiletriggers. apply keeps_bind; [|intros ?; apply keeps_ret].
  apply keeps_in_script, keeps_triggers_sync; [|done|done|simpl; auto| |].
  - eapply keeps_mono; [apply create_effects|done].
  - intros r Hr. simpl. rewrite (to_id _ _ _ Hr). symmetry. apply script_phase_trigger.
  - intros _. symmetry. apply script_phase_trigger.
Qed.

Lemma at_rmdirs dirs : at_phase 4 (on_root (handle_package_deletion_directories fs dirs)).
Proof.
  apply keeps_on_root, keeps_for_each. intros d _. unfold rmdir, errno. keeps_auto.
Qed.
Lemma at_overrides usrlinks users groups name fi : at_phase 18 (on_root (apply_rpmfi_overrides fs usrlinks users groups name fi)).
Proof.
  apply keeps_on_root, keeps_for_each. intros f _. unfold apply_rpmfi_override, errno.
  keeps_auto; apply keeps_touch; simpl; auto.
Qed.
Lemma at_post users groups pkg : at_phase 18 (post_package ops c users groups pkg).
Proof.
  unfold post_package. apply keeps_bind; [|intros _; apply (at_script RPMOSTREE_SCRIPT_POSTIN)].
  keeps_auto. apply at_overrides.
Qed.
Lemma at_delete skip elements dirs : at_phase 3 (delete_packages ops skip elements dirs).
Proof.
  revert dirs. induction elements as [|te elements IH]; intros dirs; simpl; [apply keeps_ret|].
  apply keeps_if; intros _; [done|]. apply keeps_bind.
  { apply keeps_when. intros _. apply keeps_bind; [by apply keeps_modify|]. intros _. apply at_root, keeps_kernel_remove; simpl; auto. }
  intros _. apply keeps_bind_get. intros s _. apply keeps_bind; [apply at_root, keeps_delete_package; simpl; auto|done].
Qed.
Lemma at_added commits skip setup te : at_phase 5 (checkout_added ops c commits skip fsp setup te).
Proof.
  unfold checkout_added. apply keeps_if; intros H; [apply keeps_ret|].
  apply orb_false_iff in H as [_ H]. set (m := checkout_package_into_root _ _ _ _ _ _).
  assert (at_phase 5 m) by (apply at_checkout; [|auto]; simpl; rewrite H; by destruct (bool_decide (_ = setup))).
  keeps_auto; done.
Qed.
Lemma at_fileoverride commits te : at_phase 6 (checkout_fileoverride ops c commits te).
Proof. unfold checkout_fileoverride. apply keeps_if; intros _; [apply keeps_ret|]. apply at_checkout; [done|auto]. Qed.
Lemma at_filesystem commits provides : at_phase 2 (checkout_filesystem ops c commits provides fsp).
Proof.
  assert (∀ p, p = fsp → at_phase 2 (checkout_filesystem ops c commits provides p)) as H; [|by apply H].
  intros [pkg|] Hf; simpl; [|apply keeps_ret].
  apply keeps_bind; [apply at_checkout; [simpl; by rewrite bool_decide_true|auto]|]. intros _.
  apply keeps_for_each. intros dep _. apply keeps_when. intros _. apply at_root, keeps_link_sbin, created_in. set_solver.
Qed.
Lemma at_layer n mode ref : allow n (LayerCheckedOut ref mode) → at_phase n (process_one_ostree_layer ops mode ref).
Proof. intros Hn. unfold process_one_ostree_layer. keeps_auto. by apply keeps_transform. Qed.

(** A part of one phase, alone or in front of others. *)
Lemma phased_end {A} lo n hi (m : M A) : at_phase n m → lo ≤ n → n ≤ hi → phased allow lo hi m.
Proof. intros Hm ? ?. eapply phased_weaken; [by apply phased_keeps|done|done]. Qed.
Lemma phased_at {A B} n lo hi (m : M A) (f : A → M B) :
  at_phase n m → lo ≤ n → n ≤ hi → (∀ a, phased allow n hi (f a)) → phased allow lo hi (m ≫= f).
Proof. intros Hm ? ? Hf. eapply (phased_bind _ _ n); [done|done|by eapply phased_end|done]. Qed.
(** A call without effects does not change the phase. *)
Lemma phased_quiet {A B} lo hi (m : M A) (f : A → M B) :
  at_phase lo m → lo ≤ hi → (∀ a, phased allow lo hi (f a)) → phased allow lo hi (m ≫= f).
Proof. intros. by apply (phased_at lo). Qed.

Lemma phased_delete_removed elements : phased allow 3 4 (delete_removed ops elements).
Proof.
  unfold delete_removed. apply phased_quiet; [apply keeps_get|lia|]. intros s.
  apply phased_quiet; [apply at_root, keeps_dispositions; simpl; auto|lia|]. intros tables.
  apply phased_quiet; [apply at_delete|lia|]. intros dirs.
  apply (phased_at 4); [apply at_rmdirs|lia..|]. intros _. by apply (phased_end _ 4); [apply keeps_ret|..].
Qed.
Lemma phased_run_scripts elements : phased allow 11 23 (run_scripts ops c elements).
Proof.
  unfold run_scripts. apply (phased_at 11); [by apply at_step|lia..|]. intros _.
  apply phased_with_cleanup; [lia|done|].
  apply (phased_at 12); [by apply at_step|lia..|]. intros _.
  apply (phased_at 13); [by apply keeps_on_error, at_step|lia..|]. intros _.
  apply (phased_at 14); [by apply at_step|lia..|]. intros _.
  apply phased_quiet; [apply keeps_call|lia|]. intros _.
  apply (phased_at 15); [apply at_mkdirs; set_solver|lia..|]. intros _.
  apply phased_quiet; [apply at_root, keeps_selinux_config, created_in; set_solver|lia|].
  intros created. apply (phased_at 16); [apply keeps_for_each; intros; apply (at_script RPMOSTREE_SCRIPT_PREIN)|lia..|].
  intros _. apply (phased_at 17); [|lia..|].
  { apply keeps_when. intros _. apply at_root. unfold glnx_unlinkat, errno.
    apply keeps_bind; [apply unlinkat_effects|intros ?; keeps_auto]. simpl. unfold leads. eauto 10. }
  intros _. apply phased_quiet; [apply keeps_get|lia|]. intros s.
  apply phased_quiet; [apply keeps_call|lia|]. intros [users groups].
  apply (phased_at 18); [apply keeps_for_each; intros; apply at_post|lia..|]. intros _.
  apply (phased_at 19); [apply keeps_for_each; intros; apply (at_script RPMOSTREE_SCRIPT_POSTTRANS)|lia..|]. intros _.
  apply (phased_at 20); [|lia..|].
  { unfold run_all_transfiletriggers. apply keeps_bind; [apply at_root, keeps_fstatat|]. intros rpmdb.
    apply keeps_bind; [apply keeps_when; intros _; apply keeps_for_each; intros [] _; apply at_trigger|]. intros _.
    apply keeps_for_each. intros pkg _. apply keeps_bind; [apply keeps_metainfo|]. intros []. apply at_trigger. }
  intros _. apply (phased_at 21); [by apply at_step|lia..|]. intros _.
  apply (phased_at 22); [by apply keeps_when; intros _; apply at_step|lia..|]. intros _.
  apply (phased_at 23); [by apply at_step|lia..|]. intros _. by apply (phased_end _ 23); [apply keeps_ret|..].
Qed.
Lemma at_add_install pkg upgrade : at_phase 1 (add_install char_signed type_mismatch ops c pkg upgrade).
Proof. unfold add_install. keeps_auto. Qed.
Lemma phased_write_rpmdb overlays replace remove : phased allow 27 29 (write_rpmdb ops c overlays replace remove).
Proof.
  unfold write_rpmdb. apply phased_quiet; [apply at_mkdirs; set_solver|lia|]. intros _.
  apply phased_quiet; [apply at_root, keeps_break_hardlinks; simpl; auto|lia|]. intros _.
  do 2 (apply phased_quiet; [apply keeps_collect; intros; apply keeps_add_install_element|lia|intros ?]).
  apply phased_quiet; [apply keeps_collect; intros; apply keeps_add_erase|lia|]. intros remove'.
  apply (phased_at 28); [by apply keeps_transform|lia..|]. intros _.
  apply (phased_end _ 29); [|lia..]. apply at_step. by destruct (af_rpmdb_backend_is_target _).
Qed.
Lemma at_ensure n : at_phase n (ensure_tmprootfs_dfd ops).
Proof. unfold ensure_tmprootfs_dfd. keeps_auto. Qed.
Lemma phased_assemble_end lo : lo ≤ 30 → phased allow lo 30 (rpmostree_context_assemble_end ops c).
Proof.
  intros Hlo. apply (phased_end _ 30); [|done..]. unfold rpmostree_context_assemble_end.
  apply keeps_bind; [apply keeps_call|]. intros _. apply keeps_bind; [apply at_ensure|]. intros _.
  apply keeps_if; intros _; [by apply at_step|]. apply keeps_when. intros _. by apply at_step.
Qed.
Lemma at_rm_rf path : path = "var/tmp"%string ∨ path = "var/lib/rpm-state"%string → at_phase 26 (on_root (rm_rf fs path)).
Proof. intros Hp. apply at_root, rm_rf_effects. intros t. right. split; [done|]. unfold leads. destruct Hp as [-> | ->]; eauto. Qed.

Lemma phased_elements provides commits overlays replace remove elements : fsp = last_named "filesystem" overlays →
  phased allow 2 30 (assemble_elements ops c provides commits overlays replace remove elements).
Proof.
  intros Hfsp. unfold assemble_elements. rewrite <-Hfsp.
  apply (phased_at 2); [apply at_filesystem|lia..|]. intros _.
  apply (phased_bind _ _ 4); [lia..|eapply phased_weaken; [apply phased_delete_removed|lia..]|]. intros tables.
  apply (phased_at 5); [apply keeps_for_each; intros; apply at_added|lia..|]. intros _.
  apply (phased_at 6); [apply keeps_for_each; intros; apply at_fileoverride|lia..|]. intros _.
  apply (phased_at 7); [apply at_mkdirs; set_solver|lia..|]. intros _.
  apply (phased_at 7); [by apply at_step|lia..|]. intros _.
  apply (phased_at 8); [by apply at_step|lia..|]. intros _.
  apply (phased_bind _ _ 10); [lia..| |].
  { apply (phased_at 9); [apply keeps_for_each; intros; by apply at_layer|lia..|]. intros _.
    apply (phased_end _ 10); [apply keeps_for_each; intros; by apply at_layer|lia..]. }
  intros _. apply phased_quiet; [keeps_auto|lia|]. intros _.
  apply (phased_bind _ _ 23); [lia..| |].
  { destruct (negb _ || negb _); [eapply phased_weaken; [apply phased_run_scripts|lia..]|].
    apply (phased_end _ 21); [by apply at_step|lia..]. }
  intros _. apply (phased_at 24); [by apply at_step|lia..|]. intros _.
  apply (phased_at 25); [by apply at_step|lia..|]. intros _.
  do 2 (apply (phased_at 26); [apply at_rm_rf; auto|lia..|intros _]).
  apply (phased_bind _ _ 29); [lia..|eapply phased_weaken; [apply phased_on_error, phased_write_rpmdb|lia..]|].
  intros _. apply phased_assemble_end. lia.
Qed.
End order.

Local Abbreviation filesystem_package :=
  (last_named "filesystem" (sort_pkgs dnf_package_cmp (goal_overlays (ac_solution c)))).


(** ** What is put into the root *)

Inductive placement :=
  | PlacedPackage (pkg : Package) (commit : string) (mode : OverwriteMode) (skip : option (gset string))
  | PlacedLayer (ref : string) (mode : OverwriteMode)
  | PlacedRpmdb (ops : list TsOp).
Definition placed (e : aevent) : option placement :=
  match e with
  | PackageCheckedOut pkg commit mode skip => Some (PlacedPackage pkg commit mode skip)
  | LayerCheckedOut ref mode => Some (PlacedLayer ref mode)
  | RpmdbWritten ops => Some (PlacedRpmdb ops)
  | _ => None
  end.

(** The commit that the package's branch in the cache has. *)
Definition cached_rev (pkg : Package) : string :=
  match cx_pkgcache (ac_cx c) with
  | Some repo =>
      match pr_resolve_rev repo (rpmostree_get_cache_branch_pkg char_signed (pkg_base pkg)) with
      | Done rev => rev
      | Failed _ => ""
      end
  | None => ""
  end.
(** The checkout of an element among the others, and as one that overrides files. *)
Definition normal_checkout (skips : gmap string (gset string)) (fsp setup : option Package) (te : rpmte) : list placement :=
  if negb (te_added te) || bool_decide (Some (te_key te) = fsp) || (negb (rpmte_is_kernel te) && is_fileoverride c (te_key te))
  then []
  else [PlacedPackage (te_key te) (cached_rev (te_key te))
          (if bool_decide (Some (te_key te) = setup) then OVERWRITE_ADD_FILES else OVERWRITE_UNION_IDENTICAL)
          (skips !! pkg_nevra (te_key te))].
Definition override_checkout (te : rpmte) : list placement :=
  if te_added te && is_fileoverride c (te_key te)
  then [PlacedPackage (te_key te) (cached_rev (te_key te)) OVERWRITE_UNION_FILES None] else [].

Local Abbreviation unplaced := (keeps (λ e, placed e = None) (λ _, True)).
Lemma unplaced_root {A} (m : prog fsevent tree A) : unplaced (on_root m).
Proof. apply keeps_on_root. intros s _. split; [by apply Forall_true|done]. Qed.
Lemma unplaced_step s : unplaced (step ops s).
Proof. by apply keeps_transform. Qed.
Lemma unplaced_script {A} (m : prog sevent tree A) : unplaced (in_script m).
Proof. apply keeps_in_script. intros s _. split; [by apply Forall_true|done]. Qed.
#[local] Hint Resolve unplaced_root unplaced_step unplaced_script : keeps.

Lemma emits_transform e f : emits placed (transform e f) (option_list (placed e)).
Proof.
  intros s tr a s' Hrun. unfold transform in Hrun. prog_inv Hrun. unfold modify in Hrun. injection Hrun as <- _ _.
  injection Hm as <- <- <-. apply perform_inv in Hm0 as (_ & -> & _). simpl. by destruct (placed e).
Qed.
Lemma emits_ret {A} (a : A) : emits placed (mret a : M A) [].
Proof. by intros s tr ? s' [= <- _ _]. Qed.
Lemma emits_layers mode refs :
  emits placed (for_each (process_one_ostree_layer ops mode) refs) ((λ ref, PlacedLayer ref mode) <$> refs).
Proof.
  replace ((λ ref, PlacedLayer ref mode) <$> refs) with (refs ≫= λ ref, [PlacedLayer ref mode])
    by (induction refs as [|r refs IH]; simpl; by f_equal).
  apply emits_for_each. intros ref. apply emits_skip; [keeps_auto|intros rev].
  apply (emits_transform (LayerCheckedOut _ _)).
Qed.

(** The value of a call that places nothing. *)
Local Abbreviation gives m R := (triple (λ _, True) m (λ _, True) (λ a _, R a)).
Lemma emits_value {A B} (R : A → Prop) (m : M A) (f : A → M B) l :
  unplaced m → gives m R → (∀ a, R a → emits placed (f a) l) → emits placed (m ≫= f) l.
Proof.
  intros Hm HR Hf s tr b s' (a & s1 & tr1 & tr2 & Em & Ef & ->)%prog_bind_inv. rewrite omap_app.
  pose proof (emits_keeps placed m Hm _ _ _ _ Em) as ->.
  apply (Hf a) in Ef; [done|]. apply (triple_run _ _ _ _ s _ _ _ HR I Em).
Qed.
(** The table of commits. *)
Definition commits_ok (commits : list (Package * string)) : Prop := Forall (λ e, e.2 = cached_rev e.1) commits.
Lemma commit_of_ok commits pkg rev : commits_ok commits → commit_of commits pkg = Ok rev → rev = cached_rev pkg.
Proof.
  unfold commit_of. intros Hok. destruct (find _ commits) as [[p r]|] eqn:Hf; [|done]. intros [= <-].
  apply find_some in Hf as [Hin ->%bool_decide_eq_true]. rewrite <-list_elem_of_In in Hin.
  unfold commits_ok in Hok. rewrite Forall_forall in Hok. by apply (Hok _ Hin).
Qed.

Section checkouts.
Context (commits : list (Package * string)) (Hcommits : commits_ok commits).
Lemma emits_checkout skip mode pkg :
  emits placed (checkout_package_into_root ops c commits skip mode pkg)
    [PlacedPackage pkg (cached_rev pkg) mode (skip ≫= λ skip, skip !! pkg_nevra pkg)].
Proof.
  unfold checkout_package_into_root. do 2 (apply emits_skip; [keeps_auto|intros ?]).
  apply (emits_value (λ rev, rev = cached_rev pkg)); [keeps_auto| |intros ? ->].
  { apply triple_lift. intros rev s Hrev _. by eapply commit_of_ok. }
  apply emits_skip; [keeps_auto|intros ?]. apply emits_on_error, (emits_transform (PackageCheckedOut _ _ _ _)).
Qed.
Lemma emits_filesystem provides fsp :
  emits placed (checkout_filesystem ops c commits provides fsp)
    ((λ pkg, PlacedPackage pkg (cached_rev pkg) OVERWRITE_UNION_IDENTICAL None) <$> option_list fsp).
Proof.
  destruct fsp as [pkg|]; simpl; [|apply emits_ret]. apply (emits_bind _ [_] []); [apply (emits_checkout None)|]. intros _.
  apply emits_keeps, keeps_for_each. intros dep _. apply keeps_when. intros _. apply unplaced_root.
Qed.
Lemma emits_added skip fsp setup te :
  emits placed (checkout_added ops c commits skip fsp setup te) (normal_checkout skip fsp setup te).
Proof.
  unfold checkout_added, normal_checkout. destruct (negb (te_added te) || _); simpl; [apply emits_ret|].
  destruct (rpmte_is_kernel te); simpl.
  - apply emits_skip; [keeps_auto|intros _]. apply (emits_checkout (Some skip)).
  - destruct (is_fileoverride c (te_key te)); [apply emits_ret|apply (emits_checkout (Some skip))].
Qed.
Lemma emits_fileoverride te : emits placed (checkout_fileoverride ops c commits te) (override_checkout te).
Proof.
  unfold checkout_fileoverride, override_checkout.
  destruct (te_added te), (is_fileoverride c (te_key te)); simpl; first [apply emits_ret|apply (emits_checkout None)].
Qed.
End checkouts.
Lemma gives_bind {A B} (R : B → Prop) (m : M A) (f : A → M B) :
  keeps (λ _, True) (λ _, True) m → (∀ a, gives (f a) R) → gives (m ≫= f) R.
Proof. intros Hm Hf. by apply (triple_bind _ _ (λ _ _, True)). Qed.
Lemma gives_collect {A B K} (f : A → M B) (g : B → K) (h : A → K) l :
  (∀ a, gives (f a) (λ b, g b = h a)) → gives (collect f l) (λ bs, g <$> bs = h <$> l).
Proof.
  intros Hf. induction l as [|a l IH]; simpl; [by apply triple_ret|].
  eapply triple_bind; [apply Hf|]. intros b. eapply (triple_bind _ _ (λ bs _, g b = h a ∧ g <$> bs = h <$> l)).
  - intros s Hb. destruct (IH s I) as [? Hok]. split; [done|]. intros bs s' E. split; [done|]. by eapply Hok.
  - intros bs. apply triple_ret. intros s [Hb Hbs].
    by apply (f_equal2 cons).
Qed.
Lemma gives_install pkg upgrade validate : gives (rpmts_add_install ops c pkg upgrade validate) (λ op, op = TsInstall pkg upgrade).
Proof.
  unfold rpmts_add_install. apply gives_bind; [apply keeps_metainfo|]. intros [hdr fi].
  apply gives_bind; [apply keeps_when; intros _; apply keeps_lift|]. intros _.
  apply triple_if; intros _; [by apply triple_ret|by apply triple_lift].
Qed.
Lemma gives_erase pkg : gives (rpmts_add_erase ops pkg) (λ op, op = TsErase pkg).
Proof.
  unfold rpmts_add_erase. apply gives_bind; [apply keeps_lift|]. intros _.
  apply triple_if; intros _; [by apply triple_lift|]. apply triple_if; intros _; [by apply triple_ret|by apply triple_lift].
Qed.
Lemma gives_add_install pkg upgrade :
  gives (add_install char_signed type_mismatch ops c pkg upgrade) (λ r, r = (TsInstall pkg upgrade, (pkg, cached_rev pkg))).
Proof.
  unfold add_install, cached_rev. destruct (cx_pkgcache (ac_cx c)) as [repo|]; [|by apply triple_lift].
  apply triple_bind_lift. intros rev ->%returned_ok. do 3 (apply gives_bind; [keeps_auto|intros ?]).
  eapply (triple_bind _ _ (λ op _, op = _)); [apply gives_install|]. intros op. apply triple_ret. by intros ? ->.
Qed.

Lemma emits_write_rpmdb overlays replace remove :
  emits placed (write_rpmdb ops c overlays replace remove)
    [PlacedRpmdb (((λ p, TsInstall p false) <$> overlays) ++ ((λ p, TsInstall p true) <$> replace) ++ (TsErase <$> remove))].
Proof.
  unfold write_rpmdb. do 2 (apply emits_skip; [apply unplaced_root|intros _]).
  eapply emits_value; [apply keeps_collect; intros; apply keeps_add_install_element| |].
  { apply (gives_collect _ id (λ p, TsInstall p false)). intros a. apply gives_install. }
  intros install Hi. eapply emits_value; [apply keeps_collect; intros; apply keeps_add_install_element| |].
  { apply (gives_collect _ id (λ p, TsInstall p true)). intros a. apply gives_install. }
  intros replaces Hr. eapply emits_value; [apply keeps_collect; intros; apply keeps_add_erase| |].
  { apply (gives_collect _ id TsErase). intros a. apply gives_erase. }
  intros removes He. cbv beta in Hi, Hr, He. rewrite list_fmap_id in Hi, Hr, He. subst.
  apply (emits_bind _ [_] []); [apply (emits_transform (RpmdbWritten _))|]. intros _. apply emits_keeps, unplaced_step.
Qed.

Lemma unplaced_run_script_sync kind pkg : unplaced (run_script_sync ops c kind pkg).
Proof. unfold run_script_sync. keeps_auto. Qed.
Lemma unplaced_triggers name tr : unplaced (transfiletriggers ops c name tr).
Proof. unfold transfiletriggers. keeps_auto. Qed.
#[local] Hint Resolve unplaced_run_script_sync unplaced_triggers : keeps.
Lemma unplaced_run_scripts elements : unplaced (run_scripts ops c elements).
Proof.
  unfold run_scripts, run_all_transfiletriggers, post_package.
  apply keeps_bind; [apply unplaced_step|intros _]. apply keeps_with_cleanup; [done|].
  keeps_auto; apply keeps_for_each; intros; keeps_auto.
Qed.
Lemma unplaced_delete skip elements dirs : unplaced (delete_packages ops skip elements dirs).
Proof.
  revert dirs. induction elements as [|te elements IH]; intros dirs; simpl; [apply keeps_ret|].
  apply keeps_if; intros _; [done|]. keeps_auto.
Qed.
#[local] Hint Resolve unplaced_run_scripts unplaced_delete : keeps.

(** What is put into the root for the elements of the transaction. *)
Definition placements (overlays replace remove : list Package) (elements : list rpmte)
    (skips : gmap string (gset string)) : list placement :=
  let fsp := last_named "filesystem" overlays in
  ((λ pkg, PlacedPackage pkg (cached_rev pkg) OVERWRITE_UNION_IDENTICAL None) <$> option_list fsp)
  ++ (elements ≫= normal_checkout skips fsp (last_named "setup" overlays))
  ++ (elements ≫= override_checkout)
  ++ ((λ ref, PlacedLayer ref OVERWRITE_UNION_IDENTICAL) <$> get_ostree_layers (ac_config c))
  ++ ((λ ref, PlacedLayer ref OVERWRITE_UNION_FILES) <$> get_ostree_override_layers (ac_config c))
  ++ [PlacedRpmdb (((λ p, TsInstall p false) <$> overlays) ++ ((λ p, TsInstall p true) <$> replace) ++ (TsErase <$> remove))].

(** Every package that is added is put into the root, and no other one. *)
Lemma placements_packages overlays replace remove elements skips pkg :
  te_key <$> filter (λ te, te_added te = true) elements ≡ₚ overlays ++ replace →
  (∃ commit mode skip, PlacedPackage pkg commit mode skip ∈ placements overlays replace remove elements skips) ↔
  pkg ∈ overlays ∨ pkg ∈ replace.
Proof.
  intros Hperm. rewrite <-elem_of_app, <-Hperm, list_elem_of_fmap. setoid_rewrite list_elem_of_filter.
  unfold placements. set (fsp := last_named "filesystem" overlays). split.
  - intros (commit & mode & skip & Hin). rewrite !elem_of_app in Hin. destruct Hin as [Hin|[Hin|[Hin|[Hin|[Hin|Hin]]]]].
    + apply list_elem_of_fmap in Hin as (? & [= <- _ _ _] & Hin).
      assert (pkg ∈ te_key <$> filter (λ te, te_added te = true) elements) as Hp.
      { rewrite Hperm. apply elem_of_app. left. unfold fsp, last_named in Hin.
        destruct (last _) as [q|] eqn:Hl; simpl in Hin; [|by apply elem_of_nil in Hin].
        apply list_elem_of_singleton in Hin as ->. by apply last_Some_elem_of, list_elem_of_filter in Hl as [_ ?]. }
      apply list_elem_of_fmap in Hp as (te & ? & Hte%list_elem_of_filter). eauto.
    + apply list_elem_of_bind in Hin as (te & Hin & Hte). unfold normal_checkout in Hin.
      destruct (te_added te) eqn:Ha; [|by apply elem_of_nil in Hin]. exists te.
      destruct (_ || _); [by apply elem_of_nil in Hin|]. apply list_elem_of_singleton in Hin as [= -> _ _ _]. done.
    + apply list_elem_of_bind in Hin as (te & Hin & Hte). unfold override_checkout in Hin.
      destruct (te_added te) eqn:Ha; [|by apply elem_of_nil in Hin]. exists te.
      destruct (is_fileoverride _ _); [|by apply elem_of_nil in Hin]. apply list_elem_of_singleton in Hin as [= -> _ _ _]. done.
    + by apply list_elem_of_fmap in Hin as (? & ? & _).
    + by apply list_elem_of_fmap in Hin as (? & ? & _).
    + by apply list_elem_of_singleton in Hin.
  - intros (te & -> & Ha & Hte). do 3 setoid_rewrite elem_of_app. setoid_rewrite list_elem_of_bind.
    destruct (bool_decide (Some (te_key te) = fsp)) eqn:Hf.
    { apply bool_decide_eq_true in Hf. do 3 eexists. left. rewrite <-Hf. simpl. by apply list_elem_of_singleton. }
    destruct (rpmte_is_kernel te || negb (is_fileoverride c (te_key te))) eqn:Hk.
    + do 3 eexists. right. left. exists te. split; [|done]. unfold normal_checkout. rewrite Ha, Hf. simpl.
      destruct (rpmte_is_kernel te), (is_fileoverride c (te_key te)); try done; by apply list_elem_of_singleton.
    + apply orb_false_iff in Hk as [_ Hk%negb_false_iff]. do 3 eexists. right. right. left. exists te. split; [|done].
      unfold override_checkout. rewrite Ha, Hk. by apply list_elem_of_singleton.
Qed.

(** ** The links of the root *)

(** They are those of the root at the start. *)
Local Abbreviation linked l := (keeps (λ _ : aevent, True) (λ s, as_rootfs_usrlinks s = Some l)).
Lemma linked_root {A} l (m : prog fsevent tree A) : linked l (on_root m).
Proof.
  apply triple_on_events, (triple_zoom _ _ _ _ (λ _, True) (λ _ _, True)); [|done|done].
  intros t _. split; [by apply Forall_true|done].
Qed.
Lemma linked_transform l e f : linked l (transform e f).
Proof.
  unfold transform. apply keeps_bind; [apply keeps_get|]. intros s. apply keeps_bind; [by apply keeps_performs|].
  intros t. by apply keeps_modify.
Qed.
#[local] Hint Resolve linked_root linked_transform : keeps.
Lemma linked_checkout l commits skip mode pkg : linked l (checkout_package_into_root ops c commits skip mode pkg).
Proof. unfold checkout_package_into_root. keeps_auto. Qed.
#[local] Hint Resolve linked_checkout : keeps.
Lemma linked_filesystem l commits provides fsp : linked l (checkout_filesystem ops c commits provides fsp).
Proof. unfold checkout_filesystem. keeps_auto. apply keeps_for_each. intros. keeps_auto. Qed.
Lemma linked_add_install l pkg upgrade : linked l (add_install char_signed type_mismatch ops c pkg upgrade).
Proof. unfold add_install. keeps_auto. Qed.

(** The files that are not put in are the paths in the root of those the dispositions skip. *)
Definition skips_of (links : gmap string string) (elements : list rpmte) (skips : gmap string (gset string)) : Prop :=
  ∀ nevra p, p ∈ default ∅ (skips !! nevra) ↔
    ∃ path, SkipAdd nevra path ∈ dispositions (ao_colors ops).1 (ao_colors ops).2 links (ao_nevra_order ops)
                                   (ao_path_order ops) elements (ao_rpmdb ops) ∧
      canonicalize_rpmfi_path path = Ok p.

Lemma elements_placed provides commits overlays replace remove elements links s tr s' :
  commits_ok commits → as_rootfs_usrlinks s = Some links →
  assemble_elements ops c provides commits overlays replace remove elements s = (tr, Ok (tt, s')) →
  ∃ skips, skips_of links elements skips ∧ omap placed tr = placements overlays replace remove elements skips.
Proof.
  intros Hcommits Hl Hrun. unfold assemble_elements in Hrun.
  apply prog_bind_inv in Hrun as (? & s1 & tr1 & tr2 & H1 & Hrun & ->).
  pose proof (triple_run _ _ _ _ _ _ _ _ (linked_filesystem links commits provides _) Hl H1) as Hl1. cbv beta in Hl1.
  apply (emits_filesystem commits Hcommits) in H1.
  apply prog_bind_inv in Hrun as (tables & s2 & tr3 & tr4 & H2 & Hrun & ->).
  exists (files_skip_add tables). split.
  { unfold delete_removed in H2. apply prog_bind_inv in H2 as (? & ? & ? & ? & [= <- <- <-] & H2 & ->).
    apply prog_bind_inv in H2 as (tb & s3 & ? & ? & (tr' & (t' & Hd & ->)%zoom_inv & _)%on_events_inv & H2 & ->).
    do 2 apply prog_bind_inv in H2 as (? & ? & ? & ? & _ & H2 & ->). injection H2 as _ -> _.
    unfold usrlinks in Hd. rewrite Hl1 in Hd. intros nevra p. rewrite (handle_dispositions_add _ _ _ _ _ _ _ Hd). simpl.
    rewrite lookup_empty. simpl. set_solver. }
  assert (emits placed (delete_removed ops elements) []) as H2'.
  { apply emits_keeps. unfold delete_removed. keeps_auto. }
  rewrite !omap_app, H1, (H2' _ _ _ _ H2). unfold placements. f_equal. rewrite app_nil_l. clear H1 H2 H2' Hl1.
  refine ((_ : emits placed _ _) _ _ _ _ Hrun). clear Hrun.
  apply emits_bind; [apply emits_for_each; intros; by apply emits_added|]. intros _.
  apply emits_bind; [apply emits_for_each; intros; by apply emits_fileoverride|]. intros _.
  do 3 (apply emits_skip; [keeps_auto|intros ?]). rewrite (assoc_L (++)).
  apply emits_bind; [unfold process_ostree_layers; apply emits_bind; [|intros _]; apply emits_layers|]. intros _.
  do 6 (apply emits_skip; [keeps_auto|intros ?]).
  apply (emits_bind _ [_] []); [apply emits_on_error, emits_write_rpmdb|]. intros _.
  apply emits_keeps. unfold rpmostree_context_assemble_end, ensure_tmprootfs_dfd. keeps_auto.
Qed.

(** What librpm documents of the order it computes: the added elements are the packages that
    were added, each with its key. *)
Class OrderLaws : Prop :=
  ordered_elements l : te_key <$> filter (λ te, te_added te = true) (ao_elements ops l)
                       ≡ₚ omap (λ op, match op with TsInstall pkg _ => Some pkg | TsErase _ => None end) l.

Lemma elements_installed `{!OrderLaws} remove replace overlays :
  te_key <$> filter (λ te, te_added te = true)
    (ao_elements ops ((TsErase <$> remove) ++ ((λ p, TsInstall p true) <$> replace) ++ ((λ p, TsInstall p false) <$> overlays)))
  ≡ₚ overlays ++ replace.
Proof.
  rewrite ordered_elements, !omap_app.
  assert (∀ (l : list Package) (f : Package → TsOp) (g : TsOp → option Package),
    omap g (f <$> l) = omap (λ p, g (f p)) l) as Hcomp.
  { intros l f g. induction l as [|x l IH]; csimpl; [done|]. by rewrite IH. }
  rewrite !Hcomp.
  assert (∀ l : list Package, omap (λ _, None : option Package) l = []) as -> by (intros l; induction l; auto).
  assert (∀ l : list Package, omap Some l = l) as Hid by (intros l; induction l as [|x l IH]; csimpl; congruence).
  rewrite !Hid. simpl. apply Permutation_app_comm.
Qed.

(** A call that places nothing and keeps the links. *)
Lemma linked_step {A} (m : M A) l s tr a s' : linked l m → unplaced m → m s = (tr, Ok (a, s')) →
  as_rootfs_usrlinks s = Some l → omap placed tr = [] ∧ as_rootfs_usrlinks s' = Some l.
Proof.
  intros Hm Hu E Hs. split; [by eapply emits_keeps|]. by apply (triple_run _ _ _ _ _ _ _ _ Hm Hs E).
Qed.

Local Abbreviation transaction := (assemble_transaction char_signed type_mismatch dnf_package_cmp ops c).
Local Abbreviation sol := (ac_solution c).
Local Abbreviation overlays := (sort_pkgs dnf_package_cmp (goal_overlays sol)).
Local Abbreviation replaced := (sort_pkgs dnf_package_cmp (goal_replace sol)).
Local Abbreviation removed := (sort_pkgs dnf_package_cmp (goal_remove sol)).
Local Abbreviation ordered := (ao_elements ops ((TsErase <$> removed) ++ ((λ p, TsInstall p true) <$> replaced)
                                                ++ ((λ p, TsInstall p false) <$> overlays))).

Lemma transaction_placed provides on_base links s tr s' :
  as_rootfs_usrlinks s = Some links → transaction provides on_base s = (tr, Ok (tt, s')) →
  if rpmostree_dnf_context_has_empty_transaction sol then omap placed tr = []
  else ∃ skips, skips_of links ordered skips ∧ omap placed tr = placements overlays replaced removed ordered skips.
Proof.
  intros Hl Hrun. unfold assemble_transaction in Hrun.
  destruct (rpmostree_dnf_context_has_empty_transaction sol).
  { destruct (ac_allow_empty_transaction c); [|done]. eapply emits_keeps; [|exact Hrun].
    unfold rpmostree_context_assemble_end, ensure_tmprootfs_dfd. keeps_auto. }
  apply prog_bind_inv in Hrun as (erases & s6 & tr6 & ? & H6 & Hrun & ->).
  pose proof (triple_run _ _ _ _ _ _ _ _ (gives_collect _ id TsErase removed gives_erase) I H6) as R6. cbv beta in R6.
  apply (linked_step _ links) in H6 as [E6 Hl6]; [|apply keeps_collect; intros; apply keeps_add_erase..|done].
  apply prog_bind_inv in Hrun as (replaces & s7 & tr7 & ? & H7 & Hrun & ->).
  pose proof (triple_run _ _ _ _ _ _ _ _ (gives_collect _ id _ replaced (λ p, gives_add_install p true)) I H7) as R7. cbv beta in R7.
  apply (linked_step _ links) in H7 as [E7 Hl7];
    [|apply keeps_collect; intros; apply linked_add_install|apply keeps_collect; intros; unfold add_install; keeps_auto|done].
  apply prog_bind_inv in Hrun as (installs & s8 & tr8 & ? & H8 & Hrun & ->).
  pose proof (triple_run _ _ _ _ _ _ _ _ (gives_collect _ id _ overlays (λ p, gives_add_install p false)) I H8) as R8. cbv beta in R8.
  apply (linked_step _ links) in H8 as [E8 Hl8];
    [|apply keeps_collect; intros; apply linked_add_install|apply keeps_collect; intros; unfold add_install; keeps_auto|done].
  do 2 apply prog_bind_inv in Hrun as (? & ? & ? & ? & (_ & -> & ->)%lift_inv & Hrun & ->).
  rewrite !omap_app, E6, E7, E8, !app_nil_l. rewrite list_fmap_id in R6; rewrite list_fmap_id in R7; rewrite list_fmap_id in R8. subst erases replaces installs.
  rewrite <-!list_fmap_compose in Hrun. unfold compose in Hrun. simpl in Hrun.
  apply (elements_placed _ _ _ _ _ _ links) in Hrun; [done| |done].
  unfold commits_ok. rewrite Forall_reverse, Forall_app, !Forall_fmap. split; by apply Forall_true.
Qed.

(** What comes before the transaction places nothing, and finds the links of the root. *)
Lemma assemble_start provides s tr s' : assemble provides s = (tr, Ok (tt, s')) →
  ∃ on_base s1 tr1, as_rootfs_usrlinks s1 = Some (build_rootfs_usrlinks (as_tree s)) ∧
    transaction provides on_base s1 = (tr1, Ok (tt, s')) ∧ omap placed tr = omap placed tr1.
Proof.
  intros Hrun. unfold rpmostree_context_assemble in Hrun.
  apply prog_bind_inv in Hrun as (? & s1 & tr1 & ? & H1 & Hrun & ->).
  assert (as_tree s1 = as_tree s ∧ omap placed tr1 = []) as [Ht1 E1].
  { split; [|eapply emits_keeps; [|exact H1]; unfold ensure_tmprootfs_dfd; keeps_auto].
    unfold ensure_tmprootfs_dfd in H1. apply prog_bind_inv in H1 as (? & ? & ? & ? & [= <- <- <-] & H1 & ->).
    destruct (as_tmprootfs_set s); [by injection H1; intros; subst|].
    do 2 apply prog_bind_inv in H1 as (? & ? & ? & ? & (_ & _ & ->)%lift_inv & H1 & ->). by injection H1; intros; subst. }
  apply prog_bind_inv in Hrun as (? & ? & ? & ? & (_ & -> & ->)%lift_inv & Hrun & ->).
  apply prog_bind_inv in Hrun as (? & s2 & tr2 & ? & H2 & Hrun & ->).
  assert (as_rootfs_usrlinks s2 = Some (build_rootfs_usrlinks (as_tree s)) ∧ tr2 = []) as [Hl ->].
  { unfold build_usrlinks in H2. apply prog_bind_inv in H2 as (? & ? & ? & ? & [= <- <- <-] & H2 & ->).
    apply prog_bind_inv in H2 as (? & ? & ? & ? & (_ & -> & ->)%lift_inv & H2 & ->). injection H2 as <- _ <-.
    simpl. by rewrite Ht1. }
  set (links := build_rootfs_usrlinks (as_tree s)) in *.
  apply prog_bind_inv in Hrun as (? & s3 & tr3 & ? & H3 & Hrun & ->).
  apply (linked_step _ links) in H3 as [E3 Hl3]; [|keeps_auto|keeps_auto|done].
  apply prog_bind_inv in Hrun as (? & s4 & tr4 & ? & H4 & Hrun & ->).
  apply (linked_step _ links) in H4 as [E4 Hl4]; [| | |done].
  2: { apply triple_on_events, (triple_zoom _ _ _ _ (λ _, True) (λ _ _, True)); [|done|done].
       intros t _. split; [by apply Forall_true|done]. }
  2: { apply triple_on_events. intros u. split; [by apply Forall_true|done]. }
  apply prog_bind_inv in Hrun as (rpmdb & s5 & tr5 & tr6 & H5 & Hrun & ->).
  apply (linked_step _ links) in H5 as [E5 Hl5]; [|keeps_auto|keeps_auto|done].
  exists (nonnull rpmdb), s5, tr6. split_and!; [done|done|]. by rewrite !omap_app, E1, E3, E4, E5.
Qed.

Lemma checked_out (tr : list aevent) pkg : (∃ commit mode skip, PackageCheckedOut pkg commit mode skip ∈ tr) ↔
  ∃ commit mode skip, PlacedPackage pkg commit mode skip ∈ omap placed tr.
Proof.
  split; intros (commit & mode & skip & Hin); exists commit, mode, skip.
  - apply list_elem_of_omap. by eexists.
  - apply list_elem_of_omap in Hin as ([] & Hin & Hp); by simplify_eq/=.
Qed.

End assemble.

(** * The files of removed packages *)

Section removal.
Context (ops : AssembleOps) `{!FsLaws (ao_fs ops)}.
Local Abbreviation fs := (ao_fs ops).

Lemma on_root_inv {A} (m : prog fsevent tree A) s tr a s' :
  on_root m s = (tr, Ok (a, s')) → ∃ tr' t', m (as_tree s) = (tr', Ok (a, t')) ∧ s' = set_tree t' s.
Proof. intros (tr' & (t' & Hm & ->)%zoom_inv & _)%on_events_inv. eauto. Qed.

Lemma exists_removed_cons te elements (Q : rpmte → Prop) :
  (∃ te', te' ∈ te :: elements ∧ te_added te' = false ∧ Q te') ↔
  (te_added te = false ∧ Q te) ∨ ∃ te', te' ∈ elements ∧ te_added te' = false ∧ Q te'.
Proof. setoid_rewrite elem_of_cons. naive_solver. Qed.

Lemma delete_packages_spec skip elements dirs s tr dirs' s' :
  (∀ te, te ∈ elements → te_added te = false → rpmte_is_kernel te = false ∧ all_direct (usrlinks s) skip (as_tree s) te) →
  delete_packages ops skip elements dirs s = (tr, Ok (dirs', s')) →
  deleted (λ p, ∃ te, te ∈ elements ∧ te_added te = false ∧ may_delete (usrlinks s) skip te p)
    (λ p, ∃ te, te ∈ elements ∧ te_added te = false ∧ owned (usrlinks s) skip te p)
    (as_tree s) (as_tree s') dirs dirs' ∧ usrlinks s' = usrlinks s.
Proof.
  revert dirs s tr. induction elements as [|te elements IH]; intros dirs s tr Hte Hrun; simpl in Hrun.
  { injection Hrun as _ <- <-. split; [|done]. apply deleted_refl. by intros p (te & ?%elem_of_nil & _). }
  destruct (te_added te) eqn:Ha.
  { apply IH in Hrun as [Hd ?]; [|by intros te' ?; apply Hte; right]. split; [|done].
    eapply deleted_mono; [exact Hd|..]; intros p; rewrite exists_removed_cons; [by right|]. split; [by right|].
    intros [[? _]|?]; [congruence|done]. }
  destruct (Hte te ltac:(left) Ha) as [Hk Hdir]. rewrite Hk in Hrun.
  apply prog_bind_inv in Hrun as (? & ? & ? & tr2 & [= <- <- <-] & Hrun & ->).
  apply prog_bind_inv in Hrun as (? & ? & ? & tr4 & [= <- <- <-] & Hrun & ->).
  apply prog_bind_inv in Hrun as (dirs1 & s1 & tr5 & tr6 & (tr' & t1 & Hd & ->)%on_root_inv & Hrun & ->).
  apply delete_package_spec in Hd; [|done..].
  apply IH in Hrun as [Hd' Hu].
  2: { intros te' Hin Ha'. destruct (Hte te' ltac:(by right) Ha') as [? Hdir']. split; [done|].
       eapply all_direct_subseteq; [apply Hd|exact Hdir']. }
  split; [|done]. eapply deleted_mono; [eapply deleted_trans|..].
  - eapply (deleted_mono _ (λ p, ∃ te', te' ∈ te :: elements ∧ te_added te' = false ∧ may_delete (usrlinks s) skip te' p));
      [exact Hd| |done]. intros p Hp. apply exists_removed_cons. by left.
  - eapply deleted_mono; [exact Hd'| |done]. intros p Hp. apply exists_removed_cons. by right.
  - done.
  - intros p. rewrite exists_removed_cons. by split; [intros [?|?]; [left|right]|intros [[_ ?]|?]; [left|right]].
Qed.

(** The removed packages, their files that no package which stays has under the same name, and
    the paths of these in the root. *)
Definition removed_te (elements : list rpmte) (te : rpmte) : Prop := te ∈ elements ∧ te_added te = false.
Definition stays_owned (elements : list rpmte) (fn : string) : Prop :=
  ∃ h f, h ∈ ao_rpmdb ops ∧ (∀ te, removed_te elements te → te_dbinstance te ≠ db_offset h) ∧
    f ∈ db_files h ∧ fi_fn f = fn.
Definition only_of (links : gmap string string) (elements : list rpmte) (te : rpmte) (path : string) : Prop :=
  ∃ f fn, f ∈ te_files te ∧ rpmfiFN f = Some fn ∧ has_content (rpmfiFMode f) ∧ skip_slashes fn ≠ ""%string ∧
    in_root links fn path ∧ ¬ stays_owned elements fn.
Definition gives_way (links : gmap string string) (elements : list rpmte) : string → Prop :=
  makes_way (ao_colors ops).1 (ao_colors ops).2 links elements (ao_rpmdb ops).

Lemma removed_file elements te f fn : removed_te elements te → f ∈ te_files te → rpmfiFN f = Some fn →
  fn ∈ files_deleted (collect_files elements).
Proof.
  intros [Hte Ha] Hf Hfn. apply (proj2 (collect_spec elements)). exists te, f. unfold fi_fn. by rewrite Hfn.
Qed.
Lemma stays_owned_spec elements fn : stays_owned elements fn ↔
  ∃ h f, h ∈ ao_rpmdb ops ∧ db_offset h ∉ pkgs_deleted (collect_files elements) ∧ f ∈ db_files h ∧ fi_fn f = fn.
Proof.
  unfold stays_owned, removed_te. setoid_rewrite (proj1 (collect_spec elements)).
  split; intros (h & f & ? & Hd & ? & ?); exists h, f; split_and!; try done.
  - intros (te & ? & ? & ?). by apply (Hd te).
  - intros te [? ?] ?. apply Hd. eauto.
Qed.

(** The table of the files that are not deleted is exact. *)
Lemma owned_only_of links elements t tr tables t' te path :
  handle_file_dispositions fs (ao_colors ops).1 (ao_colors ops).2 links (ao_nevra_order ops) (ao_path_order ops)
    elements (ao_rpmdb ops) t = (tr, Ok (tables, t')) →
  removed_te elements te → owned links (files_skip_delete tables) te path ↔ only_of links elements te path.
Proof.
  intros Hrun Hte. unfold owned, only_of. setoid_rewrite deleted_path_spec.
  assert (∀ f fn, f ∈ te_files te → rpmfiFN f = Some fn → fn ∉ files_skip_delete tables ↔ ¬ stays_owned elements fn) as Hskip.
  { intros f fn Hf Hfn. rewrite (handle_dispositions_skip _ _ _ _ _ _ _ Hrun), skip_delete_disposition, <-stays_owned_spec.
    simpl. pose proof (removed_file elements te f fn Hte Hf Hfn). set_solver. }
  split.
  - intros (f & Hf & fn & Hfn & ? & Hs & ? & ?). exists f, fn. split_and!; try done. by apply (Hskip f fn Hf Hfn).
  - intros (f & fn & Hf & Hfn & ? & ? & ? & Hs). exists f. split; [done|]. exists fn. split_and!; try done.
    by apply (Hskip f fn Hf Hfn).
Qed.

(** C17: when packages that are not kernels are removed, and no path that is concerned leads
    through a link, the assembly deletes exactly what they alone have. Every regular file,
    link and directory below usr/ of a removed package, unless a package that stays has a
    file of that name, is gone, or it is a directory with something left in it. All that
    goes is such a path, a tmpfiles.d entry that was made for a removed package, or a file of
    a package that stays which makes way for one with the preferred color. *)
Theorem removal_exact elements s tr tables s' :
  (∀ m, ao_nevra_order ops m ≡ₚ map_to_list m) →
  (∀ te, removed_te elements te → rpmte_is_kernel te = false) →
  (∀ te path, removed_te elements te → only_of (usrlinks s) elements te path ∨ path ∈ dropin_paths te →
     direct (as_tree s) path) →
  (∀ path, gives_way (usrlinks s) elements path → direct (as_tree s) path) →
  delete_removed ops elements s = (tr, Ok (tables, s')) →
  let t := as_tree s in let t' := as_tree s' in
  t' ⊆ t ∧
  (∀ q, is_Some (t !! q) → t' !! q = None →
     (∃ te, removed_te elements te ∧ (only_of (usrlinks s) elements te q ∨ of_dropin te q)) ∨
     ∃ path, gives_way (usrlinks s) elements path ∧ (q = path ∨ below path q = true)) ∧
  (∀ te q, removed_te elements te → only_of (usrlinks s) elements te q →
     t' !! q = None ∨ t' !! q = Some FDir ∧ has_children t' q = true).
Proof.
  intros Horder Hk Hdir Hway Hrun t t'. unfold delete_removed in Hrun.
  apply prog_bind_inv in Hrun as (? & ? & ? & ? & [= <- <- <-] & Hrun & ->).
  apply prog_bind_inv in Hrun as (tb & s1 & ? & ? & (trd & t1 & Hdisp & ->)%on_root_inv & Hrun & ->).
  apply prog_bind_inv in Hrun as (dirs & s2 & tr1 & tr2 & Hd & Hrun & ->).
  apply prog_bind_inv in Hrun as (? & s3 & ? & ? & (tr' & t2 & Hrm & ->)%on_root_inv & Hrun & ->).
  injection Hrun as <- <- <-. pose proof (λ te path, owned_only_of _ _ _ _ _ _ te path Hdisp) as Howned.
  destruct (handle_dispositions_root fs _ _ _ _ _ _ (λ path Hp, Hway path (make_way_disposition _ _ _ _ _ Horder _ _ _ Hp)) Hdisp)
    as [Hsub Hgone].
  assert (∀ te, te ∈ elements → te_added te = false →
    rpmte_is_kernel te = false ∧ all_direct (usrlinks (set_tree t1 s)) (files_skip_delete tb) (as_tree (set_tree t1 s)) te) as Hte.
  { intros te Hin Ha. split; [by apply Hk|]. eapply (all_direct_subseteq _ _ (as_tree s)); [exact Hsub|].
    split; intros path Hp; apply (Hdir te); try done; [left; by apply Howned|by right]. }
  apply delete_packages_spec in Hd as [Hd _]; [|exact Hte].
  change (usrlinks (set_tree t1 s)) with (usrlinks s) in *. change (as_tree (set_tree t1 s)) with t1 in *.
  apply delete_directories_spec in Hrm as (S & O & N); [|done|apply Hd; constructor|].
  2: { intros d [?%elem_of_nil|(te & Hin & Ha & Ho)]%Hd; [done|]. destruct (Hte te Hin Ha) as [_ [Hdir' _]].
       eapply direct_subseteq; [apply Hd|by apply Hdir']. }
  subst t t'. cbn [as_tree set_tree]. split_and!.
  - etrans; [exact S|]. etrans; [apply Hd|exact Hsub].
  - intros q Hq Hn. destruct (t1 !! q) as [n1|] eqn:H1.
    2: { right. destruct (Hgone q Hq H1) as (path & Hp & ?). exists path. split; [|done].
         by eapply make_way_disposition. }
    left. assert (∃ te, te ∈ elements ∧ te_added te = false ∧ may_delete (usrlinks s) (files_skip_delete tb) te q) as Hm.
    { destruct (as_tree s2 !! q) as [n|] eqn:H2; [|by eapply Hd].
      destruct (O q n H2 Hn) as [[?%elem_of_nil|(te & ? & ? & ?)]%Hd _]; [done|]. exists te. split_and!; [done..|by left]. }
    destruct Hm as (te & ? & ? & [Ho|?]); exists te; (split; [done|]); [left; by apply Howned|by right].
  - intros te q [Hin Ha] Ho. destruct (t2 !! q) as [n|] eqn:H2; [|auto].
    pose proof (lookup_weaken _ _ _ _ H2 S) as H1.
    destruct (del_done _ _ _ _ _ _ Hd q) as [?|[? Hq]]; [by exists te; split_and!; [..|apply Howned]|congruence|].
    right. assert (n = FDir) as -> by congruence. split; [done|]. apply (N []); [|by right|done]. by intros d ?%elem_of_nil.
Qed.
End removal.

(** * An instance *)

(** "filesystem" and a package whose files override others are added, a kernel is updated and
    "nano" is removed. *)
Definition ex_filesystem := ex_package 7 "filesystem" "1-1" "fedora".
Definition ex_kernel1 := ex_package 8 "kernel-core" "1-1" HY_SYSTEM_REPO_NAME.
Definition ex_kernel2 := ex_package 9 "kernel-core" "2-1" "fedora".
Definition ex_asm_solution : Solution :=
  MkSolution [ex_htop; ex_filesystem] [ex_kernel2] [] [] [ex_nano1] []
    (λ p, if bool_decide (p = ex_kernel2) then [ex_kernel1] else []).
Definition ex_asm_repo : PkgcacheRepo :=
  MkPkgcacheRepo (λ b, Done (Some b)) (λ b, Done b) (λ _, Done (MkPkgCommit ∅ (Some "header"%string) false)) (Done []).
Definition ex_asm_cx : ContextConf :=
  MkContextConf false ex_treefile false false (Some ex_asm_repo) [MkDnfRepo "fedora" 1 false false] None None false
    (Done tt) (λ _, Done tt) None (λ _, false) RPMOSTREE_CONTEXT_DNF_CACHE_DEFAULT (λ _ _, true) (λ _, Done tt) false.
Definition ex_asm_conf : AssembleConf :=
  MkAssembleConf ex_asm_cx (MkAssembleConfig None (Some ["layer"%string]) None false false false None) ex_asm_solution []
    {[pkg_nevra ex_htop]} false true true false None false 0.
Definition ex_te (op : TsOp) : rpmte :=
  match op with
  | TsInstall pkg _ => MkRpmte true 0 (pkg_name pkg) [] [pkg_name pkg] pkg
  | TsErase pkg =>
      MkRpmte false 1 (pkg_name pkg) [MkRpmFi (Some "/usr/bin/nano"%string) None None None 0 [] 0 33188] [pkg_name pkg] pkg
  end.
Definition ex_put (path : string) (t : tree) : tree :=
  if negb (bool_decide (t !! path = Some FDir)) && parent_ok t path then <[path := FReg ""]> t else t.
Definition ex_asm_script : RpmScript := MkRpmScript true None 0 (Some "true"%string).
Definition ex_asm_ops : AssembleOps :=
  MkAssembleOps plain_fs ex_import_ops (λ _, Done tt) (λ _, Done tt) (λ _, Done tt)
    (λ pkg, Done (MkScriptPkg (pkg_name pkg) "1" DNF_STATE_ACTION_UNKNOWN (λ _, ex_asm_script) []
                    (MkTriggers [] [] [] [] [] []), []))
    pkg_name (λ _, true) (λ _, 1%N) (λ _, true) (fmap ex_te) [] [] (0, 0)%N map_to_list map_to_list (λ _, true)
    (λ _ _, false) (λ _, Done tt) (λ rev _ _ t, Done (ex_put "usr/content" t)) (λ ref, Done ref)
    (λ _ t, Done t) true (λ _, Done (∅, ∅)) (λ s, s) (λ s, s) (λ run t, Done (ex_put ("usr/" +:+ cr_id run) t))
    (λ _ t, Done t) None false
    (λ _ t, Done (ex_put "usr/rpmdb" t)).
Definition ex_asm_root : tree :=
  {["usr" := FDir; "usr/bin" := FDir; "usr/bin/nano" := FReg "n"; "usr/lib" := FDir; "usr/lib/tmpfiles.d" := FDir;
    "usr/share" := FDir; "usr/share/rpm" := FDir; "usr/lib/modules" := FDir]}%string.
Definition ex_asm_state : AsmState := MkAsmState ex_asm_root ex_async false None false false.
Definition ex_assemble :=
  rpmostree_context_assemble true "" (λ _ _, 0%Z) ex_asm_ops ex_asm_conf (λ p, [pkg_name p]) ex_asm_state.
Definition ex_assembled : unit * AsmState := from_ok (tt, ex_asm_state) ex_assemble.2.
Lemma ex_assemble_ok : ex_assemble = (ex_assemble.1, Ok (tt, ex_assembled.2)).
Proof. rewrite (prog_result (tt, ex_asm_state) ex_assembled ex_assemble) at 1; [by destruct ex_assembled as [[] ?]|reflexivity|vm_compute; reflexivity]. Qed.

#[local] Instance ex_order_laws : OrderLaws ex_asm_ops.
Proof.
  intros l. simpl. induction l as [|[pkg upgrade|pkg] l IH]; simpl; [done|by constructor|done].
Qed.


Definition ex_fi (path : string) (mode : Z) : RpmFi := MkRpmFi (Some path) None None None 0 [] 0 mode.
Definition ex_removed : rpmte :=
  MkRpmte false 1 "nano"
    [ex_fi "/usr/bin/nano" 33261; ex_fi "/usr/bin/shared" 33261; ex_fi "/usr/share/nano" 16877;
     ex_fi "/usr/share/nano/a" 16877; ex_fi "/usr/share/nano/a/b" 33188; ex_fi "/usr/share" 16877] ["nano"%string] ex_nano1.
Definition ex_removal_state : AsmState :=
  MkAsmState (<["usr/bin/shared" := FReg "s"]> (<["usr/share/nano" := FDir]> (<["usr/share/nano/a" := FDir]>
    (<["usr/share/nano/a/b" := FReg "b"]> ex_asm_root))))%string ex_async false (Some ∅) true true.
Definition ex_stays : DbHeader := MkDbHeader 2 [ex_fi "/usr/bin/shared" 33261].
Definition ex_removal_ops : AssembleOps :=
  MkAssembleOps plain_fs ex_import_ops (λ _, Done tt) (λ _, Done tt) (λ _, Done tt) (ao_metainfo ex_asm_ops)
    pkg_name (λ _, true) (λ _, 1%N) (λ _, true) (fmap ex_te) [MkDbHeader 1 (te_files ex_removed); ex_stays] [] (0, 0)%N
    map_to_list map_to_list (λ _, true) (λ _ _, false) (λ _, Done tt) (λ _ _ _ t, Done t) (λ ref, Done ref)
    (λ _ t, Done t) true (λ _, Done (∅, ∅)) (λ s, s) (λ s, s) (λ _ t, Done t) (λ _ t, Done t) None false
    (λ _ t, Done t).
Definition ex_removal := delete_removed ex_removal_ops [ex_removed] ex_removal_state.
Definition ex_removal_result : SkipTables * AsmState := from_ok (MkSkipTables ∅ ∅, ex_removal_state) ex_removal.2.
Lemma ex_removal_ok : ex_removal = (ex_removal.1, Ok (ex_removal_result.1, ex_removal_result.2)).
Proof. apply (prog_result (MkSkipTables ∅ ∅, ex_removal_state)); [reflexivity|vm_compute; reflexivity]. Qed.
Lemma ex_no_links path : direct (as_tree ex_removal_state) path.
Proof.
  intros d target _ Hd.
  assert (map_Forall (λ _ n, match n with FLink _ => false | _ => true end = true) (as_tree ex_removal_state)) as H.
  { apply (bool_decide_eq_true_1 _). vm_compute. reflexivity. }
  by specialize (H _ _ Hd).
Qed.
(** Everything but the shared file goes, and "usr/share" stays. *)
Lemma removal_exact_witness :
  as_tree ex_removal_result.2 !! "usr/bin/shared"%string = Some (FReg "s") ∧
  as_tree ex_removal_result.2 !! "usr/share/nano"%string = None ∧
  as_tree ex_removal_result.2 !! "usr/share"%string = Some FDir ∧
  (as_tree ex_removal_result.2 !! "usr/bin/nano"%string = None ∨
   as_tree ex_removal_result.2 !! "usr/bin/nano"%string = Some FDir ∧
   has_children (as_tree ex_removal_result.2) "usr/bin/nano" = true).
Proof.
  split_and!; [vm_compute; reflexivity..|].
  destruct (removal_exact ex_removal_ops [ex_removed] ex_removal_state ex_removal.1 ex_removal_result.1 ex_removal_result.2)
    as (_ & _ & H).
  - intros m. reflexivity.
  - intros te [->%list_elem_of_singleton _]. vm_compute. reflexivity.
  - intros te path _ _. apply ex_no_links.
  - intros path _. apply ex_no_links.
  - exact ex_removal_ok.
  - apply (H ex_removed); [split; [left|done]|]. exists (ex_fi "/usr/bin/nano" 33261), "/usr/bin/nano"%string.
    split_and!; [left|done|left; vm_compute; reflexivity|vm_compute; discriminate| |].
    + exists "usr/bin/nano"%string. eexists. split_and!; vm_compute; reflexivity.
    + intros (h & f & Hh & Hs & Hf & Hfn). apply elem_of_cons in Hh as [->|Hh].
      * by apply (Hs ex_removed); [split; [left|]|].
      * apply list_elem_of_singleton in Hh as ->. apply list_elem_of_singleton in Hf as ->. vm_compute in Hfn. discriminate.
Defined.
