(* ===== verification/CoreCommit.v ===== *)
(** Committing an assembled root, and what is read back of the layered commit, from
    [rpmostree_context_commit] and the state digest in [src/libpriv/rpmostree-core.cxx] and
    from [src/libpriv/rpmostree-util.cxx]. Writing objects is libostree's. *)

From S2P Require Import Prelude Vardict FileTree Nevra RpmHeaders Deploy SysrootCore Origin Upgrader Core Importer CoreImport CoreFiles Kernel Scripts CoreAssemble.

(** * The digest of the state *)

Definition convert_dnf_action_to_string (action : DnfStateAction) : outcome string :=
  match action with
  | DNF_STATE_ACTION_INSTALL => Ok "install"%string
  | DNF_STATE_ACTION_UPDATE => Ok "update"%string
  | DNF_STATE_ACTION_DOWNGRADE => Ok "downgrade"%string
  | DNF_STATE_ACTION_REMOVE => Ok "remove"%string
  | DNF_STATE_ACTION_OBSOLETE => Ok "obsolete"%string
  | DNF_STATE_ACTION_UNKNOWN => Abort
  end.

Section digest.
Context (char_signed : bool) (dnf_package_cmp : Package → Package → Z) (pkgcache : option PkgcacheRepo).

(** The checksum of a package: for packages of the cache the one recorded at import. *)
Definition goal_chksum_repr (pkg : Package) : outcome string :=
  match pkgcache with
  | Some repo =>
      if is_locally_cached pkg then
        cached_rev ← returned (pr_resolve_rev repo (rpmostree_get_cache_branch_pkg char_signed (pkg_base pkg)));
        commit ← returned (pr_load_commit repo cached_rev);
        chksum_repr ← get_pkgcache_repodata_chksum_repr commit true;
        match chksum_repr with Some c => Ok c | None => get_repodata_chksum_repr pkg end
      else get_repodata_chksum_repr pkg
  | None => get_repodata_chksum_repr pkg
  end.
(** What [g_checksum_update] is called with, one after the other. *)
Fixpoint checksum_packages (sol : Solution) (pkglist : list Package) : outcome string :=
  match pkglist with
  | [] => Ok ""%string
  | pkg :: pkglist =>
      action_str ← convert_dnf_action_to_string (goal_action sol pkg);
      chksum_repr ← goal_chksum_repr pkg;
      rest ← checksum_packages sol pkglist;
      Ok (action_str +:+ chksum_repr +:+ rest)
  end.
Definition goal_packages (sol : Solution) : list Package :=
  sol_install sol ++ sol_update sol ++ sol_downgrade sol ++ sol_remove sol ++ sol_obsolete sol.
Definition rpmostree_dnf_add_checksum_goal (sol : Solution) : outcome string :=
  checksum_packages sol (sort_pkgs dnf_package_cmp (goal_packages sol)).

(** [checksum] is the algorithm, [tf_checksum] what the treefile gives. *)
Definition rpmostree_context_get_state_digest (checksum : string → string) (tf_checksum : result string)
    (empty : bool) (sol : Solution) : outcome string :=
  tf ← returned tf_checksum;
  goal ← (if empty then Ok ""%string else rpmostree_dnf_add_checksum_goal sol);
  Ok (checksum (tf +:+ goal)).
End digest.

(** * The commit *)

Inductive RpmOstreeAssembleType :=
  | RPMOSTREE_ASSEMBLE_TYPE_SERVER_BASE
  | RPMOSTREE_ASSEMBLE_TYPE_CLIENT_LAYERING.

(** The values in the metadata of a commit, by their types: plain ones, repositories with
    their time stamps ("aa{sv}"), the packages of the rpmdb, packages ("av"), pairs of
    packages ("a(vv)"), such pairs by their source ("a{sv}") and the treespec of old layers
    ("a{sv}"). *)
Inductive metavalue :=
  | MPlain (v : variant)
  | MRepos (l : list (string * N))
  | MPkglist (l : list GvNevra)
  | MPackages (l : list GvNevra)
  | MPairs (l : list (GvNevra * GvNevra))
  | MSources (l : list (string * list (GvNevra * GvNevra)))
  | MSpec (d : vardict).
Abbreviation metadict := (gmap string metavalue).

(** [g_variant_dict_lookup_value]: NULL for another type. *)
Definition lookup_packages (d : metadict) (key : string) : option (list GvNevra) :=
  match d !! key with Some (MPackages l) => Some l | _ => None end.
Definition lookup_pairs (d : metadict) (key : string) : option (list (GvNevra * GvNevra)) :=
  match d !! key with Some (MPairs l) => Some l | _ => None end.
Definition lookup_sources (d : metadict) (key : string) : option (list (string * list (GvNevra * GvNevra))) :=
  match d !! key with Some (MSources l) => Some l | _ => None end.
Definition lookup_spec (d : metadict) (key : string) : option vardict :=
  match d !! key with Some (MSpec spec) => Some spec | _ => None end.

(** What other parts of the program see of it. *)
Definition plain_value (v : metavalue) : variant := match v with MPlain v => v | _ => VOther end.
Record LayeredCommit := MkLayeredCommit { lc_metadata : metadict; lc_parent : option string }.
Definition lc_commit (l : LayeredCommit) : Commit := MkCommit (plain_value <$> lc_metadata l) (lc_parent l).

Definition OSTREE_REPO_COMMIT_MODIFIER_FLAGS_CANONICAL_PERMISSIONS : Z := 4.
Definition OSTREE_REPO_COMMIT_MODIFIER_FLAGS_DEVINO_CANONICAL : Z := 32.

Inductive cmevent :=
  | CmTxnPrepared
  | CmTxnCommitted
  | CmTxnAborted
  | CmRpmdbCleaned
  | CmTreeWritten (modflags : Z) (sepolicy : option SePolicy)
  | CmCommitWritten (commit : LayeredCommit) (checksum : string)
  | CmRefSet (ref checksum : string).

Record CommitOps := MkCommitOps {
  co_failpoint : result unit;
  co_prepare_transaction : result unit;
  co_load_commit : string → result Commit;
  co_repo_timestamp : string → N;
  co_rpmdb_pkglist : result (list GvNevra);
  co_treefile_checksum : result string;
  co_checksum : string → string;
  co_cleanup_rpmdb : result unit;
  co_bare_user_only : bool;
  co_final_sepolicy : result SePolicy;
  co_write_tree : result unit;
  (** [ostree_commit_metadata_for_bootable] *)
  co_bootable : metadict → result metadict;
  co_write_commit : LayeredCommit → result string;
  co_commit_transaction : result unit;
  co_tmpdir_delete : result unit;
  (** the order of hash tables *)
  co_removed_order : gmap string GvNevra → list GvNevra;
  co_replaced_order : gmap GvNevra GvNevra → list (GvNevra * GvNevra);
  co_sources_order : Replacements → list (string * gmap GvNevra GvNevra);
}.

(** [self->dnfctx] and [self->tmprootfs_dfd] are set. *)
Record CommitState := MkCommitState { cs_dnfctx : bool; cs_tmprootfs : bool }.

Section commit.
Context (char_signed : bool) (dnf_package_cmp : Package → Package → Z) (ops : CommitOps)
  (cx : ContextConf) (container : bool) (ref : option string) (sol : Solution)
  (** what [rpmostree_context_prepare] left, if it was called *)
  (pp : option (gmap string GvNevra * Replacements)).
Local Abbreviation M := (prog cmevent CommitState).

Definition rpmostree_context_get_rpmmd_repo_commit_metadata : list (string * N) :=
  (λ r, (repo_id r, co_repo_timestamp ops (repo_id r))) <$>
    rpmostree_get_enabled_rpmmd_repos (cx_sources cx) DNF_REPO_ENABLED_PACKAGES.

(** The tables that are embedded. *)
Definition removed_base_pkgs : list GvNevra :=
  match pp with Some (removed, _) => co_removed_order ops removed | None => [] end.
Definition replaced_base_local_pkgs : list (GvNevra * GvNevra) :=
  match pp with
  | Some (_, replaced) => match replaced !! ""%string with Some t => co_replaced_order ops t | None => [] end
  | None => []
  end.
Definition replaced_base_remote_pkgs : list (string * list (GvNevra * GvNevra)) :=
  match pp with
  | Some (_, replaced) =>
      (λ '(source, packages), (source, co_replaced_order ops packages)) <$>
        filter (λ '(source, _), source ≠ ""%string) (co_sources_order ops replaced)
  | None => []
  end.

(** The metadata of a layer; the state digest is added later. *)
Definition layer_metadata (parent_version : option string) (rpmdb : list GvNevra) : metadict :=
  let d : metadict := match parent_version with Some v => {["version"%string := MPlain (VString v)]} | None => ∅ end in
  let d := <["rpmostree.clientlayer"%string := MPlain (VBool true)]> d in
  let d := <["rpmostree.rpmmd-repos"%string := MRepos rpmostree_context_get_rpmmd_repo_commit_metadata]> d in
  let d := <["rpmostree.packages"%string := MPlain (VStrv (Origin.get_packages (cf_derive (cx_treefile cx))))]> d in
  let d := <["rpmostree.modules"%string := MPlain (VStrv [])]> d in
  let d := <["rpmostree.removed-base-packages"%string := MPackages removed_base_pkgs]> d in
  let d := <["rpmostree.replaced-base-packages"%string := MPairs replaced_base_local_pkgs]> d in
  let d := <["rpmostree.replaced-base-remote-packages"%string := MSources replaced_base_remote_pkgs]> d in
  let d := <["rpmostree.rpmdb.pkglist"%string := MPkglist rpmdb]> d in
  <["rpmostree.clientlayer_version"%string := MPlain (VUint32 6)]> d.

(** The content of the files is canonical when the policy did not change. *)
Definition modifier_flags (final : option SePolicy) : Z :=
  let modflags := if co_bare_user_only ops then OSTREE_REPO_COMMIT_MODIFIER_FLAGS_CANONICAL_PERMISSIONS else 0%Z in
  match final, cx_sepolicy cx with
  | Some final, Some policy =>
      if negb (nonnull (sep_name final)) || bool_decide (sep_csum policy = sep_csum final)
      then Z.lor modflags OSTREE_REPO_COMMIT_MODIFIER_FLAGS_DEVINO_CANONICAL else modflags
  | _, _ => modflags
  end.

Definition write_layer (parent : string) : M string :=
  commit ← call (co_load_commit ops parent);
  rpmdb ← call (co_rpmdb_pkglist ops);
  let metadata := layer_metadata (rpmostree_checksum_version commit) rpmdb in
  state_checksum ← lift (rpmostree_context_get_state_digest char_signed dnf_package_cmp (cx_pkgcache cx) (co_checksum ops)
                           (co_treefile_checksum ops) (cx_empty cx) sol);
  let metadata := <["rpmostree.state-sha512"%string := MPlain (VString state_checksum)]> metadata in
  _ ← modify (λ s, MkCommitState false (cs_tmprootfs s));
  _ ← performs CmRpmdbCleaned (co_cleanup_rpmdb ops);
  final_sepolicy ← match cx_sepolicy cx with
                   | Some _ => final ← call (co_final_sepolicy ops); mret (Some final)
                   | None => mret None
                   end;
  _ ← performs (CmTreeWritten (modifier_flags final_sepolicy) final_sepolicy) (co_write_tree ops);
  metadata ← (if container then mret metadata else call (co_bootable ops metadata));
  let layer := MkLayeredCommit metadata (Some parent) in
  checksum ← call (co_write_commit ops layer);
  _ ← perform (CmCommitWritten layer checksum) (Ok tt);
  _ ← match ref with
      | Some ref => perform (CmRefSet ref checksum) (Ok tt)
      | None => mret tt
      end;
  _ ← performs CmTxnCommitted (co_commit_transaction ops);
  _ ← modify (λ s, MkCommitState (cs_dnfctx s) false);
  _ ← call (co_tmpdir_delete ops);
  mret checksum.

(** The transaction is still marked as open when it was committed. *)
Definition rpmostree_context_commit (parent : option string) (assemble_type : RpmOstreeAssembleType) : M string :=
  _ ← call (co_failpoint ops);
  _ ← performs CmTxnPrepared (co_prepare_transaction ops);
  with_cleanup CmTxnAborted (
    match assemble_type, parent with
    | RPMOSTREE_ASSEMBLE_TYPE_CLIENT_LAYERING, Some parent =>
        checksum ← write_layer parent;
        mret (checksum, true)
    | _, _ => lift Abort
    end).
End commit.

(** * Reading it back *)

Record LayeredInfo := MkLayeredInfo {
  li_is_layered : bool;
  li_layer_version : N;
  li_base_layer : option string;
  li_layered_pkgs : list string;
  li_removed_base_pkgs : list GvNevra;
  li_replaced_base_local_pkgs : list (GvNevra * GvNevra);
  li_replaced_base_remote_pkgs : list (string * list (GvNevra * GvNevra));
}.

Definition asserted {A} (o : option A) : outcome A := match o with Some a => Ok a | None => Abort end.

(** All outputs are asked for. *)
Definition rpmostree_deployment_get_layered_info (type_mismatch : string) (csum : string)
    (load_commit : string → result LayeredCommit) : outcome LayeredInfo :=
  prefix_error "Getting layered info" (
    commit ← returned (load_commit csum);
    layeredmeta ← deployment_layeredmeta_from_commit_impl type_mismatch csum (lc_commit commit);
    let dict := lc_metadata commit in
    let version := clientlayer_version layeredmeta in
    if negb (is_layered layeredmeta) then Ok (MkLayeredInfo false version None [] [] [] [])
    else
      layered_pkgs ← (if (1 <=? version)%N
                      then asserted (vardict_lookup_strv (cm_metadata (lc_commit commit)) "rpmostree.packages")
                      else treespec ← asserted (lookup_spec dict "rpmostree.spec");
                           asserted (vardict_lookup_strv treespec "packages"));
      '(removed, replaced_local) ←
        (if (2 <=? version)%N then
           removed ← asserted (lookup_packages dict "rpmostree.removed-base-packages");
           replaced ← asserted (lookup_pairs dict "rpmostree.replaced-base-packages");
           Ok (removed, replaced)
         else Ok ([], []));
      replaced_remote ←
        (if (6 <=? version)%N then asserted (lookup_sources dict "rpmostree.replaced-base-remote-packages")
         else Ok []);
      Ok (MkLayeredInfo true version
            (if bool_decide (base_commit layeredmeta = ""%string) then None else Some (base_commit layeredmeta))
            layered_pkgs removed replaced_local replaced_remote)).
