(* ===== verification/CoreCommitSpec.v ===== *)
(** Properties of the commit of an assembled root: what is read back of a layer is what it
    was made of. *)

From S2P Require Import Prelude Vardict FileTree Nevra RpmHeaders Deploy SysrootCore Origin Upgrader Core CoreAssemble CoreCommit.
From S2P Require Import Scripts CoreSpec.

(** The tables are iterated over completely. *)
Class CommitLaws (ops : CommitOps) : Prop := {
  removed_order_perm m : co_removed_order ops m ≡ₚ (map_to_list m).*2;
  replaced_order_perm m : co_replaced_order ops m ≡ₚ map_to_list m;
  sources_order_perm m : co_sources_order ops m ≡ₚ map_to_list m;
  (** [ostree_commit_metadata_for_bootable] only sets these two *)
  bootable_adds d d' k v : co_bootable ops d = Done d' →
    k ≠ "ostree.linux"%string → k ≠ "ostree.bootable"%string → d !! k = Some v → d' !! k = Some v;
}.

(** The keys that are set after the others. *)
Definition later_keys : list string := ["rpmostree.state-sha512"; "ostree.linux"; "ostree.bootable"]%string.

Section commit.
Context (char_signed : bool) (dnf_package_cmp : Package → Package → Z) (ops : CommitOps) `{!CommitLaws ops}
  (cx : ContextConf) (container : bool) (ref : option string) (sol : Solution).

Local Abbreviation commit := (rpmostree_context_commit char_signed dnf_package_cmp ops cx container ref sol).
Local Abbreviation layer_of := (write_layer char_signed dnf_package_cmp ops cx container ref sol).

Lemma removed_elem removed replaced g :
  g ∈ removed_base_pkgs ops (Some (removed, replaced)) ↔ ∃ name, removed !! name = Some g.
Proof.
  simpl. rewrite removed_order_perm, list_elem_of_fmap. split.
  - intros ([name g'] & -> & Hin%elem_of_map_to_list). by exists name.
  - intros [name Hin%elem_of_map_to_list]. by exists (name, g).
Qed.

Lemma replaced_local_elem removed replaced new old :
  (new, old) ∈ replaced_base_local_pkgs ops (Some (removed, replaced)) ↔
  ∃ t, replaced !! ""%string = Some t ∧ t !! new = Some old.
Proof.
  simpl. destruct (replaced !! ""%string) as [t|].
  - rewrite replaced_order_perm, elem_of_map_to_list. naive_solver.
  - split; [by intros ?%elem_of_nil|naive_solver].
Qed.

Lemma replaced_remote_elem removed replaced source new old :
  (∃ l, (source, l) ∈ replaced_base_remote_pkgs ops (Some (removed, replaced)) ∧ (new, old) ∈ l) ↔
  source ≠ ""%string ∧ ∃ t, replaced !! source = Some t ∧ t !! new = Some old.
Proof.
  simpl. split.
  - intros (l & ([source' t] & [= <- ->] & [Hne Hin]%list_elem_of_filter)%list_elem_of_fmap & Hl).
    rewrite sources_order_perm, elem_of_map_to_list in Hin.
    rewrite replaced_order_perm, elem_of_map_to_list in Hl. eauto.
  - intros (Hne & t & Ht & Hnew). exists (co_replaced_order ops t). split.
    + apply list_elem_of_fmap. exists (source, t). split; [done|]. apply list_elem_of_filter. split; [done|].
      by rewrite sources_order_perm, elem_of_map_to_list.
    + by rewrite replaced_order_perm, elem_of_map_to_list.
Qed.

(** The metadata that is committed holds what the layer is made of. *)
Lemma write_layer_spec pp parent s tr csum s' :
  layer_of pp parent s = (tr, Ok (csum, s')) →
  ∃ layer version rpmdb, CmCommitWritten layer csum ∈ tr ∧ lc_parent layer = Some parent ∧
    ∀ k x, k ∉ later_keys → layer_metadata ops cx pp version rpmdb !! k = Some x → lc_metadata layer !! k = Some x.
Proof.
  unfold write_layer. intros Hrun.
  repeat (apply prog_bind_inv in Hrun as (? & ? & ? & ? & ?Hm & Hrun & ->); cbv beta zeta in Hrun).
  injection Hrun as <- <- <-. apply perform_inv in Hm8 as (_ & -> & _).
  eexists _, _, _. split; [rewrite !elem_of_app; by do 9 right; left; left|]. split; [done|].
  intros k y Hk Hy. cbn [lc_metadata].
  unfold later_keys in Hk. rewrite !not_elem_of_cons in Hk. destruct Hk as (Hk1 & Hk2 & Hk3 & _).
  destruct container; [injection Hm6 as _ <- _; rewrite lookup_insert_ne by done; exact Hy|].
  unfold call in Hm6. apply lift_inv in Hm6 as (Hb%returned_ok & _ & _). eapply bootable_adds; [done..|].
  rewrite lookup_insert_ne by done. exact Hy.
Qed.

(** The entries of a layer, with their keys and types. *)
Lemma layer_entries pp version rpmdb :
  let d := layer_metadata ops cx pp version rpmdb in
  d !! "rpmostree.clientlayer"%string = Some (MPlain (VBool true)) ∧
  d !! "rpmostree.clientlayer_version"%string = Some (MPlain (VUint32 6)) ∧
  d !! "rpmostree.packages"%string = Some (MPlain (VStrv (Origin.get_packages (cf_derive (cx_treefile cx))))) ∧
  d !! "rpmostree.removed-base-packages"%string = Some (MPackages (removed_base_pkgs ops pp)) ∧
  d !! "rpmostree.replaced-base-packages"%string = Some (MPairs (replaced_base_local_pkgs ops pp)) ∧
  d !! "rpmostree.replaced-base-remote-packages"%string = Some (MSources (replaced_base_remote_pkgs ops pp)).
Proof.
  intros d. unfold d, layer_metadata. cbv zeta.
  split_and!; repeat first [rewrite lookup_insert_eq; reflexivity|rewrite lookup_insert_ne by done].
Qed.

(** C18: what [rpmostree_deployment_get_layered_info] reads of a deployed layer, by keys and
    types, is what the layer was made of: it is a layer of the current version on the given
    base, with the requested packages of the treefile and exactly the removals and replacements
    that [rpmostree_context_prepare] recorded, local ones apart from those of each source. *)
Theorem layered_commit_roundtrip removed replaced parent s tr csum s' :
  parent ≠ ""%string →
  commit (Some (removed, replaced)) (Some parent) RPMOSTREE_ASSEMBLE_TYPE_CLIENT_LAYERING s = (tr, Ok (csum, s')) →
  ∃ layer, CmCommitWritten layer csum ∈ tr ∧
    (∀ type_mismatch load, load csum = Done layer →
     ∃ info, rpmostree_deployment_get_layered_info type_mismatch csum load = Ok info ∧
       li_is_layered info = true ∧ li_layer_version info = 6%N ∧ li_base_layer info = Some parent ∧
       li_layered_pkgs info = Origin.get_packages (cf_derive (cx_treefile cx)) ∧
       (∀ g, g ∈ li_removed_base_pkgs info ↔ ∃ name, removed !! name = Some g) ∧
       (∀ new old, (new, old) ∈ li_replaced_base_local_pkgs info ↔
          ∃ t, replaced !! ""%string = Some t ∧ t !! new = Some old) ∧
       (∀ source new old, (∃ l, (source, l) ∈ li_replaced_base_remote_pkgs info ∧ (new, old) ∈ l) ↔
          source ≠ ""%string ∧ ∃ t, replaced !! source = Some t ∧ t !! new = Some old)).
Proof.
  intros Hp Hrun. unfold rpmostree_context_commit in Hrun.
  apply prog_bind_inv in Hrun as (? & ? & ? & ? & _ & Hrun & ->).
  apply prog_bind_inv in Hrun as (? & s1 & ? & tr1 & _ & Hrun & ->).
  unfold with_cleanup in Hrun.
  destruct (layer_of (Some (removed, replaced)) parent s1) as [tr2 [[c2 s2]| |]] eqn:Hl;
    unfold mbind, prog_bind in Hrun; rewrite Hl in Hrun; [|done..]. simpl in Hrun.
  injection Hrun as <- <- <-.
  apply write_layer_spec in Hl as (layer & version & rpmdb & Hin & Hpar & Hmd).
  exists layer. split; [rewrite !elem_of_app; auto|]. intros type_mismatch load Hload.
  unfold rpmostree_deployment_get_layered_info, deployment_layeredmeta_from_commit_impl, vardict_lookup_strv, lc_commit,
    lookup_packages, lookup_pairs, lookup_sources. rewrite Hload. simpl. rewrite !lookup_fmap.
  destruct (layer_entries (Some (removed, replaced)) version rpmdb) as (E1 & E2 & E3 & E4 & E5 & E6). cbv zeta in *.
  apply Hmd in E1, E2, E3, E4, E5, E6; try by apply (bool_decide_unpack _).
  rewrite E1. simpl. rewrite Hpar. simpl. rewrite E2. simpl. rewrite E3. simpl.
  rewrite E4, E5, E6. simpl.
  rewrite bool_decide_eq_false_2 by done. eexists. split; [done|]. simpl.
  split_and!; try done;
    [apply (removed_elem removed replaced)|apply (replaced_local_elem removed)|apply (replaced_remote_elem removed)].
Qed.
End commit.

(** * An instance *)

Definition ex_commit_ops : CommitOps :=
  MkCommitOps (Done tt) (Done tt) (λ _, Done (MkCommit {["version"%string := VString "40.1"]} None)) (λ _, 7%N)
    (Done []) (Done "treefile"%string) (λ s, "sha512:" +:+ s) (Done tt) false (Failed (GError G_IO_ERROR_FAILED ""))
    (Done tt) (λ d, Done (<["ostree.linux"%string := MPlain (VString "6.8")]> (delete "ostree.linux"%string d)))
    (λ _, Done "c0ffee"%string) (Done tt) (Done tt) (λ m, (map_to_list m).*2) map_to_list map_to_list.
#[local] Instance ex_commit_laws : CommitLaws ex_commit_ops.
Proof.
  split; [done..|]. simpl. intros d d' k v [= <-] H1 H2 H. by rewrite lookup_insert_ne, lookup_delete_ne.
Qed.

Definition ex_commit (replaced : Replacements) :=
  rpmostree_context_commit true (λ _ _, 0%Z) ex_commit_ops ex_cx false None ex_solution
    (Some (pp_pkgs_to_remove ex_prepared.1, replaced)) (Some "base"%string) RPMOSTREE_ASSEMBLE_TYPE_CLIENT_LAYERING
    (MkCommitState true true).

Lemma layered_commit_roundtrip_witness :
  ∃ layer, CmCommitWritten layer "c0ffee" ∈ (ex_commit (pp_pkgs_to_replace ex_prepared.1)).1 ∧
    (∃ info, rpmostree_deployment_get_layered_info "" "c0ffee" (λ _, Done layer) = Ok info ∧
       li_layered_pkgs info = ["htop"%string] ∧ gv_nevra_from_pkg ex_nano1 ∈ li_removed_base_pkgs info).
Proof.
  destruct (layered_commit_roundtrip true (λ _ _, 0%Z) ex_commit_ops ex_cx false None ex_solution
    (pp_pkgs_to_remove ex_prepared.1) (pp_pkgs_to_replace ex_prepared.1) "base" (MkCommitState true true) _ "c0ffee"
    (MkCommitState false false) ltac:(done) ltac:(vm_compute; reflexivity)) as (layer & Hin & Hread).
  exists layer. split; [exact Hin|].
  destruct (Hread ""%string (λ _, Done layer) eq_refl) as (info & Hi & _ & _ & _ & Hp & Hr & _).
  exists info. split_and!; [exact Hi|rewrite Hp; vm_compute; reflexivity|].
  apply Hr. exists "nano"%string. vm_compute. reflexivity.
Defined.
