(* ===== verification/Client.v ===== *)
(** The client's side of a transaction: the console, following a transaction on its
    connection, and the modifiers of a request, from [src/app/rpmostree-clientlib.cxx],
    [src/app/rpmostree-libbuiltin.cxx], [src/libpriv/rpmostree-output.cxx],
    [rust/src/console_progress.rs] and [rust/src/client.rs]. What the daemon sends, what a
    call to it gives and the files and URLs on the command line are parameters. *)

From S2P Require Import Prelude Vardict Refspec Origin Transaction Deploy FileTree.

(** * The console *)

Inductive ProgressType := PtTask | PtNItems (n : N) | PtPercent.
(** The one progress bar, with its message. *)
Abbreviation Console := (option (ProgressType * string)).

(** A second progress bar, or an update without one, is a panic. *)
Definition assert_empty (c : Console) : outcome unit :=
  match c with None => Ok tt | Some _ => Abort end.
Definition console_progress_begin_task (msg : string) (c : Console) : outcome Console :=
  _ ← assert_empty c; Ok (Some (PtTask, msg)).
Definition console_progress_begin_n_items (msg : string) (n : N) (c : Console) : outcome Console :=
  _ ← assert_empty c; Ok (Some (PtNItems n, msg)).
Definition console_progress_begin_percent (msg : string) (c : Console) : outcome Console :=
  _ ← assert_empty c; Ok (Some (PtPercent, msg)).
Definition console_progress_set_message (msg : string) (c : Console) : outcome Console :=
  match c with Some (ptype, _) => Ok (Some (ptype, msg)) | None => Abort end.
Definition console_progress_set_sub_message (c : Console) : outcome Console :=
  match c with Some _ => Ok c | None => Abort end.
Definition console_progress_update (c : Console) : outcome Console :=
  match c with Some (PtTask, _) | None => Abort | Some _ => Ok c end.
Definition console_progress_end (c : Console) : outcome Console :=
  match c with Some _ => Ok None | None => Abort end.

(** Output of code that does not run in a transaction. *)
Definition rpmostree_output_default_handler (o : output) (c : Console) : outcome Console :=
  match o with
  | OutMessage _ => Ok c
  | OutProgressBegin percent n prefix =>
      if percent then console_progress_begin_percent prefix c
      else if decide (0 < n)%N then console_progress_begin_n_items prefix n c
      else console_progress_begin_task prefix c
  | OutProgressUpdate _ => console_progress_update c
  | OutProgressSubMessage _ => console_progress_set_sub_message c
  | OutProgressEnd => console_progress_end c
  end.

(** * State and effects *)

(** The calls that start a transaction. *)
Inductive method_call :=
  | CallDeploy (revision : string) (options : vardict)
  | CallUpgrade (options : vardict)
  | CallRebase (options : vardict) (refspec : string)
  | CallPkgChange (options : vardict) (packages_added packages_removed : list string)
  | CallUpdateDeployment (modifiers options : vardict) (fd_list : list Z)
  | CallAutomaticUpdateTrigger (options : vardict)
  | CallDownloadDeployRpmDiff (revision : string)
  | CallRollback (options : vardict)
  | CallCleanup (types : list string)
  | CallRefreshMd (options : vardict)
  | CallFinalizeDeployment (options : vardict)
  | CallSetInitramfsState (regenerate : bool) (args : list string) (options : vardict)
  | CallInitramfsEtc (track untrack : list string) (untrack_all force_sync : bool) (options : vardict)
  | CallKernelArgs (existing : string) (added replaced deleted : list string) (options : vardict).

Inductive clevent :=
  | Printed (s : string)
  | PrintedErr (s : string)
  | ConsoleSet (c : Console)
  | RegisterClientCalled (id : string)
  | MethodCalled (c : method_call)
  | TxnStarted (address : string)
  | TxnCancelled
  | ReloadCalled
  | DiffPrinted
  | CachedUpdatePrinted (verbose : bool)
  | PackageDiffPrinted
  | ApplyLiveFinished
  | Confirmed
  | CacheRemoved
  | ContainerRebuilt (treefile : Treefile) (repos : list string) (releasever : option string).

(** [progress], [error] and [quit] are the [TransactionProgress] of the transaction that is
    followed, with its loop; the cancellable, the exit code and the property DefaultDeployment
    of the proxy are the process's. *)
Record ClientState := MkClientState {
  cl_console : Console;
  cl_progress : bool;
  cl_error : option gerror;
  cl_quit : bool;
  cl_cancelled : bool;
  cl_exit_code : Z;
  cl_default_deployment : vardict;
}.
Definition set_console c s := MkClientState c (cl_progress s) (cl_error s) (cl_quit s) (cl_cancelled s) (cl_exit_code s) (cl_default_deployment s).
Definition set_progress b s := MkClientState (cl_console s) b (cl_error s) (cl_quit s) (cl_cancelled s) (cl_exit_code s) (cl_default_deployment s).
Definition set_error e s := MkClientState (cl_console s) (cl_progress s) e (cl_quit s) (cl_cancelled s) (cl_exit_code s) (cl_default_deployment s).
Definition set_quit s := MkClientState (cl_console s) (cl_progress s) (cl_error s) true (cl_cancelled s) (cl_exit_code s) (cl_default_deployment s).
Definition set_cancelled s := MkClientState (cl_console s) (cl_progress s) (cl_error s) (cl_quit s) true (cl_exit_code s) (cl_default_deployment s).
Definition set_exit_code c s := MkClientState (cl_console s) (cl_progress s) (cl_error s) (cl_quit s) (cl_cancelled s) c (cl_default_deployment s).
Definition set_default_deployment d s := MkClientState (cl_console s) (cl_progress s) (cl_error s) (cl_quit s) (cl_cancelled s) (cl_exit_code s) d.
(** [transaction_progress_new] *)
Definition transaction_progress_new s :=
  MkClientState (cl_console s) false None false (cl_cancelled s) (cl_exit_code s) (cl_default_deployment s).

Definition RPM_OSTREE_EXIT_UNCHANGED : Z := 77.

Local Abbreviation P := (prog clevent ClientState).
Definition print (s : string) : P unit := perform (Printed s) (Ok tt).
Definition printerr (s : string) : P unit := perform (PrintedErr s) (Ok tt).
Definition on_console (f : Console → outcome Console) : P unit :=
  s ← get_self;
  c ← lift (f (cl_console s));
  _ ← modify (set_console c);
  perform (ConsoleSet c) (Ok tt).

(** * Following a transaction *)

(** What reaches the main loop of the client: the signals of the transaction, a new owner of
    the daemon's name, and Ctrl-C. *)
Inductive session_event :=
  | SigOutput (e : emission)
  | SigDownloadProgress (line : string)
  | SigSignatureProgress
  | SigFinished (success : bool) (error_message : string)
  | NameOwnerChanged
  | Sigint.
(** What ends a session at the latest: the transaction finishes or the daemon goes away. *)
Inductive session_end := EndFinished (success : bool) (error_message : string) | EndOwnerChanged.
Definition end_event (e : session_end) : session_event :=
  match e with EndFinished success msg => SigFinished success msg | EndOwnerChanged => NameOwnerChanged end.

(** [g_dbus_error_new_for_dbus_error]; the name of the error, which is put in front of the
    message, is stripped again before the message is shown. *)
Definition dbus_failed (msg : string) : gerror := GError G_IO_ERROR_DBUS_ERROR msg.

Definition transaction_progress_end : P unit :=
  s ← get_self;
  _ ← when (cl_progress s) (_ ← on_console console_progress_end; modify (set_progress false));
  modify set_quit.

Section session.
Context (quiet : bool).

Definition on_finished (success : bool) (error_message : string) : P unit :=
  s ← get_self;
  _ ← match cl_error s with
      | None => when (negb success) (modify (set_error (Some (dbus_failed error_message))))
      | Some _ => mret tt
      end;
  transaction_progress_end.

Definition on_output (e : emission) : P unit :=
  s ← get_self;
  match e with
  | EmMessage text => print (text +:+ nl)
  | EmTaskBegin text =>
      _ ← modify (set_progress true);
      on_console (console_progress_begin_task text)
  | EmTaskEnd _ | EmProgressEnd =>
      when (cl_progress s) (
        _ ← on_console console_progress_end;
        modify (set_progress false))
  | EmPercentProgress text _ =>
      _ ← when (negb (cl_progress s)) (
            _ ← modify (set_progress true);
            on_console (console_progress_begin_percent (default ""%string text)));
      on_console console_progress_update
  end.

Definition on_download_progress (line : string) : P unit :=
  s ← get_self;
  if negb (cl_progress s) then
    _ ← modify (set_progress true);
    on_console (console_progress_begin_task line)
  else on_console (console_progress_set_message line).

Definition on_transaction_progress (e : session_event) : P unit :=
  match e with
  | SigFinished success error_message => on_finished success error_message
  | SigOutput e => when (negb quiet) (on_output e)
  | SigDownloadProgress line => when (negb quiet) (on_download_progress line)
  | _ => mret tt
  end.

Definition on_owner_changed : P unit :=
  _ ← modify (set_error (Some (dbus_failed "Bus owner changed, aborting. This likely means the daemon crashed; check logs with `journalctl -xe`.")));
  transaction_progress_end.

(** [on_sigint]; cancelling runs [cancelled_handler], whose call's result is ignored. *)
Definition on_sigint : P unit :=
  s ← get_self;
  if negb (cl_cancelled s) then
    _ ← printerr ("Caught SIGINT, cancelling transaction" +:+ nl);
    _ ← modify set_cancelled;
    perform TxnCancelled (Ok tt)
  else printerr ("Awaiting transaction cancellation..." +:+ nl).

Definition dispatch (e : session_event) : P unit :=
  match e with
  | NameOwnerChanged => on_owner_changed
  | Sigint => on_sigint
  | e => on_transaction_progress e
  end.
(** The loop runs until it is told to quit. *)
Fixpoint g_main_loop_run (events : list session_event) (last : session_end) : P unit :=
  match events with
  | [] => dispatch (end_event last)
  | e :: events =>
      _ ← dispatch e;
      s ← get_self;
      if cl_quit s then mret tt else g_main_loop_run events last
  end.

(** What the client meets on the connection of a transaction: the object manager (on a message
    bus), the failpoint, the connection, the answer to Start with the title of the transaction,
    what comes then, and the default deployment once the daemon reloaded. *)
Record Session := MkSession {
  se_object_manager : result unit;
  se_failpoint : result unit;
  se_connect : result unit;
  se_start : result bool;
  se_title : string;
  se_events : list session_event;
  se_end : session_end;
  se_default_deployment : vardict;
}.

Definition impl_transaction_get_response_sync (address : string) (se : Session) : P unit :=
  _ ← modify transaction_progress_new;
  _ ← on_error "Failed to initialize object manager client" (call (se_object_manager se));
  _ ← call (se_failpoint se);
  _ ← on_error "Failed to connect to client transaction" (call (se_connect se));
  just_started ← on_error "Failed to start transaction" (performs (TxnStarted address) (se_start se));
  _ ← when (negb just_started) (print ("Attaching to existing transaction: " +:+ se_title se +:+ nl));
  _ ← g_main_loop_run (se_events se) (se_end se);
  s ← get_self;
  if cl_cancelled s then lift (g_set_error G_IO_ERROR_CANCELLED "Operation was cancelled")
  else match cl_error s with
       | Some e => lift (Err e)
       | None => mret tt
       end.

(** On success the daemon is asked to reload, so that its properties are up to date. *)
Definition rpmostree_transaction_get_response_sync (address : string) (se : Session) : P unit :=
  _ ← impl_transaction_get_response_sync address se;
  _ ← perform ReloadCalled (Ok tt);
  modify (set_default_deployment (se_default_deployment se)).
End session.

(** * After a transaction *)

#[global] Instance variant_eq_dec : EqDecision variant.
Proof. solve_decision. Defined.

Definition get_id_from_deployment_variant (deployment : vardict) : outcome string :=
  match vardict_lookup_string deployment "id" with Some id => Ok id | None => Abort end.
Definition rpmostree_has_new_default_deployment (previous_deployment : vardict) : P bool :=
  s ← get_self;
  let new_deployment := cl_default_deployment s in
  if bool_decide (previous_deployment = new_deployment) then mret false
  else
    previous_id ← lift (get_id_from_deployment_variant previous_deployment);
    new_id ← lift (get_id_from_deployment_variant new_deployment);
    mret (negb (bool_decide (previous_id = new_id))).

(** The environment of a command: the answers to its calls, the transactions they start, and
    the results of what it does by itself. *)
Record ClientOps := MkClientOps {
  cp_quiet : bool;
  cp_call : method_call → result string;
  cp_session : string → Session;
  cp_print_diff : result unit;
  cp_load_sysroot : result unit;
  cp_applylive_finish : result unit;
  (** [client_handle_fd_argument] of Fedora's URLs, and opening and downloading files. *)
  cp_fedora_integration : string → bool → result (option (list Z));
  cp_download_url : string → result Z;
  cp_open : string → result Z;
  (** [g_unix_fd_list_append]: duplicating a descriptor. *)
  cp_dup : Z → result unit;
}.

Section client.
Context (ops : ClientOps).

(** Call a method that starts a transaction. *)
Definition call_method (c : method_call) : P string := performs (MethodCalled c) (cp_call ops c).
Definition get_response (address : string) : P unit :=
  rpmostree_transaction_get_response_sync (cp_quiet ops) address (cp_session ops address).

Definition print_treepkg_diff_from_sysroot_path : P unit := performs DiffPrinted (cp_print_diff ops).

Definition rpmostree_transaction_client_run (options : vardict) (exit_unchanged_77 : bool)
    (transaction_address : string) (previous_deployment : vardict) : P unit :=
  _ ← get_response transaction_address;
  let opt key := vardict_lookup_bool options key false in
  if opt "print-interactive" then mret tt
  else if opt "dry-run" then print ("Exiting because of '--dry-run' option" +:+ nl)
  else if negb (opt "reboot") then
    changed ← rpmostree_has_new_default_deployment previous_deployment;
    if negb changed then when exit_unchanged_77 (modify (set_exit_code RPM_OSTREE_EXIT_UNCHANGED))
    else if negb (opt "apply-live") then
      _ ← print_treepkg_diff_from_sysroot_path;
      print ("Changes queued for next boot. Run " +:+ dquote +:+ "systemctl reboot" +:+ dquote +:+ " to start a reboot" +:+ nl)
    else
      _ ← call (cp_load_sysroot ops);
      performs ApplyLiveFinished (cp_applylive_finish ops)
  else mret tt.

(** * Packages and modifiers *)

Definition is_http_arg (arg : string) : bool := starts_with "https://" arg || starts_with "http://" arg.
Definition is_rpm_arg (arg : string) : bool := ends_with ".rpm" arg || starts_with "file://" arg.
Definition is_src_rpm_arg (arg : string) : bool := ends_with ".src.rpm" arg.

(** The descriptors of an argument; none for the name of a package. *)
Definition client_handle_fd_argument (arg : string) (is_replace : bool) : outcome (list Z) :=
  prefix_error ("Handling argument " +:+ arg) (
    fds ← returned (cp_fedora_integration ops arg is_replace);
    match fds with
    | Some fds => Ok fds
    | None =>
        if is_src_rpm_arg arg
        then glnx_throw (arg +:+ " appears to be a source RPM which are not usually intended to be installed")
        else if is_http_arg arg then fd ← returned (cp_download_url ops arg); Ok [fd]
        else if is_rpm_arg arg then
          fd ← returned (cp_open ops (default arg (strip_prefix "file://" arg)));
          Ok [fd]
        else Ok []
    end).

(** [g_unix_fd_list_append]: the handle is the number of descriptors before. *)
Definition fd_list_append (fd_list : list Z) (fd : Z) : outcome (Z * list Z) :=
  _ ← returned (cp_dup ops fd);
  Ok (Z.of_nat (length fd_list), fd_list ++ [fd]).
Fixpoint fd_list_append_all (pkg : string) (fds : list Z) (fd_list : list Z) : outcome (list Z * list Z) :=
  match fds with
  | [] => Ok ([], fd_list)
  | fd :: fds =>
      '(idx, fd_list) ← prefix_error ("dup(" +:+ pkg +:+ ")") (fd_list_append fd_list fd);
      '(idxs, fd_list) ← fd_list_append_all pkg fds fd_list;
      Ok (idx :: idxs, fd_list)
  end.

(** The packages of repositories, and the handles of the others. *)
Fixpoint rpmostree_sort_pkgs_strv (pkgs : list string) (is_replace : bool) (fd_list : list Z) :
    outcome (list string * list Z * list Z) :=
  match pkgs with
  | [] => Ok ([], [], fd_list)
  | pkg :: pkgs =>
      fds ← client_handle_fd_argument pkg is_replace;
      match fds with
      | [] =>
          '(repo_pkgs, fd_idxs, fd_list) ← rpmostree_sort_pkgs_strv pkgs is_replace fd_list;
          Ok (pkg :: repo_pkgs, fd_idxs, fd_list)
      | fds =>
          '(idxs, fd_list) ← fd_list_append_all pkg fds fd_list;
          '(repo_pkgs, fd_idxs, fd_list) ← rpmostree_sort_pkgs_strv pkgs is_replace fd_list;
          Ok (repo_pkgs, idxs ++ fd_idxs, fd_list)
      end
  end.

Definition vardict_insert_strv (key : string) (strv : option (list string)) (dict : vardict) : vardict :=
  match strv with Some (x :: l) => <[key := VStrv (x :: l)]> dict | _ => dict end.

Definition vardict_sort_and_insert_pkgs (key_prefix : string) (is_replace : bool) (pkgs : option (list string))
    (st : vardict * list Z) : outcome (vardict * list Z) :=
  match pkgs with
  | None => Ok st
  | Some pkgs =>
      let '(dict, fd_list) := st in
      '(repo_pkgs, fd_idxs, fd_list) ← rpmostree_sort_pkgs_strv pkgs is_replace fd_list;
      let dict :=
        match repo_pkgs with
        | [] => dict
        | _ => <[(key_prefix +:+ "-packages")%string := VStrv repo_pkgs]> dict
        end in
      Ok (<[(key_prefix +:+ "-local-packages")%string := VHandles fd_idxs]> dict, fd_list)
  end.

Definition vardict_insert_string (key : string) (value : option string) (dict : vardict) : vardict :=
  match value with Some s => <[key := VString s]> dict | None => dict end.

(** What a command asks of UpdateDeployment; a list that is NULL is [None]. *)
Record Modifiers := MkModifiers {
  md_set_refspec : option string;
  md_set_revision : option string;
  md_install : option (list string);
  md_install_fileoverride : option (list string);
  md_uninstall : option (list string);
  md_override_replace : option (list string);
  md_override_remove : option (list string);
  md_override_reset : option (list string);
  md_local_repo_remote : option string;
  md_treefile : option string;
}.

Definition get_modifiers_variant (m : Modifiers) : outcome (vardict * list Z) :=
  st ← vardict_sort_and_insert_pkgs "install" false (md_install m) (∅, []);
  st ← vardict_sort_and_insert_pkgs "install-fileoverride" false (md_install_fileoverride m) st;
  '(dict, fd_list) ← vardict_sort_and_insert_pkgs "override-replace" true (md_override_replace m) st;
  let dict := vardict_insert_string "set-refspec" (md_set_refspec m) dict in
  let dict := vardict_insert_string "set-revision" (md_set_revision m) dict in
  let dict := vardict_insert_strv "uninstall-packages" (md_uninstall m) dict in
  let dict := vardict_insert_strv "override-remove-packages" (md_override_remove m) dict in
  let dict := vardict_insert_strv "override-reset-packages" (md_override_reset m) dict in
  '(dict, fd_list) ←
    match md_local_repo_remote m with
    | None => Ok (dict, fd_list)
    | Some path =>
        repo_dfd ← prefix_error "Opening local repository as remote" (returned (cp_open ops path));
        '(idx, fd_list) ← prefix_error "Adding FD for local repository" (fd_list_append fd_list repo_dfd);
        Ok (<["ex-local-repo-remote"%string := VHandle idx]> dict, fd_list)
    end;
  Ok (vardict_insert_string "treefile" (md_treefile m) dict, fd_list).

Definition rpmostree_update_deployment (m : Modifiers) (options : vardict) : P string :=
  on_error "Updating deployment" (
    '(modifiers, fd_list) ← lift (prefix_error "Preparing D-Bus arguments" (get_modifiers_variant m));
    call_method (CallUpdateDeployment modifiers options fd_list)).
End client.

(** * Connecting to the daemon *)

(** What connecting meets: starting the daemon's unit, the bus, whether the process is root or of
    an active session, the identity in the environment, the answers to RegisterClient (so many
    times none, because the daemon was about to exit, then one), and the proxies; the property
    Booted and the method GetOS give the object of an OS. *)
Record Connection := MkConnection {
  cn_client_start_daemon : result unit;
  cn_bus : result unit;
  cn_root : bool;
  cn_uid_state : option string;
  cn_client_id : option string;
  cn_no_replies : nat;
  cn_register : result unit;
  cn_sysroot_proxy : result unit;
  cn_osname : option string;
  cn_booted : option string;
  cn_get_os : string → result string;
  cn_os_proxy : string → result unit;
}.
Definition RPMOSTREE_CLI_ID : string := "cli".

Fixpoint register_client (id : string) (no_replies : nat) (reply : result unit) : P unit :=
  match no_replies with
  | 0 => on_error "Failed to invoke RegisterClient" (performs (RegisterClientCalled id) reply)
  | S no_replies => _ ← perform (RegisterClientCalled id) (Ok tt); register_client id no_replies reply
  end.
Definition app_load_sysroot_impl (cn : Connection) : P unit :=
  _ ← call (cn_client_start_daemon cn);
  _ ← on_error "Connecting to system bus" (call (cn_bus cn));
  let should_register := cn_root cn || bool_decide (cn_uid_state cn = Some "active"%string) in
  when should_register (register_client (default RPMOSTREE_CLI_ID (cn_client_id cn)) (cn_no_replies cn) (cn_register cn)).
Definition rpmostree_load_sysroot (cn : Connection) : P unit :=
  on_error "Loading sysroot" (
    _ ← app_load_sysroot_impl cn;
    _ ← call (cn_sysroot_proxy cn);
    perform ReloadCalled (Ok tt)).
(** The booted OS, unless one was named. *)
Definition rpmostree_load_os_proxies (cn : Connection) : P unit :=
  on_error "Creating OS client proxy" (
    os_object_path ← match cn_osname cn, cn_booted cn with
                     | None, Some path => mret path
                     | osname, _ => call (cn_get_os cn (default ""%string osname))
                     end;
    call (cn_os_proxy cn os_object_path)).

(** * Finding the active transaction *)

(** Each try reads the property, which is empty without a transaction, and connects; the last
    error is kept. *)
Fixpoint connect_active_tries (n_tries : nat) (txn_path : nat → string) (connect : nat → result unit) (i : nat)
    (last_error : gerror) : result (option string) :=
  match n_tries with
  | 0 => Failed last_error
  | S n_tries =>
      if bool_decide (txn_path i = ""%string) then Done None
      else match connect i with
           | Done _ => Done (Some (txn_path i))
           | Failed e => connect_active_tries n_tries txn_path connect (S i) e
           end
  end.
Definition max_tries : nat := 5.
Definition rpmostree_transaction_connect_active (txn_path : nat → string) (connect : nat → result unit) :
    result (option string) :=
  connect_active_tries max_tries txn_path connect 0 (GError G_IO_ERROR_FAILED "").

(** * Update drivers *)

Section driver.
(** [get_driver_info]: name and unit of the registered driver; the unit this process belongs to;
    the state and the documentation of the driver's unit. *)
Context (driver_info : result (option string * option string)) (unit_of_pid : result string)
  (active_state : string → result string) (documentation : string → result (list string)).

Definition check_sd_unit_contains_pid (sd_unit : string) : outcome bool :=
  process_sd_unit ← returned unit_of_pid;
  Ok (bool_decide (process_sd_unit = sd_unit)).
(** A driver that crashed counts. *)
Definition check_sd_unit_state_is_active (sd_unit : string) : outcome bool :=
  state ← returned (active_state sd_unit);
  Ok (bool_decide (state ∈ ["active"; "activating"; "reloading"; "failed"]%string)).
Definition append_docs_to_str (sd_unit : string) : string :=
  match documentation sd_unit with
  | Failed _ => ""
  | Done [] => nl
  | Done docs => " at " +:+ String.concat ", " docs +:+ nl
  end.

Definition error_if_driver_registered : outcome unit :=
  '(name, sd_unit) ← returned driver_info;
  match sd_unit, name with
  | Some sd_unit, Some name =>
      own ← check_sd_unit_contains_pid sd_unit;
      if own : bool then Ok tt
      else
        is_active ← check_sd_unit_state_is_active sd_unit;
        if negb is_active then Ok tt
        else glnx_throw ("Updates and deployments are driven by " +:+ name +:+ " (" +:+ sd_unit +:+ ")" +:+ nl
               +:+ "See " +:+ name +:+ "'s documentation" +:+ append_docs_to_str sd_unit
               +:+ "Use --bypass-driver to bypass " +:+ name +:+ " and perform the operation anyways")
  | _, _ => Ok tt
  end.
End driver.
