(* ===== verification/ClientCommands.v ===== *)
(** The commands of the client that start transactions, from [src/app]: how the command line
    turns into a call of the daemon, and what is done with the result. The syntax of options
    is GLib's: a command is given its options and its arguments after parsing. *)

From S2P Require Import Prelude Vardict Origin OriginFile Refspec Transaction Deploy FileTree Importer Client.

(** * The command line *)

(** [rpmostree_subcommand_parse]: the first argument that is not an option is the command;
    "--" ends the loop, and with it the arguments. The program name is left out. *)
Definition is_option (arg : string) : bool := starts_with "-" arg.
Fixpoint rpmostree_subcommand_parse (command_name : option string) (argv : list string) :
    option string * list string :=
  match argv with
  | [] => (command_name, [])
  | arg :: argv =>
      if negb (is_option arg) then
        match command_name with
        | None => rpmostree_subcommand_parse (Some arg) argv
        | Some _ =>
            let '(name, out) := rpmostree_subcommand_parse command_name argv in (name, arg :: out)
        end
      else if bool_decide (arg = "--"%string) then (command_name, [])
      else let '(name, out) := rpmostree_subcommand_parse command_name argv in (name, arg :: out)
  end.

Definition RPM_OSTREE_BUILTIN_FLAG_LOCAL_CMD : Z := Z.shiftl 1 0.
Definition RPM_OSTREE_BUILTIN_FLAG_REQUIRES_ROOT : Z := Z.shiftl 1 1.
Definition RPM_OSTREE_BUILTIN_FLAG_HIDDEN : Z := Z.shiftl 1 2.
Definition RPM_OSTREE_BUILTIN_FLAG_SUPPORTS_PKG_INSTALLS : Z := Z.shiftl 1 3.
Definition RPM_OSTREE_BUILTIN_FLAG_CONTAINER_CAPABLE : Z := Z.shiftl 1 4.

Definition commands : list (string * Z) :=
  let local := RPM_OSTREE_BUILTIN_FLAG_LOCAL_CMD in
  let root := RPM_OSTREE_BUILTIN_FLAG_REQUIRES_ROOT in
  let hidden := RPM_OSTREE_BUILTIN_FLAG_HIDDEN in
  let pkgs := RPM_OSTREE_BUILTIN_FLAG_SUPPORTS_PKG_INSTALLS in
  let container := RPM_OSTREE_BUILTIN_FLAG_CONTAINER_CAPABLE in
  [("compose", Z.lor local root); ("apply-live", 0%Z); ("cleanup", container); ("db", local); ("deploy", pkgs);
   ("rebase", pkgs); ("rollback", 0%Z); ("status", 0%Z); ("upgrade", pkgs); ("update", Z.lor pkgs hidden);
   ("reload", 0%Z); ("cancel", 0%Z); ("initramfs", 0%Z); ("install", container); ("uninstall", container);
   ("search", container); ("override", local); ("reset", pkgs); ("refresh-md", 0%Z); ("kargs", 0%Z);
   ("initramfs-etc", 0%Z); ("scriptlet-intercept", hidden); ("usroverlay", root); ("unlock", Z.lor root hidden);
   ("pkg-add", hidden); ("pkg-remove", hidden); ("rpm", Z.lor local hidden); ("remove", hidden);
   ("makecache", hidden); ("ex", Z.lor local hidden); ("testutils", Z.lor local hidden);
   ("shlib-backend", Z.lor local hidden); ("start-daemon", Z.lor (Z.lor local root) hidden);
   ("finalize-deployment", 0%Z)]%string.
Definition lookup_command (name : string) : option Z := (λ c, c.2.2) <$> list_find (λ c, c.1 = name) commands.

Definition override_subcommands : list (string * Z) :=
  let pkgs := RPM_OSTREE_BUILTIN_FLAG_SUPPORTS_PKG_INSTALLS in
  [("replace", Z.lor pkgs RPM_OSTREE_BUILTIN_FLAG_CONTAINER_CAPABLE);
   ("remove", Z.lor pkgs RPM_OSTREE_BUILTIN_FLAG_CONTAINER_CAPABLE); ("reset", pkgs)]%string.
Definition override_flags (name : string) : option Z := (λ c, c.2.2) <$> list_find (λ c, c.1 = name) override_subcommands.

(** The environment of a command besides [ClientOps]. *)
Record CommandEnv := MkCommandEnv {
  ce_ops : ClientOps;
  (** The arguments of the process, and [glib::shell_quote]. *)
  ce_argv : list string;
  ce_shell_quote : string → string;
  ce_containerenv : option string;
  ce_root : bool;
  ce_suppress_root_check : bool;
  ce_opt_sysroot : bool;
  ce_is_ostree_container : result bool;
  ce_ostree_booted : result bool;
  ce_connection : Connection;
  ce_error_if_driver_registered : outcome unit;
  ce_stdin_tty : bool;
  ce_stdout_tty : bool;
  ce_confirm_or_abort : result unit;
  ce_stage_container_rpm_raw_fds : list Z → result (list string);
  ce_container_rebuild : Treefile → list string → option string → result unit;
  ce_validate_checksum : string → outcome unit;
  ce_automatic_update_trigger : vardict → result (bool * string);
  ce_update_policy : string;
  (** The properties of the OS after a check for updates. *)
  ce_has_cached_update_rpm_diff : bool;
  ce_print_cached_update : result unit;
  (** The size of the diff GetCachedDeployRpmDiff gives. *)
  ce_cached_deploy_rpm_diff : option string → result nat;
  ce_is_image_reference : string → bool;
  ce_is_valid_nevra : string → bool;
  (** DownloadPackages, or the same without the daemon: the descriptors of packages of a source. *)
  ce_download_packages : list string → option string → result (list Z);
  ce_get_json_string : Treefile → string;
  (** GetDeploymentBootConfig, and the editor: the kernel arguments before and after it. *)
  ce_boot_config : string → bool → result vardict;
  ce_editor : string → result string;
  ce_sysroot_load : result unit;
  ce_sysroot_changed : result bool;
  (** [ostree_kernel_args_from_string] and back, without the "ostree" argument, if it is there. *)
  ce_drop_ostree_arg : string → result string;
  ce_has_ostree_arg : string → bool;
  (** The property Deployments. *)
  ce_deployments : list vardict;
  ce_remove_cachedir : result unit;
}.

Local Abbreviation P := (prog clevent ClientState).

Definition client_throw_non_ostree_host_error {A} (env : CommandEnv) : outcome A :=
  let msg := match ce_containerenv env with
             | Some containerenv => "; found container=" +:+ containerenv +:+ " environment variable."
             | None => "."
             end in
  glnx_throw ("This system was not booted via libostree" +:+ msg +:+ nl
              +:+ "Currently, most rpm-ostree commands only work on ostree-based host systems." +:+ nl).
Definition client_require_root (env : CommandEnv) : outcome unit :=
  if negb (ce_root env) && negb (ce_suppress_root_check env) then glnx_throw "This command requires root privileges"
  else Ok tt.

(** [rpmostree_option_context_parse] once GLib parsed the options; [has_proxy] says whether the
    command takes a connection to the daemon. *)
Definition rpmostree_option_context_parse (env : CommandEnv) (flags : Z) (has_proxy : bool) : P unit :=
  let use_daemon := negb (flag_set flags RPM_OSTREE_BUILTIN_FLAG_LOCAL_CMD) in
  _ ← lift (if flag_set flags RPM_OSTREE_BUILTIN_FLAG_REQUIRES_ROOT then client_require_root env else Ok tt);
  is_ostree_container ← call (ce_is_ostree_container env);
  let container_capable := flag_set flags RPM_OSTREE_BUILTIN_FLAG_CONTAINER_CAPABLE in
  if use_daemon && negb (is_ostree_container && container_capable) then
    if negb has_proxy then lift (glnx_throw "This command can only run in an OSTree container.")
    else
      _ ← (if negb (ce_opt_sysroot env) then
             booted ← call (ce_ostree_booted env);
             if booted : bool then mret tt else lift (client_throw_non_ostree_host_error env)
           else mret tt);
      rpmostree_load_sysroot (ce_connection env)
  else mret tt.

(** Every argument is quoted if it has to be, and followed by a space. *)
Definition rebuild_command_line (shell_quote : string → string) (argv : list string) : string :=
  String.concat "" ((λ a, maybe_shell_quote shell_quote a +:+ " ") <$> argv).

(** [rpmostree_main], with the functions of the commands and the help text: the exit code, if the
    command succeeds. *)
Definition rpmostree_main (help : string) (fn : string → list string → P unit) (argv : list string) : P Z :=
  let '(command_name, argv) := rpmostree_subcommand_parse None argv in
  match command_name with
  | None => _ ← printerr help; lift (glnx_throw "No command specified")
  | Some name =>
      match lookup_command name with
      | None => _ ← printerr help; lift (glnx_throw ("Unknown command '" +:+ name +:+ "'"))
      | Some _ =>
          _ ← modify (set_exit_code (-1));
          _ ← fn name argv;
          s ← get_self;
          mret (if bool_decide (cl_exit_code s = (-1)%Z) then 0%Z else cl_exit_code s)
      end
  end.
(** [rpmostree_handle_subcommand]: the exit code of the command becomes that of the invocation. *)
Definition rpmostree_handle_subcommand (command : string) (subcommands : list (string * Z)) (help : string)
    (fn : string → list string → P unit) (argv : list string) : P unit :=
  let '(subcommand_name, argv) := rpmostree_subcommand_parse None argv in
  match subcommand_name with
  | None =>
      _ ← printerr help;
      lift (glnx_throw ("No " +:+ dquote +:+ command +:+ dquote +:+ " subcommand specified"))
  | Some name =>
      if bool_decide (name ∈ subcommands.*1) then
        _ ← modify (set_exit_code (-1));
        fn name argv
      else
        _ ← printerr help;
        lift (glnx_throw ("Unknown " +:+ dquote +:+ command +:+ dquote +:+ " subcommand " +:+ dquote +:+ name +:+ dquote))
  end.

Definition usage_error {A} (message : string) : P A := lift (glnx_throw ("usage error: " +:+ message)).
Definition invalid_argument {A} (message : string) : P A := lift (g_set_error G_IO_ERROR_INVALID_ARGUMENT message).
Definition load_os_proxy (env : CommandEnv) : P unit := rpmostree_load_os_proxies (ce_connection env).
(** [rpmostree_os_dup_default_deployment] *)
Definition dup_default_deployment : P vardict := s ← get_self; mret (cl_default_deployment s).

(** A dictionary from its insertions, in order. *)
Definition vardict_of (l : list (string * variant)) : vardict := foldl (λ d '(k, v), <[k := v]> d) ∅ l.

Section commands.
Context (env : CommandEnv).
Local Abbreviation ops := (ce_ops env).

Definition command_line : variant := VString (rebuild_command_line (ce_shell_quote env) (ce_argv env)).
Definition update_deployment (m : Modifiers) (options : vardict) : P string := rpmostree_update_deployment ops m options.
Definition client_run := rpmostree_transaction_client_run ops.

(** * install and uninstall *)

Record PkgOptions := MkPkgOptions {
  po_reboot : bool;
  po_dry_run : bool;
  po_apply_live : bool;
  po_idempotent : bool;
  po_install : option (list string);
  po_assumeyes : bool;
  po_uninstall : option (list string);
  po_cache_only : bool;
  po_download_only : bool;
  po_allow_inactive : bool;
  po_uninstall_all : bool;
  po_unchanged_exit_77 : bool;
  po_lock_finalization : bool;
  po_force_replacefiles : bool;
  po_enable_repo : option (list string);
  po_disable_repo : option (list string);
  po_release_ver : option (list string);
}.

Definition pkg_change_options (o : PkgOptions) (cache_only print_interactive : bool) : vardict :=
  vardict_of ([("reboot", VBool (po_reboot o)); ("cache-only", VBool cache_only);
    ("download-only", VBool (po_download_only o)); ("no-pull-base", VBool true);
    ("dry-run", VBool (po_dry_run o || print_interactive)); ("print-interactive", VBool print_interactive);
    ("allow-inactive", VBool (po_allow_inactive o)); ("no-layering", VBool (po_uninstall_all o));
    ("idempotent-layering", VBool (po_idempotent o)); ("initiating-command-line", command_line);
    ("lock-finalization", VBool (po_lock_finalization o))]%string
    ++ if po_apply_live o then [("apply-live"%string, VBool true)] else []).

Definition met_local_pkg (packages_to_add : option (list string)) : bool :=
  existsb (λ p, ends_with ".rpm" p || starts_with "file://" p) (default [] packages_to_add).

(** The lists that are not given are empty, not NULL. *)
Definition pkg_change_call (o : PkgOptions) (options : vardict) (packages_to_add packages_to_remove : option (list string)) :
    P string :=
  let install_fileoverride_pkgs := if po_force_replacefiles o then default [] packages_to_add else [] in
  let install_pkgs := if po_force_replacefiles o then [] else default [] packages_to_add in
  let uninstall_pkgs := default [] packages_to_remove in
  if met_local_pkg packages_to_add || po_apply_live o || negb (bool_decide (install_fileoverride_pkgs = []))
  then update_deployment (MkModifiers None None (Some install_pkgs) (Some install_fileoverride_pkgs)
                            (Some uninstall_pkgs) None None None None None) options
  else call_method ops (CallPkgChange options install_pkgs uninstall_pkgs).

Definition pkg_change (o : PkgOptions) (cache_only print_interactive : bool)
    (packages_to_add packages_to_remove : option (list string)) : P unit :=
  _ ← load_os_proxy env;
  previous_deployment ← dup_default_deployment;
  let options := pkg_change_options o cache_only print_interactive in
  transaction_address ← pkg_change_call o options packages_to_add packages_to_remove;
  client_run options (po_unchanged_exit_77 o) transaction_address previous_deployment.

(** Applying live without "-y" is confirmed on a terminal, after a dry run. *)
Definition confirm_live (o : PkgOptions) (argv : list string) : P unit :=
  if negb (po_assumeyes o) && po_apply_live o && negb (po_dry_run o) then
    if negb (ce_stdin_tty env)
    then printerr ("notice: auto-inferring -y/--assumeyes when not run interactively; this will change in the future" +:+ nl)
    else
      _ ← pkg_change o (po_cache_only o) true (Some argv) (po_uninstall o);
      performs Confirmed (ce_confirm_or_abort env)
  else mret tt.

(** In a container the packages are added to an empty treefile and the container is rebuilt. *)
Fixpoint container_add_packages (argv : list string) (t : Treefile) : outcome Treefile :=
  match argv with
  | [] => Ok t
  | pkg :: argv =>
      fds ← client_handle_fd_argument ops pkg false;
      '(_, t) ← match fds with
                | [] => add_packages (ce_validate_checksum env) [pkg] true t
                | _ =>
                    pkgs ← returned (ce_stage_container_rpm_raw_fds env fds);
                    add_local_packages (ce_validate_checksum env) pkgs true t
                end;
      container_add_packages argv t
  end.
(** [enable_repo] and [disable_repo] *)
Definition split_all (d : ascii) (s : string) : list string := let '(h, t) := str_split d s in h :: t.
Definition enable_repos (repos : list string) : list string := repos ≫= split_all ",".
Fixpoint disable_repos (repos : list string) : outcome unit :=
  match repos with
  | [] => Ok tt
  | repo :: repos =>
      if bool_decide (repo = "*"%string) then disable_repos repos
      else glnx_throw ("Invalid --disablerepo=" +:+ dquote +:+ repo +:+ dquote +:+ " value, currently only '*' is supported")
  end.
Definition rpmostree_container_rebuild (t : Treefile) (repos : list string) (releasever : option string) : P unit :=
  performs (ContainerRebuilt t repos releasever) (ce_container_rebuild env t repos releasever).
Definition install_in_container (o : PkgOptions) (argv : list string) : P unit :=
  t ← lift (container_add_packages argv empty_treefile);
  _ ← lift (disable_repos (default [] (po_disable_repo o)));
  rpmostree_container_rebuild t (enable_repos (default [] (po_enable_repo o))) (last (default [] (po_release_ver o))).

Definition rpmostree_builtin_install (o : PkgOptions) (argv : list string) : P unit :=
  _ ← rpmostree_option_context_parse env (default 0%Z (lookup_command "install")) true;
  if bool_decide (argv = []) then usage_error "At least one PACKAGE must be specified"
  else
    _ ← confirm_live o argv;
    is_ostree_container ← call (ce_is_ostree_container env);
    if is_ostree_container : bool then install_in_container o argv
    else if nonnull (po_enable_repo o) then lift (glnx_throw "--enablerepo currently only works in a container build")
    else if nonnull (po_disable_repo o) then lift (glnx_throw "--disablerepo currently only works in a container build")
    else pkg_change o (po_cache_only o) false (Some argv) (po_uninstall o).

(** Without packages to install, uninstalling works offline. *)
Definition rpmostree_builtin_uninstall (o : PkgOptions) (argv : list string) : P unit :=
  _ ← rpmostree_option_context_parse env (default 0%Z (lookup_command "uninstall")) true;
  if bool_decide (argv = []) && negb (po_uninstall_all o) then usage_error "At least one PACKAGE must be specified"
  else
    is_ostree_container ← call (ce_is_ostree_container env);
    if is_ostree_container : bool then
      t ← lift (add_packages_override_remove argv empty_treefile);
      rpmostree_container_rebuild t [] None
    else pkg_change o (po_cache_only o || negb (nonnull (po_install o))) false (po_install o) (Some argv).

(** * upgrade *)

Record UpgradeOptions := MkUpgradeOptions {
  uo_reboot : bool;
  uo_allow_downgrade : bool;
  uo_preview : bool;
  uo_check : bool;
  uo_upgrade_unchanged_exit_77 : bool;
  uo_unchanged_exit_77 : bool;
  uo_cache_only : bool;
  uo_download_only : bool;
  uo_automatic : bool;
  uo_lock_finalization : bool;
  uo_bypass_driver : bool;
}.

Definition call_automatic_update_trigger (check_or_preview : bool) : P (bool * string) :=
  let options := vardict_of ([("mode"%string, VString (if check_or_preview then "check" else "auto"));
                              ("initiating-command-line"%string, command_line)]
                   ++ if check_or_preview || ce_stdout_tty env then [("output-to-self"%string, VBool false)] else []) in
  performs (MethodCalled (CallAutomaticUpdateTrigger options)) (ce_automatic_update_trigger env options).

Definition upgrade_options (o : UpgradeOptions) : vardict :=
  vardict_of [("reboot", VBool (uo_reboot o)); ("allow-downgrade", VBool (uo_allow_downgrade o));
    ("cache-only", VBool (uo_cache_only o)); ("download-only", VBool (uo_download_only o));
    ("lock-finalization", VBool (uo_lock_finalization o)); ("initiating-command-line", command_line)]%string.

(** The transaction, if there is one: with automatic updates turned off there is none. *)
Definition upgrade_call (o : UpgradeOptions) (check_or_preview : bool) (install_pkgs uninstall_pkgs : option (list string)) :
    P (option string) :=
  if uo_automatic o || check_or_preview then
    '(auto_updates_enabled, transaction_address) ← call_automatic_update_trigger check_or_preview;
    if auto_updates_enabled : bool then mret (Some transaction_address)
    else _ ← print ("Automatic updates are not enabled; exiting..." +:+ nl); mret None
  else
    transaction_address ←
      (if nonnull install_pkgs || nonnull uninstall_pkgs
       then update_deployment (MkModifiers None None install_pkgs None uninstall_pkgs None None None None None)
              (upgrade_options o)
       else call_method ops (CallUpgrade (upgrade_options o)));
    mret (Some transaction_address).

Definition reboot_hint : string := "Run " +:+ dquote +:+ "systemctl reboot" +:+ dquote +:+ " to start a reboot" +:+ nl.
(** The end of several commands: print what changed, or note that nothing did. *)
Definition report_changes (unchanged_exit_77 : bool) (previous_deployment : vardict) : P unit :=
  changed ← rpmostree_has_new_default_deployment previous_deployment;
  if negb changed then when unchanged_exit_77 (modify (set_exit_code RPM_OSTREE_EXIT_UNCHANGED))
  else
    _ ← print_treepkg_diff_from_sysroot_path ops;
    print reboot_hint.

Definition rpmostree_builtin_upgrade (o : UpgradeOptions) (install_pkgs uninstall_pkgs : option (list string)) : P unit :=
  _ ← rpmostree_option_context_parse env (default 0%Z (lookup_command "upgrade")) true;
  if uo_reboot o && uo_preview o then invalid_argument "Cannot specify both --reboot and --preview"
  else if uo_reboot o && uo_check o then invalid_argument "Cannot specify both --reboot and --check"
  else if uo_preview o && (nonnull install_pkgs || nonnull uninstall_pkgs)
  then invalid_argument "Cannot specify both --preview and --install/--uninstall"
  else
    let opt_check := uo_check o && negb (uo_preview o) in
    _ ← load_os_proxy env;
    _ ← when (negb (uo_automatic o) && bool_decide (ce_update_policy env = "stage"%string))
          (print ("note: automatic updates (stage) are enabled" +:+ nl));
    _ ← lift (if negb (uo_bypass_driver o) then ce_error_if_driver_registered env else Ok tt);
    previous_deployment ← dup_default_deployment;
    let check_or_preview := opt_check || uo_preview o in
    transaction ← upgrade_call o check_or_preview install_pkgs uninstall_pkgs;
    match transaction with
    | None => mret tt
    | Some transaction_address =>
        _ ← get_response ops transaction_address;
        if check_or_preview then
          _ ← printerr ("Note: --check and --preview may be unreliable.  See https://github.com/coreos/rpm-ostree/issues/1579" +:+ nl);
          if negb (ce_has_cached_update_rpm_diff env) then
            _ ← print ("No updates available." +:+ nl);
            modify (set_exit_code RPM_OSTREE_EXIT_UNCHANGED)
          else performs (CachedUpdatePrinted (uo_preview o)) (ce_print_cached_update env)
        else if negb (uo_reboot o)
        then report_changes (uo_upgrade_unchanged_exit_77 o || uo_unchanged_exit_77 o) previous_deployment
        else mret tt
    end.

(** * rebase *)

Record RebaseOptions := MkRebaseOptions {
  ro_reboot : bool;
  ro_skip_purge : bool;
  ro_branch : option string;
  ro_remote : option string;
  ro_custom_origin_url : option string;
  ro_custom_origin_description : option string;
  ro_cache_only : bool;
  ro_download_only : bool;
  ro_disallow_downgrade : bool;
  ro_lock_finalization : bool;
  ro_bypass_driver : bool;
}.

(** [strrchr (s, ':')] *)
Fixpoint rsplit_colon (s : string) : option (string * string) :=
  match s with
  | EmptyString => None
  | String c s =>
      match rsplit_colon s with
      | Some (a, b) => Some (String c a, b)
      | None => if bool_decide (c = ":"%char) then Some (""%string, s) else None
      end
  end.

(** The refspec and the revision of the command line. *)
Definition rebase_target (o : RebaseOptions) (argv : list string) : outcome (string * option string) :=
  match argv with
  | refspec :: argv => Ok (refspec, head argv)
  | [] =>
      match ro_remote o, ro_branch o with
      | Some remote, branch => Ok (remote +:+ ":" +:+ default "" branch, None)
      | None, Some branch => Ok (branch, None)
      | None, None => glnx_throw "usage error: Must specify refspec, or -b branch or -m remote"
      end
  end.
(** A path is a local repository: the repository, and the ref in it. *)
Definition local_repo (kind : RefspecType) (refspec : string) : outcome (option string * string) :=
  if bool_decide (refspec = ""%string) then glnx_throw "Refspec is empty"
  else if negb (bool_decide (kind = Container)) && starts_with "/" refspec then
    match rsplit_colon refspec with
    | None => glnx_throw "Missing ':' in LOCALPATH:REF rebase"
    | Some (path, ref) =>
        if bool_decide (ref = ""%string) then glnx_throw "Missing REF in LOCALPATH:REF rebase"
        else Ok (Some path, ref)
    end
  else Ok (None, refspec).

(** The value of "custom-origin" is a pair of strings. *)
Definition rebase_options (o : RebaseOptions) : outcome vardict :=
  let dict := vardict_of [("reboot", VBool (ro_reboot o)); ("allow-downgrade", VBool (negb (ro_disallow_downgrade o)));
    ("cache-only", VBool (ro_cache_only o)); ("download-only", VBool (ro_download_only o));
    ("skip-purge", VBool (ro_skip_purge o)); ("initiating-command-line", command_line);
    ("lock-finalization", VBool (ro_lock_finalization o))]%string in
  match ro_custom_origin_url o, ro_custom_origin_description o with
  | None, _ => Ok dict
  | Some _, None => glnx_throw "--custom-origin-description must be supplied with --custom-origin-url"
  | Some _, Some _ => Ok (<["custom-origin"%string := VOther]> dict)
  end.

(** The original Rebase call takes the revision through the options. *)
Definition rebase_call (options : vardict) (refspec : string) (revision local_repo_remote : option string)
    (install_pkgs uninstall_pkgs : option (list string)) : P (string * vardict) :=
  if nonnull install_pkgs || nonnull uninstall_pkgs || nonnull local_repo_remote then
    address ← update_deployment (MkModifiers (Some refspec) revision install_pkgs None uninstall_pkgs None None None
                                   local_repo_remote None) options;
    mret (address, options)
  else
    let options := vardict_insert_string "revision" revision options in
    address ← call_method ops (CallRebase options refspec);
    mret (address, options).

Definition rpmostree_builtin_rebase (o : RebaseOptions) (install_pkgs uninstall_pkgs : option (list string))
    (argv : list string) : P unit :=
  _ ← rpmostree_option_context_parse env (default 0%Z (lookup_command "rebase")) true;
  if (2 <? length argv)%nat then usage_error "Too many arguments"
  else
    _ ← lift (if negb (ro_bypass_driver o) then ce_error_if_driver_registered env else Ok tt);
    _ ← load_os_proxy env;
    '(refspec, revision) ← lift (rebase_target o argv);
    '(local_repo_remote, refspec) ← lift (local_repo (refspec_classify (ce_validate_checksum env) (ce_is_image_reference env) refspec) refspec);
    previous_deployment ← dup_default_deployment;
    options ← lift (rebase_options o);
    '(transaction_address, options) ← rebase_call options refspec revision local_repo_remote install_pkgs uninstall_pkgs;
    client_run options false transaction_address previous_deployment.

(** * deploy *)

Record DeployOptions := MkDeployOptions {
  do_register_driver : option string;
  do_reboot : bool;
  do_preview : bool;
  do_cache_only : bool;
  do_download_only : bool;
  do_lock_finalization : bool;
  do_disallow_downgrade : bool;
  do_unchanged_exit_77 : bool;
  do_bypass_driver : bool;
  do_skip_branch_check : bool;
  do_ex_cliwrap : option string;
}.

(** Without a revision the network is not touched. *)
Definition deploy_options (o : DeployOptions) (revision : option string) : outcome vardict :=
  cliwrap ← match do_ex_cliwrap o with
            | None => Ok []
            | Some value =>
                if bool_decide (value = "true"%string) then Ok [("ex-cliwrap"%string, VBool true)]
                else if bool_decide (value = "false"%string) then Ok [("ex-cliwrap"%string, VBool false)]
                else glnx_throw ("Expecting --ex-cli-wrap=true/false but found " +:+ value)
            end;
  Ok (vardict_of ([("reboot", VBool (do_reboot o)); ("allow-downgrade", VBool (negb (do_disallow_downgrade o)))]%string
    ++ (if nonnull revision then [] else [("no-pull-base"%string, VBool true)])
    ++ [("cache-only", VBool (do_cache_only o || negb (nonnull revision))); ("download-only", VBool (do_download_only o));
        ("skip-branch-check", VBool (do_skip_branch_check o)); ("lock-finalization", VBool (do_lock_finalization o));
        ("initiating-command-line", command_line)]%string
    ++ match do_register_driver o with Some driver => [("register-driver"%string, VString driver)] | None => [] end
    ++ cliwrap)).

Definition deploy_call (o : DeployOptions) (revision : option string) (install_pkgs uninstall_pkgs : option (list string)) :
    P string :=
  if do_preview o then
    address ← call_method ops (CallDownloadDeployRpmDiff (default ""%string revision));
    _ ← print ("Note: The information output from --preview may be unreliable.  See https://github.com/coreos/rpm-ostree/issues/1579" +:+ nl);
    mret address
  else
    _ ← lift (if negb (do_bypass_driver o) then ce_error_if_driver_registered env else Ok tt);
    options ← lift (deploy_options o revision);
    if nonnull install_pkgs || nonnull uninstall_pkgs || nonnull (do_ex_cliwrap o)
    then update_deployment (MkModifiers None revision install_pkgs None uninstall_pkgs None None None None None) options
    else call_method ops (CallDeploy (default ""%string revision) options).

Definition rpmostree_builtin_deploy (o : DeployOptions) (install_pkgs uninstall_pkgs : option (list string))
    (argv : list string) : P unit :=
  _ ← rpmostree_option_context_parse env (default 0%Z (lookup_command "deploy")) true;
  let revision := head argv in
  if negb (nonnull revision) && negb (nonnull (do_ex_cliwrap o) || nonnull (do_register_driver o))
  then usage_error "REVISION must be specified"
  else if do_preview o && (nonnull install_pkgs || nonnull uninstall_pkgs)
  then invalid_argument "Cannot specify both --preview and --install/--uninstall"
  else
    _ ← load_os_proxy env;
    previous_deployment ← dup_default_deployment;
    transaction_address ← deploy_call o revision install_pkgs uninstall_pkgs;
    _ ← get_response ops transaction_address;
    if do_preview o then
      n ← call (ce_cached_deploy_rpm_diff env revision);
      if bool_decide (n = 0) then when (do_unchanged_exit_77 o) (modify (set_exit_code RPM_OSTREE_EXIT_UNCHANGED))
      else perform PackageDiffPrinted (Ok tt)
    else if negb (do_reboot o) then report_changes (do_unchanged_exit_77 o) previous_deployment
    else mret tt.

(** * override *)

Record OverrideOptions := MkOverrideOptions {
  oo_reboot : bool;
  oo_cache_only : bool;
  oo_dry_run : bool;
  oo_reset_all : bool;
  oo_remove_pkgs : option (list string);
  oo_replace_pkgs : option (list string);
  oo_from : option string;
  oo_lock_finalization : bool;
  oo_experimental : bool;
  oo_freeze : bool;
}.

(** Local files, packages to freeze at the version that is found, and packages of the source. *)
Definition is_local_arg (arg : string) : bool := is_http_arg arg || is_rpm_arg arg.
Definition is_freeze_arg (o : OverrideOptions) (arg : string) : bool :=
  negb (is_local_arg arg) && (oo_freeze o || ce_is_valid_nevra env arg).
Definition is_remote_arg (o : OverrideOptions) (arg : string) : bool :=
  negb (is_local_arg arg) && negb (oo_freeze o || ce_is_valid_nevra env arg).
Definition null_if_empty (l : list string) : option (list string) := match l with [] => None | _ => Some l end.
Definition fd_path (fd : Z) : string := "file:///proc/self/fd/" +:+ pretty fd.
(** A list is NULL if it is empty. *)
Definition sort_replacements (o : OverrideOptions) (replacement_args : list string) :
    outcome (option (list string) * option (list string)) :=
  let local := filter (λ a, is_local_arg a = true) replacement_args in
  let freeze := filter (λ a, is_freeze_arg o a = true) replacement_args in
  let remote := filter (λ a, is_remote_arg o a = true) replacement_args in
  frozen ← (if bool_decide (freeze = []) then Ok []
            else fds ← returned (ce_download_packages env freeze (oo_from o)); Ok (fd_path <$> (fds : list Z)) : outcome (list string));
  Ok (null_if_empty (local ++ frozen), null_if_empty remote).

(** The local replacements, and the treefile with the others. *)
Definition override_replacements (o : OverrideOptions) (override_replace : option (list string)) :
    outcome (option (list string) * Treefile) :=
  match override_replace, oo_from o with
  | Some args, Some from =>
      '(local, remote) ← sort_replacements o args;
      match remote with
      | None => Ok (local, empty_treefile)
      | Some remote =>
          repo ← parse_override_source from;
          Ok (local, (add_packages_override_replace repo remote empty_treefile).2)
      end
  | _, _ => Ok (override_replace, empty_treefile)
  end.

Fixpoint container_replace_local (args : list string) (t : Treefile) : outcome Treefile :=
  match args with
  | [] => Ok t
  | arg :: args =>
      fds ← client_handle_fd_argument ops arg true;
      match fds with
      | [] => glnx_throw "Non-local replacement overrides not implemented yet"
      | _ =>
          pkgs ← returned (ce_stage_container_rpm_raw_fds env fds);
          t ← add_packages_override_replace_local (ce_validate_checksum env) pkgs t;
          container_replace_local args t
      end
  end.
Definition override_in_container (t : Treefile) (override_replace install_pkgs override_remove : option (list string)) : P unit :=
  t ← lift (container_replace_local (default [] override_replace) t);
  '(_, t) ← lift (add_packages (ce_validate_checksum env) (default [] install_pkgs) true t);
  t ← lift (add_packages_override_remove (default [] override_remove) t);
  rpmostree_container_rebuild t [] None.

Definition override_options (o : OverrideOptions) (cache_only : bool) : vardict :=
  vardict_of [("reboot", VBool (oo_reboot o)); ("cache-only", VBool cache_only); ("no-pull-base", VBool true);
    ("dry-run", VBool (oo_dry_run o)); ("no-overrides", VBool (oo_reset_all o));
    ("initiating-command-line", command_line); ("lock-finalization", VBool (oo_lock_finalization o))]%string.

Definition nonempty (l : option (list string)) : bool := match l with Some (_ :: _) => true | _ => false end.
Definition handle_override (o : OverrideOptions) (install_pkgs uninstall_pkgs : option (list string))
    (override_remove override_replace override_reset : option (list string)) : P unit :=
  is_ostree_container ← call (ce_is_ostree_container env);
  _ ← when (negb is_ostree_container) (load_os_proxy env);
  if negb (oo_experimental o) && (oo_freeze o || nonnull (oo_from o))
  then lift (glnx_throw "Must specify --experimental to use --freeze or --from")
  else if is_ostree_container && nonempty override_reset
  then lift (glnx_throw "Resetting overrides is not supported in container mode")
  else
    '(override_replace, treefile) ← lift (override_replacements o override_replace);
    if is_ostree_container : bool then override_in_container treefile override_replace install_pkgs override_remove
    else
      let cache_only := oo_cache_only o || (negb (nonnull override_replace) && negb (nonnull install_pkgs)) in
      let options := override_options o cache_only in
      previous_deployment ← dup_default_deployment;
      let treefile := if has_any_packages treefile then Some (ce_get_json_string env treefile) else None in
      transaction_address ← update_deployment
        (MkModifiers None None install_pkgs None uninstall_pkgs override_replace override_remove override_reset
           None treefile) options;
      _ ← get_response ops transaction_address;
      if oo_dry_run o then print ("Exiting because of '--dry-run' option" +:+ nl)
      else if negb (oo_reboot o) then
        changed ← rpmostree_has_new_default_deployment previous_deployment;
        if negb changed then mret tt
        else
          _ ← print_treepkg_diff_from_sysroot_path ops;
          _ ← when (nonnull override_replace || nonnull override_remove)
                (print ("Use " +:+ dquote +:+ "rpm-ostree override reset" +:+ dquote +:+ " to undo overrides" +:+ nl));
          print reboot_hint
      else mret tt.

(** The subcommands connect to the daemon unless they run in a container. *)
Definition rpmostree_override_builtin_replace (o : OverrideOptions) (install_pkgs uninstall_pkgs : option (list string))
    (argv : list string) : P unit :=
  _ ← rpmostree_option_context_parse env (default 0%Z (override_flags "replace")) true;
  if bool_decide (argv = []) then usage_error "At least one PACKAGE must be specified"
  else handle_override o install_pkgs uninstall_pkgs (oo_remove_pkgs o) (Some argv) None.
Definition rpmostree_override_builtin_remove (o : OverrideOptions) (install_pkgs uninstall_pkgs : option (list string))
    (argv : list string) : P unit :=
  _ ← rpmostree_option_context_parse env (default 0%Z (override_flags "remove")) true;
  if bool_decide (argv = []) then usage_error "At least one PACKAGE must be specified"
  else handle_override o install_pkgs uninstall_pkgs (Some argv) (oo_replace_pkgs o) None.
Definition rpmostree_override_builtin_reset (o : OverrideOptions) (install_pkgs uninstall_pkgs : option (list string))
    (argv : list string) : P unit :=
  _ ← rpmostree_option_context_parse env (default 0%Z (override_flags "reset")) true;
  if bool_decide (argv = []) && negb (oo_reset_all o) then usage_error "At least one PACKAGE must be specified"
  else if oo_reset_all o && negb (bool_decide (argv = [])) then usage_error "Cannot specify PACKAGEs with --all"
  else handle_override o install_pkgs uninstall_pkgs None None (Some argv).

(** * reset *)

Record ResetOptions := MkResetOptions {
  rt_reboot : bool;
  rt_overlays : bool;
  rt_overrides : bool;
  rt_initramfs : bool;
  rt_lock_finalization : bool;
}.

(** Without a choice, everything is reset; without packages to install, offline. *)
Definition reset_options (o : ResetOptions) (cache_only : bool) : vardict :=
  let all := negb (rt_overlays o) && negb (rt_overrides o) && negb (rt_initramfs o) in
  vardict_of [("reboot", VBool (rt_reboot o)); ("no-pull-base", VBool true); ("no-layering", VBool (rt_overlays o || all));
    ("no-overrides", VBool (rt_overrides o || all)); ("no-initramfs", VBool (rt_initramfs o || all));
    ("cache-only", VBool cache_only); ("initiating-command-line", command_line);
    ("lock-finalization", VBool (rt_lock_finalization o))]%string.

Definition rpmostree_builtin_reset (o : ResetOptions) (install_pkgs uninstall_pkgs : option (list string))
    (argv : list string) : P unit :=
  _ ← rpmostree_option_context_parse env (default 0%Z (lookup_command "reset")) true;
  if negb (bool_decide (argv = [])) then usage_error "Too few or too many arguments"
  else
    let options := reset_options o (negb (nonnull install_pkgs)) in
    _ ← load_os_proxy env;
    previous_deployment ← dup_default_deployment;
    transaction_address ← update_deployment
      (MkModifiers None None install_pkgs None uninstall_pkgs None None None None None) options;
    client_run options false transaction_address previous_deployment.

(** * kargs *)

Record KargsOptions := MkKargsOptions {
  ko_editor : bool;
  ko_import_proc_cmdline : bool;
  ko_reboot : bool;
  ko_delete : option (list string);
  ko_append : option (list string);
  ko_delete_if_present : option (list string);
  ko_append_if_missing : option (list string);
  ko_replace : option (list string);
  ko_deploy_index : option string;
  ko_lock_finalization : bool;
  ko_unchanged_exit_77 : bool;
}.

(** [g_ascii_isspace] *)
Definition is_space (c : ascii) : bool := bool_decide (c ∈ [" "; "009"; "010"; "012"; "013"]%char).
(** [g_strchug] and [g_strchomp] *)
Fixpoint g_strchug (s : string) : string :=
  match s with String c s' => if is_space c then g_strchug s' else s | EmptyString => EmptyString end.
Fixpoint g_strchomp (s : string) : string :=
  match s with
  | EmptyString => EmptyString
  | String c s =>
      match g_strchomp s with
      | EmptyString => if is_space c then EmptyString else String c EmptyString
      | s => String c s
      end
  end.
(** Comments and empty lines are skipped, the others joined. *)
Definition editor_lines (out : string) : list string :=
  filter (λ l, l ≠ ""%string ∧ starts_with "#" l = false) ((λ l, g_strchomp (g_strchug l)) <$> split_all "010" out).
Definition editor_args (out : string) : string :=
  g_strchomp (String.concat "" ((λ l, l +:+ " ") <$> editor_lines out)).

Definition editor_help : string :=
  String.concat nl ["# Current kernel arguments are shown below, and can be directly edited.";
    "# Empty or commented lines (starting with '#') will be ignored.";
    "# Individual kernel arguments should be separated by spaces, and the order "; "# is relevant.";
    "# Also, please note that any changes to the 'ostree=' argument will not be ";
    "# effective as they are usually regenerated when bootconfig changes."; ""; ""]%string.

(** The arguments of the editor, and whether they are others. *)
Definition kernel_arg_handle_editor (input_kernel_arg : string) : outcome (string * bool) :=
  filtered_input ← returned (ce_drop_ostree_arg env (g_strchomp input_kernel_arg));
  out ← returned (ce_editor env (editor_help +:+ filtered_input));
  let kernel_args_str := editor_args out in
  if ce_has_ostree_arg env kernel_args_str
  then g_set_error G_IO_ERROR_INVALID_ARGUMENT "You have an 'ostree' argument in your input, that is not going to be handled"
  else if bool_decide (kernel_args_str = ""%string)
  then g_set_error G_IO_ERROR_INVALID_ARGUMENT "The kernel arguments can not be empty"
  else Ok (kernel_args_str, negb (bool_decide (filtered_input = kernel_args_str))).

Definition kargs_options (o : KargsOptions) : list (string * variant) :=
  [("reboot", VBool (ko_reboot o)); ("initiating-command-line", command_line);
   ("lock-finalization", VBool (ko_lock_finalization o))]%string.
(** The call, with its options; nothing if the editor changed nothing. *)
Definition kargs_call (o : KargsOptions) (old_kernel_arg_string : string) : P (option (string * vardict)) :=
  if ko_editor o then
    _ ← call (ce_sysroot_load env);
    '(args, kargs_changed) ← lift (kernel_arg_handle_editor old_kernel_arg_string);
    if negb kargs_changed then
      if ko_unchanged_exit_77 o then
        _ ← print ("No changes." +:+ nl);
        _ ← modify (set_exit_code RPM_OSTREE_EXIT_UNCHANGED);
        mret None
      else invalid_argument "The kernel arguments remained the same"
    else
      sysroot_changed ← call (ce_sysroot_changed env);
      if sysroot_changed : bool
      then invalid_argument ("Conflict: bootloader configuration changed. Saved kernel arguments: " +:+ nl +:+ args)
      else
        let options := vardict_of (kargs_options o ++ [("final-kernel-args"%string, VString args)]) in
        address ← call_method ops (CallKernelArgs old_kernel_arg_string [] [] [] options);
        mret (Some (address, options))
  else
    let options := vardict_insert_strv "delete-if-present" (ko_delete_if_present o)
                     (vardict_insert_strv "append-if-missing" (ko_append_if_missing o) (vardict_of (kargs_options o))) in
    address ← call_method ops (CallKernelArgs old_kernel_arg_string (default [] (ko_append o)) (default [] (ko_replace o))
                                 (default [] (ko_delete o)) options);
    mret (Some (address, options)).

(** A boot configuration without options is a failure without an error, on which
    [rpmostree_main] asserts. *)
Definition rpmostree_builtin_kargs (o : KargsOptions) : P unit :=
  _ ← rpmostree_option_context_parse env (default 0%Z (lookup_command "kargs")) true;
  let changes := nonnull (ko_delete o) || nonnull (ko_replace o) || nonnull (ko_append o)
                 || nonnull (ko_delete_if_present o) || nonnull (ko_append_if_missing o) in
  if ko_editor o && changes
  then invalid_argument "Cannot specify --editor with --replace, --delete, --append, --delete-if-present or --append-if-missing"
  else if nonnull (ko_delete o) && nonnull (ko_replace o) then invalid_argument "Cannot specify both --delete and --replace"
  else if ko_import_proc_cmdline o && nonnull (ko_deploy_index o)
  then invalid_argument "Cannot specify both --import-from-proc-cmdline and --deploy-index"
  else if ko_import_proc_cmdline o && nonnull (cn_osname (ce_connection env))
  then invalid_argument "Cannot specify both osname and --import-from-proc-cmdline"
  else
    let display_kernel_args := negb changes && negb (ko_editor o) in
    if ko_reboot o && display_kernel_args then invalid_argument "Cannot reboot when kernel arguments not changed"
    else
      _ ← load_os_proxy env;
      boot_config ← call (ce_boot_config env (default ""%string (ko_deploy_index o)) (negb (ko_import_proc_cmdline o)));
      match vardict_lookup_string boot_config "options" with
      | None => lift Abort
      | Some old_kernel_arg_string =>
          if display_kernel_args then print (old_kernel_arg_string +:+ nl)
          else
            previous_deployment ← dup_default_deployment;
            r ← kargs_call o old_kernel_arg_string;
            match r with
            | None => mret tt
            | Some (transaction_address, options) =>
                client_run options (ko_unchanged_exit_77 o) transaction_address previous_deployment
            end
      end.

(** * The other transactions *)

Record InitramfsOptions := MkInitramfsOptions {
  io_enable : bool;
  io_disable : bool;
  io_add_arg : option (list string);
  io_reboot : bool;
  io_lock_finalization : bool;
}.
Definition reboot_options (reboot lock_finalization : bool) : vardict :=
  vardict_of [("reboot", VBool reboot); ("initiating-command-line", command_line);
              ("lock-finalization", VBool lock_finalization)]%string.

(** With a single deployment, regeneration is shown as disabled. *)
Definition show_initramfs : P unit :=
  let pending := match ce_deployments env with d :: _ :: _ => d | _ => ∅ end in
  let cur_regenerate := vardict_lookup_bool pending "regenerate-initramfs" false in
  _ ← print ("Initramfs regeneration: " +:+ (if cur_regenerate then "enabled" else "disabled") +:+ nl);
  match vardict_lookup_strv pending "initramfs-args" with
  | Some args =>
      when cur_regenerate (print ("Initramfs args: " +:+ String.concat "" ((λ a, a +:+ " ") <$> args) +:+ nl))
  | None => mret tt
  end.
Definition rpmostree_builtin_initramfs (o : InitramfsOptions) : P unit :=
  _ ← rpmostree_option_context_parse env (default 0%Z (lookup_command "initramfs")) true;
  _ ← load_os_proxy env;
  if negb (io_enable o || io_disable o) then
    if io_reboot o then lift (glnx_throw "--reboot must be used with --enable or --disable")
    else if nonnull (io_add_arg o) then lift (glnx_throw "--arg must be used with --enable")
    else show_initramfs
  else if io_enable o && io_disable o then lift (glnx_throw "Cannot simultaenously specify --enable and --disable")
  else if io_disable o && nonnull (io_add_arg o) then lift (glnx_throw "Cannot simultaenously specify --disable and --arg")
  else
    transaction_address ← call_method ops (CallSetInitramfsState (io_enable o) (default [] (io_add_arg o))
                            (reboot_options (io_reboot o) (io_lock_finalization o)));
    _ ← get_response ops transaction_address;
    _ ← print ("Initramfs regeneration is now: " +:+ (if io_enable o then "enabled" else "disabled") +:+ nl);
    when (negb (io_enable o)) (print ("Initramfs will be reset to default on next reboot." +:+ nl)).

Record InitramfsEtcOptions := MkInitramfsEtcOptions {
  eo_force_sync : bool;
  eo_track : option (list string);
  eo_untrack : option (list string);
  eo_untrack_all : bool;
  eo_reboot : bool;
  eo_lock_finalization : bool;
  eo_unchanged_exit_77 : bool;
}.
Definition show_initramfs_etc : P unit :=
  match vardict_lookup_strv (default ∅ (head (ce_deployments env))) "initramfs-etc" with
  | Some (f :: files) =>
      _ ← print ("Tracked files:" +:+ nl);
      for_each (λ f, print ("  " +:+ f +:+ nl)) (f :: files)
  | _ => print ("No tracked files." +:+ nl)
  end.
Definition rpmostree_builtin_initramfs_etc (o : InitramfsEtcOptions) : P unit :=
  _ ← rpmostree_option_context_parse env (default 0%Z (lookup_command "initramfs-etc")) true;
  _ ← load_os_proxy env;
  previous_deployment ← dup_default_deployment;
  if negb (nonnull (eo_track o) || nonnull (eo_untrack o) || eo_untrack_all o || eo_force_sync o) then
    if eo_reboot o
    then lift (glnx_throw "Cannot use ---reboot without --track, --untrack, --untrack-all, or --force-sync")
    else show_initramfs_etc
  else
    transaction_address ← call_method ops (CallInitramfsEtc (default [] (eo_track o)) (default [] (eo_untrack o))
                            (eo_untrack_all o) (eo_force_sync o) (reboot_options (eo_reboot o) (eo_lock_finalization o)));
    _ ← get_response ops transaction_address;
    if negb (eo_reboot o) then
      changed ← rpmostree_has_new_default_deployment previous_deployment;
      if negb changed then when (eo_unchanged_exit_77 o) (modify (set_exit_code RPM_OSTREE_EXIT_UNCHANGED))
      else print reboot_hint
    else mret tt.

Record CleanupOptions := MkCleanupOptions { co_base : bool; co_pending : bool; co_rollback : bool; co_repomd : bool }.
Definition cleanup_types (o : CleanupOptions) : list string :=
  (if co_base o then ["base"] else []) ++ (if co_pending o then ["pending-deploy"] else [])
  ++ (if co_rollback o then ["rollback-deploy"] else []) ++ (if co_repomd o then ["repomd"] else []).
Definition rpmostree_builtin_cleanup (o : CleanupOptions) (argv : list string) : P unit :=
  on_error "cleanup" (
    _ ← rpmostree_option_context_parse env (default 0%Z (lookup_command "cleanup")) true;
    if (1 <? length argv)%nat then usage_error "Too few or too many arguments"
    else if bool_decide (cleanup_types o = []) then lift (glnx_throw "At least one cleanup option must be specified")
    else
      is_ostree_container ← call (ce_is_ostree_container env);
      if is_ostree_container : bool then
        if bool_decide (length (cleanup_types o) = 1) && co_repomd o
        then on_error "Failed to remove /var/cache/rpm-ostree/" (performs CacheRemoved (ce_remove_cachedir env))
        else lift (client_throw_non_ostree_host_error env)
      else
        _ ← load_os_proxy env;
        transaction_address ← on_error "Invoking cleanup" (call_method ops (CallCleanup (cleanup_types o)));
        get_response ops transaction_address).

Definition rpmostree_builtin_rollback (opt_reboot : bool) : P unit :=
  _ ← rpmostree_option_context_parse env (default 0%Z (lookup_command "rollback")) true;
  _ ← load_os_proxy env;
  previous_deployment ← dup_default_deployment;
  let options := vardict_of [("reboot"%string, VBool opt_reboot)] in
  transaction_address ← call_method ops (CallRollback options);
  client_run options false transaction_address previous_deployment.

Definition rpmostree_builtin_refresh_md (opt_force : bool) (argv : list string) : P unit :=
  _ ← rpmostree_option_context_parse env (default 0%Z (lookup_command "refresh-md")) true;
  if (1 <? length argv)%nat then usage_error "Too few or too many arguments"
  else
    _ ← load_os_proxy env;
    transaction_address ← call_method ops (CallRefreshMd (vardict_of [("force"%string, VBool opt_force)]));
    get_response ops transaction_address.

Definition finalize (opt_allow_missing opt_allow_unlocked : bool) (checksum : option string) : P unit :=
  _ ← load_os_proxy env;
  let options := vardict_of (match checksum with Some c => [("checksum"%string, VString c)] | None => [] end
    ++ [("allow-missing-checksum", VBool opt_allow_missing); ("allow-unlocked", VBool opt_allow_unlocked);
        ("initiating-command-line", command_line)]%string) in
  transaction_address ← call_method ops (CallFinalizeDeployment options);
  get_response ops transaction_address.
Definition rpmostree_builtin_finalize_deployment (opt_allow_missing opt_allow_unlocked : bool) (argv : list string) : P unit :=
  _ ← rpmostree_option_context_parse env (default 0%Z (lookup_command "finalize-deployment")) true;
  match argv with
  | _ :: _ :: _ => usage_error "Too many arguments passed"
  | [] =>
      if negb opt_allow_missing then usage_error "Must provide expected CHECKSUM or --allow-missing-checksum"
      else finalize opt_allow_missing opt_allow_unlocked None
  | [checksum] =>
      if opt_allow_missing then usage_error "Cannot specify both CHECKSUM and --allow-missing-checksum"
      else finalize opt_allow_missing opt_allow_unlocked (Some checksum)
  end.
End commands.

(** * All commands *)

Inductive command :=
  | CmdInstall (o : PkgOptions) (argv : list string)
  | CmdUninstall (o : PkgOptions) (argv : list string)
  | CmdUpgrade (o : UpgradeOptions) (install_pkgs uninstall_pkgs : option (list string))
  | CmdRebase (o : RebaseOptions) (install_pkgs uninstall_pkgs : option (list string)) (argv : list string)
  | CmdDeploy (o : DeployOptions) (install_pkgs uninstall_pkgs : option (list string)) (argv : list string)
  | CmdOverrideReplace (o : OverrideOptions) (install_pkgs uninstall_pkgs : option (list string)) (argv : list string)
  | CmdOverrideRemove (o : OverrideOptions) (install_pkgs uninstall_pkgs : option (list string)) (argv : list string)
  | CmdOverrideReset (o : OverrideOptions) (install_pkgs uninstall_pkgs : option (list string)) (argv : list string)
  | CmdReset (o : ResetOptions) (install_pkgs uninstall_pkgs : option (list string)) (argv : list string)
  | CmdKargs (o : KargsOptions)
  | CmdInitramfs (o : InitramfsOptions)
  | CmdInitramfsEtc (o : InitramfsEtcOptions)
  | CmdCleanup (o : CleanupOptions) (argv : list string)
  | CmdRollback (opt_reboot : bool)
  | CmdRefreshMd (opt_force : bool) (argv : list string)
  | CmdFinalizeDeployment (opt_allow_missing opt_allow_unlocked : bool) (argv : list string).

(** [command->fn] *)
Definition run_command (env : CommandEnv) (cmd : command) : P unit :=
  match cmd with
  | CmdInstall o argv => rpmostree_builtin_install env o argv
  | CmdUninstall o argv => rpmostree_builtin_uninstall env o argv
  | CmdUpgrade o install uninstall => rpmostree_builtin_upgrade env o install uninstall
  | CmdRebase o install uninstall argv => rpmostree_builtin_rebase env o install uninstall argv
  | CmdDeploy o install uninstall argv => rpmostree_builtin_deploy env o install uninstall argv
  | CmdOverrideReplace o install uninstall argv => rpmostree_override_builtin_replace env o install uninstall argv
  | CmdOverrideRemove o install uninstall argv => rpmostree_override_builtin_remove env o install uninstall argv
  | CmdOverrideReset o install uninstall argv => rpmostree_override_builtin_reset env o install uninstall argv
  | CmdReset o install uninstall argv => rpmostree_builtin_reset env o install uninstall argv
  | CmdKargs o => rpmostree_builtin_kargs env o
  | CmdInitramfs o => rpmostree_builtin_initramfs env o
  | CmdInitramfsEtc o => rpmostree_builtin_initramfs_etc env o
  | CmdCleanup o argv => rpmostree_builtin_cleanup env o argv
  | CmdRollback opt_reboot => rpmostree_builtin_rollback env opt_reboot
  | CmdRefreshMd opt_force argv => rpmostree_builtin_refresh_md env opt_force argv
  | CmdFinalizeDeployment missing unlocked argv => rpmostree_builtin_finalize_deployment env missing unlocked argv
  end.
