(* ===== verification/ClientSpec.v ===== *)
(** Properties of the client: its console keeps up with the daemon's output, it reports the
    outcome of the transaction it follows, and the daemon gets from a command what was asked
    for on the command line. *)

From S2P Require Import Prelude Vardict Refspec Origin Transaction Deploy Os FileTree Client ClientCommands.

(** * The console *)

(** What the code of a transaction does on its output: it writes messages, and works with one
    progress at a time, or pulls, which is announced as a download and ended. *)
Inductive activity :=
  | ActOutput (o : output)
  | ActDownload (line : string)
  | ActDownloadEnd.
Inductive working := Idle | InTask | InItems | InDownload.
Definition act (w : working) (a : activity) : option working :=
  match a, w with
  | ActOutput (OutMessage _), w => Some w
  | ActOutput (OutProgressBegin percent n _), Idle => Some (if percent || bool_decide (0 < n)%N then InItems else InTask)
  | ActOutput (OutProgressUpdate _), InItems => Some InItems
  | ActOutput (OutProgressSubMessage _), (InTask | InItems) => Some w
  | ActOutput OutProgressEnd, (InTask | InItems) => Some Idle
  | ActDownload _, (Idle | InDownload) => Some InDownload
  | ActDownloadEnd, (Idle | InDownload) => Some Idle
  | _, _ => None
  end.
Fixpoint acts (w : working) (l : list activity) : bool :=
  match l with [] => true | a :: l => match act w a with Some w => acts w l | None => false end end.

(** The signals of the transaction. *)
Fixpoint signals (st : progress_state) (l : list activity) : option (list session_event) :=
  match l with
  | [] => Some []
  | ActOutput o :: l =>
      '(st, es) ← transaction_output_cb o st;
      rest ← signals st l;
      Some ((SigOutput <$> es) ++ rest)
  | ActDownload line :: l => rest ← signals st l; Some (SigDownloadProgress line :: rest)
  | ActDownloadEnd :: l => rest ← signals st l; Some (SigOutput EmProgressEnd :: rest)
  end.
Definition output_signal (e : session_event) : option session_event :=
  match e with SigOutput _ | SigDownloadProgress _ => Some e | _ => None end.

(** Which signals may come. *)
Definition sig_step (w : working) (e : session_event) : option working :=
  match e, w with
  | SigOutput (EmMessage _), w => Some w
  | SigOutput (EmTaskBegin _), Idle => Some InTask
  | SigOutput (EmTaskEnd _), InTask => Some Idle
  | SigOutput (EmPercentProgress _ _), (Idle | InItems) => Some InItems
  | SigOutput EmProgressEnd, (Idle | InItems | InDownload) => Some Idle
  | SigDownloadProgress _, (Idle | InDownload) => Some InDownload
  | _, _ => None
  end.
Fixpoint sig_ok (w : working) (l : list session_event) : bool :=
  match l with [] => true | e :: l => match sig_step w e with Some w => sig_ok w l | None => false end end.

(** The daemon's output state in each activity. *)
Definition reports (w : working) (st : progress_state) : Prop :=
  match w with
  | InTask => progress_state_percent st = false ∧ progress_state_n_items st = 0%N
  | InItems => progress_state_percent st = true ∨ progress_state_n_items st ≠ 0%N
  | _ => True
  end.
Lemma signals_ok w st l sigs : reports w st → acts w l = true → signals st l = Some sigs → sig_ok w sigs = true.
Proof.
  revert w st sigs. induction l as [|a l IH]; intros w st sigs Hr Ha Hs; [by injection Hs as <-|].
  simpl in Ha. destruct (act w a) as [w'|] eqn:Hw; [|done].
  destruct a as [o|line|]; simpl in Hs.
  - apply bind_Some in Hs as ([st' es] & Ho & (rest & Hrest & [= <-])%bind_Some).
    enough (reports w' st' ∧ ∀ more, sig_ok w' more = true → sig_ok w ((SigOutput <$> es) ++ more) = true) as [Hr' H]
      by (apply H; by eapply IH).
    destruct o as [text|percent n prefix|c|msg|]; simpl in Ho.
    + injection Ho as <- <-. injection Hw as <-. by split.
    + destruct w; try done. simpl in Hw. destruct percent; simpl in *.
      { injection Ho as <- <-. injection Hw as <-. split; [by left|done]. }
      case_decide; case_bool_decide; try done; injection Ho as <- <-; injection Hw as <-; (split; [|done]).
      * right. simpl. lia.
      * by split.
    + destruct w; try done. injection Hw as <-. case_decide.
      * apply bind_Some in Ho as (pc & _ & [= <- <-]). by split.
      * injection Ho as <- <-. by split.
    + injection Ho as <- <-. destruct w; try done; injection Hw as <-; by split.
    + destruct w; try done; injection Hw as <-; injection Ho as <- <-; (split; [done|]); intros more Hm; simpl.
      * destruct Hr as [-> ->]. done.
      * destruct Hr as [->|Hr]; [done|]. destruct (progress_state_percent st); [done|]. simpl.
        destruct (N.ltb_spec 0 (progress_state_n_items st)); [done|lia].
  - apply bind_Some in Hs as (rest & Hrest & [= <-]). destruct w; try done; injection Hw as <-; simpl;
      by apply (IH InDownload st).
  - apply bind_Some in Hs as (rest & Hrest & [= <-]). destruct w; try done; injection Hw as <-; simpl;
      by apply (IH Idle st).
Qed.
Lemma sig_ok_drop l : ∀ w k, sig_ok w l = true → ∃ w', sig_ok w' (drop k l) = true.
Proof.
  induction l as [|e l IH]; intros w k Hl; [exists w; by destruct k|].
  destruct k as [|k]; [by exists w|]. simpl in Hl. destruct (sig_step w e) as [w'|]; [|done]. by apply (IH w').
Qed.

(** What is on the console after a run of the client. *)
Definition left_on (c : Console) (tr : list clevent) : Console :=
  default c (last (omap (λ e, match e with ConsoleSet c => Some c | _ => None end) tr)).
Lemma left_on_app c tr tr' : left_on c (tr ++ tr') = left_on (left_on c tr) tr'.
Proof. unfold left_on. rewrite omap_app, last_app. by destruct (last (omap _ tr')). Qed.

Section session.
Context (quiet : bool).

(** The bar on the console, if the client saw the beginning, is that of the activity. *)
Definition shows (w : working) (s : ClientState) : Prop :=
  cl_progress s = nonnull (cl_console s) ∧ (quiet = true → cl_console s = None) ∧
  match cl_console s with
  | None => True
  | Some (ptype, _) => match w with Idle => False | InItems => ptype = PtPercent | _ => ptype = PtTask end
  end.
(** The rest of the state is as it was. *)
Definition same_session (s s' : ClientState) : Prop :=
  cl_quit s' = cl_quit s ∧ cl_error s' = cl_error s ∧ cl_cancelled s' = cl_cancelled s.

Lemma dispatch_signal w w' e s :
  shows w s → output_signal e = Some e → sig_step w e = Some w' →
  ∃ tr s', dispatch quiet e s = (tr, Ok (tt, s')) ∧ left_on (cl_console s) tr = cl_console s' ∧
    shows w' s' ∧ same_session s s'.
Proof.
  intros (Hp & Hq & Hc) He Hw. unfold shows, same_session. destruct s as [c p er q ca ex d]. simpl in *. subst p.
  destruct e as [em|line| | | |]; try done; simpl in Hw.
  - destruct quiet; simpl.
    { rewrite (Hq eq_refl). eexists _, _. split; [done|]. done. }
    destruct em as [text|text pc|text|text|]; destruct w; try done; injection Hw as <-;
      destruct c as [[ptype msg]|]; try done; try subst ptype; eexists _, _; (split; [reflexivity|]); done.
  - destruct quiet; simpl.
    { rewrite (Hq eq_refl). eexists _, _. split; [done|]. done. }
    destruct w; try done; injection Hw as <-;
      destruct c as [[ptype msg]|]; try done; try subst ptype; eexists _, _; (split; [reflexivity|]); done.
Qed.

(** What a session comes to: whether Ctrl-C was pressed, and the error the daemon reported. *)
Definition ended (e : session_end) : option gerror :=
  match e with
  | EndFinished true _ => None
  | EndFinished false msg => Some (dbus_failed msg)
  | EndOwnerChanged => Some (dbus_failed "Bus owner changed, aborting. This likely means the daemon crashed; check logs with `journalctl -xe`.")
  end.
Fixpoint verdict (cancelled : bool) (events : list session_event) (last : session_end) : bool * option gerror :=
  match events with
  | [] => (cancelled, ended last)
  | SigFinished success msg :: _ => (cancelled, ended (EndFinished success msg))
  | NameOwnerChanged :: _ => (cancelled, ended EndOwnerChanged)
  | Sigint :: events => verdict true events last
  | _ :: events => verdict cancelled events last
  end.

Lemma dispatch_end e s :
  cl_progress s = nonnull (cl_console s) → cl_error s = None →
  ∃ tr s', dispatch quiet (end_event e) s = (tr, Ok (tt, s')) ∧ left_on (cl_console s) tr = None ∧
    cl_console s' = None ∧ cl_quit s' = true ∧ cl_cancelled s' = cl_cancelled s ∧ cl_error s' = ended e.
Proof.
  destruct s as [c p er q ca ex d]. simpl. intros -> ->.
  destruct e as [[] msg|], c as [[]|]; eexists _, _; (split; [reflexivity|]); done.
Qed.

Lemma loop_step e events last s tr s1 :
  dispatch quiet e s = (tr, Ok (tt, s1)) →
  g_main_loop_run quiet (e :: events) last s
  = if cl_quit s1 then (tr, Ok (tt, s1))
    else let '(tr', r) := g_main_loop_run quiet events last s1 in (tr ++ tr', r).
Proof.
  intros Hd. cbn [g_main_loop_run]. unfold mbind, prog_bind, get_self. rewrite Hd.
  destruct (cl_quit s1); [simpl; by rewrite app_nil_r|]. by destruct (g_main_loop_run quiet events last s1).
Qed.

Lemma loop_spec events last : ∀ w s,
  shows w s → sig_ok w (omap output_signal events) = true → cl_quit s = false → cl_error s = None →
  ∃ tr s', g_main_loop_run quiet events last s = (tr, Ok (tt, s')) ∧
    left_on (cl_console s) tr = None ∧ cl_console s' = None ∧
    (cl_cancelled s', cl_error s') = verdict (cl_cancelled s) events last.
Proof.
  induction events as [|e events IH]; intros w s Hw Hs Hq He.
  { destruct (dispatch_end last s) as (tr & s' & Hd & Hl & Hc & _ & Hca & Her); [apply Hw|done|].
    exists tr, s'. split_and!; [done..|]. simpl. congruence. }
  assert (∀ e', e = end_event e' → ∃ tr s', g_main_loop_run quiet (e :: events) last s = (tr, Ok (tt, s')) ∧
    left_on (cl_console s) tr = None ∧ cl_console s' = None ∧ (cl_cancelled s', cl_error s') = (cl_cancelled s, ended e')) as Hend.
  { intros e' ->. destruct (dispatch_end e' s) as (tr & s' & Hd & Hl & Hc & Hqu & Hca & Her); [apply Hw|done|].
    exists tr, s'. rewrite (loop_step _ _ _ _ _ _ Hd), Hqu. split_and!; [done..|congruence]. }
  assert (∀ w' tr s1, dispatch quiet e s = (tr, Ok (tt, s1)) → left_on (cl_console s) tr = cl_console s1 → shows w' s1 →
    sig_ok w' (omap output_signal events) = true → cl_quit s1 = false → cl_error s1 = None →
    ∃ tr s', g_main_loop_run quiet (e :: events) last s = (tr, Ok (tt, s')) ∧
      left_on (cl_console s) tr = None ∧ cl_console s' = None ∧
      (cl_cancelled s', cl_error s') = verdict (cl_cancelled s1) events last) as Hgo.
  { intros w' tr s1 Hd H0 H1 H2 H3 H4. destruct (IH w' s1 H1 H2 H3 H4) as (tr' & s' & Hr & ?).
    exists (tr ++ tr'), s'. by rewrite (loop_step _ _ _ _ _ _ Hd), H3, Hr, left_on_app, H0. }
  assert (output_signal e = Some e → ∃ tr s', g_main_loop_run quiet (e :: events) last s = (tr, Ok (tt, s')) ∧
    left_on (cl_console s) tr = None ∧ cl_console s' = None ∧ (cl_cancelled s', cl_error s') = verdict (cl_cancelled s) events last) as Hsig.
  { intros Ho. simpl in Hs. rewrite Ho in Hs. cbn [sig_ok] in Hs. destruct (sig_step w e) as [w'|] eqn:Hstep; [|done].
    destruct (dispatch_signal w w' e s) as (tr & s1 & Hd & H0 & H1 & H2 & H3 & H4); [done..|].
    rewrite <- H4. apply (Hgo w' tr s1 Hd H0 H1 Hs); congruence. }
  destruct e as [em|line| |success msg| |]; simpl in Hs; [by apply Hsig..| | | |].
  - by apply (Hgo w [] s).
  - by apply (Hend (EndFinished success msg)).
  - by apply (Hend EndOwnerChanged).
  - unfold dispatch, on_sigint, mbind, prog_bind, get_self in Hgo. simpl in Hgo.
    destruct (cl_cancelled s) eqn:Hca; simpl in Hgo.
    + edestruct (Hgo w) as (tr & s' & ? & ? & ? & Hv); [reflexivity|done..|]. exists tr, s'. by rewrite Hca in Hv.
    + edestruct (Hgo w) as (tr & s' & ? & ? & ? & Hv); [reflexivity|done..|]. exists tr, s'. done.
Qed.
End session.

(** C27: a client that follows a transaction reports its outcome. If the code of the transaction
    works with one progress at a time, and the client reaches the daemon and starts or joins the
    transaction, then the client's console never panics, no matter when the client attached and
    whether it is quiet; the command fails if Ctrl-C was pressed before the transaction ended,
    if the daemon went away, or with the daemon's message if the transaction failed, and
    succeeds otherwise. In each of these cases the last thing done to the console leaves no
    progress on it. *)
Theorem session_outcome quiet address se s l st sigs k :
  acts Idle l = true → signals st l = Some sigs → omap output_signal (se_events se) = drop k sigs →
  se_object_manager se = Done tt → se_failpoint se = Done tt → se_connect se = Done tt →
  (∃ b, se_start se = Done b) → cl_console s = None → cl_cancelled s = false →
  ∃ tr s', impl_transaction_get_response_sync quiet address se s
    = (tr, match verdict false (se_events se) (se_end se) with
           | (true, _) => g_set_error G_IO_ERROR_CANCELLED "Operation was cancelled"
           | (false, Some e) => Err e
           | (false, None) => Ok (tt, s')
           end) ∧ left_on None tr = None ∧ cl_console s' = None.
Proof.
  intros Ha Hs Hk H1 H2 H3 [b H4] Hc Hca.
  destruct (sig_ok_drop sigs Idle k) as [w Hw]; [by eapply signals_ok|]. rewrite <- Hk in Hw.
  unfold impl_transaction_get_response_sync. rewrite H1, H2, H3, H4.
  destruct (loop_spec quiet (se_events se) (se_end se) w (transaction_progress_new s)) as (tr & s' & Hr & Hl & Hc' & Hv).
  { unfold shows. simpl. by rewrite Hc. }
  { done. } { done. } { done. }
  simpl in Hv. rewrite Hca in Hv. rewrite <- Hv.
  exists ([TxnStarted address] ++ (if negb b then [Printed ("Attaching to existing transaction: " +:+ se_title se +:+ nl)] else [])
    ++ tr), s'. simpl in Hl. rewrite Hc in Hl. split_and!; [| |done].
  2: { rewrite !left_on_app. by destruct b. }
  unfold mbind, prog_bind, on_error, call, performs, perform, lift, modify, returned, when, print, perform. cbn -[g_main_loop_run].
  destruct b; cbn -[g_main_loop_run]; rewrite Hr; cbn -[g_main_loop_run]; destruct (cl_cancelled s'); cbn;
    rewrite ?app_nil_r; destruct (cl_error s'); cbn; rewrite ?app_nil_r; done.
Qed.

(** * What the daemon makes of a call *)

(** The handlers of the calls that ask for a new deployment. *)
Definition deploy_handler (osname : string) (booted : option string) (policy : RpmostreedAutomaticUpdatePolicy)
    (received : option (list Z)) (c : method_call) : option handler_result :=
  match c with
  | CallDeploy revision options => Some (os_handle_deploy None (Some revision) options)
  | CallUpgrade options => Some (os_handle_upgrade None options)
  | CallRebase options refspec => Some (os_handle_rebase None options (Some refspec))
  | CallPkgChange options added removed => Some (os_handle_pkg_change options added removed)
  | CallUpdateDeployment modifiers options _ => Some (os_handle_update_deployment received modifiers options)
  | CallAutomaticUpdateTrigger options => Some (os_handle_automatic_update_trigger osname booted policy options)
  | _ => None
  end.
(** The descriptors of a message; none is no list. *)
Definition message_fds (c : method_call) : option (list Z) :=
  match c with CallUpdateDeployment _ _ (fd :: fds) => Some (fd :: fds) | _ => None end.
(** The deploy transaction a call starts. *)
Definition deploy_of_call osname booted policy (c : method_call) : option DeployTransaction :=
  match deploy_handler osname booted policy (message_fds c) c with
  | Some (WantTxn (Ok (MkRequest _ (DeployTxn flags options modifiers fds) _))) =>
      Some (rpmostreed_transaction_new_deploy osname flags options modifiers fds)
  | _ => None
  end.

(** ** A call of the client does not end the daemon *)

Definition handle_ok (n : nat) (h : Z) : Prop := (0 ≤ h < Z.of_nat n)%Z.
Definition handles_ok (mods : vardict) (n : nat) : Prop :=
  (∀ key l, key ∈ ["install-local-packages"; "install-fileoverride-local-packages"; "override-replace-local-packages"]%string →
     vardict_lookup_handles mods key = Some l → Forall (handle_ok n) l) ∧
  (∀ h, vardict_lookup_handle mods "ex-local-repo-remote" = Some h → handle_ok n h).

Lemma get_fd_array_returns fds idxs : Forall (handle_ok (length fds)) idxs → get_fd_array_from_sparse fds idxs ≠ Abort.
Proof.
  induction 1 as [|h idxs Hh _ IH]; [done|]. simpl. rewrite decide_True by apply Hh.
  destruct (lookup_lt_is_Some_2 fds (Z.to_nat h)) as [fd ->]; [unfold handle_ok in Hh; lia|].
  by apply bind_returns.
Qed.
Lemma split_fds_returns mods fds :
  (∀ l, fds = Some l → handles_ok mods (length l)) →
  split_fds fds (vardict_lookup_handles mods "install-local-packages")
    (vardict_lookup_handles mods "install-fileoverride-local-packages")
    (vardict_lookup_handles mods "override-replace-local-packages")
    (default (-1)%Z (vardict_lookup_handle mods "ex-local-repo-remote")) ≠ Abort.
Proof.
  intros H. destruct fds as [l|]; [|done]. destruct (H l eq_refl) as [Ha Hh]. unfold split_fds.
  assert (∀ key, key ∈ ["install-local-packages"; "install-fileoverride-local-packages"; "override-replace-local-packages"]%string →
    match vardict_lookup_handles mods key with
    | None => Ok None
    | Some idxs => new_fds ← get_fd_array_from_sparse l idxs; Ok (Some new_fds) end ≠ Abort) as Hs.
  { intros key Hkey. destruct (vardict_lookup_handles mods key) as [idxs|] eqn:E; [|done].
    apply bind_returns; [|done]. by eapply get_fd_array_returns, Ha. }
  do 3 (apply bind_returns; [apply Hs; set_solver|intros ? _]).
  destruct (vardict_lookup_handle mods "ex-local-repo-remote") as [h|] eqn:E; simpl; [|done].
  destruct (Hh h eq_refl) as [? ?]. rewrite decide_False, decide_True by lia.
  by destruct (lookup_lt_is_Some_2 l (Z.to_nat h)) as [fd ->]; [lia|].
Qed.
Lemma throw_if_returns b msg : throw_if b msg ≠ Abort.
Proof. by destruct b. Qed.

(** Only the handles and a check for updates with options of a real update can fail an
    assertion. *)
Lemma prepare_returns sd_unit (write : result unit) osname flags opts mods fds :
  (∀ l, fds = Some l → handles_ok mods (length l)) →
  (Z.testbit flags 9 = true →
     default (Z.testbit flags 4) (vardict_lookup_boolean opts "no-pull-base") = false ∧
     vardict_lookup_bool opts "cache-only" false = false ∧
     default (Z.testbit flags 8) (vardict_lookup_boolean opts "download-only") = false) →
  deploy_transaction_prepare sd_unit (returned write)
    (rpmostreed_transaction_new_deploy osname flags opts mods fds) ≠ Abort.
Proof.
  intros Hh Hm. unfold deploy_transaction_prepare. cbv zeta.
  cbn [rpmostreed_transaction_new_deploy dt_flags dt_options dt_modifiers dt_refspec dt_revision dt_fd_list].
  apply bind_returns; [apply throw_if_returns|intros _ _].
  apply bind_returns; [by apply split_fds_returns|]. intros [[[a b] c] r] Hsplit.
  destruct (split_fds_lengths _ _ _ _ _ _ _ _ _ Hsplit) as (_ & _ & Hc).
  do 5 (apply bind_returns; [apply throw_if_returns|intros _ _]).
  apply bind_returns; [apply throw_if_returns|]. intros [] Hno%throw_if_ok.
  do 4 (apply bind_returns; [apply throw_if_returns|intros _ _]).
  apply bind_returns.
  { destruct (vardict_lookup_string opts "register-driver"); [|done]. apply bind_returns; [|done].
    destruct sd_unit; [apply returned_no_abort|done]. }
  intros [] _; [done|]. rewrite !deploy_flags_no_pull_base.
  unfold RPMOSTREE_TRANSACTION_DEPLOY_FLAG_DOWNLOAD_ONLY, RPMOSTREE_TRANSACTION_DEPLOY_FLAG_DOWNLOAD_METADATA_ONLY.
  rewrite !deploy_flags_other, !deploy_flags_testbit by lia.
  apply bind_returns.
  { destruct (Z.testbit flags 9) eqn:E9; [|done]. destruct (Hm eq_refl) as (-> & -> & ->). done. }
  intros _ _. apply bind_returns; [|done].
  destruct (vardict_lookup_bool opts "no-overrides" false); [|done].
  simpl in Hno. rewrite !orb_false_iff in Hno. destruct Hno as [[[-> ->] ->] Hi].
  destruct c as [l|]; [|done]. destruct (Hc l eq_refl) as [_ Hn].
  by apply nonnull_false in Hi.
Qed.

(** ** The packages of the command line *)

Section modifiers.
Context (ops : ClientOps).

(** The descriptors of an argument, and whether it names a package of a repository. *)
Definition arg_fds (is_replace : bool) (arg : string) : list Z :=
  from_ok [] (client_handle_fd_argument ops arg is_replace).
Definition repo_arg (is_replace : bool) (arg : string) : bool := bool_decide (arg_fds is_replace arg = []).
Definition local_fds (is_replace : bool) (args : list string) : list Z := args ≫= arg_fds is_replace.
Definition repo_args (is_replace : bool) (args : list string) : list string :=
  filter (λ a, repo_arg is_replace a = true) args.

(** The handles of descriptors that were appended after [n] others. *)
Definition handles (n : nat) (fds : list Z) : list Z := Z.of_nat <$> seq n (length fds).

Lemma append_all_spec pkg fds : ∀ fd_list idxs fd_list', fd_list_append_all ops pkg fds fd_list = Ok (idxs, fd_list') →
  fd_list' = fd_list ++ fds ∧ idxs = handles (length fd_list) fds.
Proof.
  induction fds as [|fd fds IH]; intros fd_list idxs fd_list'; simpl.
  { intros [= <- <-]. by rewrite app_nil_r. }
  intros H. apply bind_ok in H as ([idx l1] & H1 & H). apply prefix_error_ok in H1.
  apply bind_ok in H1 as (? & _ & [= <- <-]). apply bind_ok in H as ([idxs1 l2] & H2 & [= <- <-]).
  apply IH in H2 as [-> ->]. rewrite <- app_assoc, length_app. simpl. by rewrite Nat.add_1_r.
Qed.

Lemma handles_app n fds1 fds2 : handles n fds1 ++ handles (n + length fds1) fds2 = handles n (fds1 ++ fds2).
Proof. unfold handles. by rewrite <- fmap_app, <- seq_app, length_app. Qed.

Lemma sort_pkgs_spec is_replace pkgs : ∀ fd_list repo idxs fd_list',
  rpmostree_sort_pkgs_strv ops pkgs is_replace fd_list = Ok (repo, idxs, fd_list') →
  repo = repo_args is_replace pkgs ∧ fd_list' = fd_list ++ local_fds is_replace pkgs ∧
  idxs = handles (length fd_list) (local_fds is_replace pkgs).
Proof.
  induction pkgs as [|pkg pkgs IH]; intros fd_list repo idxs fd_list'; simpl.
  { intros [= <- <- <-]. by rewrite app_nil_r. }
  intros H. apply bind_ok in H as (fds & Hfds & H).
  assert (arg_fds is_replace pkg = fds) as Ha by (unfold arg_fds; by rewrite Hfds).
  unfold repo_args, repo_arg. unfold local_fds in *. simpl. rewrite Ha.
  destruct fds as [|fd fds].
  - apply bind_ok in H as ([[repo1 idxs1] l1] & H1 & [= <- <- <-]). apply IH in H1 as (-> & -> & ->).
    rewrite filter_cons_True by (by rewrite Ha). done.
  - apply bind_ok in H as ([idxs1 l1] & H1 & H). apply append_all_spec in H1 as [-> ->].
    apply bind_ok in H as ([[repo1 idxs2] l2] & H2 & [= <- <- <-]). apply IH in H2 as (-> & -> & ->).
    rewrite filter_cons_False by (by rewrite Ha). rewrite <- app_assoc, length_app.
    split_and!; [done..|]. by rewrite <- (handles_app (length fd_list) (fd :: fds)).
Qed.

Definition strv_value (l : list string) : option variant := match l with [] => None | _ => Some (VStrv l) end.
(** What the packages of one kind add to the dictionary. *)
Lemma insert_pkgs_spec prefix is_replace pkgs dict fds dict' fds' :
  vardict_sort_and_insert_pkgs ops prefix is_replace pkgs (dict, fds) = Ok (dict', fds') →
  let new := local_fds is_replace (default [] pkgs) in
  fds' = fds ++ new ∧
  (∀ key, key ≠ (prefix +:+ "-packages")%string → key ≠ (prefix +:+ "-local-packages")%string → dict' !! key = dict !! key) ∧
  (dict !! (prefix +:+ "-packages")%string = None → (prefix +:+ "-packages")%string ≠ (prefix +:+ "-local-packages")%string →
     dict' !! (prefix +:+ "-packages")%string = strv_value (repo_args is_replace (default [] pkgs))) ∧
  dict' !! (prefix +:+ "-local-packages")%string =
    match pkgs with Some _ => Some (VHandles (handles (length fds) new)) | None => dict !! (prefix +:+ "-local-packages")%string end.
Proof.
  destruct pkgs as [pkgs|]; simpl; [|intros [= <- <-]; by rewrite app_nil_r].
  intros H. apply bind_ok in H as ([[repo idxs] l] & Hs & [= <- <-]). apply sort_pkgs_spec in Hs as (-> & -> & ->).
  split_and!; [done| | |by rewrite lookup_insert_eq].
  - intros key H1 H2. rewrite lookup_insert_ne by done. destruct (repo_args _ _); [done|]. by rewrite lookup_insert_ne.
  - intros Hd Hne. rewrite lookup_insert_ne by done. destruct (repo_args _ _); [done|]. by rewrite lookup_insert_eq.
Qed.

Lemma lookup_insert_string key v (d : vardict) k :
  vardict_insert_string key v d !! k = if bool_decide (k = key) then match v with Some s => Some (VString s) | None => d !! k end else d !! k.
Proof. destruct v; case_bool_decide; subst; simpl; by rewrite ?lookup_insert_eq, ?lookup_insert_ne by done. Qed.
Lemma lookup_insert_strv key v (d : vardict) k :
  vardict_insert_strv key v d !! k = if bool_decide (k = key) then match v with Some (x :: l) => Some (VStrv (x :: l)) | _ => d !! k end else d !! k.
Proof. destruct v as [[]|]; case_bool_decide; subst; simpl; by rewrite ?lookup_insert_eq, ?lookup_insert_ne by done. Qed.

Definition handles_value (n : nat) (is_replace : bool) (args : option (list string)) : option variant :=
  match args with Some args => Some (VHandles (handles n (local_fds is_replace args))) | None => None end.
(** The descriptor of the local repository. *)
Definition repo_fds (m : Modifiers) (d : list Z) : Prop :=
  match md_local_repo_remote m with
  | None => d = []
  | Some path => ∃ fd, cp_open ops path = Done fd ∧ d = [fd]
  end.

Record modifiers_of (m : Modifiers) (mods : vardict) (fds d : list Z) : Prop := ModifiersOf {
  mo_fds : fds = local_fds false (default [] (md_install m)) ++ local_fds false (default [] (md_install_fileoverride m))
                 ++ local_fds true (default [] (md_override_replace m)) ++ d;
  mo_repo : repo_fds m d;
  mo_install : mods !! "install-packages"%string = strv_value (repo_args false (default [] (md_install m)));
  mo_install_local : mods !! "install-local-packages"%string = handles_value 0 false (md_install m);
  mo_fileoverride : mods !! "install-fileoverride-packages"%string = strv_value (repo_args false (default [] (md_install_fileoverride m)));
  mo_fileoverride_local : mods !! "install-fileoverride-local-packages"%string
    = handles_value (length (local_fds false (default [] (md_install m)))) false (md_install_fileoverride m);
  mo_replace : mods !! "override-replace-packages"%string = strv_value (repo_args true (default [] (md_override_replace m)));
  mo_replace_local : mods !! "override-replace-local-packages"%string
    = handles_value (length (local_fds false (default [] (md_install m)) ++ local_fds false (default [] (md_install_fileoverride m))))
        true (md_override_replace m);
  mo_refspec : mods !! "set-refspec"%string = VString <$> md_set_refspec m;
  mo_revision : mods !! "set-revision"%string = VString <$> md_set_revision m;
  mo_uninstall : mods !! "uninstall-packages"%string = strv_value (default [] (md_uninstall m));
  mo_remove : mods !! "override-remove-packages"%string = strv_value (default [] (md_override_remove m));
  mo_reset : mods !! "override-reset-packages"%string = strv_value (default [] (md_override_reset m));
  mo_local_repo : mods !! "ex-local-repo-remote"%string
    = match d with [] => None | _ => Some (VHandle (Z.of_nat (length fds - 1))) end;
  mo_treefile : mods !! "treefile"%string = VString <$> md_treefile m;
  mo_modules : mods !! "enable-modules"%string = None ∧ mods !! "disable-modules"%string = None ∧
    mods !! "install-modules"%string = None ∧ mods !! "uninstall-modules"%string = None;
}.

Ltac lookup_keys :=
  repeat first [rewrite lookup_insert_string|rewrite lookup_insert_strv|rewrite lookup_insert_ne by done|rewrite lookup_insert_eq];
  repeat first [rewrite bool_decide_eq_true_2 by done|rewrite bool_decide_eq_false_2 by done].

Lemma modifiers_spec m mods fds : get_modifiers_variant ops m = Ok (mods, fds) → ∃ d, modifiers_of m mods fds d.
Proof.
  unfold get_modifiers_variant. intros H.
  apply bind_ok in H as ([d1 f1] & H1 & H). apply insert_pkgs_spec in H1 as (-> & O1 & R1 & L1).
  apply bind_ok in H as ([d2 f2] & H2 & H). apply insert_pkgs_spec in H2 as (-> & O2 & R2 & L2).
  apply bind_ok in H as ([d3 f3] & H3 & H). apply insert_pkgs_spec in H3 as (-> & O3 & R3 & L3).
  change ("install" +:+ "-packages") with "install-packages" in *.
  change ("install" +:+ "-local-packages") with "install-local-packages" in *.
  change ("install-fileoverride" +:+ "-packages") with "install-fileoverride-packages" in *.
  change ("install-fileoverride" +:+ "-local-packages") with "install-fileoverride-local-packages" in *.
  change ("override-replace" +:+ "-packages") with "override-replace-packages" in *.
  change ("override-replace" +:+ "-local-packages") with "override-replace-local-packages" in *.
  specialize (R1 eq_refl ltac:(done)). simpl in *.
  rewrite O1 in R2, L2 by done. specialize (R2 eq_refl ltac:(done)).
  rewrite O2, O1 in R3, L3 by done. specialize (R3 eq_refl ltac:(done)).
  apply bind_ok in H as ([d4 f4] & H4 & [= <- <-]).
  assert (∃ d, repo_fds m d ∧ f4 = ((local_fds false (default [] (md_install m)) ++ local_fds false (default [] (md_install_fileoverride m)))
    ++ local_fds true (default [] (md_override_replace m))) ++ d ∧
    d4 !! "ex-local-repo-remote"%string = match d with [] => None | _ => Some (VHandle (Z.of_nat (length f4 - 1))) end ∧
    ∀ key, key ≠ "ex-local-repo-remote"%string → d4 !! key =
      vardict_insert_strv "override-reset-packages" (md_override_reset m)
        (vardict_insert_strv "override-remove-packages" (md_override_remove m)
        (vardict_insert_strv "uninstall-packages" (md_uninstall m)
        (vardict_insert_string "set-revision" (md_set_revision m)
        (vardict_insert_string "set-refspec" (md_set_refspec m) d3)))) !! key) as (d & Hd & -> & Hr & Ho).
  { unfold repo_fds. destruct (md_local_repo_remote m) as [path|].
    - apply bind_ok in H4 as (fd & Hfd%prefix_error_ok%returned_ok & H4).
      apply bind_ok in H4 as ([idx l] & (? & _ & [= <- <-])%prefix_error_ok%bind_ok & [= <- <-]).
      exists [fd]. split_and!; [by exists fd|done| |].
      + rewrite lookup_insert_eq, !length_app. simpl. do 2 f_equal. lia.
      + intros key Hk. by rewrite lookup_insert_ne.
    - injection H4 as <- <-. exists []. rewrite app_nil_r. split_and!; [done|done| |done].
      lookup_keys. by rewrite O3, O2, O1. }
  assert (∀ key, key ≠ "treefile"%string → vardict_insert_string "treefile" (md_treefile m) d4 !! key = d4 !! key) as Ht.
  { intros key Hk. by rewrite lookup_insert_string, bool_decide_eq_false_2. }
  exists d. split.
  - by rewrite <- !app_assoc.
  - done.
  - rewrite Ht, Ho by done. lookup_keys. by rewrite O3, O2, R1 by done.
  - rewrite Ht, Ho by done. lookup_keys. rewrite O3, O2, L1 by done. by destruct (md_install m).
  - rewrite Ht, Ho by done. lookup_keys. by rewrite O3, R2 by done.
  - rewrite Ht, Ho by done. lookup_keys. rewrite O3, L2 by done. by destruct (md_install_fileoverride m).
  - rewrite Ht, Ho by done. lookup_keys. by rewrite R3.
  - rewrite Ht, Ho by done. lookup_keys. rewrite L3. by destruct (md_override_replace m).
  - rewrite Ht, Ho by done. lookup_keys. rewrite O3, O2, O1 by done. by destruct (md_set_refspec m).
  - rewrite Ht, Ho by done. lookup_keys. rewrite O3, O2, O1 by done. by destruct (md_set_revision m).
  - rewrite Ht, Ho by done. lookup_keys. rewrite O3, O2, O1 by done. by destruct (md_uninstall m) as [[]|].
  - rewrite Ht, Ho by done. lookup_keys. rewrite O3, O2, O1 by done. by destruct (md_override_remove m) as [[]|].
  - rewrite Ht, Ho by done. lookup_keys. rewrite O3, O2, O1 by done. by destruct (md_override_reset m) as [[]|].
  - by rewrite Ht.
  - rewrite lookup_insert_string, bool_decide_eq_true_2 by done. destruct (md_treefile m); [done|].
    rewrite Ho by done. lookup_keys. by rewrite O3, O2, O1.
  - split_and!; rewrite Ht, Ho by done; lookup_keys; by rewrite O3, O2, O1.
Qed.

(** ** The plan of the daemon *)

Lemma fd_array_handles pre fds post : get_fd_array_from_sparse (pre ++ fds ++ post) (handles (length pre) fds) = Ok fds.
Proof.
  revert pre. induction fds as [|fd fds IH]; intros pre; [done|]. unfold handles. simpl. rewrite decide_True by lia.
  rewrite Nat2Z.id, lookup_app_r, Nat.sub_diag by lia. simpl.
  specialize (IH (pre ++ [fd])). rewrite <- app_assoc, length_app, Nat.add_1_r in IH. unfold handles in IH.
  change (list_fmap nat Z Z.of_nat) with (fmap (M := list) Z.of_nat). simpl in IH |- *. by rewrite IH.
Qed.
Lemma handles_in_range n fds k : n + length fds ≤ k → Forall (handle_ok k) (handles n fds).
Proof. intros Hk. apply Forall_fmap, Forall_forall. intros i [? ?]%elem_of_seq. unfold handle_ok. simpl. lia. Qed.

Lemma modifiers_handles_ok m mods fds d : modifiers_of m mods fds d → handles_ok mods (length fds).
Proof.
  intros M. pose proof (mo_fds _ _ _ _ M) as Hf. split.
  - intros key l Hkey. unfold vardict_lookup_handles. rewrite Hf, !length_app.
    rewrite !elem_of_cons in Hkey. destruct Hkey as [->|[->|[->|Hkey]]]; [..|by apply not_elem_of_nil in Hkey].
    + rewrite (mo_install_local _ _ _ _ M). destruct (md_install m); [|done]. intros [= <-]. apply handles_in_range. simpl. lia.
    + rewrite (mo_fileoverride_local _ _ _ _ M). destruct (md_install_fileoverride m); [|done]. intros [= <-].
      apply handles_in_range. simpl. lia.
    + rewrite (mo_replace_local _ _ _ _ M). destruct (md_override_replace m); [|done]. intros [= <-].
      apply handles_in_range. rewrite length_app. simpl. lia.
  - intros h. unfold vardict_lookup_handle. rewrite (mo_local_repo _ _ _ _ M). destruct d; [done|].
    intros [= <-]. unfold handle_ok. rewrite Hf, !length_app. simpl. lia.
Qed.

(** What the message carries. *)
Definition sent_fds (fds : list Z) : option (list Z) := match fds with [] => None | _ => Some fds end.

Lemma prepare_inv sd_unit write osname opts mods flags fds p :
  deploy_transaction_prepare sd_unit write (rpmostreed_transaction_new_deploy osname flags opts mods fds) = Ok (Prepared p) →
  split_fds fds (vardict_lookup_handles mods "install-local-packages")
    (vardict_lookup_handles mods "install-fileoverride-local-packages")
    (vardict_lookup_handles mods "override-replace-local-packages")
    (default (-1)%Z (vardict_lookup_handle mods "ex-local-repo-remote"))
  = Ok (dp_install_local_pkgs p, dp_install_fileoverride_local_pkgs p, dp_override_replace_local_pkgs p,
        dp_local_repo_remote_dfd p) ∧
  vardict_lookup_strv_canonical mods "override-replace-packages" = None ∧
  vardict_lookup_strv_canonical mods "install-fileoverride-packages" = None.
Proof.
  unfold deploy_transaction_prepare. cbv zeta. intros H.
  inv_bind H. inv_bind H. destruct x0 as [[[a b] c] r].
  do 10 inv_bind H. inv_bind H. case_match; [done|]. inv_bind H. inv_bind H. injection H as <-.
  cbn [rpmostreed_transaction_new_deploy dt_flags dt_options dt_modifiers dt_refspec dt_revision dt_fd_list] in *.
  split_and!; [exact E0|by apply nonnull_false..].
Qed.

Lemma split_handles_value pre fds is_replace args post x :
  fds = pre ++ local_fds is_replace (default [] args) ++ post →
  match match handles_value (length pre) is_replace args with Some (VHandles l) => Some l | _ => None end with
  | None => Ok None
  | Some l => new_fds ← get_fd_array_from_sparse fds l; Ok (Some new_fds)
  end = Ok x →
  default [] x = local_fds is_replace (default [] args).
Proof. intros ->. destruct args; simpl; [rewrite fd_array_handles|]; by intros [= <-]. Qed.

Lemma split_modifiers m mods fds d x y z r :
  modifiers_of m mods fds d →
  split_fds (sent_fds fds) (vardict_lookup_handles mods "install-local-packages")
    (vardict_lookup_handles mods "install-fileoverride-local-packages")
    (vardict_lookup_handles mods "override-replace-local-packages")
    (default (-1)%Z (vardict_lookup_handle mods "ex-local-repo-remote")) = Ok (x, y, z, r) →
  default [] x = local_fds false (default [] (md_install m)) ∧
  default [] y = local_fds false (default [] (md_install_fileoverride m)) ∧
  default [] z = local_fds true (default [] (md_override_replace m)) ∧ r = default (-1)%Z (head d).
Proof.
  intros M. pose proof (mo_fds _ _ _ _ M) as Hf. unfold vardict_lookup_handles, vardict_lookup_handle.
  rewrite (mo_install_local _ _ _ _ M), (mo_fileoverride_local _ _ _ _ M), (mo_replace_local _ _ _ _ M), (mo_local_repo _ _ _ _ M).
  set (A := local_fds false (default [] (md_install m))) in *.
  set (B := local_fds false (default [] (md_install_fileoverride m))) in *.
  set (C := local_fds true (default [] (md_override_replace m))) in *.
  destruct fds as [|fd0 fds0] eqn:Hfds.
  { destruct A, B, C, d; try done. by intros [= <- <- <- <-]. }
  rewrite <- Hfds in *. assert (sent_fds fds = Some fds) as -> by (by rewrite Hfds). clear Hfds fd0 fds0.
  unfold split_fds. intros H.
  apply bind_ok in H as (x' & Hx & H). apply (split_handles_value [] _ _ _ (B ++ C ++ d)) in Hx; [|done].
  apply bind_ok in H as (y' & Hy & H). apply (split_handles_value A _ _ _ (C ++ d)) in Hy; [|done].
  apply bind_ok in H as (z' & Hz & H). apply (split_handles_value (A ++ B) _ _ _ d) in Hz; [|by rewrite <- app_assoc].
  assert (x' = x ∧ y' = y ∧ z' = z ∧ r = default (-1)%Z (head d)) as (-> & -> & -> & ->); [|done].
  pose proof (mo_repo _ _ _ _ M) as Hd. unfold repo_fds in Hd. destruct (md_local_repo_remote m).
  - destruct Hd as (fd & _ & ->). simpl in H. rewrite decide_False, decide_True in H by lia.
    rewrite Nat2Z.id, Hf, !app_assoc, length_app, Nat.add_sub, lookup_app_r, Nat.sub_diag in H by done.
    by injection H as <- <- <- <-.
  - subst d. by injection H as <- <- <- <-.
Qed.

Lemma canonical_strv_value mods key l : mods !! key = strv_value l → default [] (vardict_lookup_strv_canonical mods key) = l.
Proof. unfold vardict_lookup_strv_canonical, vardict_lookup_strv. intros ->. by destruct l. Qed.
Lemma string_value (mods : vardict) key o : mods !! key = VString <$> o → vardict_lookup_string mods key = o.
Proof. unfold vardict_lookup_string. intros ->. by destruct o. Qed.

(** C25: What the command line asks for is what the daemon plans: when the client can build the
    arguments of UpdateDeployment from the packages, the refspec, the revision and the local
    repository of the command line, and the daemon accepts them, then the plan has that refspec
    and revision, asks to install exactly the arguments that name packages of a repository and
    to remove, override or reset exactly the named packages, its local packages of each kind
    are the descriptors opened for the arguments of that kind, in their order, its local
    repository is the one opened, and no argument was dropped: an override or file override
    that names no local package is refused. *)
Theorem update_deployment_roundtrip m mods fds osname flags opts sd_unit write p :
  get_modifiers_variant ops m = Ok (mods, fds) →
  deploy_transaction_prepare sd_unit write (rpmostreed_transaction_new_deploy osname flags opts mods (sent_fds fds))
    = Ok (Prepared p) →
  dp_refspec p = md_set_refspec m ∧ dp_revision p = md_set_revision m ∧
  default [] (dp_install_pkgs p) = repo_args false (default [] (md_install m)) ∧
  default [] (dp_install_local_pkgs p) = local_fds false (default [] (md_install m)) ∧
  default [] (dp_install_fileoverride_local_pkgs p) = local_fds false (default [] (md_install_fileoverride m)) ∧
  repo_args false (default [] (md_install_fileoverride m)) = [] ∧
  default [] (dp_override_replace_local_pkgs p) = local_fds true (default [] (md_override_replace m)) ∧
  repo_args true (default [] (md_override_replace m)) = [] ∧
  default [] (dp_uninstall_pkgs p) = default [] (md_uninstall m) ∧
  default [] (dp_override_remove_pkgs p) = default [] (md_override_remove m) ∧
  default [] (dp_override_reset_pkgs p) = default [] (md_override_reset m) ∧
  match md_local_repo_remote m with
  | Some path => cp_open ops path = Done (dp_local_repo_remote_dfd p)
  | None => dp_local_repo_remote_dfd p = (-1)%Z
  end.
Proof.
  intros (d & M)%modifiers_spec Hp. destruct (prepare_inv _ _ _ _ _ _ _ _ Hp) as (Hs & Hr & Hf).
  apply prepare_plan_from in Hp as [Href Hrev _ _ (Hi & Hu & _) (Hrm & Hrs) _ _ _ _ _ _].
  destruct (split_modifiers _ _ _ _ _ _ _ _ M Hs) as (HA & HB & HC & HD).
  rewrite Href, Hrev, Hi, Hu, Hrm, Hrs. destruct M. split_and!; try done.
  all: try by apply string_value. all: try by apply canonical_strv_value.
  - pose proof (canonical_strv_value _ _ _ mo_fileoverride0) as H. by rewrite Hf in H.
  - pose proof (canonical_strv_value _ _ _ mo_replace0) as H. by rewrite Hr in H.
  - unfold repo_fds in mo_repo0. destruct (md_local_repo_remote m); [|by subst d].
    destruct mo_repo0 as (fd & -> & ->). by rewrite HD.
Qed.
End modifiers.

(** * The calls of a command *)

Section calls.
Context (allowed : method_call → Prop).
Definition calls (e : clevent) : Prop := match e with MethodCalled c => allowed c | _ => True end.
Local Abbreviation any := (λ _ : ClientState, True).

Lemma print_calls msg : Prelude.keeps calls any (print msg). Proof. unfold print. keeps_auto. Qed.
Lemma printerr_calls msg : Prelude.keeps calls any (printerr msg). Proof. unfold printerr. keeps_auto. Qed.
Lemma on_console_calls f : Prelude.keeps calls any (on_console f). Proof. unfold on_console. keeps_auto. Qed.
Hint Resolve print_calls printerr_calls on_console_calls : keeps.
Lemma dispatch_calls quiet e : Prelude.keeps calls any (dispatch quiet e).
Proof.
  assert (Prelude.keeps calls any transaction_progress_end) as He by (unfold transaction_progress_end; keeps_auto).
  assert (∀ o, Prelude.keeps calls any (on_output o)) as Ho by (intros; unfold on_output; keeps_auto).
  assert (∀ l, Prelude.keeps calls any (on_download_progress l)) as Hd by (intros; unfold on_download_progress; keeps_auto).
  destruct e; unfold dispatch, on_transaction_progress, on_owner_changed, on_sigint, on_finished; keeps_auto.
Qed.
Hint Resolve dispatch_calls : keeps.
Lemma loop_calls quiet events last : Prelude.keeps calls any (g_main_loop_run quiet events last).
Proof. induction events; simpl; keeps_auto. Qed.
Hint Resolve loop_calls : keeps.
Lemma response_calls ops address : Prelude.keeps calls any (get_response ops address).
Proof.
  unfold get_response, rpmostree_transaction_get_response_sync, impl_transaction_get_response_sync. keeps_auto.
Qed.
Hint Resolve response_calls : keeps.
Lemma changed_calls d : Prelude.keeps calls any (rpmostree_has_new_default_deployment d).
Proof. unfold rpmostree_has_new_default_deployment. keeps_auto. Qed.
Lemma diff_calls ops : Prelude.keeps calls any (print_treepkg_diff_from_sysroot_path ops).
Proof. unfold print_treepkg_diff_from_sysroot_path. keeps_auto. Qed.
Hint Resolve changed_calls diff_calls : keeps.
Lemma client_run_calls env options exit_77 address d : Prelude.keeps calls any (client_run env options exit_77 address d).
Proof. unfold client_run, rpmostree_transaction_client_run. keeps_auto. Qed.
Lemma report_calls env exit_77 d : Prelude.keeps calls any (report_changes env exit_77 d).
Proof. unfold report_changes. keeps_auto. Qed.
Lemma register_calls id n reply : Prelude.keeps calls any (register_client id n reply).
Proof. induction n; simpl; keeps_auto. Qed.
Hint Resolve register_calls : keeps.
Lemma parse_calls env flags has_proxy : Prelude.keeps calls any (rpmostree_option_context_parse env flags has_proxy).
Proof. unfold rpmostree_option_context_parse, rpmostree_load_sysroot, app_load_sysroot_impl. keeps_auto. Qed.
Lemma load_calls env : Prelude.keeps calls any (load_os_proxy env).
Proof. unfold load_os_proxy, rpmostree_load_os_proxies. keeps_auto. Qed.
Lemma dup_calls : Prelude.keeps calls any dup_default_deployment.
Proof. unfold dup_default_deployment. keeps_auto. Qed.
Lemma call_method_calls ops c : allowed c → Prelude.keeps calls any (call_method ops c).
Proof. intros Hc. unfold call_method. keeps_auto. Qed.
Lemma update_deployment_calls env m options :
  (∀ mods fds, get_modifiers_variant (ce_ops env) m = Ok (mods, fds) → allowed (CallUpdateDeployment mods options fds)) →
  Prelude.keeps calls any (update_deployment env m options).
Proof.
  intros Hm. unfold update_deployment, rpmostree_update_deployment. apply keeps_on_error, keeps_bind_lift.
  intros [mods fds] H%prefix_error_ok. by apply call_method_calls, Hm.
Qed.
End calls.
#[export] Hint Resolve print_calls printerr_calls response_calls changed_calls diff_calls client_run_calls
  report_calls parse_calls load_calls dup_calls : keeps.

(** ** The calls that do not end the daemon *)

Definition acceptable (c : method_call) : Prop :=
  match c with
  | CallUpdateDeployment mods _ fds => handles_ok mods (length fds)
  | CallAutomaticUpdateTrigger options =>
      ∀ key, key ∈ ["no-pull-base"; "cache-only"; "download-only"]%string → options !! key = None
  | _ => True
  end.

(** A check for updates has no option of an update. *)
Lemma trigger_options env check : ∀ key, key ∈ ["no-pull-base"; "cache-only"; "download-only"]%string →
  vardict_of ([("mode"%string, VString (if check : bool then "check" else "auto")); ("initiating-command-line"%string, command_line env)]
              ++ (if check || ce_stdout_tty env then [("output-to-self"%string, VBool false)] else [])) !! key = None.
Proof.
  intros key Hkey. rewrite !elem_of_cons in Hkey.
  destruct Hkey as [->|[->|[->|Hkey]]]; [..|by apply not_elem_of_nil in Hkey]; by destruct check, (ce_stdout_tty env).
Qed.

Lemma update_acceptable env m options : Prelude.keeps (calls acceptable) (λ _, True) (update_deployment env m options).
Proof. apply update_deployment_calls. intros mods fds (d & M)%modifiers_spec. by eapply modifiers_handles_ok. Qed.
Lemma call_acceptable ops c : match c with CallUpdateDeployment _ _ _ | CallAutomaticUpdateTrigger _ => False | _ => True end →
  Prelude.keeps (calls acceptable) (λ _, True) (call_method ops c).
Proof. intros Hc. apply call_method_calls. by destruct c. Qed.
Lemma trigger_acceptable env check : Prelude.keeps (calls acceptable) (λ _, True) (call_automatic_update_trigger env check).
Proof. unfold call_automatic_update_trigger. apply keeps_performs. simpl. apply trigger_options. Qed.
#[local] Hint Resolve update_acceptable trigger_acceptable : keeps.
#[local] Hint Extern 1 (Prelude.keeps _ _ (call_method _ _)) => apply call_acceptable; exact I : keeps.

Lemma pkg_change_acceptable env o cache_only print_interactive add remove :
  Prelude.keeps (calls acceptable) (λ _, True) (pkg_change env o cache_only print_interactive add remove).
Proof. unfold pkg_change, pkg_change_call. keeps_auto. Qed.
#[local] Hint Resolve pkg_change_acceptable : keeps.
Lemma override_acceptable env o install uninstall remove replace reset :
  Prelude.keeps (calls acceptable) (λ _, True) (handle_override env o install uninstall remove replace reset).
Proof. unfold handle_override, override_in_container, rpmostree_container_rebuild. keeps_auto. Qed.
#[local] Hint Resolve override_acceptable : keeps.

Lemma command_acceptable env cmd : Prelude.keeps (calls acceptable) (λ _, True) (run_command env cmd).
Proof.
  destruct cmd; simpl.
  - unfold rpmostree_builtin_install, usage_error, confirm_live, install_in_container, rpmostree_container_rebuild. keeps_auto.
  - unfold rpmostree_builtin_uninstall, usage_error, rpmostree_container_rebuild. keeps_auto.
  - unfold rpmostree_builtin_upgrade, invalid_argument, upgrade_call. keeps_auto.
  - unfold rpmostree_builtin_rebase, usage_error, rebase_call. keeps_auto.
  - unfold rpmostree_builtin_deploy, usage_error, invalid_argument, deploy_call. keeps_auto.
  - unfold rpmostree_override_builtin_replace, usage_error. keeps_auto.
  - unfold rpmostree_override_builtin_remove, usage_error. keeps_auto.
  - unfold rpmostree_override_builtin_reset, usage_error. keeps_auto.
  - unfold rpmostree_builtin_reset, usage_error. keeps_auto.
  - unfold rpmostree_builtin_kargs, invalid_argument, kargs_call, invalid_argument. keeps_auto.
  - unfold rpmostree_builtin_initramfs, show_initramfs. keeps_auto.
  - unfold rpmostree_builtin_initramfs_etc, show_initramfs_etc. keeps_auto. apply keeps_for_each. intros; keeps_auto.
  - unfold rpmostree_builtin_cleanup, usage_error. keeps_auto.
  - unfold rpmostree_builtin_rollback. keeps_auto.
  - unfold rpmostree_builtin_refresh_md, usage_error. keeps_auto.
  - unfold rpmostree_builtin_finalize_deployment, usage_error, finalize. keeps_auto.
Qed.

Lemma trigger_prepared (options : vardict) key :
  key ∈ ["no-pull-base"; "cache-only"; "download-only"]%string → options !! key = None →
  vardict_lookup_boolean match options !! "output-to-self"%string with
    | None => <["output-to-self"%string := VBool true]> options | Some _ => options end key = None.
Proof.
  intros Hkey Ho. unfold vardict_lookup_boolean.
  destruct (options !! "output-to-self"%string); [by rewrite Ho|]. rewrite lookup_insert_ne; [by rewrite Ho|].
  intros <-. rewrite !elem_of_cons in Hkey. by destruct Hkey as [?|[?|[?|?%not_elem_of_nil]]].
Qed.

Lemma acceptable_prepared osname booted policy c dt sd_unit (write : result unit) :
  acceptable c → deploy_of_call osname booted policy c = Some dt → deploy_transaction_prepare sd_unit (returned write) dt ≠ Abort.
Proof.
  unfold deploy_of_call. destruct c; try done; simpl; try (intros _ [= <-]; by apply prepare_returns).
  - intros Hh [= <-]. apply prepare_returns; [|done]. intros l. destruct fd_list; [done|]. by intros [= <-].
  - intros Ho. unfold os_handle_automatic_update_trigger. destruct (negb _); [done|].
    destruct (if bool_decide _ then _ else _) as [|[]]; try done; intros [= <-]; apply prepare_returns; try done.
    intros _. unfold vardict_lookup_bool. rewrite !trigger_prepared by (set_solver || apply Ho; set_solver). done.
Qed.

(** C26: No command of the client can bring the daemon down: every call it makes that asks for a
    new deployment carries handles within its list of descriptors, and a check for updates
    carries no option of a real update, so that preparing the transaction gives a plan or an
    error and never fails one of the daemon's assertions, whatever was typed on the command
    line, whatever the files, the terminal and the daemon's earlier answers were. *)
Theorem client_requests_accepted env cmd s c osname booted policy dt sd_unit (write : result unit) :
  MethodCalled c ∈ (run_command env cmd s).1 → deploy_of_call osname booted policy c = Some dt →
  deploy_transaction_prepare sd_unit (returned write) dt ≠ Abort.
Proof.
  intros Hc. apply acceptable_prepared. destruct (command_acceptable env cmd s I) as [Hall _].
  rewrite Forall_forall in Hall. exact (Hall _ Hc).
Qed.

(** ** Applying live is confirmed *)

(** The call changes the running system. *)
Definition live (c : method_call) : bool :=
  match c with
  | CallUpdateDeployment _ options _ | CallPkgChange options _ _ =>
      vardict_lookup_bool options "apply-live" false && negb (vardict_lookup_bool options "dry-run" false)
  | _ => false
  end.
(** A call that changes the running system comes after a confirmation. *)
Definition guarded (tr : list clevent) : Prop :=
  ∀ pre c post, tr = pre ++ MethodCalled c :: post → live c = true → Confirmed ∈ pre.

Lemma not_live_guarded tr : Forall (calls (λ c, live c = false)) tr → guarded tr.
Proof.
  intros Htr pre c post -> Hl. apply Forall_app in Htr as [_ Htr]. apply Forall_cons_1 in Htr as [Hc _].
  simpl in Hc. congruence.
Qed.
Lemma not_live_keeps {A} (m : prog clevent ClientState A) s :
  Prelude.keeps (calls (λ c, live c = false)) (λ _, True) m → guarded (m s).1.
Proof. intros Hm. by apply not_live_guarded, Hm. Qed.
Lemma guarded_app tr1 tr2 : guarded tr1 → Confirmed ∈ tr1 ∨ guarded tr2 → guarded (tr1 ++ tr2).
Proof.
  intros H1 H2 pre c post Heq Hl. apply app_eq_inv in Heq as [(k & -> & Hk)|(k & -> & Hk)].
  - destruct k as [|e k]; simpl in Hk.
    + rewrite app_nil_r in *. destruct H2 as [H2|H2]; [done|]. specialize (H2 [] c post (eq_sym Hk) Hl).
      by apply not_elem_of_nil in H2.
    + injection Hk as <- ->. by eapply H1.
  - destruct H2 as [H2|H2]; apply elem_of_app; [by left|right]. by eapply H2.
Qed.
Lemma guarded_bind {A B} (m : prog clevent ClientState A) (f : A → prog clevent ClientState B) s :
  guarded (m s).1 → (∀ a s', (m s).2 = Ok (a, s') → Confirmed ∈ (m s).1 ∨ guarded (f a s').1) → guarded ((m ≫= f) s).1.
Proof.
  intros Hm Hf. unfold mbind, prog_bind. destruct (m s) as [tr [[a s']| |]]; simpl in *; [|done..].
  specialize (Hf a s' eq_refl). destruct (f a s') as [tr' r]. by apply guarded_app.
Qed.
Lemma guarded_skip {A B} (m : prog clevent ClientState A) (f : A → prog clevent ClientState B) s :
  Prelude.keeps (calls (λ c, live c = false)) (λ _, True) m → (∀ a s', guarded (f a s').1) → guarded ((m ≫= f) s).1.
Proof.
  intros Hm Hf. apply guarded_bind; [by apply not_live_keeps|]. intros a s' _. right. apply Hf.
Qed.

Lemma pkg_options_dry env o cache_only interactive key : key = "apply-live"%string ∨ key = "dry-run"%string →
  vardict_lookup_bool (pkg_change_options env o cache_only interactive) key false
  = if bool_decide (key = "dry-run"%string) then po_dry_run o || interactive else po_apply_live o.
Proof.
  intros [-> | ->]; unfold pkg_change_options, vardict_of, vardict_lookup_bool, vardict_lookup_boolean;
    destruct (po_apply_live o); simpl; by repeat (rewrite lookup_insert_ne by done || rewrite lookup_insert_eq).
Qed.
Lemma pkg_change_not_live env o cache_only interactive add remove :
  po_apply_live o = false ∨ po_dry_run o || interactive = true →
  Prelude.keeps (calls (λ c, live c = false)) (λ _, True) (pkg_change env o cache_only interactive add remove).
Proof.
  intros Ho. assert (vardict_lookup_bool (pkg_change_options env o cache_only interactive) "apply-live" false
    && negb (vardict_lookup_bool (pkg_change_options env o cache_only interactive) "dry-run" false) = false) as Hl.
  { rewrite !pkg_options_dry by auto. simpl. destruct Ho as [-> | ->]; [done|]. by rewrite andb_false_r. }
  unfold pkg_change, pkg_change_call. keeps_auto; [by apply update_deployment_calls|by apply call_method_calls].
Qed.

(** C29: On a terminal, [install --apply-live] without [-y] changes the running system only after
    it was confirmed: any call of the daemon that applies live and is not a dry run comes after
    the user's confirmation. *)
Theorem live_confirmed env o argv s pre c post :
  ce_stdin_tty env = true → po_assumeyes o = false →
  (run_command env (CmdInstall o argv) s).1 = pre ++ MethodCalled c :: post → live c = true → Confirmed ∈ pre.
Proof.
  intros Htty Hyes. revert pre c post. change (guarded (run_command env (CmdInstall o argv) s).1). simpl.
  unfold rpmostree_builtin_install. apply guarded_skip; [by auto with keeps nocore|]. clear s. intros _ s.
  destruct (bool_decide (argv = [])); [by apply not_live_guarded|].
  assert (po_apply_live o = false ∨ po_dry_run o || false = true ∨ negb (po_assumeyes o) && po_apply_live o && negb (po_dry_run o) = true) as Hlive.
  { rewrite Hyes. destruct (po_apply_live o), (po_dry_run o); auto. }
  apply guarded_bind.
  - apply not_live_keeps. unfold confirm_live. keeps_auto.
    apply pkg_change_not_live. rewrite orb_true_r. auto.
  - intros a s' Hok. destruct Hlive as [Hl|[Hl|Hl]].
    3: { left. unfold confirm_live in *. rewrite Hl, Htty in *. simpl in *. revert Hok.
         unfold mbind, prog_bind. destruct (pkg_change _ _ _ _ _ _ s) as [tr [[[] s1]| |]]; [|done..]. unfold performs, perform.
         destruct (returned (ce_confirm_or_abort env)); [|done..]. intros _. simpl. apply elem_of_app. right. by left. }
    all: right; apply not_live_keeps; unfold install_in_container, rpmostree_container_rebuild; keeps_auto;
      apply pkg_change_not_live; auto.
Qed.

(** * Examples *)

Definition ex_activity : list activity :=
  [ActOutput (OutMessage "Checking out tree"); ActDownload "Receiving objects: 50%"; ActDownloadEnd;
   ActOutput (OutProgressBegin false 2 "Importing"); ActOutput (OutProgressUpdate 1); ActOutput OutProgressEnd]%string.
Definition ex_session : Session :=
  MkSession (Done tt) (Done tt) (Done tt) (Done true) "install"
    (default [] (signals (ProgressState None false 0) ex_activity)) (EndFinished true "") ∅.
Definition ex_client_ops : ClientOps :=
  MkClientOps false (λ _, Done "unix:abstract=/tmp/txn"%string) (λ _, ex_session) (Done tt) (Done tt) (Done tt)
    (λ _ _, Done None) (λ _, Done 9%Z) (λ _, Done 7%Z) (λ _, Done tt).
Definition ex_connection : Connection :=
  MkConnection (Done tt) (Done tt) true None None 1 (Done tt) (Done tt) None (Some "/org/projectatomic/rpmostree1/fedora"%string)
    (λ _, Done "/"%string) (λ _, Done tt).
Definition ex_env : CommandEnv :=
  MkCommandEnv ex_client_ops ["install"; "-A"; "./foo.rpm"]%string (λ s, s) None true false false (Done false) (Done true) ex_connection (Ok tt)
    true true (Done tt) (λ _, Done []) (λ _ _ _, Done tt) (λ _, Ok tt) (λ _, Done (true, "unix:abstract=/tmp/txn"%string)) "none"
    false (Done tt) (λ _, Done 0) (λ _, false) (λ _, false) (λ _ _, Done []) (λ _, ""%string) (λ _ _, Done ∅) (λ s, Done s)
    (Done tt) (Done false) (λ s, Done s) (λ _, false) [] (Done tt).
Definition ex_state : ClientState := MkClientState None false None false false 0 ∅.
Definition ex_install : PkgOptions :=
  MkPkgOptions false false true false None false None false false false false false false false None None None.
Definition ex_modifiers : Modifiers :=
  MkModifiers None None (Some ["./foo.rpm"; "vim"]%string) (Some []) (Some []) None None None None None.
Definition ex_message : vardict * list Z := from_ok (∅, []) (get_modifiers_variant ex_client_ops ex_modifiers).

Lemma session_outcome_witness :
  ∃ tr s', impl_transaction_get_response_sync false "unix:abstract=/tmp/txn" ex_session ex_state = (tr, Ok (tt, s')) ∧
    left_on None tr = None ∧ cl_console s' = None.
Proof.
  apply (session_outcome false "unix:abstract=/tmp/txn" ex_session ex_state ex_activity (ProgressState None false 0)
    (default [] (signals (ProgressState None false 0) ex_activity)) 0); try reflexivity. by exists true.
Defined.

Lemma update_deployment_roundtrip_witness :
  ∃ p, deploy_transaction_prepare None (Ok tt)
         (rpmostreed_transaction_new_deploy "fedora" 0 ∅ ex_message.1 (sent_fds ex_message.2)) = Ok (Prepared p) ∧
       default [] (dp_install_pkgs p) = ["vim"%string] ∧ default [] (dp_install_local_pkgs p) = [7%Z].
Proof.
  assert (∃ p, deploy_transaction_prepare None (Ok tt)
    (rpmostreed_transaction_new_deploy "fedora" 0 ∅ ex_message.1 (sent_fds ex_message.2)) = Ok (Prepared p)) as [p Hp].
  { eexists. vm_compute. reflexivity. }
  exists p. split; [exact Hp|].
  destruct (update_deployment_roundtrip ex_client_ops ex_modifiers ex_message.1 ex_message.2 "fedora" 0 ∅ None (Ok tt) p)
    as (_ & _ & Hi & Hl & _); [vm_compute; reflexivity|exact Hp|].
  split; [exact Hi|exact Hl].
Defined.

Definition ex_call (print_interactive : bool) : method_call :=
  CallUpdateDeployment ex_message.1 (pkg_change_options ex_env ex_install false print_interactive) ex_message.2.
Definition ex_run : list clevent := (run_command ex_env (CmdInstall ex_install ["./foo.rpm"; "vim"]%string) ex_state).1.

Lemma client_requests_accepted_witness :
  MethodCalled (ex_call false) ∈ ex_run ∧
  ∃ dt, deploy_of_call "fedora" None RPMOSTREED_AUTOMATIC_UPDATE_POLICY_NONE (ex_call false) = Some dt ∧
        deploy_transaction_prepare None (returned (Done tt)) dt ≠ Abort.
Proof.
  assert (MethodCalled (ex_call false) ∈ ex_run) as Hin by (vm_compute; repeat first [left|right]).
  split; [exact Hin|]. eexists. split; [reflexivity|].
  by apply (client_requests_accepted ex_env (CmdInstall ex_install ["./foo.rpm"; "vim"]%string) ex_state (ex_call false)
    "fedora" None RPMOSTREED_AUTOMATIC_UPDATE_POLICY_NONE).
Defined.

Lemma live_confirmed_witness :
  ∃ pre post, ex_run = pre ++ MethodCalled (ex_call false) :: post ∧ live (ex_call false) = true ∧ Confirmed ∈ pre.
Proof.
  assert (∃ pre post, ex_run = pre ++ MethodCalled (ex_call false) :: post) as (pre & post & Hrun).
  { apply list_elem_of_split. vm_compute. repeat first [left|right]. }
  exists pre, post. split; [exact Hrun|]. split; [vm_compute; reflexivity|].
  apply (live_confirmed ex_env ex_install ["./foo.rpm"; "vim"]%string ex_state pre (ex_call false) post);
    [reflexivity|reflexivity|exact Hrun|vm_compute; reflexivity].
Defined.

(** * What goes wrong *)

(** "--" ends the command line: the arguments after it are lost. *)
Lemma double_dash_drops name argv : rpmostree_subcommand_parse (Some name) ("--"%string :: argv) = (Some name, []).
Proof. done. Qed.

(** A URL that does not end in ".rpm" goes to the daemon as the name of a package, although
    [client_handle_fd_argument] would download it. *)
Lemma url_as_package_name env o options url :
  is_http_arg url = true → is_rpm_arg url = false → po_apply_live o = false → po_force_replacefiles o = false →
  pkg_change_call env o options (Some [url]) None = call_method (ce_ops env) (CallPkgChange options [url] []).
Proof. intros _ Hr Hl Hf. unfold pkg_change_call, met_local_pkg. simpl. unfold is_rpm_arg in Hr. by rewrite Hr, Hl, Hf. Qed.
