(* ===== verification/DaemonMain.v ===== *)
(** The daemon object: its configuration, the clients that registered with it, when it exits,
    and its main loop, from [src/daemon/rpmostreed-daemon.cxx],
    [src/app/rpmostree-builtin-start-daemon.cxx] and the handlers of
    [src/daemon/rpmostreed-sysroot.cxx] for registering and reloading. What GLib's key files,
    the bus, systemd and the clock answer are parameters. *)

From S2P Require Import Prelude Vardict RpmHeaders Transaction Deploy Os.

(** * Clients *)

(** [uid_valid] and [pid_valid] are the options. *)
Record RpmOstreeClient := MkClient {
  rc_id : option string;
  rc_address : string;
  rc_uid : option N;
  rc_pid : option N;
  rc_sd_unit : option string;
}.

Definition rpmostree_client_to_string (c : RpmOstreeClient) : string :=
  "client(" +:+ match rc_id c with Some id => "id:" +:+ id +:+ " " | None => "" end
  +:+ "dbus" +:+ rc_address c
  +:+ match rc_sd_unit c with Some unit => " unit:" +:+ unit | None => "" end
  +:+ match rc_uid c with Some uid => " uid:" +:+ pretty uid | None => " uid:<unknown>" end
  +:+ ")".

(** What the bus and systemd say of a client: GetConnectionUnixUser,
    GetConnectionUnixProcessID, [sd_pid_get_user_unit] and [sd_pid_get_unit]. *)
Record BusOps := MkBusOps {
  bo_unix_user : string → result N;
  bo_unix_process_id : string → result N;
  bo_user_unit : N → option string;
  bo_unit : N → option string;
}.

Definition option_of {A} (r : result A) : option A := match r with Done a => Some a | Failed _ => None end.
Definition rpmostreed_get_client_uid (bus : BusOps) (client : string) : option N := option_of (bo_unix_user bus client).
Definition get_client_pid (bus : BusOps) (client : string) : option N := option_of (bo_unix_process_id bus client).
Definition unit_of_pid (bus : BusOps) (pid : N) : option string :=
  match bo_user_unit bus pid with Some unit => Some unit | None => bo_unit bus pid end.

Definition client_new (bus : BusOps) (address : string) (client_id : option string) : RpmOstreeClient :=
  let pid := get_client_pid bus address in
  MkClient client_id address (rpmostreed_get_client_uid bus address) pid (pid ≫= unit_of_pid bus).

(** * Configuration *)

#[global] Instance policy_eq_dec : EqDecision RpmostreedAutomaticUpdatePolicy.
Proof. solve_decision. Defined.

(** The "Daemon" group of the configuration file: the values of its keys, as GLib reads them. *)
Inductive key_value (A : Type) := KeyMissing | KeyInvalid | KeyValue (a : A).
Arguments KeyMissing {A}.
Arguments KeyInvalid {A}.
Arguments KeyValue {A} a.
Record ConfigFile := MkConfigFile {
  cf_string : string → option string;
  cf_boolean : string → key_value bool;
  cf_uint64 : string → key_value N;
}.

Definition get_config_str (keyfile : option ConfigFile) (key : string) (default_val : option string) : option string :=
  match keyfile ≫= λ k, cf_string k key with Some val => Some val | None => default_val end.
(** Without a file [g_key_file_get_boolean] is called on NULL: a critical message, which is fatal
    when debugging, and FALSE without an error. *)
Definition get_config_bool (debug : bool) (keyfile : option ConfigFile) (key : string) (default_val : bool) : outcome bool :=
  match keyfile with
  | None => if debug then Abort else Ok false
  | Some k => Ok (match cf_boolean k key with KeyValue b => b | _ => default_val end)
  end.
Definition get_config_uint64 (keyfile : option ConfigFile) (key : string) (default_val : N) : N :=
  match keyfile with
  | None => default_val
  | Some k => match cf_uint64 k key with KeyValue r => r | _ => default_val end
  end.

Fixpoint ascii_strdown_inplace (s : string) : string :=
  match s with EmptyString => EmptyString | String c s => String (g_ascii_tolower c) (ascii_strdown_inplace s) end.

(** * The daemon *)

(** The timers that rerender the status are counted; [rd_idle_exit_source] is the delay of the
    timer it has. A [guint] has 32 bits. *)
Record RpmostreedDaemon := MkDaemon {
  rd_bus_clients : gmap string RpmOstreeClient;
  rd_running : bool;
  rd_rebooting : bool;
  rd_idle_exit_source : option N;
  rd_rerender_timers : nat;
  rd_idle_exit_timeout : N;
  rd_auto_update_policy : RpmostreedAutomaticUpdatePolicy;
  rd_lock_layering : bool;
  rd_disable_recommends : bool;
}.
Definition guint (n : N) : N := (n mod 2 ^ 32)%N.

(** [maybe_load_config_keyfile]: the file, if there is one. *)
Definition maybe_load_config_keyfile (load : result (option ConfigFile)) : outcome (option ConfigFile) := returned load.

(** Whether the policy changed; nothing is set on an error. *)
Definition rpmostreed_daemon_reload_config (debug : bool) (load : result (option ConfigFile)) (self : RpmostreedDaemon) :
    outcome (bool * RpmostreedDaemon) :=
  config ← maybe_load_config_keyfile load;
  let idle_exit_timeout := get_config_uint64 config "IdleExitTimeout" 60 in
  auto_update_policy ←
    match get_config_str config "AutomaticUpdatePolicy" None with
    | None => Ok RPMOSTREED_AUTOMATIC_UPDATE_POLICY_NONE
    | Some s =>
        match rpmostree_str_to_auto_update_policy (ascii_strdown_inplace s) with
        | inl e => Err e
        | inr policy => Ok policy
        end
    end;
  lock_layering ← get_config_bool debug config "LockLayering" false;
  recommends ← get_config_bool debug config "Recommends" true;
  Ok (negb (bool_decide (rd_auto_update_policy self = auto_update_policy)),
      MkDaemon (rd_bus_clients self) (rd_running self) (rd_rebooting self) (rd_idle_exit_source self)
        (rd_rerender_timers self) (guint idle_exit_timeout) auto_update_policy lock_layering (negb recommends)).

Definition set_bus_clients m d := MkDaemon m (rd_running d) (rd_rebooting d) (rd_idle_exit_source d) (rd_rerender_timers d)
  (rd_idle_exit_timeout d) (rd_auto_update_policy d) (rd_lock_layering d) (rd_disable_recommends d).
Definition set_running b d := MkDaemon (rd_bus_clients d) b (rd_rebooting d) (rd_idle_exit_source d) (rd_rerender_timers d)
  (rd_idle_exit_timeout d) (rd_auto_update_policy d) (rd_lock_layering d) (rd_disable_recommends d).
Definition set_rebooting d := MkDaemon (rd_bus_clients d) (rd_running d) true (rd_idle_exit_source d) (rd_rerender_timers d)
  (rd_idle_exit_timeout d) (rd_auto_update_policy d) (rd_lock_layering d) (rd_disable_recommends d).
Definition set_timers source rerender d := MkDaemon (rd_bus_clients d) (rd_running d) (rd_rebooting d) source rerender
  (rd_idle_exit_timeout d) (rd_auto_update_policy d) (rd_lock_layering d) (rd_disable_recommends d).

(** [AppState], in its order. *)
Inductive AppState := APPSTATE_STARTING | APPSTATE_RUNNING | APPSTATE_FLUSHING | APPSTATE_EXITING.
Definition appstate_index (a : AppState) : nat :=
  match a with APPSTATE_STARTING => 0 | APPSTATE_RUNNING => 1 | APPSTATE_FLUSHING => 2 | APPSTATE_EXITING => 3 end.

(** The process: the daemon object, the property "active-transaction" of the sysroot (method,
    sender and path, all empty without a transaction) and the state of the program. *)
Record Main := MkMain {
  ma_daemon : RpmostreedDaemon;
  ma_active_txn : string * string * string;
  ma_appstate : AppState;
}.
Definition on_daemon (f : RpmostreedDaemon → RpmostreedDaemon) (m : Main) : Main :=
  MkMain (f (ma_daemon m)) (ma_active_txn m) (ma_appstate m).
Definition set_active_txn txn (m : Main) : Main := MkMain (ma_daemon m) txn (ma_appstate m).
Definition set_appstate a (m : Main) : Main := MkMain (ma_daemon m) (ma_active_txn m) a.

Inductive devent :=
  | StatusSent (status : string)
  | Journaled (message : string)
  | TxnLogged (method client path sender : string) (uid : option N)
  | NameWatched (client : string)
  | NameUnwatched (client : string)
  | RebootInitiated
  | StoppingSent
  | ReleaseNameCalled.
Local Abbreviation D := (prog devent Main).

(** The environment: the bus, the option --debug, the variable that disables the exit, [g_random_int_range (0, 5)],
    and the times of the timer when the status is rendered. *)
Record MainOps := MkMainOps {
  mo_bus : BusOps;
  mo_debug : bool;
  mo_disable_idle_exit : bool;
  mo_random : RpmostreedDaemon → N;
  mo_ready_time : RpmostreedDaemon → N;
  mo_source_time : RpmostreedDaemon → N;
  mo_spawn_reboot : result unit;
}.

Section daemon.
Context (ops : MainOps).
Local Abbreviation bus := (mo_bus ops).

(** The text after "STATUS=". *)
Definition status (s : string) : D unit := perform (StatusSent s) (Ok tt).
Definition journal (s : string) : D unit := perform (Journaled s) (Ok tt).

Definition have_active_txn (m : Main) : bool := negb (bool_decide ((ma_active_txn m).1.1 = ""%string)).
Definition currently_idle (m : Main) : bool :=
  negb (mo_disable_idle_exit ops) && (0 <? rd_idle_exit_timeout (ma_daemon m))%N
  && (negb (have_active_txn m) && bool_decide (size (rd_bus_clients (ma_daemon m)) = 0)).

(** Start or stop the timer. *)
Definition update_idle_source : D unit :=
  m ← get_self;
  let d := ma_daemon m in
  match rd_idle_exit_source d with
  | None =>
      when (currently_idle m) (
        let idle_exit_secs := guint (rd_idle_exit_timeout d + mo_random ops d) in
        _ ← modify (on_daemon (set_timers (Some idle_exit_secs) (S (rd_rerender_timers d))));
        journal ("In idle state; will auto-exit in " +:+ pretty idle_exit_secs +:+ " seconds"))
  | Some _ =>
      when (negb (currently_idle m)) (modify (on_daemon (set_timers None (pred (rd_rerender_timers d)))))
  end.
(** The status line; the assertion is on the timer. *)
Definition render_status : D unit :=
  m ← get_self;
  let d := ma_daemon m in
  let n_clients := size (rd_bus_clients d) in
  let '(method, sender, path) := ma_active_txn m in
  if have_active_txn m then
    status ("clients=" +:+ pretty n_clients +:+ "; txn=" +:+ method +:+ " caller=" +:+ sender +:+ " path=" +:+ path)
  else if (0 <? n_clients)%nat then status ("clients=" +:+ pretty n_clients +:+ "; idle")
  else if currently_idle m then
    match rd_idle_exit_source d with
    | None => lift Abort
    | Some _ =>
        let readytime := mo_ready_time ops d in
        let curtime := mo_source_time ops d in
        let timeout_micros := if (readytime <? curtime)%N then 0%N else (readytime - curtime)%N in
        status ("clients=" +:+ pretty n_clients +:+ "; idle exit in " +:+ pretty (timeout_micros / 1000000)%N +:+ " seconds")
    end
  else mret tt.
Definition update_status : D unit := _ ← update_idle_source; render_status.

(** ** Clients *)

Definition rpmostreed_daemon_add_client (client : string) (client_id : option string) : D unit :=
  m ← get_self;
  match rd_bus_clients (ma_daemon m) !! client with
  | Some _ => mret tt
  | None =>
      let clientdata := client_new bus client client_id in
      _ ← perform (NameWatched client) (Ok tt);
      let clients := <[client := clientdata]> (rd_bus_clients (ma_daemon m)) in
      _ ← modify (on_daemon (set_bus_clients clients));
      _ ← journal (rpmostree_client_to_string clientdata +:+ " added; new total=" +:+ pretty (size clients));
      update_status
  end.
Definition rpmostreed_daemon_remove_client (client : string) : D unit :=
  m ← get_self;
  match rd_bus_clients (ma_daemon m) !! client with
  | None => mret tt
  | Some clientdata =>
      _ ← perform (NameUnwatched client) (Ok tt);
      let clients := delete client (rd_bus_clients (ma_daemon m)) in
      _ ← modify (on_daemon (set_bus_clients clients));
      _ ← journal (rpmostree_client_to_string clientdata +:+ " vanished; remaining=" +:+ pretty (size clients));
      update_status
  end.
Definition on_name_owner_changed (object_path interface_name sender_name name old_owner new_owner : string) : D unit :=
  if negb (bool_decide (object_path = "/org/freedesktop/DBus"%string))
     || negb (bool_decide (interface_name = "org.freedesktop.DBus"%string))
     || negb (bool_decide (sender_name = "org.freedesktop.DBus"%string)) then mret tt
  else
    let has_old_owner := negb (bool_decide (old_owner = ""%string)) in
    let has_new_owner := negb (bool_decide (new_owner = ""%string)) in
    when (has_old_owner && negb has_new_owner) (rpmostreed_daemon_remove_client name).

Definition rpmostreed_daemon_client_get_string (d : RpmostreedDaemon) (client : string) : string :=
  match rd_bus_clients d !! client with
  | None => "caller " +:+ client
  | Some clientdata => rpmostree_client_to_string clientdata
  end.
Definition rpmostreed_daemon_client_get_agent_id (d : RpmostreedDaemon) (client : string) : option string :=
  id ← rd_bus_clients d !! client ≫= rc_id;
  if bool_decide (id = "cli"%string) then None else Some id.
(** The unit of a client that did not register is looked up. *)
Definition rpmostreed_daemon_client_get_sd_unit (d : RpmostreedDaemon) (client : string) : option string :=
  match rd_bus_clients d !! client with
  | Some clientdata => rc_sd_unit clientdata
  | None => get_client_pid bus client ≫= unit_of_pid bus
  end.

Definition handle_register_client (sender : string) (arg_options : vardict) : D unit :=
  rpmostreed_daemon_add_client sender (vardict_lookup_string arg_options "id").
Definition handle_unregister_client (sender : string) : D unit := rpmostreed_daemon_remove_client sender.

(** The property of the sysroot changed. *)
Definition on_active_txn_changed : D unit :=
  m ← get_self;
  let '(method, sender, path) := ma_active_txn m in
  _ ← when (have_active_txn m) (
        let clientdata := default (client_new bus sender None) (rd_bus_clients (ma_daemon m) !! sender) in
        perform (TxnLogged method (rpmostree_client_to_string clientdata) path sender (rc_uid clientdata)) (Ok tt));
  update_status.

(** ** Timers, reboot and exit *)

Definition idle_update_status : D unit := update_status.
Definition on_idle_exit : D unit :=
  m ← get_self;
  _ ← modify (on_daemon (set_timers None (rd_rerender_timers (ma_daemon m))));
  _ ← status "Exiting due to idle";
  modify (on_daemon (set_running false)).
Definition rpmostreed_daemon_exit_now : D unit := modify (on_daemon (set_running false)).
Definition rpmostreed_daemon_reboot : D unit :=
  m ← get_self;
  if rd_rebooting (ma_daemon m) then lift Abort else modify (on_daemon set_rebooting).
(** Without systemctl the process ends. *)
Definition idle_initiate_reboot : D unit :=
  _ ← journal "Initiating reboot requested from transaction";
  match mo_spawn_reboot ops with
  | Done _ => perform RebootInitiated (Ok tt)
  | Failed e => _ ← journal ("Failed to initate reboot: " +:+ err_msg e); lift Abort
  end.

(** * The program *)

Definition state_transition (state : AppState) : D unit :=
  m ← get_self;
  if (appstate_index state <=? appstate_index (ma_appstate m))%nat then lift Abort
  else
    _ ← modify (set_appstate state);
    when (appstate_index APPSTATE_RUNNING <? appstate_index state)%nat rpmostreed_daemon_exit_now.
Definition on_bus_name_released : D unit := state_transition APPSTATE_EXITING.
Definition on_sigint : D unit :=
  _ ← state_transition APPSTATE_FLUSHING;
  status "Received shutdown signal, preparing to terminate".
Definition on_stdin_close : D unit :=
  _ ← journal "output closed";
  state_transition APPSTATE_FLUSHING.

(** What the main loop dispatches. The timers fire only while they are there; of a reload of the
    configuration this is the part of the daemon object. A transaction asks for the reboot. *)
Inductive main_event :=
  | EvRegisterClient (sender : string) (options : vardict)
  | EvUnregisterClient (sender : string)
  | EvNameOwnerChanged (object_path interface_name sender_name name old_owner new_owner : string)
  | EvActiveTxn (txn : string * string * string)
  | EvIdleTimeout
  | EvRerender
  | EvReloadConfig (load : result (option ConfigFile))
  | EvReboot
  | EvInitiateReboot
  | EvSignal
  | EvStdinClosed
  | EvNameReleased.
Definition dispatch_main (e : main_event) : D unit :=
  match e with
  | EvRegisterClient sender options => handle_register_client sender options
  | EvUnregisterClient sender => handle_unregister_client sender
  | EvNameOwnerChanged path iface sender name old new => on_name_owner_changed path iface sender name old new
  | EvActiveTxn txn => _ ← modify (set_active_txn txn); on_active_txn_changed
  | EvIdleTimeout => m ← get_self; when (nonnull (rd_idle_exit_source (ma_daemon m))) on_idle_exit
  | EvRerender => m ← get_self; when (0 <? rd_rerender_timers (ma_daemon m))%nat idle_update_status
  | EvReloadConfig load =>
      m ← get_self;
      match rpmostreed_daemon_reload_config (mo_debug ops) load (ma_daemon m) with
      | Ok (_, d) => modify (on_daemon (λ _, d))
      | Err _ => mret tt
      | Abort => lift Abort
      end
  | EvReboot => rpmostreed_daemon_reboot
  | EvInitiateReboot => idle_initiate_reboot
  | EvSignal => on_sigint
  | EvStdinClosed => on_stdin_close
  | EvNameReleased => on_bus_name_released
  end.

(** One [g_main_context_iteration] dispatches the sources that are ready; it does not look
    whether the loop is to end. A run is given by its iterations so far. *)
Definition iteration (events : list main_event) : D unit := for_each dispatch_main events.
Fixpoint run_loop (continue : Main → bool) (iterations : list (list main_event)) : D unit :=
  match iterations with
  | [] => mret tt
  | events :: iterations =>
      m ← get_self;
      if continue m then _ ← iteration events; run_loop continue iterations else mret tt
  end.
Definition rpmostreed_daemon_run_until_idle_exit (iterations : list (list main_event)) : D unit :=
  _ ← modify (on_daemon (set_running true));
  _ ← update_status;
  run_loop (λ m, rd_running (ma_daemon m)) iterations.

(** [rpmostree_builtin_start_daemon] once the daemon object is there: the main loop, and the
    release of the name. *)
Definition is_flushing (m : Main) : bool := bool_decide (appstate_index (ma_appstate m) = appstate_index APPSTATE_FLUSHING).
Definition rpmostree_builtin_start_daemon (running flushing : list (list main_event)) : D unit :=
  _ ← state_transition APPSTATE_RUNNING;
  _ ← rpmostreed_daemon_run_until_idle_exit running;
  _ ← perform StoppingSent (Ok tt);
  m ← get_self;
  _ ← when (appstate_index (ma_appstate m) <? appstate_index APPSTATE_FLUSHING)%nat (state_transition APPSTATE_FLUSHING);
  _ ← perform ReleaseNameCalled (Ok tt);
  run_loop is_flushing flushing.
End daemon.

(** * The sysroot object *)

(** The modification time of the repository when it was last looked at, the properties Booted,
    Deployments and AutomaticUpdatePolicy, and the names with an OS interface of each kind. *)
Record SysrootObject := MkSysrootObject {
  so_repo_last_stat : Z * Z;
  so_booted : string;
  so_deployments : list vardict;
  so_policy : string;
  so_os_interfaces : gset string;
  so_osexperimental_interfaces : gset string;
}.
Definition set_last_stat t s := MkSysrootObject t (so_booted s) (so_deployments s) (so_policy s) (so_os_interfaces s) (so_osexperimental_interfaces s).
Definition set_booted b s := MkSysrootObject (so_repo_last_stat s) b (so_deployments s) (so_policy s) (so_os_interfaces s) (so_osexperimental_interfaces s).
Definition set_deployments l s := MkSysrootObject (so_repo_last_stat s) (so_booted s) l (so_policy s) (so_os_interfaces s) (so_osexperimental_interfaces s).
Definition set_policy p s := MkSysrootObject (so_repo_last_stat s) (so_booted s) (so_deployments s) p (so_os_interfaces s) (so_osexperimental_interfaces s).
Definition set_interfaces os ex s := MkSysrootObject (so_repo_last_stat s) (so_booted s) (so_deployments s) (so_policy s) os ex.

(** What is on disk when the sysroot is loaded; a deployment is its OS name and what it reads
    as, given the id of the booted one. *)
Record DiskDeployment := MkDiskDeployment {
  dd_osname : string;
  dd_id : string;
  dd_variant : option string → result vardict;
}.
Record SysrootOps := MkSysrootOps {
  sy_reload_config : result unit;
  sy_load_if_changed : result bool;
  sy_repo_mtime : result (Z * Z);
  sy_booted : option DiskDeployment;
  sy_deployments : list DiskDeployment;
  sy_generate_object_path : string → result string;
  sy_os_new : string → result unit;
  sy_osexperimental_new : string → result unit;
}.

(** The state changes before an error are kept. *)
Abbreviation sys A := (SysrootObject → SysrootObject * outcome A).
Definition s_bind {A B} (m : sys A) (f : A → sys B) : sys B := λ s,
  match m s with (s, Ok a) => f a s | (s, Err e) => (s, Err e) | (s, Abort) => (s, Abort) end.
Definition s_lift {A} (r : outcome A) : sys A := λ s, (s, r).
Definition s_modify (f : SysrootObject → SysrootObject) : sys unit := λ s, (f s, Ok tt).
Definition s_get : sys SysrootObject := λ s, (s, Ok s).
Definition s_prefix {A} (prefix : string) (m : sys A) : sys A := λ s, let '(s, r) := m s in (s, prefix_error prefix r).
Local Notation "x ⇐ m ; f" := (s_bind m (λ x, f)) (at level 20, m at level 100, f at level 200, right associativity).

Section sysroot.
Context (ops : SysrootOps).

(** The interfaces of an OS that was not seen before. *)
Definition add_interfaces (osname : string) : sys unit :=
  s ⇐ s_get;
  if bool_decide (osname ∈ so_os_interfaces s) then s_lift (Ok tt)
  else
    _ ⇐ s_lift (returned (sy_os_new ops osname));
    _ ⇐ s_modify (set_interfaces ({[osname]} ∪ so_os_interfaces s) (so_osexperimental_interfaces s));
    _ ⇐ s_lift (returned (sy_osexperimental_new ops osname));
    s_modify (set_interfaces ({[osname]} ∪ so_os_interfaces s) ({[osname]} ∪ so_osexperimental_interfaces s)).
Fixpoint read_deployments (booted_id : option string) (i : nat) (deployments : list DiskDeployment) : sys (list vardict) :=
  match deployments with
  | [] => s_lift (Ok [])
  | d :: deployments =>
      variant ⇐ s_prefix ("Reading deployment " +:+ pretty i) (s_lift (returned (dd_variant d booted_id)));
      _ ⇐ add_interfaces (dd_osname d);
      rest ⇐ read_deployments booted_id (S i) deployments;
      s_lift (Ok (variant :: rest))
  end.
Definition remove_dead (seen_osnames : gset string) (s : SysrootObject) : SysrootObject :=
  set_interfaces (so_os_interfaces s ∩ seen_osnames)
    (so_osexperimental_interfaces s ∖ (so_os_interfaces s ∖ seen_osnames)) s.

(** Whether anything changed. *)
Definition sysroot_populate_deployments_unlocked : sys bool :=
  sysroot_changed ⇐ s_lift (returned (sy_load_if_changed ops));
  repo_new_stat ⇐ s_lift (returned (sy_repo_mtime ops));
  s ⇐ s_get;
  let repo_changed := negb (bool_decide (so_repo_last_stat s = repo_new_stat)) in
  _ ⇐ (if repo_changed then s_modify (set_last_stat repo_new_stat) else s_lift (Ok tt));
  if negb (sysroot_changed || repo_changed) then s_lift (Ok false)
  else
    booted_id ⇐ match sy_booted ops with
                | Some booted =>
                    path ⇐ s_lift (returned (sy_generate_object_path ops (dd_osname booted)));
                    _ ⇐ s_modify (set_booted path);
                    s_lift (Ok (Some (dd_id booted)))
                | None => _ ⇐ s_modify (set_booted "/"); s_lift (Ok None)
                end;
    variants ⇐ read_deployments booted_id 0 (sy_deployments ops);
    _ ⇐ s_modify (remove_dead (list_to_set (dd_osname <$> sy_deployments ops)));
    _ ⇐ s_modify (set_deployments variants);
    s_lift (Ok true).

(** How often the signal UPDATED is emitted, with the result. *)
Definition sysroot_reload_ostree_configs_and_deployments (s : SysrootObject) : SysrootObject * nat * outcome bool :=
  match returned (sy_reload_config ops) with
  | Ok _ =>
      match sysroot_populate_deployments_unlocked s with
      | (s, Ok did_change) => (s, if did_change : bool then 1 else 0, Ok did_change)
      | (s, Err e) => (s, 0, Err e)
      | (s, Abort) => (s, 0, Abort)
      end
  | Err e => (s, 0, Err e)
  | Abort => (s, 0, Abort)
  end.
Definition rpmostreed_sysroot_reload (s : SysrootObject) : SysrootObject * nat * outcome unit :=
  let '(s, updated, r) := sysroot_reload_ostree_configs_and_deployments s in
  (s, updated, prefix_error "Sysroot reload" (_ ← r; Ok tt)).

Definition reset_config_properties (d : RpmostreedDaemon) (s : SysrootObject) : SysrootObject :=
  set_policy (rpmostree_auto_update_policy_to_str (rd_auto_update_policy d)) s.

Definition reload_config (debug : bool) (load : result (option ConfigFile)) (d : RpmostreedDaemon) (s : SysrootObject) :
    RpmostreedDaemon * SysrootObject * nat * outcome unit :=
  match prefix_error "Reloading daemon configuration" (rpmostreed_daemon_reload_config debug load d) with
  | Ok (config_changed, d) =>
      let s := if config_changed : bool then reset_config_properties d s else s in
      let '(s, updated, r) := sysroot_reload_ostree_configs_and_deployments s in
      match prefix_error "Reloading ostree details" r with
      | Ok sysroot_changed =>
          (d, s, if config_changed && negb sysroot_changed then S updated else updated, Ok tt)
      | Err e => (d, s, updated, Err e)
      | Abort => (d, s, updated, Abort)
      end
  | Err e => (d, s, 0, Err e)
  | Abort => (d, s, 0, Abort)
  end.
Definition handle_reload_config (debug : bool) (load : result (option ConfigFile)) (d : RpmostreedDaemon) (s : SysrootObject) :
    RpmostreedDaemon * SysrootObject * nat * outcome unit :=
  let '(d, s, updated, r) := reload_config debug load d s in
  (d, s, updated, prefix_error "Handling config reload" r).

(** [handle_reload_via_idle]: the signal is always sent. *)
Definition handle_reload (s : SysrootObject) : SysrootObject * nat * outcome unit :=
  match sysroot_populate_deployments_unlocked s with
  | (s, Ok _) => (s, 1, Ok tt)
  | (s, Err e) => (s, 0, prefix_error "Handling reload" (Err e))
  | (s, Abort) => (s, 0, Abort)
  end.
(** The directory of deployments changed; an error is only logged. *)
Definition on_deploy_changed (attribute_changed : bool) (s : SysrootObject) : SysrootObject * nat * outcome unit :=
  if attribute_changed then
    match rpmostreed_sysroot_reload s with
    | (s, updated, Err _) => (s, updated, Ok tt)
    | r => r
    end
  else (s, 0, Ok tt).
Definition rpmostreed_sysroot_load_state := rpmostreed_sysroot_reload.

(** The object path of an OS, and whether the method counts as handled. *)
Definition handle_get_os (path_of : string → string) (arg_name : string) (s : SysrootObject) : outcome string * bool :=
  if bool_decide (arg_name = ""%string) then (Ok (so_booted s), false)
  else if bool_decide (arg_name ∈ so_os_interfaces s) then (Ok (path_of arg_name), true)
  else (g_set_error G_IO_ERROR_NOT_FOUND ("OS name " +:+ dquote +:+ arg_name +:+ dquote +:+ " not found"), true).
End sysroot.
