(* ===== verification/DaemonMainSpec.v ===== *)
(** Properties of the daemon object: the timer that ends the daemon, what a reload of the sysroot
    publishes, and where both go wrong. *)

From S2P Require Import Prelude Vardict Transaction Deploy Os DaemonMain.

(** * The exit of an idle daemon *)

Section idle.
Context (ops : MainOps).

Definition idle (m : Main) : Prop := rd_bus_clients (ma_daemon m) = ∅ ∧ have_active_txn m = false.
Definition armed (m : Main) : bool := nonnull (rd_idle_exit_source (ma_daemon m)).
(** The timer runs only in an idle daemon, and with [fresh], always then. *)
Definition timer_ok (fresh : bool) (m : Main) : Prop :=
  (armed m = true → idle m) ∧
  (fresh = true → rd_running (ma_daemon m) = true → currently_idle ops m = true → armed m = true).

Lemma currently_idle_idle m : currently_idle ops m = true → idle m.
Proof.
  unfold currently_idle, idle. rewrite !andb_true_iff, !negb_true_iff, bool_decide_eq_true.
  intros (_ & Hn & Hs). split; [by apply map_size_empty_inv|done].
Qed.
Lemma idle_currently_idle m :
  idle m → mo_disable_idle_exit ops = false → (0 < rd_idle_exit_timeout (ma_daemon m))%N → currently_idle ops m = true.
Proof.
  intros [Hc Hn] Hd Ht. unfold currently_idle. rewrite Hd, Hn, Hc, map_size_empty, bool_decide_eq_true_2 by done.
  apply N.ltb_lt in Ht. by rewrite Ht.
Qed.

(** The status is updated to what the timer has to be. *)
Lemma update_idle_source_spec m : ∃ tr m', update_idle_source ops m = (tr, Ok (tt, m')) ∧
  armed m' = currently_idle ops m' ∧ currently_idle ops m' = currently_idle ops m ∧
  rd_running (ma_daemon m') = rd_running (ma_daemon m) ∧ ma_appstate m' = ma_appstate m ∧
  have_active_txn m' = have_active_txn m ∧ rd_bus_clients (ma_daemon m') = rd_bus_clients (ma_daemon m).
Proof.
  unfold update_idle_source, mbind, prog_bind, get_self, armed. simpl.
  destruct (rd_idle_exit_source (ma_daemon m)) eqn:Es, (currently_idle ops m) eqn:Ei; simpl; eexists _, _;
    (split; [reflexivity|]); simpl; rewrite ?Es; split_and!; try done; by rewrite <- Ei.
Qed.
Lemma update_status_spec m : ∃ tr m', update_status ops m = (tr, Ok (tt, m')) ∧ timer_ok true m' ∧
  rd_running (ma_daemon m') = rd_running (ma_daemon m) ∧ ma_appstate m' = ma_appstate m.
Proof.
  destruct (update_idle_source_spec m) as (tr & m' & Hu & Ha & _ & Hr & Hs & _).
  assert (timer_ok true m') as Hok.
  { split; [rewrite Ha; apply currently_idle_idle|]. intros _ _. by rewrite Ha. }
  assert (∃ tr', render_status ops m' = (tr', Ok (tt, m'))) as (tr' & Hr').
  { unfold render_status, mbind, prog_bind, get_self. simpl. destruct (ma_active_txn m') as [[method sender] path].
    unfold armed in Ha. destruct (have_active_txn m'); [by eexists|]. destruct (0 <? _)%nat; [by eexists|].
    destruct (currently_idle ops m'); [|by eexists]. destruct (rd_idle_exit_source (ma_daemon m')); [by eexists|done]. }
  exists (tr ++ tr'), m'. split; [|done]. unfold update_status, mbind, prog_bind. by rewrite Hu, Hr'.
Qed.

Lemma timer_ok_weaken fresh m : timer_ok true m → timer_ok fresh m.
Proof. intros [H1 H2]. split; auto. Qed.

(** Programs that end with an update of the status. *)
Definition ends_updated (p : prog devent Main unit) : Prop := ∀ m tr m', p m = (tr, Ok (tt, m')) → timer_ok true m'.
Lemma ends_bind {A} (p : prog devent Main A) f : (∀ a, ends_updated (f a)) → ends_updated (p ≫= f).
Proof. intros Hf m tr m' (a & m1 & tr1 & tr2 & _ & H & _)%prog_bind_inv. by eapply Hf. Qed.
Lemma ends_update : ends_updated (update_status ops).
Proof. intros m tr m' H. destruct (update_status_spec m) as (? & ? & H' & Hok & _). rewrite H' in H. by injection H as <- <-. Qed.
Lemma ends_elim fresh p m tr m' : p m = (tr, Ok (tt, m')) → ends_updated p → timer_ok fresh m'.
Proof. intros H Hp. apply timer_ok_weaken. by eapply Hp. Qed.
Ltac ends := cbv zeta; repeat lazymatch goal with
  | |- ends_updated (update_status _) => apply ends_update
  | |- ends_updated (_ ≫= _) => apply ends_bind; intros ?
  end.

(** A program that keeps what the timer depends on, but for the end of the loop. *)
Definition leaves_timer (m m' : Main) : Prop :=
  rd_bus_clients (ma_daemon m') = rd_bus_clients (ma_daemon m) ∧ have_active_txn m' = have_active_txn m ∧
  rd_idle_exit_timeout (ma_daemon m') = rd_idle_exit_timeout (ma_daemon m) ∧
  (rd_running (ma_daemon m') = true → rd_running (ma_daemon m) = true) ∧
  (armed m' = armed m ∨ armed m' = false ∧ rd_running (ma_daemon m') = false).
Lemma leaves_timer_ok fresh m m' : timer_ok fresh m → leaves_timer m m' → timer_ok fresh m'.
Proof.
  intros [H1 H2] (Hc & Ht & Hto & Hr & Ha). unfold timer_ok, idle, currently_idle in *. rewrite Hc, Ht, Hto.
  destruct Ha as [-> | [-> Hf]]; [by auto|]. split; [done|]. intros _. rewrite Hf. done.
Qed.

(** Whether the timer may be stale: a reload does not start it. *)
Definition keeps_enabled (e : main_event) (m m' : Main) : bool :=
  match e with
  | EvReloadConfig _ => bool_decide ((0 <? rd_idle_exit_timeout (ma_daemon m)) = (0 <? rd_idle_exit_timeout (ma_daemon m')))%N
  | _ => true
  end.

Lemma add_client_ok fresh client id m tr m' :
  timer_ok fresh m → rpmostreed_daemon_add_client ops client id m = (tr, Ok (tt, m')) → timer_ok fresh m'.
Proof.
  intros Hm (? & ? & ? & ? & [= <- <- <-] & H & _)%prog_bind_inv.
  destruct (rd_bus_clients (ma_daemon m) !! client); [by injection H as <- <-|].
  apply (ends_elim _ _ _ _ _ H). ends.
Qed.
Lemma remove_client_ok fresh client m tr m' :
  timer_ok fresh m → rpmostreed_daemon_remove_client ops client m = (tr, Ok (tt, m')) → timer_ok fresh m'.
Proof.
  intros Hm (? & ? & ? & ? & [= <- <- <-] & H & _)%prog_bind_inv.
  destruct (rd_bus_clients (ma_daemon m) !! client); [|by injection H as <- <-].
  apply (ends_elim _ _ _ _ _ H). ends.
Qed.
Lemma transition_leaves state m tr m' : state_transition state m = (tr, Ok (tt, m')) → leaves_timer m m'.
Proof.
  unfold state_transition. intros (? & ? & ? & ? & [= <- <- <-] & H & _)%prog_bind_inv.
  destruct (_ <=? _)%nat; [done|]. destruct state; injection H as <- <-; unfold leaves_timer; simpl; naive_solver.
Qed.

(** A reload sets only the configuration. *)
Lemma reload_config_frame debug load d b d' : rpmostreed_daemon_reload_config debug load d = Ok (b, d') →
  rd_bus_clients d' = rd_bus_clients d ∧ rd_running d' = rd_running d ∧ rd_idle_exit_source d' = rd_idle_exit_source d.
Proof.
  unfold rpmostreed_daemon_reload_config. intros H. apply bind_ok in H as (config & _ & H).
  apply bind_ok in H as (policy & _ & H). apply bind_ok in H as (lock & _ & H). apply bind_ok in H as (rec & _ & [= _ <-]).
  done.
Qed.

Lemma dispatch_timer_ok fresh e m tr m' :
  timer_ok fresh m → dispatch_main ops e m = (tr, Ok (tt, m')) → timer_ok (fresh && keeps_enabled e m m') m'.
Proof.
  intros Hm H. destruct e as [sender options|sender|op iface sender name old new|txn| | |load| | | | |]; simpl in *;
    rewrite ?andb_true_r.
  - by eapply add_client_ok.
  - by eapply remove_client_ok.
  - unfold on_name_owner_changed in H. destruct (_ || _); [by injection H as <- <-|].
    destruct (_ && _); [by eapply remove_client_ok|by injection H as <- <-].
  - apply (ends_elim _ _ _ _ _ H). unfold on_active_txn_changed. apply ends_bind. intros _. apply ends_bind. intros m1.
    destruct (ma_active_txn m1) as [[]]. ends.
  - apply prog_bind_inv in H as (? & ? & ? & ? & [= <- <- <-] & H & _).
    destruct (nonnull _); injection H as <- <-; [|done]. apply (leaves_timer_ok _ m); [done|]. unfold leaves_timer. simpl. naive_solver.
  - apply prog_bind_inv in H as (? & ? & ? & ? & [= <- <- <-] & H & _).
    destruct (0 <? _)%nat; [|by injection H as <- <-]. apply (ends_elim _ _ _ _ _ H), ends_update.
  - apply prog_bind_inv in H as (? & ? & ? & ? & [= <- <- <-] & H & _).
    destruct (rpmostreed_daemon_reload_config _ _ _) as [[b d]| |] eqn:E; [|injection H as <- <-|done].
    + injection H as <- <-. destruct (reload_config_frame _ _ _ _ _ E) as (Hc & Hr & Hs), Hm as [H1 H2].
      unfold timer_ok, armed, idle, currently_idle in *. simpl. rewrite Hc, Hr, Hs. split; [done|].
      intros [Hf <-%bool_decide_eq_true]%andb_true_iff. by apply H2.
    + destruct Hm as [H1 H2]. split; [done|]. intros [Hf _]%andb_true_iff. auto.
  - apply prog_bind_inv in H as (? & ? & ? & ? & [= <- <- <-] & H & _).
    destruct (rd_rebooting _); [done|]. injection H as <- <-. apply (leaves_timer_ok _ m); [done|]. unfold leaves_timer. simpl. naive_solver.
  - unfold idle_initiate_reboot in H. destruct (mo_spawn_reboot ops); [|done]. by injection H as <- <-.
  - unfold on_sigint in H. apply prog_bind_inv in H as ([] & ? & ? & ? & H & [= <- <-] & _).
    by eapply leaves_timer_ok, transition_leaves.
  - unfold on_stdin_close in H. apply prog_bind_inv in H as ([] & ? & ? & ? & [= <- <-] & H & _).
    by eapply leaves_timer_ok, transition_leaves.
  - by eapply leaves_timer_ok, transition_leaves.
Qed.

(** The states between the events of the main loop, with whether no reload switched the exit on
    or off. *)
Inductive reachable : bool → Main → Prop :=
  | reach_start m0 tr m :
      rpmostreed_daemon_run_until_idle_exit ops [] m0 = (tr, Ok (tt, m)) → reachable true m
  | reach_step fresh e m tr m' :
      reachable fresh m → dispatch_main ops e m = (tr, Ok (tt, m')) → reachable (fresh && keeps_enabled e m m') m'.

Lemma reachable_timer_ok fresh m : reachable fresh m → timer_ok fresh m.
Proof.
  induction 1 as [m0 tr m H|fresh e m tr m' _ IH H]; [|by eapply dispatch_timer_ok].
  apply prog_bind_inv in H as (? & m1 & ? & ? & [= <- <- <-] & H & _).
  apply prog_bind_inv in H as ([] & m2 & ? & ? & H & [= <- <-] & _). by apply (ends_elim true _ _ _ _ H), ends_update.
Qed.

(** The timer ends the loop. *)
Definition timer_ends (m : Main) : Prop :=
  ∃ tr m', dispatch_main ops EvIdleTimeout m = (tr, Ok (tt, m')) ∧ rd_running (ma_daemon m') = false.
Lemma timer_ends_armed m : rd_running (ma_daemon m) = true → timer_ends m ↔ armed m = true.
Proof.
  intros Hr. unfold timer_ends, armed. simpl. unfold mbind, prog_bind, get_self. destruct (nonnull _) eqn:E; simpl.
  - split; [done|]. intros _. by eexists _, _.
  - split; [|done]. intros (tr & m' & [= <- <-] & Hf). congruence.
Qed.

(** C28: The timer that ends the daemon runs exactly while the daemon is idle: at any time in the
    main loop it can end the daemon only if no client is registered and no transaction is
    active; and if that is so and the exit is enabled it does end it, unless a reload of the
    configuration switched the exit on or off in between. *)
Theorem idle_exit_exact fresh m : reachable fresh m → rd_running (ma_daemon m) = true →
  (timer_ends m → idle m) ∧
  (fresh = true → mo_disable_idle_exit ops = false → (0 < rd_idle_exit_timeout (ma_daemon m))%N → idle m → timer_ends m).
Proof.
  intros [H1 H2]%reachable_timer_ok Hr. rewrite timer_ends_armed by done. split; [done|].
  intros Hf Hd Ht Hi. apply H2; [done..|]. by apply idle_currently_idle.
Qed.

(** ** Assertions *)

Definition returns {A} (p : prog devent Main A) (m : Main) : Prop := ∃ tr a m', p m = (tr, Ok (a, m')).
Lemma returns_bind {A B} (p : prog devent Main A) (f : A → prog devent Main B) m :
  returns p m → (∀ a m', returns (f a) m') → returns (p ≫= f) m.
Proof.
  intros (tr & a & m1 & Hp) Hf. destruct (Hf a m1) as (tr' & b & m2 & Hf'). exists (tr ++ tr'), b, m2.
  unfold mbind, prog_bind. by rewrite Hp, Hf'.
Qed.
Lemma returns_update m : returns (update_status ops) m.
Proof. destruct (update_status_spec m) as (tr & m' & H & _). by exists tr, tt, m'. Qed.
Ltac returns := cbv zeta; repeat lazymatch goal with
  | |- returns (update_status _) _ => apply returns_update
  | |- returns (get_self ≫= _) _ => apply returns_bind; [by eexists _, _, _|intros ? ?]
  | |- returns (_ ≫= _) _ => apply returns_bind; [|intros ? ?]
  | |- returns (when ?b _) _ => destruct b eqn:?; simpl
  | |- returns (match ?x with _ => _ end) _ => destruct x eqn:?
  | |- returns _ _ => by eexists _, _, _
  end.

Lemma reload_config_abort debug load d : rpmostreed_daemon_reload_config debug load d = Abort → debug = true ∧ load = Done None.
Proof.
  unfold rpmostreed_daemon_reload_config. destruct load as [[k|]|]; simpl; [|by destruct debug|done].
  destruct (get_config_str _ _ _); simpl; [|done]. by destruct (rpmostree_str_to_auto_update_policy _).
Qed.

(** No event fails an assertion, other than a second reason to stop, a second reboot or one that
    cannot be started, and a missing configuration when debugging. *)
Lemma dispatch_returns e m :
  match e with
  | EvReloadConfig load => ¬ (mo_debug ops = true ∧ load = Done None)
  | EvReboot => rd_rebooting (ma_daemon m) = false
  | EvInitiateReboot => is_ok (returned (mo_spawn_reboot ops)) = true
  | EvSignal | EvStdinClosed => (appstate_index (ma_appstate m) < appstate_index APPSTATE_FLUSHING)%nat
  | EvNameReleased => (appstate_index (ma_appstate m) < appstate_index APPSTATE_EXITING)%nat
  | _ => True
  end → returns (dispatch_main ops e) m.
Proof.
  assert (∀ state m, (appstate_index (ma_appstate m) < appstate_index state)%nat → returns (state_transition state) m) as Ht.
  { intros state m' Hlt. unfold returns, state_transition, mbind, prog_bind, get_self. simpl.
    destruct (Nat.leb_spec (appstate_index state) (appstate_index (ma_appstate m'))); [lia|].
    destruct state; by eexists _, _, _. }
  assert (∀ client id m, returns (rpmostreed_daemon_add_client ops client id) m) as Hadd.
  { intros. unfold rpmostreed_daemon_add_client. returns. }
  assert (∀ client m, returns (rpmostreed_daemon_remove_client ops client) m) as Hremove.
  { intros. unfold rpmostreed_daemon_remove_client. returns. }
  destruct e as [sender options|sender|op iface sender name old new|txn| | |load| | | | |]; simpl; intros He.
  - apply Hadd.
  - apply Hremove.
  - unfold on_name_owner_changed. destruct (_ || _); [by eexists _, _, _|]. destruct (_ && _); [apply Hremove|by eexists _, _, _].
  - unfold on_active_txn_changed. returns.
  - returns.
  - unfold idle_update_status. returns.
  - unfold returns, mbind, prog_bind, get_self. simpl.
    destruct (rpmostreed_daemon_reload_config _ _ _) as [[]| |] eqn:E; [by eexists _, _, _..|].
    by apply reload_config_abort in E.
  - unfold returns, rpmostreed_daemon_reboot, mbind, prog_bind, get_self. simpl. rewrite He. by eexists _, _, _.
  - unfold idle_initiate_reboot. destruct (mo_spawn_reboot ops); [|done]. returns.
  - unfold on_sigint. apply returns_bind; [by apply Ht|]. intros. returns.
  - unfold on_stdin_close, journal, returns. destruct (Ht APPSTATE_FLUSHING m) as (tr & [] & m' & H); [done|].
    eexists _, tt, m'. unfold mbind, prog_bind. simpl. by rewrite H.
  - by apply Ht.
Qed.
End idle.

(** * What a reload publishes *)

Lemma s_bind_inv {A B} (m : sys A) (f : A → sys B) s s' b :
  s_bind m f s = (s', Ok b) ↔ ∃ s1 a, m s = (s1, Ok a) ∧ f a s1 = (s', Ok b).
Proof.
  unfold s_bind. destruct (m s) as [s1 [a| |]]; split; try done.
  - intros H. by exists s1, a.
  - by intros (? & ? & [= <- <-] & H).
  - by intros (? & ? & ? & ?).
  - by intros (? & ? & ? & ?).
Qed.
Lemma s_prefix_inv {A} p (m : sys A) s s' a : s_prefix p m s = (s', Ok a) ↔ m s = (s', Ok a).
Proof. unfold s_prefix. destruct (m s) as [s1 []]; simpl; naive_solver. Qed.
Lemma s_lift_inv {A} (r : outcome A) s s' a : s_lift r s = (s', Ok a) ↔ s' = s ∧ r = Ok a.
Proof. unfold s_lift. split; [by intros [= <- ->]|by intros [-> ->]]. Qed.

Section reload.
Context (ops : SysrootOps).

(** Everything but the interfaces. *)
Definition same_properties (s s' : SysrootObject) : Prop :=
  so_repo_last_stat s' = so_repo_last_stat s ∧ so_booted s' = so_booted s ∧ so_deployments s' = so_deployments s ∧
  so_policy s' = so_policy s.

Lemma add_interfaces_spec osname s s' : add_interfaces ops osname s = (s', Ok tt) →
  same_properties s s' ∧ so_os_interfaces s' = {[osname]} ∪ so_os_interfaces s ∧
  so_osexperimental_interfaces s' = ({[osname]} ∖ so_os_interfaces s) ∪ so_osexperimental_interfaces s.
Proof.
  intros (? & ? & [= <- <-] & H)%s_bind_inv. case_bool_decide as Hin.
  - apply s_lift_inv in H as [-> _]. split_and!; [done|set_solver|set_solver].
  - apply s_bind_inv in H as (? & ? & [-> _]%s_lift_inv & H). apply s_bind_inv in H as (? & ? & [= <- _] & H).
    apply s_bind_inv in H as (? & ? & [-> _]%s_lift_inv & [= <-]). simpl. split_and!; [done|done|set_solver].
Qed.
Lemma read_deployments_spec id i l s s' variants : read_deployments ops id i l s = (s', Ok variants) →
  same_properties s s' ∧ Forall2 (λ d v, dd_variant d id = Done v) l variants ∧
  so_os_interfaces s' = list_to_set (dd_osname <$> l) ∪ so_os_interfaces s ∧
  so_osexperimental_interfaces s'
  = (list_to_set (dd_osname <$> l) ∖ so_os_interfaces s) ∪ so_osexperimental_interfaces s.
Proof.
  revert i s s' variants. induction l as [|d l IH]; intros i s s' variants; simpl.
  { intros [-> [= <-]]%s_lift_inv. split_and!; [done|constructor|set_solver|set_solver]. }
  intros (s1 & v & [-> Hv%returned_ok]%s_prefix_inv%s_lift_inv & H)%s_bind_inv.
  apply s_bind_inv in H as (s2 & [] & (Hs2 & Ho2 & He2)%add_interfaces_spec & H).
  apply s_bind_inv in H as (s3 & rest & (Hs3 & Hl3 & Ho3 & He3)%IH & [-> [= <-]]%s_lift_inv).
  split_and!; [|by constructor|rewrite Ho3, Ho2; set_solver|].
  2: { rewrite He3, He2, Ho2. apply set_eq. intros x. set_unfold. destruct (decide (x = dd_osname d)); naive_solver. }
  unfold same_properties in *. intuition congruence.
Qed.

(** Whatever happens in a reload, no OS has only the second interface. *)
Definition second_after_first (s : SysrootObject) : Prop := so_osexperimental_interfaces s ⊆ so_os_interfaces s.
Definition keeps_second {A} (m : sys A) : Prop := ∀ s, second_after_first s → second_after_first (m s).1.
Lemma keeps_second_bind {A B} (m : sys A) (f : A → sys B) :
  keeps_second m → (∀ a, keeps_second (f a)) → keeps_second (s_bind m f).
Proof. intros Hm Hf s Hs%Hm. unfold s_bind. destruct (m s) as [s1 [a| |]]; [by apply Hf|done..]. Qed.
Lemma read_deployments_second id i l : keeps_second (read_deployments ops id i l).
Proof.
  revert i. induction l as [|d l IH]; intros i; [by intros ?|].
  apply keeps_second_bind; [by intros ?|]. intros v. apply keeps_second_bind.
  - unfold keeps_second, second_after_first, add_interfaces, s_bind, s_get, s_lift, s_modify. intros s Hs. simpl.
    case_bool_decide; [done|]. destruct (returned (sy_os_new ops _)); simpl; [|exact Hs..].
    destruct (returned (sy_osexperimental_new ops _)); simpl; set_solver.
  - intros []. apply keeps_second_bind; [apply IH|by intros ? ?].
Qed.
Lemma populate_second : keeps_second (sysroot_populate_deployments_unlocked ops).
Proof.
  unfold sysroot_populate_deployments_unlocked.
  do 3 (apply keeps_second_bind; [by intros ?|]; intros ?). apply keeps_second_bind; [by destruct (negb _); intros ?|]. intros [].
  destruct (negb (_ || _)); [by intros ?|].
  apply keeps_second_bind.
  { destruct (sy_booted ops); repeat (apply keeps_second_bind; [by intros ?|]; intros ?); by intros ?. }
  intros id. apply keeps_second_bind; [apply read_deployments_second|]. intros variants.
  apply keeps_second_bind; [|intros ?; apply keeps_second_bind; intros ?; [done|by intros ?]].
  intros s Hs x [Hx Hn]%elem_of_difference. apply elem_of_intersection. rewrite elem_of_difference in Hn.
  destruct (decide (x ∈@{gset string} list_to_set (dd_osname <$> sy_deployments ops))); [by auto|]. naive_solver.
Qed.
End reload.

(** The states of the sysroot object: it starts without interfaces, and is reloaded, with
    success or not, and configured. *)
Inductive sysroot_reachable : SysrootObject → Prop :=
  | sr_init stat booted deployments policy :
      sysroot_reachable (MkSysrootObject stat booted deployments policy ∅ ∅)
  | sr_reload ops s :
      sysroot_reachable s → sysroot_reachable (sysroot_populate_deployments_unlocked ops s).1
  | sr_config d s : sysroot_reachable s → sysroot_reachable (reset_config_properties d s).
Lemma sysroot_reachable_second s : sysroot_reachable s → second_after_first s.
Proof. induction 1; [done|by apply populate_second|done]. Qed.

(** C30: What the daemon publishes after a reload that found a change, in any state it can be
    in, is what is on disk: the property Deployments has the deployments in their order, Booted
    is the object of the booted OS, or "/" if there is none, and GetOS knows exactly the OSs
    that have a deployment. Those that have the experimental interface as well are the ones
    that are new, and those that had it before: an OS for which an earlier reload failed
    between the two interfaces does not get the second one. *)
Theorem reload_publishes ops s s' path_of :
  sysroot_reachable s →
  sysroot_populate_deployments_unlocked ops s = (s', Ok true) →
  Forall2 (λ d v, dd_variant d (dd_id <$> sy_booted ops) = Done v) (sy_deployments ops) (so_deployments s') ∧
  match sy_booted ops with
  | Some booted => sy_generate_object_path ops (dd_osname booted) = Done (so_booted s')
  | None => so_booted s' = "/"%string
  end ∧
  (∀ name, name ≠ ""%string →
     is_ok (handle_get_os path_of name s').1 = bool_decide (name ∈ dd_osname <$> sy_deployments ops)) ∧
  (∀ name, name ∈ so_osexperimental_interfaces s' ↔
     name ∈ dd_osname <$> sy_deployments ops ∧
     (name ∈ so_os_interfaces s → name ∈ so_osexperimental_interfaces s)).
Proof.
  intros He%sysroot_reachable_second. unfold sysroot_populate_deployments_unlocked.
  intros (? & sysroot_changed & [-> _]%s_lift_inv & H)%s_bind_inv.
  apply s_bind_inv in H as (? & new_stat & [-> _]%s_lift_inv & H). apply s_bind_inv in H as (? & ? & [= <- <-] & H).
  apply s_bind_inv in H as (s1 & [] & H1 & H).
  assert (so_osexperimental_interfaces s1 = so_osexperimental_interfaces s ∧ so_os_interfaces s1 = so_os_interfaces s)
    as [He1 Ho1].
  { destruct (negb _); [by injection H1 as <-|]. by apply s_lift_inv in H1 as [-> _]. }
  destruct (negb (sysroot_changed || _)); [by apply s_lift_inv in H as [_ ?]|].
  apply s_bind_inv in H as (s2 & booted_id & Hb & H). apply s_bind_inv in H as (s3 & variants & Hr & H).
  apply s_bind_inv in H as (? & ? & [= <- _] & H). apply s_bind_inv in H as (? & ? & [= <- _] & [-> _]%s_lift_inv).
  assert (booted_id = dd_id <$> sy_booted ops ∧
    so_osexperimental_interfaces s2 = so_osexperimental_interfaces s1 ∧ so_os_interfaces s2 = so_os_interfaces s1 ∧
    match sy_booted ops with
    | Some booted => sy_generate_object_path ops (dd_osname booted) = Done (so_booted s2)
    | None => so_booted s2 = "/"%string
    end) as (-> & He2 & Ho2 & Hboot).
  { destruct (sy_booted ops) as [booted|].
    - apply s_bind_inv in Hb as (? & path & [-> Hp%returned_ok]%s_lift_inv & Hb).
      apply s_bind_inv in Hb as (? & ? & [= <- _] & [-> [= <-]]%s_lift_inv). done.
    - apply s_bind_inv in Hb as (? & ? & [= <- _] & [-> [= <-]]%s_lift_inv). done. }
  destruct (read_deployments_spec _ _ _ _ _ _ _ Hr) as ((_ & Hbo & _ & _) & Hl & Ho & Hex). simpl.
  rewrite He2, Ho2, He1, Ho1 in Hex. rewrite Ho2, Ho1 in Ho. split_and!; [done|by rewrite Hbo| |].
  - intros name Hn. unfold handle_get_os. rewrite bool_decide_eq_false_2 by done. simpl.
    destruct (decide (name ∈ dd_osname <$> sy_deployments ops)) as [Hin|Hin].
    + rewrite !bool_decide_eq_true_2; [done|done|]. rewrite Ho.
      apply elem_of_intersection; split; [apply elem_of_union_l|]; by apply elem_of_list_to_set.
    + rewrite !bool_decide_eq_false_2; [done|done|]. by intros [_ ?%elem_of_list_to_set]%elem_of_intersection.
  - intros name. rewrite Hex, Ho, elem_of_difference, elem_of_union, !elem_of_difference, elem_of_union, elem_of_list_to_set.
    specialize (He name). destruct (decide (name ∈ so_os_interfaces s)), (decide (name ∈ dd_osname <$> sy_deployments ops)); tauto.
Qed.

(** * Examples *)

Definition ex_bus : BusOps := MkBusOps (λ _, Done 1000%N) (λ _, Done 42%N) (λ _, None) (λ _, Some "session.scope"%string).
Definition ex_main_ops (debug : bool) : MainOps := MkMainOps ex_bus debug false (λ _, 3%N) (λ _, 0%N) (λ _, 0%N) (Done tt).
Definition ex_daemon : RpmostreedDaemon :=
  MkDaemon ∅ false false None 0 60 RPMOSTREED_AUTOMATIC_UPDATE_POLICY_NONE false false.
Definition ex_starting : Main := MkMain ex_daemon ("", "", "")%string APPSTATE_STARTING.
(** The state after a program, and of the daemon in its main loop without clients. *)
Definition after (p : prog devent Main unit) (m : Main) : Main := (from_ok (tt, m) (p m).2).2.
Definition ex_running : Main := after (rpmostreed_daemon_run_until_idle_exit (ex_main_ops false) []) ex_starting.

Lemma idle_exit_exact_witness : idle ex_running ∧ timer_ends (ex_main_ops false) ex_running.
Proof.
  assert (idle ex_running) as Hi by (split; vm_compute; reflexivity). split; [exact Hi|].
  apply (idle_exit_exact (ex_main_ops false) true ex_running); [|vm_compute; reflexivity..|exact Hi].
  eapply (reach_start _ ex_starting). vm_compute. reflexivity.
Defined.

Definition ex_deployment (osname : string) : DiskDeployment :=
  MkDiskDeployment osname (osname +:+ "-1") (λ id, Done {["booted"%string := VBool (bool_decide (id = Some (osname +:+ "-1")))]}).
Definition ex_sysroot_ops (changed : bool) (os_new osexperimental_new : result unit) : SysrootOps :=
  MkSysrootOps (Done tt) (Done changed) (Done (1%Z, 0%Z)) (Some (ex_deployment "fedora"))
    [ex_deployment "fedora"; ex_deployment "centos"] (λ os, Done ("/org/projectatomic/rpmostree1/" +:+ os))
    (λ _, os_new) (λ _, osexperimental_new).
Definition ex_sysroot : SysrootObject := MkSysrootObject (0%Z, 0%Z) "/" [] "none" {["rhel"%string]} {["rhel"%string]}.
(** A daemon that read the one deployment of another OS before. *)
Definition ex_known : SysrootObject :=
  (sysroot_populate_deployments_unlocked
    (MkSysrootOps (Done tt) (Done true) (Done (0%Z, 0%Z)) None [ex_deployment "rhel"] (λ os, Done os) (λ _, Done tt) (λ _, Done tt))
    (MkSysrootObject (0%Z, 0%Z) "/" [] "none" ∅ ∅)).1.
Definition ex_reloaded : SysrootObject := (sysroot_populate_deployments_unlocked (ex_sysroot_ops true (Done tt) (Done tt)) ex_known).1.

Lemma reload_publishes_witness :
  is_ok (handle_get_os (λ os, os) "centos" ex_reloaded).1 = true ∧ is_ok (handle_get_os (λ os, os) "rhel" ex_reloaded).1 = false ∧
  length (so_deployments ex_reloaded) = 2 ∧
  "centos"%string ∈ so_osexperimental_interfaces ex_reloaded ∧ "rhel"%string ∉ so_osexperimental_interfaces ex_reloaded.
Proof.
  destruct (reload_publishes (ex_sysroot_ops true (Done tt) (Done tt)) ex_known ex_reloaded (λ os, os)) as (Hd & _ & Hos & Hex);
    [apply sr_reload, sr_init|vm_compute; reflexivity|].
  split; [apply (Hos "centos"%string); discriminate|]. split; [apply (Hos "rhel"%string); discriminate|].
  split; [symmetry; apply (Forall2_length _ _ _ Hd)|].
  split; [apply Hex; split; [apply (bool_decide_unpack _); vm_compute; exact I|intros H; exfalso; revert H]
         |rewrite Hex; intros [H _]; revert H];
    apply (bool_decide_unpack _); vm_compute; exact I.
Defined.

(** * What goes wrong *)

(** Without a configuration file the defaults are used, but weak dependencies, which are on by
    default, are off. *)
Lemma missing_config_no_recommends d :
  ∃ b d', rpmostreed_daemon_reload_config false (Done None) d = Ok (b, d') ∧
    rd_idle_exit_timeout d' = 60%N ∧ rd_disable_recommends d' = true.
Proof. by eexists _, _. Qed.
(** A timeout of 2^32 seconds is none at all. *)
Lemma idle_timeout_truncated k d b d' :
  cf_uint64 k "IdleExitTimeout" = KeyValue (2 ^ 32)%N →
  rpmostreed_daemon_reload_config false (Done (Some k)) d = Ok (b, d') → rd_idle_exit_timeout d' = 0%N.
Proof.
  intros Hk. unfold rpmostreed_daemon_reload_config. simpl. rewrite Hk. intros H.
  apply bind_ok in H as (policy & _ & [= _ <-]). done.
Qed.
(** The timer goes on when a reload disables the exit. *)
Lemma reload_keeps_timer k :
  cf_uint64 k "IdleExitTimeout" = KeyValue 0%N → cf_string k "AutomaticUpdatePolicy" = None →
  ∃ tr m, dispatch_main (ex_main_ops false) (EvReloadConfig (Done (Some k))) ex_running = (tr, Ok (tt, m)) ∧
    rd_idle_exit_timeout (ma_daemon m) = 0%N ∧ armed m = true.
Proof.
  intros Hk Hp.
  assert (∃ b d', rpmostreed_daemon_reload_config false (Done (Some k)) (ma_daemon ex_running) = Ok (b, d') ∧
    rd_idle_exit_timeout d' = 0%N) as (b & d' & Hr & Ht).
  { unfold rpmostreed_daemon_reload_config, get_config_str. simpl. rewrite Hk, Hp. by eexists _, _. }
  exists [], (on_daemon (λ _, d') ex_running). cbn -[ex_running rpmostreed_daemon_reload_config].
  unfold mbind, prog_bind, get_self. rewrite Hr. split_and!; [done|done|].
  destruct (reload_config_frame _ _ _ _ _ Hr) as (_ & _ & Hs). unfold armed. simpl. by rewrite Hs.
Qed.
(** A signal after the first one, or while an idle daemon gives up its name, fails an assertion. *)
Lemma signal_while_stopping_aborts ops m :
  ma_appstate m = APPSTATE_FLUSHING → (dispatch_main ops EvSignal m).2 = Abort.
Proof. intros H. simpl. unfold on_sigint, state_transition, mbind, prog_bind, get_self. simpl. by rewrite H. Qed.
(** A client that registers after the timer fired is answered by a daemon that ends. *)
Lemma register_with_ending_daemon :
  let m := after (iteration (ex_main_ops false) [EvIdleTimeout; EvRegisterClient ":1.5" ∅]) ex_running in
  rd_running (ma_daemon m) = false ∧ is_Some (rd_bus_clients (ma_daemon m) !! ":1.5"%string).
Proof. vm_compute. eauto. Qed.
(** A reload that failed is not made up for: the next one sees no change and reports success,
    while the deployments published are still the old ones. *)
Lemma failed_reload_forgotten e :
  let failing := ex_sysroot_ops true (Failed e) (Done tt) in
  let later := ex_sysroot_ops false (Done tt) (Done tt) in
  let '(s1, r1) := sysroot_populate_deployments_unlocked failing ex_sysroot in
  r1 = Err e ∧ sysroot_populate_deployments_unlocked later s1 = (s1, Ok false) ∧ so_deployments s1 = [].
Proof. vm_compute. auto. Qed.
(** An OS whose second interface could not be made does not get it later. *)
Lemma interface_never_made e s :
  "fedora"%string ∉ so_os_interfaces s → "fedora"%string ∉ so_osexperimental_interfaces s →
  let s1 := (add_interfaces (ex_sysroot_ops true (Done tt) (Failed e)) "fedora" s).1 in
  add_interfaces (ex_sysroot_ops true (Done tt) (Done tt)) "fedora" s1 = (s1, Ok tt) ∧
  "fedora"%string ∉ so_osexperimental_interfaces s1.
Proof.
  intros Hos Hex. unfold add_interfaces, s_bind, s_get, s_lift, s_modify. simpl.
  rewrite (bool_decide_eq_false_2 _ Hos). simpl. by rewrite bool_decide_eq_true_2 by set_solver.
Qed.
